(* ===== verification/_CoqProject ===== *)
-Q . S2P
Prelude.v
AttPlan.v
Chunk.v
Bytes.v
Lru.v
EraFormat.v
EraReader.v
Sources.v
SlotRanges.v
BlockInfo.v
Samples.v
CanonicalIndex.v
IndexConcurrent.v
PlanSources.v
PlanState.v
PlanSamples.v
Orphans.v
OrphanSources.v
BuildSlot.v
BuildPlan.v
ArchiveWarm.v
Json.v
GoStrings.v
JsonIndent.v
Files.v
Flags.v
Sha256.v
S3Cache.v
Config.v
Fetch.v
Downloader.v
Mirror.v
Merge.v
MergeRoundtrip.v
CanonicalLookup.v
Manifest.v
Archive.v
FirstSeen.v
Server.v
RealBackend.v
Engine.v
Orchestrator.v
RunSafety.v
