(* ===== verification/Prelude.v ===== *)
(** * fcr-simulator: verification library

    fcr-simulator replays Ethereum mainnet slots against the fast-confirmation rule of
    a consensus client.  An orchestrator ([cmd/fcr-orchestrator]) splits an epoch range
    into worker chunks, serves each worker's engine a local Beacon API whose plan says,
    slot by slot, which blocks to import and which attestations to inject, and merges
    the workers' JSONL into one result.  This library models the Go packages that
    decide what is simulated and what is reported, and proves them correct.

    ** Parts of the program and files of the library

    - [Prelude], [Bytes]: [uint64] arithmetic with wrap-around on [N]; calls as
      outcomes ([Ok], [Err], [Panic]) and as state-passing outcomes ([stateM]) with
      their proof rules; slot intervals, stable sorting; bytes, hex, decimal text.
    - [AttPlan] ([pkg/attplan]): [Plan], which look-ahead slot each simulated slot takes
      its attestations from.  C1-C5.
    - [Chunk] ([pkg/chunk]): [Split] into worker ranges.  C6-C7.
    - [Lru], [EraFormat], [EraReader], [Sources] ([pkg/era]): the ERA record format, the
      file index and the caching reader.  A file is its bytes, a cache an instance of
      the class [Lru]; [Sources] gives the interface ([BlockSource]) through which the
      backend sees the reader, with the reader as an instance.  C8-C12.
    - [SlotRanges], [BlockInfo], [CanonicalIndex] ([pkg/beaconapi/realbackend.go],
      [blockinfo.go], [forkschedule.go]): the slot-range lists, block decoding, and the
      shared canonical block index, run alone.  C13-C17.  [IndexConcurrent] is the same
      index under many goroutines: a step relation whose steps are the critical
      sections of [ensureRange]; safety, deadlock freedom, termination.  C18-C19.
    - [PlanSources], [PlanState], [Orphans], [OrphanSources], [BuildSlot], [BuildPlan] (same
      file): the attestation sources, the state of a plan under construction, the walk
      over orphan ancestors and what orphan lookups may and must return, and the two
      planners.  The block archive and the first-seen source are
      classes ([Archive], [FirstSeen]); the Go interface [canonicalBlocks] is a class
      with its two implementations as instances; [serves_root] says of a backend that it
      answers for a root now and later.  C20-C24.
    - [ArchiveWarm] (same file): the warm-up pass over the block archive.  C25.
    - [Json], [GoStrings], [JsonIndent], [Files], [Flags], [Sha256]: what the program uses of
      the Go library, executable: UTF-8, JSON (the scanner as a push-down automaton, the
      decoding rules, the writers), [strings] and [filepath], the file system with its
      failures and HTTP answers, package [flag], SHA-256.
    - [Merge], [MergeRoundtrip] ([pkg/merge], [pkg/schema]): reading, validating, sorting
      and writing records, and the round trip of the JSONL output.  C26-C28.
    - [CanonicalLookup] ([realbackend.go]): the lookup behind
      [confirmed_non_canonical].  C29.
    - [Archive] ([pkg/blockarchive]): the archive client, its retries, paging and disk
      cache; an instance of the class [Archive] of the planners, for which a block in the
      disk cache satisfies [serves_root] ([cached_block_served]).  C30-C31.
    - [S3Cache] ([pkg/s3cache]): the object store, with the interface [Store], its laws
      [StoreSpec] and the client as an instance over a [minio] record.
    - [Fetch] ([pkg/beaconfetch]): requests with retries, cache files and objects,
      headers, committees, the checkpoint fallback.  C32-C33.
    - [Downloader] and [Mirror] ([pkg/era/downloader.go]): the ERA index and downloads,
      C34, and [MirrorToS3] as a step relation over its goroutines, C35.
    - [Server], [RealBackend] ([server.go], [realbackend.go]): routing, parsing and
      replies against the class [Backend], C36, and the real backend as its instance,
      with the invariant of a server's life and the right reply to each request that
      makes a call, C37.
    - [Config] ([cmd/fcr-orchestrator/main.go]): the command lines.  C38.
    - [FirstSeen] ([pkg/beaconapi/firstseen.go]): the first-seen source, an instance of the
      class [FirstSeen] of the planners.  C39.
    - [Manifest] ([pkg/manifest]): the run manifest, its hashes and its JSON text.
    - [Engine], [Orchestrator], [RunSafety] ([main.go]): engine binary and manifest, worker
      command lines and results; [execute] and the commands as state-passing code over a
      [machine]; what exit code 0 means for the output files.  C40.
    - [Samples], [PlanSamples]: concrete inputs on which the definitions are evaluated.

    ** How they interact

    [EraReader] implements [BlockSource]; [CanonicalIndex] is written and proved against
    it.  Its invariant for a call that runs alone is [quiet]: the caches and the index
    agree with the source's contents.  [PlanState] carries [quiet] in its own invariant
    [plan_ok], which every operation of a plan preserves (the rule [call]); [BuildSlot],
    [BuildPlan] and [ArchiveWarm] are sequences of these operations, so their theorems
    start and end with [quiet]; [RealBackend] composes them, the fetcher's invariant
    [coherent] and the server's routing over any sequence of requests.
    [sources_agree_with_attplan] relates the backend's source rule to package [attplan];
    [confirmed_non_canonical_spec] composes the index with the merge.  [Orchestrator] calls
    all of them in the order of [execute]: each call runs on the part of the [machine] it
    uses ([on_downloader], [on_fetch], [run_warm], [run_engines]), and the engines of a run
    are one [session] of requests and replies with the server.  [run_complete] composes
    chunks, engine check, worker results, merge, output paths and manifest.

    ** What the theorems show

    Functional behaviour on every branch (plans, chunks, indexing, import lists,
    attestation lists, merged outputs, routing), with the errors and run-time panics of
    the code as outcomes; types of accepted inputs (command lines); invariants of the
    range lists, the index, the plan state, the caches and the serving backend; refinement
    of the caching layers by cache-free definitions; termination of every loop; the
    concurrent protocols of the index and of the mirror; the round trips of ERA files, of
    the JSONL output and of the manifest ([Write_spec]); what a successful run leaves.

    ** Fuel and bounds

    Loops over [uint64] counters take as fuel the distance they can run
    ([ensure_loop], [load_loop], [scan_window], [warm_batches], [needed_loop], ...) and
    answer [Panic] or nothing when it ends; the theorems show that does not happen.
    [index_records] takes the length of the file, [walk] has the code's own bound of 16,
    retry loops the code's attempt counts, a decimal number at most its binary size,
    [mirror_run] the nine accesses of a call.  [make] panics above the address space
    ([makeslice_panics]); the theorems state the bound where a caller must respect it.

    ** Parameters

    Third-party code and what lies outside the program: snappy, go-eth2-client ([Eth2]), the
    LRU package ([Lru], with [lru_list] as an instance), minio-go, [url.Parse], the parquet
    library, the servers (functions with a state of their own that answer requests), the
    engines, the build script and the operating system ([host]), Go's map iteration order
    ([iterate]), random jitter, and the failures of the file system ([io_env]).

    ** Assumptions of the composition, and what is not modelled

    Paths are equal when their texts are; the directories of the components (ERA files,
    fetcher, archive, first-seen, the rest) are separate maps of one file system, as are
    the buckets of the cache and of the first-seen files.  Go's [sort.Slice] may order
    equal elements freely; the model keeps their order.  Requests to the server are served
    one after the other (concurrent use of the index is in [IndexConcurrent]; concurrent
    loads of one first-seen epoch are not modelled), and a cancelled context shows as
    failing requests.  Progress messages, the HTTP library and the shutdown of the server
    are left out.  The engines (patches to other repositories, a bridge compiled into
    Prysm, TypeScript and Nim) are outside the Go program; [pkg/attplan/doc.go] holds no
    code.  Left for later: the coverage of the ERA downloads by the slots a run reads, and
    the exit codes of [era-mirror] composed with C35. *)

From stdpp Require Export base tactics option list gmap sorting.
From Stdlib Require Export NArith ZArith Lia ZifyBool ZifyN.

#[global] Open Scope N_scope.
#[global] Ltac Zify.zify_post_hook ::= Z.to_euclidean_division_equations.

(** ** Machine integers: Go's [uint64] as [N], with its wrap-around *)

Declare Scope u64_scope.
Delimit Scope u64_scope with u64.

Abbreviation MaxUint64 := 18446744073709551615%N (only parsing).
Abbreviation TwoTo64 := 18446744073709551616%N (only parsing).
(** linux/amd64: the largest allocation [make] accepts before it panics. *)
Abbreviation maxAlloc := 281474976710656%N (only parsing).

Definition u64 (x : N) : Prop := x <= MaxUint64.

Definition u64_add (a b : N) : N := (a + b) mod TwoTo64.
Definition u64_sub (a b : N) : N := (a + (TwoTo64 - b)) mod TwoTo64.
Definition u64_mul (a b : N) : N := (a * b) mod TwoTo64.

Infix "+" := u64_add : u64_scope.
Infix "-" := u64_sub : u64_scope.
Infix "*" := u64_mul : u64_scope.

(** [make([]T, 0, n)] panics when [n] elements of [size] bytes exceed the
    address space (this covers the conversion of [n] to a negative [int]). *)
Definition makeslice_panics (size n : N) : bool := maxAlloc <? size * n.

(** ** Outcomes of a Go call: a value, a non-nil error, or a run-time panic *)

Inductive outcome (E A : Type) : Type :=
| Ok (a : A)
| Err (e : E)
| Panic.
Arguments Ok {E A} a.
Arguments Err {E A} e.
Arguments Panic {E A}.

Definition is_Ok {E A} (o : outcome E A) : bool := match o with Ok _ => true | _ => false end.

Definition outcome_bind {E A B} (m : outcome E A) (f : A -> outcome E B) : outcome E B :=
  match m with Ok a => f a | Err e => Err e | Panic => Panic end.

#[export] Instance outcome_ret {E} : MRet (outcome E) := fun A a => Ok a.
#[export] Instance outcome_mbind {E} : MBind (outcome E) :=
  fun A B f m => outcome_bind m f.

(** ** Effectful calls: state passing with outcomes

    A method that mutates a state of type [S] and may fail or panic.  An error
    leaves the state the call has reached, as in Go. *)

Definition stateM (S E A : Type) : Type := S -> outcome E A * S.

Definition st_bind {S E A B} (m : stateM S E A) (f : A -> stateM S E B) : stateM S E B :=
  fun s => match m s with
           | (Ok a, s') => f a s'
           | (Err e, s') => (Err e, s')
           | (Panic, s') => (Panic, s')
           end.

#[export] Instance stateM_ret {S E} : MRet (stateM S E) := fun A a s => (Ok a, s).
#[export] Instance stateM_bind {S E} : MBind (stateM S E) := fun A B f m => st_bind m f.

Definition st_get {S E} : stateM S E S := fun s => (Ok s, s).
Definition st_gets {S E A} (f : S -> A) : stateM S E A := fun s => (Ok (f s), s).
Definition st_modify {S E} (f : S -> S) : stateM S E unit := fun s => (Ok tt, f s).
Definition st_lift {S E A} (o : outcome E A) : stateM S E A := fun s => (o, s).

(** [for _, x := range l { acc = body(acc, x) }] with errors. *)
Fixpoint st_fold {S E A B} (body : B -> A -> stateM S E B) (acc : B) (l : list A)
    : stateM S E B :=
  match l with
  | [] => mret acc
  | x :: l' => st_bind (body acc x) (fun acc' => st_fold body acc' l')
  end.

(** Partial correctness with errors: from [P], the call never panics, a result
    satisfies [Q] and an error [R]. *)
Definition triple {S E A} (P : S -> Prop) (m : stateM S E A)
    (Q : A -> S -> Prop) (R : E -> S -> Prop) : Prop :=
  forall s, P s -> match m s with
                   | (Ok a, s') => Q a s'
                   | (Err e, s') => R e s'
                   | (Panic, _) => False
                   end.

(** ** Slots as lists: [seqN a n] is [a; a+1; ...], [n] entries *)

Fixpoint seqN (start : N) (len : nat) : list N :=
  match len with
  | O => []
  | S len' => start :: seqN (start + 1) len'
  end.

(** The half-open interval [[a, b)] in ascending order. *)
Definition slots (a b : N) : list N := seqN a (N.to_nat (b - a)).

(** ** Stable insertion sort, the reference for Go's [sort] calls

    [less] is the comparison function passed to [sort.Slice]. *)

Fixpoint insert_by {A} (less : A -> A -> bool) (x : A) (l : list A) : list A :=
  match l with
  | [] => [x]
  | y :: l' => if less y x then y :: insert_by less x l' else x :: y :: l'
  end.

Fixpoint sort_by {A} (less : A -> A -> bool) (l : list A) : list A :=
  match l with
  | [] => []
  | x :: l' => insert_by less x (sort_by less l')
  end.

(** ** Automation *)

(** Arithmetic on [uint64] values: unfolds the machine operations and calls [lia]. *)
Ltac u64_lia := unfold u64, u64_add, u64_sub, u64_mul in *; lia.

(** Split the [if]s of a goal on their (boolean) conditions. *)
Ltac case_ifs :=
  repeat match goal with
  | |- context [if ?b then _ else _] => destruct b eqn:?
  end.

(** Turn boolean comparisons on [N], [Z], [nat] into propositions. *)
Ltac bool_to_prop :=
  repeat match goal with
  | H : (_ && _)%bool = true |- _ => apply andb_true_iff in H; destruct H
  | H : (_ || _)%bool = false |- _ => apply orb_false_iff in H; destruct H
  | H : negb _ = true |- _ => apply negb_true_iff in H
  | H : negb _ = false |- _ => apply negb_false_iff in H
  | H : (_ <? _)%N = true |- _ => apply N.ltb_lt in H
  | H : (_ <? _)%N = false |- _ => apply N.ltb_ge in H
  | H : (_ <=? _)%N = true |- _ => apply N.leb_le in H
  | H : (_ <=? _)%N = false |- _ => apply N.leb_gt in H
  | H : (_ =? _)%N = true |- _ => apply N.eqb_eq in H
  | H : (_ =? _)%N = false |- _ => apply N.eqb_neq in H
  | H : (_ <? _)%Z = true |- _ => apply Z.ltb_lt in H
  | H : (_ <? _)%Z = false |- _ => apply Z.ltb_ge in H
  | H : (_ <=? _)%Z = true |- _ => apply Z.leb_le in H
  | H : (_ <=? _)%Z = false |- _ => apply Z.leb_gt in H
  | H : (_ =? _)%Z = true |- _ => apply Z.eqb_eq in H
  | H : (_ =? _)%Z = false |- _ => apply Z.eqb_neq in H
  end.

Create HintDb u64.
Create HintDb slots.
Create Rewrite HintDb slots_rw.

(** ** Lemmas: machine integers *)

Lemma u64_add_small a b : a + b <= MaxUint64 -> u64_add a b = a + b.
Proof. intros. u64_lia. Qed.

Lemma u64_sub_small a b : u64 a -> b <= a -> u64_sub a b = a - b.
Proof. intros. u64_lia. Qed.

Lemma u64_add_u64 a b : u64 (u64_add a b).
Proof. unfold u64_add, u64. pose proof (N.mod_lt (a + b) TwoTo64). lia. Qed.

#[export] Hint Resolve u64_add_u64 : u64.

(** ** Lemmas: outcomes *)

Lemma outcome_bind_Ok {E A B} (m : outcome E A) (f : A -> outcome E B) b :
  m ≫= f = Ok b <-> exists a, m = Ok a /\ f a = Ok b.
Proof. destruct m; cbn; naive_solver. Qed.

Lemma outcome_bind_no_Panic {E A B} (m : outcome E A) (f : A -> outcome E B) :
  m ≠ Panic -> (forall a, m = Ok a -> f a ≠ Panic) -> m ≫= f ≠ Panic.
Proof. destruct m; cbn; naive_solver. Qed.

(** Decompose the hypotheses that say a sequence of calls succeeded. *)
Ltac outcome_inv :=
  repeat match goal with
  | H : _ ≫= _ = Ok _ |- _ => apply outcome_bind_Ok in H as (? & ? & H)
  end.

(** ** Lemmas: effectful calls *)

(** The calls that only read or write the state, evaluated. *)
Lemma st_bind_gets {S E A B} (f : S -> A) (k : A -> stateM S E B) s : (st_gets f ≫= k) s = k (f s) s.
Proof. done. Qed.

Lemma st_bind_get {S E B} (k : S -> stateM S E B) s : (st_get ≫= k) s = k s s.
Proof. done. Qed.

Lemma st_bind_modify {S E B} (f : S -> S) (k : unit -> stateM S E B) s :
  (st_modify f ≫= k) s = k tt (f s).
Proof. done. Qed.

Lemma st_bind_ret {S E A B} (a : A) (k : A -> stateM S E B) s :
  ((mret a : stateM S E A) ≫= k) s = k a s.
Proof. done. Qed.

Lemma st_bind_Ok {S E A B} (m : stateM S E A) (k : A -> stateM S E B) s b s' :
  (m ≫= k) s = (Ok b, s') <-> exists a s1, m s = (Ok a, s1) /\ k a s1 = (Ok b, s').
Proof. unfold mbind, stateM_bind, st_bind. destruct (m s) as [[a|e|] s1]; naive_solver. Qed.

Lemma st_lift_Ok {S E A} (o : outcome E A) (s : S) a s' : st_lift o s = (Ok a, s') <-> o = Ok a /\ s' = s.
Proof. unfold st_lift. naive_solver. Qed.

(** Evaluate such calls at the head of a sequence. *)
Ltac st_step := rewrite ?st_bind_gets, ?st_bind_get, ?st_bind_modify, ?st_bind_ret.

Section triple.
Context {S E A B : Type}.
Implicit Types (P : S -> Prop) (R : E -> S -> Prop).

Lemma triple_ret P (a : A) (Q : A -> S -> Prop) R :
  (forall s, P s -> Q a s) -> triple P (mret a) Q R.
Proof. intros H s Hs. apply H, Hs. Qed.

Lemma triple_bind P (m : stateM S E A) (f : A -> stateM S E B) Q' Q R :
  triple P m Q' R -> (forall a, triple (Q' a) (f a) Q R) -> triple P (m ≫= f) Q R.
Proof.
  intros Hm Hf s Hs. specialize (Hm s Hs). unfold mbind, stateM_bind, st_bind.
  destruct (m s) as [[a|e|] s']; [exact (Hf a s' Hm)|done|done].
Qed.

Lemma triple_impl P (m : stateM S E A) (Q : A -> S -> Prop) R P' Q' R' :
  triple P m Q R -> (forall s, P' s -> P s) -> (forall a s, Q a s -> Q' a s) ->
  (forall e s, R e s -> R' e s) -> triple P' m Q' R'.
Proof.
  intros Hm HP HQ HR s Hs. specialize (Hm s (HP s Hs)). destruct (m s) as [[a|e|] s']; auto.
Qed.

Lemma triple_gets P (f : S -> A) (Q : A -> S -> Prop) R :
  (forall s, P s -> Q (f s) s) -> triple P (st_gets f) Q R.
Proof. intros H s Hs. apply H, Hs. Qed.

Lemma triple_modify P (f : S -> S) (Q : unit -> S -> Prop) R :
  (forall s, P s -> Q tt (f s)) -> triple P (st_modify f) Q R.
Proof. intros H s Hs. apply H, Hs. Qed.

Lemma triple_lift P (o : outcome E A) (Q : A -> S -> Prop) R :
  o ≠ Panic -> (forall s a, P s -> o = Ok a -> Q a s) -> (forall s e, P s -> o = Err e -> R e s) ->
  triple P (st_lift o) Q R.
Proof. intros Hp HQ HR s Hs. cbn. destruct o; auto. Qed.

(** The loop rule: [I] is the invariant, indexed by the elements done and left. *)
Lemma triple_fold (body : B -> A -> stateM S E B) (I : list A -> list A -> B -> S -> Prop) R l :
  (forall done x left acc, triple (I done (x :: left) acc) (body acc x)
                             (fun acc' => I (done ++ [x]) left acc') R) ->
  forall acc, triple (I [] l acc) (st_fold body acc l) (fun acc' => I l [] acc') R.
Proof.
  intros Hb. cut (forall done acc, triple (I done l acc) (st_fold body acc l)
    (fun acc' => I (done ++ l) [] acc') R); [intros H acc; apply (H [])|].
  induction l as [|x l IH]; intros done acc; cbn.
  - rewrite app_nil_r. by intros s Hs.
  - intros s Hs. unfold st_bind. specialize (Hb done x l acc s Hs).
    destruct (body acc x s) as [[acc'|e|] s']; [|done|done].
    replace (done ++ x :: l) with ((done ++ [x]) ++ l) by (by rewrite <- app_assoc). by apply IH.
Qed.
End triple.

(** ** Lemmas: slot intervals *)

Lemma length_seqN a n : length (seqN a n) = n.
Proof. revert a. induction n; simpl; auto. Qed.

Lemma elem_of_seqN x a n : x ∈ seqN a n <-> a <= x < a + N.of_nat n.
Proof.
  revert a. induction n as [|n IH]; intros a; cbn [seqN].
  - rewrite elem_of_nil. lia.
  - rewrite elem_of_cons, IH. lia.
Qed.

Lemma lookup_seqN a n i : (i < n)%nat -> seqN a n !! i = Some (a + N.of_nat i).
Proof.
  revert a i. induction n as [|n IH]; intros a i Hi; [lia|].
  destruct i as [|i]; cbn; [f_equal; lia|].
  rewrite IH by lia. f_equal. lia.
Qed.

Lemma NoDup_seqN a n : NoDup (seqN a n).
Proof.
  revert a. induction n as [|n IH]; intros a; cbn; constructor; [|done].
  rewrite elem_of_seqN. lia.
Qed.

Lemma seqN_app a n m : seqN a (n + m) = seqN a n ++ seqN (a + N.of_nat n) m.
Proof.
  revert a. induction n as [|n IH]; intros a; cbn [seqN Nat.add app].
  - f_equal. lia.
  - rewrite IH. do 3 f_equal. lia.
Qed.

Lemma elem_of_slots x a b : x ∈ slots a b <-> a <= x < b.
Proof. unfold slots. rewrite elem_of_seqN. lia. Qed.

Lemma length_slots a b : length (slots a b) = N.to_nat (b - a).
Proof. apply length_seqN. Qed.

Lemma NoDup_slots a b : NoDup (slots a b).
Proof. apply NoDup_seqN. Qed.

Lemma slots_empty a b : b <= a -> slots a b = [].
Proof. intros. unfold slots. by replace (N.to_nat (b - a)) with O by lia. Qed.

Lemma slots_cons a b : a < b -> slots a b = a :: slots (a + 1) b.
Proof.
  intros. unfold slots.
  by replace (N.to_nat (b - a)) with (S (N.to_nat (b - (a + 1)))) by lia.
Qed.

Lemma slots_app a b c : a <= b -> b <= c -> slots a c = slots a b ++ slots b c.
Proof.
  intros. unfold slots.
  replace (N.to_nat (c - a)) with (N.to_nat (b - a) + N.to_nat (c - b))%nat by lia.
  rewrite seqN_app. do 2 f_equal. lia.
Qed.

Lemma lookup_slots a b i :
  (i < N.to_nat (b - a))%nat -> slots a b !! i = Some (a + N.of_nat i).
Proof. apply lookup_seqN. Qed.

#[export] Hint Resolve NoDup_slots NoDup_seqN : slots.
#[export] Hint Rewrite elem_of_slots length_slots : slots_rw.

(** ** Lemmas: sorted lists *)

Lemma StronglySorted_impl {A} (R1 R2 : relation A) l :
  (forall a b, R1 a b -> R2 a b) -> StronglySorted R1 l -> StronglySorted R2 l.
Proof. intros HR. induction 1; constructor; eauto using Forall_impl. Qed.

Lemma StronglySorted_filter {A} (R : relation A) (P : A -> Prop) `{forall x, Decision (P x)} l :
  StronglySorted R l -> StronglySorted R (filter P l).
Proof.
  induction 1 as [|x l Hl IH Hx]; [constructor|]. rewrite filter_cons. case_decide; [|done].
  constructor; [done|]. rewrite Forall_forall in Hx |- *. by intros y [_ ?%Hx]%list_elem_of_filter.
Qed.

(** A strongly sorted list, split at an element. *)
Lemma StronglySorted_mid {A} (R : relation A) l1 x l2 :
  StronglySorted R (l1 ++ x :: l2) ->
  Forall (fun y => R y x) l1 /\ Forall (R x) l2
  /\ StronglySorted R l1 /\ StronglySorted R l2.
Proof.
  induction l1 as [|y l1 IH]; cbn.
  - intros [? ?]%StronglySorted_inv. split_and!; auto; constructor.
  - intros [Hs Hy]%StronglySorted_inv. destruct (IH Hs) as (?&?&?&?).
    apply Forall_app in Hy as [Hy1 Hy2]. apply Forall_cons in Hy2 as [? ?].
    split_and!; auto; constructor; auto.
Qed.

(** ** Lemmas: sorting *)

Section sort_by.
Context {A : Type} (less : A -> A -> bool).

Lemma insert_by_perm x l : insert_by less x l ≡ₚ x :: l.
Proof.
  induction l as [|y l IH]; cbn; [done|].
  destruct (less y x); [|done]. rewrite IH. constructor.
Qed.

Lemma sort_by_perm l : sort_by less l ≡ₚ l.
Proof.
  induction l as [|x l IH]; cbn; [done|]. by rewrite insert_by_perm, IH.
Qed.

Lemma elem_of_sort_by x l : x ∈ sort_by less l <-> x ∈ l.
Proof. by rewrite sort_by_perm. Qed.

Lemma length_sort_by l : length (sort_by less l) = length l.
Proof. by rewrite sort_by_perm. Qed.

(** "not greater" is the order [sort.Slice] establishes *)
Definition not_less (a b : A) : Prop := less b a = false.

Context (Htrans : forall a b c, not_less a b -> not_less b c -> not_less a c).
Context (Hasym : forall a b, less a b = true -> less b a = false).

Lemma insert_by_sorted x l :
  StronglySorted not_less l -> StronglySorted not_less (insert_by less x l).
Proof.
  induction 1 as [|y l Hl IH Hy]; cbn; [repeat constructor|].
  destruct (less y x) eqn:Hyx.
  - constructor; [done|]. rewrite insert_by_perm. constructor; [|done].
    by apply Hasym.
  - repeat constructor; [done|done|done|].
    eapply Forall_impl; [done|]. cbn. intros z Hz. by eapply Htrans.
Qed.

Lemma sort_by_sorted l : StronglySorted not_less (sort_by less l).
Proof. induction l; cbn; [constructor|]. by apply insert_by_sorted. Qed.
End sort_by.
