(* ===== verification/AttPlan.v ===== *)
(** * Package [attplan]: the attestation-source planner ([pkg/attplan/attplan.go])

    [Plan] maps every simulated slot of a half-open range to the slot of the
    block whose attestations are injected.  The loops are the code's loops, with
    the number of iterations until [slot == end] as fuel. *)

From S2P Require Import Prelude.

(** ** Data *)

(** [type Mode int] and its constants. *)
Definition Mode : Type := Z.
Definition ModeNextNonMissed : Mode := 0%Z.
Definition ModeStrictKMinus1 : Mode := 1%Z.
Definition ModeGreedyLookahead : Mode := 2%Z.
Definition ModeFirstSeenGossip : Mode := 3%Z.

Record Entry := mkEntry {
  SimSlot : N;
  SourceBlockSlot : option N
}.

(** The errors of [Plan], one constructor per [fmt.Errorf]. *)
Inductive plan_error :=
| ErrSimRange (simStart simEnd : N)
| ErrLookaheadCap (mode : Mode)
| ErrUnsupportedMode (mode : Mode).

(** [blockExists[slot]]: false for a missing key. *)
Definition exists_at (blockExists : gmap N bool) (slot : N) : bool :=
  default false (blockExists !! slot).

(** ** Operations *)

(** [for slot := slot; ; slot++ { if blockExists[slot] ...; if slot == end break }] *)
Fixpoint scan_window (fuel : nat) (blockExists : gmap N bool) (slot last : N) : option N :=
  if exists_at blockExists slot then Some slot
  else if slot =? last then None
  else match fuel with
       | O => None
       | S fuel' => scan_window fuel' blockExists (u64_add slot 1) last
       end.

Definition nextNonMissedSource (blockExists : gmap N bool) (simSlot lookaheadCap : N) : option N :=
  if MaxUint64 - simSlot <? lookaheadCap then None
  else
    let first := u64_add simSlot 1 in
    let last := u64_add simSlot lookaheadCap in
    scan_window (N.to_nat (u64_sub last first)) blockExists first last.

Definition strictKMinus1Source (blockExists : gmap N bool) (simSlot : N) : option N :=
  let source := u64_add simSlot 1 in
  if exists_at blockExists source then Some source else None.

(** The [switch mode] of the planning loop. *)
Definition plan_source (blockExists : gmap N bool) (simSlot : N) (mode : Mode)
    (lookaheadCap : N) : option N :=
  if ((mode =? ModeNextNonMissed) || (mode =? ModeGreedyLookahead))%Z%bool then
    nextNonMissedSource blockExists simSlot lookaheadCap
  else if (mode =? ModeStrictKMinus1)%Z then strictKMinus1Source blockExists simSlot
  else None.

(** [for simSlot := simStart; simSlot < simEnd; simSlot++] *)
Fixpoint plan_loop (fuel : nat) (blockExists : gmap N bool) (simSlot simEnd : N) (mode : Mode)
    (lookaheadCap : N) : list Entry :=
  match fuel with
  | O => []
  | S fuel' =>
      if simSlot <? simEnd then
        mkEntry simSlot (plan_source blockExists simSlot mode lookaheadCap)
          :: plan_loop fuel' blockExists (u64_add simSlot 1) simEnd mode lookaheadCap
      else []
  end.

Definition mode_needs_cap (mode : Mode) : bool :=
  ((mode =? ModeNextNonMissed) || (mode =? ModeGreedyLookahead))%Z%bool.

Definition mode_supported (mode : Mode) : bool :=
  ((mode =? ModeNextNonMissed) || (mode =? ModeStrictKMinus1)
    || (mode =? ModeGreedyLookahead) || (mode =? ModeFirstSeenGossip))%Z%bool.

(** An [Entry] is a [uint64] and a pointer: 16 bytes. *)
Definition Plan (blockExists : gmap N bool) (simStart simEnd : N) (mode : Mode)
    (lookaheadCap : N) : outcome plan_error (list Entry) :=
  if simEnd <? simStart then Err (ErrSimRange simStart simEnd)
  else if mode_needs_cap mode && (lookaheadCap <? 1) then Err (ErrLookaheadCap mode)
  else if negb (mode_supported mode) then Err (ErrUnsupportedMode mode)
  else if makeslice_panics 16 (u64_sub simEnd simStart) then Panic
  else Ok (plan_loop (S (N.to_nat (simEnd - simStart))) blockExists simStart simEnd mode
             lookaheadCap).

(** ** Specification: the source is the first existing slot of the window *)

(** [is_first_block m lo hi o]: [o] is the least slot of [[lo, hi]] with a block. *)
Definition is_first_block (blockExists : gmap N bool) (lo hi : N) (o : option N) : Prop :=
  match o with
  | Some k => lo <= k <= hi /\ exists_at blockExists k = true
              /\ forall j, lo <= j < k -> exists_at blockExists j = false
  | None => forall j, lo <= j <= hi -> exists_at blockExists j = false
  end.

(** ** Lemmas *)

Lemma scan_window_spec fuel m slot last :
  slot <= last -> u64 last -> N.of_nat fuel = last - slot ->
  is_first_block m slot last (scan_window fuel m slot last).
Proof.
  revert slot. induction fuel as [|fuel IH]; intros slot Hle Hu Hf; cbn;
    destruct (exists_at m slot) eqn:Hs.
  1,3: cbn; split_and!; try lia; auto; intros; lia.
  - destruct (N.eqb_spec slot last); [|lia]. cbn. intros j Hj.
    by replace j with slot by lia.
  - destruct (N.eqb_spec slot last) as [->|Hne]; [lia|].
    rewrite u64_add_small by u64_lia.
    specialize (IH (slot + 1) ltac:(lia) Hu ltac:(lia)).
    destruct (scan_window _ _ _ _) as [k|]; cbn in *.
    + destruct IH as (? & ? & Hj). split_and!; auto; [lia..|]. intros j ?.
      destruct (decide (j = slot)) as [->|]; [done|]. apply Hj. lia.
    + intros j ?. destruct (decide (j = slot)) as [->|]; [done|]. apply IH. lia.
Qed.

Lemma is_first_block_unique m lo hi o1 o2 :
  is_first_block m lo hi o1 -> is_first_block m lo hi o2 -> o1 = o2.
Proof.
  destruct o1 as [k1|], o2 as [k2|]; cbn; [|naive_solver congruence..].
  intros (? & E1 & H1) (? & E2 & H2). f_equal.
  destruct (N.lt_trichotomy k1 k2) as [?|[?|?]]; [|done|].
  - rewrite H2 in E1 by lia. done.
  - rewrite H1 in E2 by lia. done.
Qed.

Lemma nextNonMissedSource_window m n cap :
  1 <= cap -> u64 (n + cap) ->
  is_first_block m (n + 1) (n + cap) (nextNonMissedSource m n cap).
Proof.
  intros Hc Hu. unfold nextNonMissedSource.
  replace (MaxUint64 - n <? cap) with false by u64_lia.
  rewrite !u64_add_small by u64_lia. rewrite u64_sub_small by u64_lia.
  apply scan_window_spec; u64_lia.
Qed.

Lemma plan_loop_map fuel m a b mode cap :
  u64 b -> (N.to_nat (b - a) < fuel)%nat ->
  plan_loop fuel m a b mode cap
  = (fun n => mkEntry n (plan_source m n mode cap)) <$> slots a b.
Proof.
  intros Hb. revert a. induction fuel as [|fuel IH]; intros a Hf; [lia|]. cbn.
  destruct (N.ltb_spec a b).
  - rewrite slots_cons by done. cbn. rewrite u64_add_small by u64_lia.
    f_equal. apply IH. lia.
  - by rewrite slots_empty.
Qed.

Lemma plan_source_next m n mode cap :
  mode_needs_cap mode = true -> plan_source m n mode cap = nextNonMissedSource m n cap.
Proof. unfold plan_source, mode_needs_cap. by intros ->. Qed.

Lemma Plan_Ok_inv m a b mode cap es :
  Plan m a b mode cap = Ok es ->
  a <= b /\ (mode_needs_cap mode = true -> 1 <= cap) /\ mode_supported mode = true
  /\ makeslice_panics 16 (u64_sub b a) = false
  /\ es = plan_loop (S (N.to_nat (b - a))) m a b mode cap.
Proof.
  unfold Plan. case_ifs; intros Heq; simplify_eq. bool_to_prop.
  split_and!; auto. intros Hm. rewrite Hm in *. cbn in *. bool_to_prop. lia.
Qed.

(** The arguments [Plan] accepts: an ordered range, one of the four modes and a cap
    where the mode reads it. *)
Definition plan_accepts (simStart simEnd : N) (mode : Mode) (cap : N) : Prop :=
  simStart <= simEnd /\ (0 <= mode <= 3)%Z
  /\ (mode = ModeStrictKMinus1 \/ mode = ModeFirstSeenGossip \/ 1 <= cap).

(** The guards of [Plan] as a case distinction. *)
Inductive plan_case (simStart simEnd : N) (mode : Mode) (cap : N)
    : outcome plan_error (list Entry) -> Prop :=
| case_range : simEnd < simStart ->
    plan_case simStart simEnd mode cap (Err (ErrSimRange simStart simEnd))
| case_cap : simStart <= simEnd -> cap = 0 -> mode = ModeNextNonMissed \/ mode = ModeGreedyLookahead ->
    plan_case simStart simEnd mode cap (Err (ErrLookaheadCap mode))
| case_mode : simStart <= simEnd -> ~ (0 <= mode <= 3)%Z ->
    plan_case simStart simEnd mode cap (Err (ErrUnsupportedMode mode))
| case_alloc : plan_accepts simStart simEnd mode cap -> maxAlloc < 16 * (simEnd - simStart) ->
    plan_case simStart simEnd mode cap Panic
| case_entries es : plan_accepts simStart simEnd mode cap -> 16 * (simEnd - simStart) <= maxAlloc ->
    N.of_nat (length es) = simEnd - simStart -> plan_case simStart simEnd mode cap (Ok es).

Lemma Plan_case m simStart simEnd mode cap :
  u64 simStart -> u64 simEnd ->
  plan_case simStart simEnd mode cap (Plan m simStart simEnd mode cap).
Proof.
  intros Hs He. unfold Plan, mode_needs_cap, mode_supported, makeslice_panics.
  destruct (N.ltb_spec simEnd simStart); [by constructor|]. rewrite u64_sub_small by u64_lia.
  assert (Hacc : negb ((mode =? ModeNextNonMissed) || (mode =? ModeStrictKMinus1)
    || (mode =? ModeGreedyLookahead) || (mode =? ModeFirstSeenGossip))%Z%bool = false ->
    ((mode =? ModeNextNonMissed) || (mode =? ModeGreedyLookahead))%Z%bool && (cap <? 1) = false ->
    plan_accepts simStart simEnd mode cap).
  { unfold plan_accepts, ModeNextNonMissed, ModeStrictKMinus1, ModeGreedyLookahead, ModeFirstSeenGossip. lia. }
  case_ifs.
  - constructor; unfold ModeNextNonMissed, ModeGreedyLookahead in *; lia.
  - constructor; unfold ModeNextNonMissed, ModeStrictKMinus1, ModeGreedyLookahead, ModeFirstSeenGossip in *; lia.
  - constructor; [by apply Hacc|lia].
  - constructor; [by apply Hacc|lia|].
    rewrite plan_loop_map, length_fmap, length_slots by (u64_lia || lia). lia.
Qed.

(** ** Theorems *)

(** C1: a successful [Plan] returns exactly one entry per slot of
    [[simStart, simEnd)], in ascending order and with no gap, the source of each
    being the mode's choice for that slot; and [Plan] succeeds whenever the range
    is ordered, fits the allocation limit, the mode is one of the four and the
    cap is positive where the mode reads it. *)
Theorem plan_covers_range (m : gmap N bool) (simStart simEnd : N) (mode : Mode) (cap : N) :
  u64 simEnd -> simStart <= simEnd -> 16 * (simEnd - simStart) <= maxAlloc ->
  mode_supported mode = true -> (mode_needs_cap mode = true -> 1 <= cap) ->
  exists es, Plan m simStart simEnd mode cap = Ok es
    /\ SimSlot <$> es = slots simStart simEnd
    /\ length es = N.to_nat (simEnd - simStart)
    /\ SourceBlockSlot <$> es
       = (fun n => plan_source m n mode cap) <$> slots simStart simEnd.
Proof.
  intros Hu Hle Hal Hm Hc. unfold Plan.
  replace (simEnd <? simStart) with false by lia.
  replace (mode_needs_cap mode && (cap <? 1)) with false
    by (destruct (mode_needs_cap mode); cbn; [specialize (Hc eq_refl)|]; lia).
  rewrite Hm, u64_sub_small by u64_lia. cbn [negb].
  unfold makeslice_panics. replace (maxAlloc <? _) with false by lia.
  eexists. split; [done|]. rewrite plan_loop_map by (u64_lia || lia).
  split_and!.
  - rewrite <- list_fmap_compose. apply list_fmap_id.
  - by rewrite length_fmap, length_slots.
  - by rewrite <- list_fmap_compose.
Qed.

Lemma plan_covers_range_witness :
  exists es, Plan (list_to_map [(101, true); (103, true)]) 100 103 ModeNextNonMissed 4 = Ok es
    /\ SimSlot <$> es = [100; 101; 102]
    /\ length es = 3%nat
    /\ SourceBlockSlot <$> es = [Some 101; Some 103; Some 103].
Proof.
  exact (plan_covers_range (list_to_map [(101, true); (103, true)]) 100 103 ModeNextNonMissed 4
           ltac:(u64_lia) ltac:(lia) ltac:(lia) eq_refl ltac:(lia)).
Defined.

(** C2: in the look-ahead modes the source recorded for slot [n] is the first
    slot of the window [[n+1, n+cap]] that has a block, and [None] exactly when
    the window has none; when the window would pass the end of [uint64] the
    source is [None]. *)
Theorem plan_source_is_first_block (m : gmap N bool) (simStart simEnd : N) (mode : Mode)
    (cap : N) (es : list Entry) (e : Entry) :
  u64 simEnd -> u64 cap -> mode_needs_cap mode = true ->
  Plan m simStart simEnd mode cap = Ok es -> e ∈ es ->
  simStart <= SimSlot e < simEnd
  /\ (u64 (SimSlot e + cap) ->
      is_first_block m (SimSlot e + 1) (SimSlot e + cap) (SourceBlockSlot e))
  /\ (~ u64 (SimSlot e + cap) -> SourceBlockSlot e = None).
Proof.
  intros Hu Hcu Hm HP He. apply Plan_Ok_inv in HP as (Hle & Hc & _ & _ & ->).
  rewrite plan_loop_map in He by (u64_lia || lia).
  apply list_elem_of_fmap in He as (n & -> & Hn). apply elem_of_slots in Hn. cbn.
  rewrite plan_source_next by done. split_and!; [lia..| |].
  - intros. apply nextNonMissedSource_window; auto.
  - intros Hov. unfold nextNonMissedSource.
    by replace (MaxUint64 - n <? cap) with true by u64_lia.
Qed.

Lemma plan_source_is_first_block_witness :
  exists es e, Plan (list_to_map [(105, true)]) 100 101 ModeGreedyLookahead 4 = Ok es
    /\ e ∈ es /\ SourceBlockSlot e = None
    /\ is_first_block (list_to_map [(105, true)]) 101 104 (SourceBlockSlot e).
Proof.
  exists [mkEntry 100 None], (mkEntry 100 None).
  split; [reflexivity|]. split; [set_solver|]. split; [reflexivity|].
  eapply (plan_source_is_first_block (list_to_map [(105, true)]) 100 101 ModeGreedyLookahead 4
            [mkEntry 100 None] (mkEntry 100 None));
    [u64_lia|u64_lia|reflexivity|reflexivity|set_solver|cbn; u64_lia].
Defined.

(** C3: exactly when [Plan] fails, and how.  On 64-bit slots, each outcome is
    characterised by an equivalence, so the checks happen in this order: a reversed
    range, a cap of zero in a mode that reads it, an unknown mode, and then the panic
    of [make] on a range whose entries do not fit in memory (the length of the range
    never wraps there, since reversed ranges are already gone).  [Plan] succeeds in
    all other cases and only then, never appending past the capacity it reserved; and
    none of this depends on which blocks exist. *)
Theorem plan_failures (m : gmap N bool) (simStart simEnd : N) (mode : Mode) (cap : N) :
  u64 simStart -> u64 simEnd ->
  (forall s e, Plan m simStart simEnd mode cap = Err (ErrSimRange s e)
     <-> s = simStart /\ e = simEnd /\ simEnd < simStart)
  /\ (forall md, Plan m simStart simEnd mode cap = Err (ErrLookaheadCap md)
     <-> md = mode /\ simStart <= simEnd /\ cap = 0
         /\ (mode = ModeNextNonMissed \/ mode = ModeGreedyLookahead))
  /\ (forall md, Plan m simStart simEnd mode cap = Err (ErrUnsupportedMode md)
     <-> md = mode /\ simStart <= simEnd /\ ~ (0 <= mode <= 3)%Z)
  /\ (Plan m simStart simEnd mode cap = Panic
     <-> plan_accepts simStart simEnd mode cap /\ maxAlloc < 16 * (simEnd - simStart))
  /\ ((exists es, Plan m simStart simEnd mode cap = Ok es)
     <-> plan_accepts simStart simEnd mode cap /\ 16 * (simEnd - simStart) <= maxAlloc)
  /\ (forall es, Plan m simStart simEnd mode cap = Ok es ->
       N.of_nat (length es) = simEnd - simStart /\ 16 * N.of_nat (length es) <= maxAlloc).
Proof.
  intros Hs He. pose proof (Plan_case m simStart simEnd mode cap Hs He) as Hcase.
  destruct Hcase; unfold plan_accepts, ModeNextNonMissed, ModeStrictKMinus1, ModeGreedyLookahead,
    ModeFirstSeenGossip in *; split_and!; try split; intros;
    try match goal with H : exists _, _ |- _ => destruct H end; destruct_and?; simplify_eq;
    try done; try lia; split_and?; eauto; lia.
Qed.

Lemma plan_failures_witness :
  Plan ∅ 5 4 ModeNextNonMissed 0 = Err (ErrSimRange 5 4)
  /\ Plan ∅ 4 5 ModeGreedyLookahead 0 = Err (ErrLookaheadCap ModeGreedyLookahead)
  /\ Plan ∅ 4 5 7%Z 0 = Err (ErrUnsupportedMode 7%Z)
  /\ Plan ∅ 0 (2 ^ 60) ModeStrictKMinus1 0 = Panic
  /\ exists es, Plan ∅ 4 5 ModeStrictKMinus1 0 = Ok es.
Proof.
  split; [apply (plan_failures ∅ 5 4 ModeNextNonMissed 0); u64_lia|].
  split; [apply (plan_failures ∅ 4 5 ModeGreedyLookahead 0); [u64_lia..|by split_and!; [| | |right]]|].
  split; [apply (plan_failures ∅ 4 5 7%Z 0); [u64_lia..|split_and!; lia]|].
  split; [apply (plan_failures ∅ 0 (2 ^ 60) ModeStrictKMinus1 0);
    [u64_lia..|split; [split_and!; [lia|done|done|by left]|reflexivity]]|].
  apply (plan_failures ∅ 4 5 ModeStrictKMinus1 0); [u64_lia..|].
  split; [split_and!; [lia|done|done|by left]|by apply N.leb_le].
Defined.

(** C4: strict mode against the look-ahead modes.  Away from the end of
    [uint64], every strict source is also the look-ahead source of any positive
    cap, and with cap 1 the two planners agree on every slot. *)
Theorem strict_sources_are_next_sources (m : gmap N bool) (n cap : N) :
  1 <= cap -> u64 (n + cap) ->
  (forall k, strictKMinus1Source m n = Some k ->
             k = n + 1 /\ nextNonMissedSource m n cap = Some k)
  /\ nextNonMissedSource m n 1 = strictKMinus1Source m n.
Proof.
  intros Hc Hu.
  pose proof (nextNonMissedSource_window m n cap Hc Hu) as Hn.
  pose proof (nextNonMissedSource_window m n 1 ltac:(lia) ltac:(u64_lia)) as H1.
  unfold strictKMinus1Source. rewrite u64_add_small by u64_lia.
  destruct (exists_at m (n + 1)) eqn:Hs; split; try (by intros ? [=]).
  - intros k [= <-]. split; [done|].
    eapply is_first_block_unique; [exact Hn|]. cbn. split_and!; auto; lia.
  - eapply is_first_block_unique; [exact H1|]. cbn. split_and!; auto; lia.
  - eapply is_first_block_unique; [exact H1|]. cbn. intros j ?.
    by replace j with (n + 1) by lia.
Qed.

Lemma strict_sources_are_next_sources_witness :
  strictKMinus1Source {[101 := true]} 100 = Some 101
  /\ nextNonMissedSource {[101 := true]} 100 4 = Some 101.
Proof.
  split; [reflexivity|].
  eapply (strict_sources_are_next_sources {[101 := true]} 100 4);
    [lia|u64_lia|reflexivity].
Defined.

(** C5: at the end of [uint64] the look-ahead planner gives up although the next
    slot has a block inside the window, where the strict planner uses it. *)
Theorem next_source_lost_near_overflow (m : gmap N bool) (n cap : N) :
  n < MaxUint64 -> ~ u64 (n + cap) -> exists_at m (n + 1) = true ->
  nextNonMissedSource m n cap = None /\ strictKMinus1Source m n = Some (n + 1).
Proof.
  intros Hn Hov Hs. unfold nextNonMissedSource, strictKMinus1Source.
  replace (MaxUint64 - n <? cap) with true by u64_lia.
  rewrite u64_add_small by lia. by rewrite Hs.
Qed.

Lemma next_source_lost_near_overflow_witness :
  nextNonMissedSource {[MaxUint64 := true]} (MaxUint64 - 1) 2 = None
  /\ strictKMinus1Source {[MaxUint64 := true]} (MaxUint64 - 1) = Some MaxUint64.
Proof.
  apply (next_source_lost_near_overflow {[MaxUint64 := true]} (MaxUint64 - 1) 2);
    [lia|u64_lia|reflexivity].
Defined.
