(* ===== verification/Chunk.v ===== *)
(** * Package [chunk]: splitting an epoch range over workers ([pkg/chunk/chunk.go])

    [Split] is the code's loop with [parallel] iterations; [chunk_at] is the closed
    form of its [i]-th iteration, against which the partition theorems are proved. *)

From S2P Require Import Prelude.

(** ** Data *)

Abbreviation SlotsPerEpoch := 32%N.

Record Chunk := mkChunk {
  Index : Z;
  StartEpoch : N;
  EndEpoch : N;
  WarmupStartSlot : N;
  StartSlot : N;
  EndSlot : N
}.

(** ** Operations *)

Definition epochToSlot (epoch : N) : N :=
  if MaxUint64 / SlotsPerEpoch <? epoch then MaxUint64 else u64_mul epoch SlotsPerEpoch.

(** The body of the loop for chunk [i] starting at [chunkStart] with [size] epochs. *)
Definition make_chunk (i : Z) (chunkStart size warmupEpochs : N) : Chunk :=
  let chunkEnd := u64_add chunkStart size in
  let warmupEpoch := if warmupEpochs <? chunkStart then u64_sub chunkStart warmupEpochs else 0 in
  mkChunk i chunkStart chunkEnd (epochToSlot warmupEpoch) (epochToSlot chunkStart)
    (epochToSlot chunkEnd).

(** [for i := 0; i < parallel; i++]; [fuel] is the number of iterations left. *)
Fixpoint split_loop (fuel : nat) (i : Z) (nextStart base remainder warmupEpochs : N)
    : list Chunk :=
  match fuel with
  | O => []
  | S fuel' =>
      let size := if Z.to_N i <? remainder then u64_add base 1 else base in
      let c := make_chunk i nextStart size warmupEpochs in
      c :: split_loop fuel' (i + 1)%Z (EndEpoch c) base remainder warmupEpochs
  end.

(** A [Chunk] is six words: 48 bytes. *)
Definition Split (startEpoch endEpoch warmupEpochs : N) (parallel : Z)
    : outcome Empty_set (list Chunk) :=
  if ((parallel <=? 0)%Z || (endEpoch <=? startEpoch))%bool then Ok []
  else
    let total := u64_sub endEpoch startEpoch in
    let workers := Z.to_N parallel in
    if makeslice_panics 48 workers then Panic
    else Ok (split_loop (Z.to_nat parallel) 0 startEpoch (total / workers) (total mod workers)
               warmupEpochs).

(** ** Specification *)

(** First epoch of the [i]-th of [workers] chunks: the first [total mod workers]
    chunks take one extra epoch. *)
Definition chunk_bound (startEpoch total workers i : N) : N :=
  startEpoch + i * (total / workers) + N.min i (total mod workers).

Definition chunk_at (startEpoch total workers warmupEpochs i : N) : Chunk :=
  let s := chunk_bound startEpoch total workers i in
  let e := chunk_bound startEpoch total workers (i + 1) in
  mkChunk (Z.of_N i) s e (epochToSlot (s - warmupEpochs)) (epochToSlot s) (epochToSlot e).

(** ** Lemmas *)

Lemma epochToSlot_small e : e <= MaxUint64 / SlotsPerEpoch -> epochToSlot e = e * 32.
Proof. intros. unfold epochToSlot. case_ifs; u64_lia. Qed.

Lemma epochToSlot_mono a b : a <= b -> epochToSlot a <= epochToSlot b.
Proof. intros. unfold epochToSlot. case_ifs; u64_lia. Qed.

Lemma epochToSlot_u64 e : u64 (epochToSlot e).
Proof. unfold epochToSlot. case_ifs; u64_lia. Qed.

#[export] Hint Resolve epochToSlot_u64 : u64.

Lemma chunk_bound_0 s t w : chunk_bound s t w 0 = s.
Proof. unfold chunk_bound. lia. Qed.

Lemma chunk_bound_last s t w : 0 < w -> chunk_bound s t w w = s + t.
Proof.
  intros. unfold chunk_bound. pose proof (N.mod_lt t w). pose proof (N.div_mod t w). lia.
Qed.

Lemma chunk_bound_succ s t w i :
  chunk_bound s t w (i + 1)
  = chunk_bound s t w i + (t / w + if i <? t mod w then 1 else 0).
Proof. unfold chunk_bound. destruct (N.ltb_spec i (t mod w)); lia. Qed.

Lemma chunk_bound_mono s t w i j :
  i <= j -> chunk_bound s t w i <= chunk_bound s t w j.
Proof. intros. unfold chunk_bound. nia. Qed.

Lemma chunk_bound_le s t w i : 0 < w -> i <= w -> chunk_bound s t w i <= s + t.
Proof. intros. rewrite <- (chunk_bound_last s t w) by done. by apply chunk_bound_mono. Qed.

Lemma split_loop_closed n i s t w we :
  0 < w -> u64 (s + t) -> i + N.of_nat n <= w ->
  split_loop n (Z.of_N i) (chunk_bound s t w i) (t / w) (t mod w) we
  = chunk_at s t w we <$> seqN i n.
Proof.
  intros Hw Hu. revert i. induction n as [|n IH]; intros i Hi; [done|].
  cbn [split_loop seqN fmap list_fmap].
  pose proof (chunk_bound_le s t w (i + 1) Hw ltac:(lia)) as Hb.
  pose proof (chunk_bound_succ s t w i) as Hs.
  assert (Hm : make_chunk (Z.of_N i) (chunk_bound s t w i)
                 (if Z.to_N (Z.of_N i) <? t mod w then u64_add (t / w) 1 else t / w) we
               = chunk_at s t w we i).
  { rewrite N2Z.id.
    assert (Hsz : (if i <? t mod w then u64_add (t / w) 1 else t / w)
                  = t / w + if i <? t mod w then 1 else 0).
    { destruct (i <? t mod w); [apply u64_add_small; u64_lia|lia]. }
    unfold make_chunk, chunk_at. rewrite Hsz, u64_add_small, <- Hs by u64_lia.
    do 2 f_equal. case_ifs; u64_lia. }
  rewrite Hm. f_equal. replace (Z.of_N i + 1)%Z with (Z.of_N (i + 1)) by lia.
  rewrite <- IH by lia. done.
Qed.

(** [Split] in closed form. *)
Lemma Split_closed s e we p :
  (0 < p)%Z -> s < e -> u64 e -> 48 * Z.to_N p <= maxAlloc ->
  Split s e we p = Ok (chunk_at s (e - s) (Z.to_N p) we <$> slots 0 (Z.to_N p)).
Proof.
  intros Hp Hse Hu Hal. unfold Split, makeslice_panics.
  replace ((p <=? 0)%Z || (e <=? s))%bool with false by lia.
  replace (maxAlloc <? _) with false by lia. f_equal.
  rewrite u64_sub_small by u64_lia.
  rewrite <- (chunk_bound_0 s (e - s) (Z.to_N p)) at 1.
  rewrite (split_loop_closed _ 0) by u64_lia.
  unfold slots. do 2 f_equal. lia.
Qed.

Lemma concat_chunk_epochs s t w n :
  concat ((fun i => slots (chunk_bound s t w i) (chunk_bound s t w (i + 1))) <$> seqN 0 n)
  = slots s (chunk_bound s t w (N.of_nat n)).
Proof.
  induction n as [|n IH].
  - cbn. rewrite slots_empty; [done|]. rewrite chunk_bound_0. lia.
  - replace (S n) with (n + 1)%nat by lia. rewrite seqN_app, fmap_app, concat_app, IH. cbn.
    rewrite app_nil_r, <- slots_app; [do 2 f_equal; lia| |apply chunk_bound_mono; lia].
    rewrite <- (chunk_bound_0 s t w) at 1. apply chunk_bound_mono. lia.
Qed.

(** ** Theorems *)

(** C6: [Split] partitions the requested epochs.  It returns exactly [parallel]
    chunks with consecutive indices, the epochs of the chunks concatenate to
    [[startEpoch, endEpoch)] (no epoch lost or given to two workers), and a
    chunk has [total/parallel] epochs, one more for the first [total mod parallel]. *)
Theorem split_partitions_epochs (startEpoch endEpoch warmupEpochs : N) (parallel : Z) :
  (0 < parallel)%Z -> startEpoch < endEpoch -> u64 endEpoch ->
  48 * Z.to_N parallel <= maxAlloc ->
  let total := endEpoch - startEpoch in
  let w := Z.to_N parallel in
  exists cs, Split startEpoch endEpoch warmupEpochs parallel = Ok cs
    /\ Index <$> cs = Z.of_N <$> slots 0 w
    /\ concat ((fun c => slots (StartEpoch c) (EndEpoch c)) <$> cs) = slots startEpoch endEpoch
    /\ Forall (fun c => EndEpoch c - StartEpoch c
                        = total / w + if Z.to_N (Index c) <? total mod w then 1 else 0) cs.
Proof.
  intros Hp Hse Hu Hal total w. exists (chunk_at startEpoch total w warmupEpochs <$> slots 0 w).
  split; [by apply Split_closed|]. split_and!.
  - by rewrite <- list_fmap_compose.
  - rewrite <- list_fmap_compose. unfold slots at 2, w. rewrite N.sub_0_r.
    etransitivity; [apply concat_chunk_epochs|].
    rewrite N2Nat.id, chunk_bound_last by lia. f_equal. subst total. lia.
  - apply Forall_fmap, Forall_forall. intros i _. cbn.
    rewrite N2Z.id, chunk_bound_succ. lia.
Qed.

Lemma split_partitions_epochs_witness :
  exists cs, Split 100 110 2 4 = Ok cs
    /\ Index <$> cs = [0; 1; 2; 3]%Z
    /\ concat ((fun c => slots (StartEpoch c) (EndEpoch c)) <$> cs) = slots 100 110
    /\ Forall (fun c => EndEpoch c - StartEpoch c
                        = 2 + if Z.to_N (Index c) <? 2 then 1 else 0) cs.
Proof.
  exact (split_partitions_epochs 100 110 2 4 ltac:(lia) ltac:(lia) ltac:(u64_lia) ltac:(lia)).
Defined.

(** C7: slot bounds of every chunk [Split] returns, whatever its arguments: the
    warm-up start is at or before the chunk's start, by exactly [warmupEpochs]
    epochs unless clamped to genesis, all slots are [uint64] values, and below the
    saturation point the slots are exactly 32 times the epochs. *)
Theorem split_slot_bounds (startEpoch endEpoch warmupEpochs : N) (parallel : Z)
    (cs : list Chunk) (c : Chunk) :
  u64 endEpoch -> Split startEpoch endEpoch warmupEpochs parallel = Ok cs -> c ∈ cs ->
  startEpoch <= StartEpoch c <= EndEpoch c /\ EndEpoch c <= endEpoch
  /\ WarmupStartSlot c <= StartSlot c <= EndSlot c /\ u64 (EndSlot c)
  /\ (endEpoch <= MaxUint64 / 32 ->
      StartSlot c = 32 * StartEpoch c /\ EndSlot c = 32 * EndEpoch c
      /\ WarmupStartSlot c = 32 * (StartEpoch c - warmupEpochs)).
Proof.
  intros Hu HS Hc.
  destruct (decide (0 < parallel)%Z) as [Hp|Hp]; cycle 1.
  { unfold Split in HS. replace ((parallel <=? 0)%Z || _)%bool with true in HS by lia.
    simplify_eq. by apply not_elem_of_nil in Hc. }
  destruct (decide (startEpoch < endEpoch)) as [Hse|Hse]; cycle 1.
  { unfold Split in HS. replace ((parallel <=? 0)%Z || _)%bool with true in HS by lia.
    simplify_eq. by apply not_elem_of_nil in Hc. }
  destruct (decide (48 * Z.to_N parallel <= maxAlloc)) as [Hal|Hal]; cycle 1.
  { unfold Split, makeslice_panics in HS.
    replace ((parallel <=? 0)%Z || _)%bool with false in HS by lia.
    replace (maxAlloc <? _) with true in HS by lia. done. }
  rewrite Split_closed in HS by done. injection HS as <-.
  apply list_elem_of_fmap in Hc as (i & -> & Hi). apply elem_of_slots in Hi. cbn.
  set (t := endEpoch - startEpoch). set (w := Z.to_N parallel) in *.
  pose proof (chunk_bound_le startEpoch t w (i + 1) ltac:(lia) ltac:(lia)).
  pose proof (chunk_bound_mono startEpoch t w 0 i ltac:(lia)) as H0.
  rewrite chunk_bound_0 in H0.
  pose proof (chunk_bound_mono startEpoch t w i (i + 1) ltac:(lia)).
  split_and!; try lia; auto with u64; try (apply epochToSlot_mono; lia).
  intros. rewrite !epochToSlot_small by lia. lia.
Qed.

Lemma split_slot_bounds_witness :
  exists c, Split 100 101 10 1 = Ok [c] /\ WarmupStartSlot c = 2880
    /\ WarmupStartSlot c <= StartSlot c <= EndSlot c.
Proof.
  exists (mkChunk 0 100 101 2880 3200 3232). split; [reflexivity|]. split; [reflexivity|].
  eapply (split_slot_bounds 100 101 10 1 [mkChunk 0 100 101 2880 3200 3232]);
    [u64_lia|reflexivity|set_solver].
Defined.
