(* ===== verification/Bytes.v ===== *)
(** * Bytes, hexadecimal text and little-endian integers

    The parts of Go's [bytes], [encoding/hex] and [encoding/binary] that the
    packages share.  A Go [[]byte] is a list of [Byte.byte]; a [[32]byte] block root
    is its list of 32 bytes; a Go [string] is the list of its bytes as well, so that
    slicing, prefixes and comparison act on bytes as in Go.  [str] turns a Rocq
    string literal into it. *)

From S2P Require Import Prelude.
From Stdlib Require Import Strings.Byte.
From Stdlib Require Strings.String.
Export String.StringSyntax.
Local Open Scope N_scope.

Abbreviation byte := Byte.byte.
Abbreviation bytes := (list Byte.byte).

(** ** Bytes as numbers *)

Definition byte_val (b : byte) : N := Byte.to_N b.

(** [byte(n)]: conversion to [uint8] keeps the low eight bits. *)
Definition to_byte (n : N) : byte := default x00 (Byte.of_N (n mod 256)).

#[export] Instance byte_eq_decision : EqDecision byte := Byte.byte_eq_dec.
#[export] Instance byte_countable : Countable byte :=
  inj_countable byte_val Byte.of_N Byte.of_to_N.
#[export] Instance byte_inhabited : Inhabited byte := populate x00.

(** [str "abc"]: the bytes of a string literal. *)
Definition str (s : String.string) : bytes := String.list_byte_of_string s.
Arguments str s%_string_scope.

(** ** Slices *)

(** [l[lo:hi]] for [lo <= hi <= len(l)]. *)
Definition subslice {A} (lo hi : nat) (l : list A) : list A := take (hi - lo) (drop lo l).

(** ** [encoding/binary.LittleEndian] *)

Fixpoint le_val (bs : bytes) : N :=
  match bs with [] => 0 | b :: bs' => byte_val b + 256 * le_val bs' end.

Fixpoint le_encode (len : nat) (n : N) : bytes :=
  match len with O => [] | S len' => to_byte n :: le_encode len' (n / 256) end.

(** ** [bytes.Compare] *)

Fixpoint bytes_compare (a b : bytes) : comparison :=
  match a, b with
  | [], [] => Eq
  | [], _ :: _ => Lt
  | _ :: _, [] => Gt
  | x :: a', y :: b' =>
      match byte_val x ?= byte_val y with Eq => bytes_compare a' b' | c => c end
  end.

Definition bytes_less (a b : bytes) : bool :=
  match bytes_compare a b with Lt => true | _ => false end.

(** ** [strings.HasPrefix], [HasSuffix], [TrimPrefix] *)

Fixpoint has_prefix (s p : bytes) : bool :=
  match p, s with
  | [], _ => true
  | c :: p', d :: s' => if decide (c = d) then has_prefix s' p' else false
  | _ :: _, [] => false
  end.

Definition has_suffix (s p : bytes) : bool := has_prefix (reverse s) (reverse p).

Definition trim_prefix (s p : bytes) : bytes :=
  if has_prefix s p then drop (length p) s else s.

(** ** [encoding/hex] *)

Definition hex_digit (n : N) : byte :=
  if n <? 10 then to_byte (48 + n) else to_byte (87 + n).

Fixpoint hex_encode (bs : bytes) : bytes :=
  match bs with
  | [] => []
  | b :: bs' => hex_digit (byte_val b / 16) :: hex_digit (byte_val b mod 16) :: hex_encode bs'
  end.

Definition hex_value (c : byte) : option N :=
  let v := byte_val c in
  if (48 <=? v) && (v <=? 57) then Some (v - 48)
  else if (97 <=? v) && (v <=? 102) then Some (v - 87)
  else if (65 <=? v) && (v <=? 70) then Some (v - 55)
  else None.

(** [None] stands for both errors of [hex.DecodeString] (odd length, bad digit). *)
Fixpoint hex_decode (s : bytes) : option bytes :=
  match s with
  | [] => Some []
  | [_] => None
  | c :: d :: s' =>
      a ← hex_value c; b ← hex_value d; rest ← hex_decode s';
      Some (to_byte (16 * a + b) :: rest)
  end.

(** ** [strconv.FormatUint(n, 10)] and [strconv.ParseUint(s, 10, 64)] *)

Fixpoint format_uint_aux (fuel : nat) (n : N) (acc : bytes) : bytes :=
  match fuel with
  | O => acc
  | S fuel' =>
      let acc' := to_byte (48 + n mod 10) :: acc in
      if n <? 10 then acc' else format_uint_aux fuel' (n / 10) acc'
  end.

(** A [uint64] has at most 20 decimal digits; the fuel is the binary size of [n],
    which bounds the digits of every [n]. *)
Definition format_uint (n : N) : bytes := format_uint_aux (S (N.size_nat n)) n [].

Fixpoint parse_digits (s : bytes) (acc : N) : option N :=
  match s with
  | [] => Some acc
  | c :: s' =>
      let v := byte_val c in
      if (48 <=? v) && (v <=? 57) then
        let acc' := 10 * acc + (v - 48) in
        if MaxUint64 <? acc' then None else parse_digits s' acc'
      else None
  end.

(** [None] is a non-nil error (syntax or range). *)
Definition parse_uint (s : bytes) : option N :=
  match s with [] => None | _ => parse_digits s 0 end.

(** ** Roots *)

Definition zero_root : bytes := replicate 32 x00.

(** ** Lemmas: bytes *)

Lemma byte_val_lt b : byte_val b < 256.
Proof. unfold byte_val. pose proof (Byte.to_N_bounded b). lia. Qed.

Lemma byte_val_to_byte n : byte_val (to_byte n) = n mod 256.
Proof.
  unfold to_byte, byte_val.
  destruct (Byte.of_N (n mod 256)) as [b|] eqn:E; cbn.
  - by apply Byte.to_of_N.
  - apply Byte.of_N_None_iff in E. pose proof (N.mod_lt n 256). lia.
Qed.

Lemma to_byte_val b : to_byte (byte_val b) = b.
Proof.
  unfold to_byte. rewrite N.mod_small by apply byte_val_lt.
  unfold byte_val. by rewrite Byte.of_to_N.
Qed.

Lemma byte_val_inj a b : byte_val a = byte_val b -> a = b.
Proof. intros H. rewrite <- (to_byte_val a), H. apply to_byte_val. Qed.

#[export] Hint Resolve byte_val_lt : bytes.

(** ** Lemmas: slices *)

Lemma length_subslice {A} lo hi (l : list A) :
  (hi <= length l)%nat -> length (subslice lo hi l) = (hi - lo)%nat.
Proof. intros. unfold subslice. rewrite length_take, length_drop. lia. Qed.

Lemma subslice_app {A} (l1 l2 l3 : list A) :
  subslice (length l1) (length l1 + length l2) (l1 ++ l2 ++ l3) = l2.
Proof.
  unfold subslice. rewrite drop_app_length.
  replace (length l1 + length l2 - length l1)%nat with (length l2) by lia.
  apply take_app_length.
Qed.

(** ** Lemmas: little endian *)

Lemma length_le_encode len n : length (le_encode len n) = len.
Proof. revert n. induction len; cbn; auto. Qed.

Lemma le_val_encode len n : n < 256 ^ N.of_nat len -> le_val (le_encode len n) = n.
Proof.
  revert n. induction len as [|len IH]; intros n Hn; cbn [le_encode le_val].
  - cbn in Hn. lia.
  - rewrite Nat2N.inj_succ, N.pow_succ_r' in Hn.
    rewrite byte_val_to_byte, IH; [lia|]. apply N.Div0.div_lt_upper_bound; lia.
Qed.

Lemma le_val_lt bs : le_val bs < 256 ^ N.of_nat (length bs).
Proof.
  induction bs as [|b bs IH]; cbn [le_val length]; [by cbn|].
  rewrite Nat2N.inj_succ, N.pow_succ_r'. pose proof (byte_val_lt b). nia.
Qed.

(** ** Lemmas: comparison *)

Lemma bytes_compare_refl a : bytes_compare a a = Eq.
Proof. induction a as [|x a IH]; cbn; [done|]. by rewrite N.compare_refl. Qed.

Lemma bytes_compare_eq a b : bytes_compare a b = Eq <-> a = b.
Proof.
  split; [|intros ->; apply bytes_compare_refl].
  revert b. induction a as [|x a IH]; intros [|y b]; cbn; try done.
  destruct (N.compare_spec (byte_val x) (byte_val y)) as [E| |]; try done.
  intros H%IH. apply byte_val_inj in E. by subst.
Qed.

Lemma bytes_compare_antisym a b : bytes_compare b a = CompOpp (bytes_compare a b).
Proof.
  revert b. induction a as [|x a IH]; intros [|y b]; cbn; try done.
  rewrite (N.compare_antisym (byte_val x) (byte_val y)).
  destruct (byte_val x ?= byte_val y); cbn; auto.
Qed.

Lemma bytes_less_trans a b c :
  bytes_less a b = true -> bytes_less b c = true -> bytes_less a c = true.
Proof.
  unfold bytes_less. revert b c.
  induction a as [|x a IH]; intros [|y b] [|z c]; cbn; try done.
  specialize (IH b c).
  destruct (N.compare_spec (byte_val x) (byte_val y)),
    (N.compare_spec (byte_val y) (byte_val z)),
    (N.compare_spec (byte_val x) (byte_val z)); try done; try lia; auto.
Qed.

Lemma bytes_less_irrefl a : bytes_less a a = false.
Proof. unfold bytes_less. by rewrite bytes_compare_refl. Qed.

Lemma bytes_less_asym a b : bytes_less a b = true -> bytes_less b a = false.
Proof.
  unfold bytes_less. rewrite (bytes_compare_antisym a b).
  by destruct (bytes_compare a b).
Qed.

Lemma bytes_less_total a b : bytes_less a b = false -> bytes_less b a = false -> a = b.
Proof.
  unfold bytes_less. rewrite (bytes_compare_antisym a b).
  destruct (bytes_compare a b) eqn:E; try done. by intros; apply bytes_compare_eq.
Qed.

(** "Not greater" for byte strings is a total order: what [sort_by_sorted] asks for. *)
Lemma bytes_not_less_trans a b c :
  not_less bytes_less a b -> not_less bytes_less b c -> not_less bytes_less a c.
Proof.
  unfold not_less. intros Hab Hbc. destruct (bytes_less c a) eqn:Hca; [|done].
  destruct (decide (a = b)) as [->|Hne]; [congruence|].
  assert (bytes_less a b = true) as Hlt.
  { destruct (bytes_less a b) eqn:E; [done|]. by destruct Hne; apply bytes_less_total. }
  by rewrite (bytes_less_trans _ _ _ Hca Hlt) in Hbc.
Qed.

#[export] Hint Resolve bytes_less_irrefl bytes_less_asym bytes_not_less_trans : bytes.

(** ** Lemmas: prefixes and suffixes *)

Lemma has_prefix_spec s p : has_prefix s p = true <-> p `prefix_of` s.
Proof.
  revert s. induction p as [|c p IH]; intros s; [split; auto using prefix_nil; by destruct s|].
  destruct s as [|d s]; simpl; [split; [done|by intros ?%prefix_nil_not]|].
  destruct (decide (c = d)) as [->|E].
  - rewrite IH. split; [apply prefix_cons|apply prefix_cons_inv_2].
  - split; [done|]. by intros ?%prefix_cons_inv_1.
Qed.

Lemma has_prefix_app p s : has_prefix (p ++ s) p = true.
Proof. apply has_prefix_spec. by exists s. Qed.

Lemma has_suffix_app p s : has_suffix (s ++ p) p = true.
Proof. unfold has_suffix. rewrite reverse_app. apply has_prefix_app. Qed.

(** ** Lemmas: hexadecimal *)

Lemma hex_value_digit n : n < 16 -> hex_value (hex_digit n) = Some n.
Proof.
  intros. unfold hex_digit, hex_value. destruct (N.ltb_spec n 10);
    rewrite byte_val_to_byte, N.mod_small by lia; case_ifs; f_equal; lia.
Qed.

Lemma hex_decode_encode bs : hex_decode (hex_encode bs) = Some bs.
Proof.
  induction bs as [|b bs IH]; cbn [hex_encode hex_decode]; [done|].
  pose proof (byte_val_lt b).
  rewrite !hex_value_digit by lia. cbn. rewrite IH. cbn. do 2 f_equal.
  rewrite <- (to_byte_val b) at 3. f_equal. lia.
Qed.

Lemma length_hex_encode bs : length (hex_encode bs) = (2 * length bs)%nat.
Proof. induction bs; cbn; lia. Qed.

Lemma hex_encode_inj a b : hex_encode a = hex_encode b -> a = b.
Proof. intros H. apply (inj Some). by rewrite <- !hex_decode_encode, H. Qed.
