(* ===== verification/Lru.v ===== *)
(** * Interface of the bounded caches ([hashicorp/golang-lru])

    The reader, the backend and the first-seen source keep decoded data in
    [lru.Cache]s.  The library is third-party code, so the model takes it through
    this class: the operations the source calls and their documented behaviour (a
    [Get] returns the stored value and changes only recency; an [Add] stores the
    value and may evict others).  [lru_list] is a concrete most-recent-first
    instance, used to instantiate the development. *)

From S2P Require Import Prelude.

(** ** The interface *)

Class Lru (K V : Type) `{Countable K} (C : Type) := {
  lru_empty : C;
  lru_get : K -> C -> option V * C;
  lru_add : K -> V -> C -> C;
  (** the stored pairs *)
  lru_map : C -> gmap K V;
  lru_map_empty : lru_map lru_empty = ∅;
  lru_get_value k c : fst (lru_get k c) = lru_map c !! k;
  lru_get_map k c : lru_map (snd (lru_get k c)) = lru_map c;
  lru_add_stored k v c : lru_map (lru_add k v c) !! k = Some v;
  lru_add_others k v c k' v' :
    k ≠ k' -> lru_map (lru_add k v c) !! k' = Some v' -> lru_map c !! k' = Some v'
}.

(** A cache that only holds pairs satisfying [P]. *)
Definition lru_all {K V C} `{Countable K} `{!Lru K V C} (P : K -> V -> Prop) (c : C) : Prop :=
  forall k v, lru_map c !! k = Some v -> P k v.

(** ** A concrete cache: a most-recent-first association list of bounded length *)

Section lru_list.
Context {K V : Type} `{Countable K}.

Definition ll_remove (k : K) (c : list (K * V)) : list (K * V) :=
  filter (fun p => p.1 ≠ k) c.

Definition ll_get (k : K) (c : list (K * V)) : option V * list (K * V) :=
  match (list_to_map c : gmap K V) !! k with
  | Some v => (Some v, (k, v) :: ll_remove k c)
  | None => (None, c)
  end.

Definition ll_add (size : nat) (k : K) (v : V) (c : list (K * V)) : list (K * V) :=
  (k, v) :: take size (ll_remove k c).

Lemma ll_remove_lookup k k' c :
  k ≠ k' -> (list_to_map (ll_remove k c) : gmap K V) !! k' = (list_to_map c : gmap K V) !! k'.
Proof.
  intros Hne. induction c as [|[k0 v0] c IH]; [done|]. unfold ll_remove in *.
  rewrite filter_cons. case_decide as Hk; cbn in *.
  - destruct (decide (k0 = k')) as [->|?];
      [by rewrite !lookup_insert_eq|by rewrite !lookup_insert_ne].
  - rewrite IH. assert (k0 = k) as -> by (by destruct (decide (k0 = k))).
    by rewrite lookup_insert_ne.
Qed.

Lemma ll_take_lookup n c k v :
  (list_to_map (take n c) : gmap K V) !! k = Some v -> (list_to_map c : gmap K V) !! k = Some v.
Proof.
  revert n. induction c as [|[k0 v0] c IH]; intros [|n]; cbn; try done.
  destruct (decide (k0 = k)) as [->|?];
    [by rewrite !lookup_insert_eq|rewrite !lookup_insert_ne by done; apply IH].
Qed.

#[export] Program Instance lru_list (size : nat) : Lru K V (list (K * V)) := {|
  lru_empty := [];
  lru_get := ll_get;
  lru_add := ll_add size;
  lru_map := list_to_map
|}.
Next Obligation. done. Qed.
Next Obligation. intros size k c. unfold ll_get. by destruct (list_to_map c !! k) eqn:E. Qed.
Next Obligation.
  intros size k c. unfold ll_get. destruct (list_to_map c !! k) as [v|] eqn:E; [|done].
  cbn. apply map_eq. intros k'. destruct (decide (k = k')) as [->|Hne].
  - by rewrite lookup_insert_eq.
  - rewrite lookup_insert_ne by done. by apply ll_remove_lookup.
Qed.
Next Obligation. intros size k v c. cbn. apply lookup_insert_eq. Qed.
Next Obligation.
  intros size k v c k' v' Hne. cbn. rewrite lookup_insert_ne by done.
  intros Hk%ll_take_lookup. by rewrite ll_remove_lookup in Hk.
Qed.
End lru_list.

(** ** Lemmas shared by the clients *)

Section lru_all.
Context {K V C : Type} `{Countable K} `{!Lru K V C} (P : K -> V -> Prop).

Lemma lru_all_empty : lru_all P lru_empty.
Proof. intros k v. by rewrite lru_map_empty, lookup_empty. Qed.

Lemma lru_all_get k c : lru_all P c -> lru_all P (snd (lru_get k c)).
Proof. intros Hc k' v. rewrite lru_get_map. apply Hc. Qed.

Lemma lru_all_hit k c v : lru_all P c -> fst (lru_get k c) = Some v -> P k v.
Proof. rewrite lru_get_value. eauto. Qed.

Lemma lru_all_add k v c : lru_all P c -> P k v -> lru_all P (lru_add k v c).
Proof.
  intros Hc Hp k' v'. destruct (decide (k = k')) as [->|Hne].
  - rewrite lru_add_stored. by intros [= <-].
  - intros ?%lru_add_others; eauto.
Qed.
End lru_all.

Create HintDb lru.
#[export] Hint Resolve lru_all_empty lru_all_get lru_all_add : lru.
