(* ===== verification/EraFormat.v ===== *)
(** * Package [era], record format ([pkg/era/format.go])

    The e2store records of an ERA file and the slot field of an SSZ
    [SignedBeaconBlock].  An [io.Reader] over a file is the list of the bytes not
    yet read.  [extractSlotFromSignedBeaconBlockSSZ] is also the function of the
    same name of [pkg/beaconapi/blockinfo.go], which repeats it verbatim. *)

From S2P Require Import Prelude Bytes.

(** ** Constants and data *)

Abbreviation typeVersion := 12901%N.  (* 0x3265 *)
Abbreviation typeCompressedSignedBeaconBlock := 1%N.
Abbreviation typeCompressedBeaconState := 2%N.
Abbreviation typeSlotIndex := 12905%N.  (* 0x3269 *)
Abbreviation typeEmpty := 0%N.
Abbreviation recordHeaderLen := 8%nat.
Abbreviation signedBeaconBlockMessageOffset := 100%nat.
Abbreviation slotSize := 8%nat.
Abbreviation SlotsPerEra := 8192%N.

Record recordHeader := mkHeader { recordType : N; recordLength : N }.

(** Every error of the package's parsing and indexing code. *)
Inductive era_error :=
| ErrHeaderTooShort (got : nat)
| ErrSSZTooShort (got : nat)
| ErrMessageOffset (got : N)
| ErrEraFileNotFound (era : N)
| ErrOpen (path : bytes)
| ErrMissingVersion (path : bytes)
| ErrExpectedVersion (got : N) (path : bytes)
| ErrVersionData (path : bytes)
| ErrBlockData (path : bytes) (off : N)
| ErrSnappy
| ErrDecompress (path : bytes) (off : N)
| ErrExtractSlot (path : bytes) (off : N) (e : era_error)
| ErrSkip (rtype : N) (path : bytes) (off : N)
| ErrSkipUnknown (rtype : N) (path : bytes) (off : N)
| ErrReadRecord (path : bytes) (off : N)
| ErrEraRange (startEra endEra : N)
| ErrStatCacheDir
| ErrNotADirectory.

(** ** Operations *)

Definition parseRecordHeader (header : bytes) : outcome era_error recordHeader :=
  if decide (length header < recordHeaderLen)%nat then Err (ErrHeaderTooShort (length header))
  else Ok (mkHeader (le_val (subslice 0 2 header)) (le_val (subslice 2 6 header))).

(** [io.ReadFull] of eight bytes: at the end of the file, or with fewer than eight
    bytes left (which it consumes), there is no header and no error. *)
Definition readRecordHeader (r : bytes) : outcome era_error (option recordHeader) * bytes :=
  if decide (length r < recordHeaderLen)%nat then (Ok None, [])
  else match parseRecordHeader (take recordHeaderLen r) with
       | Ok parsed => (Ok (Some parsed), drop recordHeaderLen r)
       | Err e => (Err e, drop recordHeaderLen r)
       | Panic => (Panic, drop recordHeaderLen r)
       end.

Definition EraNumberForSlot (slot : N) : N := u64_add (slot / SlotsPerEra) 1.

Definition extractSlotFromSignedBeaconBlockSSZ (ssz : bytes) : outcome era_error N :=
  if decide (length ssz < signedBeaconBlockMessageOffset + slotSize)%nat
  then Err (ErrSSZTooShort (length ssz))
  else
    let messageOffset := le_val (subslice 0 4 ssz) in
    if messageOffset =? N.of_nat signedBeaconBlockMessageOffset then
      Ok (le_val (subslice signedBeaconBlockMessageOffset
                    (signedBeaconBlockMessageOffset + slotSize) ssz))
    else Err (ErrMessageOffset messageOffset).

(** ** Specification: writing records *)

Record era_record := mkRecord { er_type : N; er_data : bytes }.

Definition record_ok (r : era_record) : Prop :=
  er_type r < 65536 /\ N.of_nat (length (er_data r)) < 4294967296.

Definition encode_record (r : era_record) : bytes :=
  le_encode 2 (er_type r) ++ le_encode 4 (N.of_nat (length (er_data r)))
    ++ [Byte.x00; Byte.x00] ++ er_data r.

(** The slots an ERA file covers: file 0 holds the genesis state only. *)
Definition era_covers (era slot : N) : Prop :=
  1 <= era /\ (era - 1) * SlotsPerEra <= slot <= era * SlotsPerEra - 1.

(** ** Lemmas *)

Lemma readRecordHeader_encode r rest :
  record_ok r ->
  readRecordHeader (encode_record r ++ rest)
  = (Ok (Some (mkHeader (er_type r) (N.of_nat (length (er_data r))))), er_data r ++ rest).
Proof.
  intros [Ht Hl]. unfold readRecordHeader.
  assert (Hlen : length (encode_record r ++ rest)
                 = (8 + length (er_data r) + length rest)%nat).
  { unfold encode_record. rewrite !length_app, !length_le_encode. cbn. lia. }
  rewrite decide_False by lia.
  assert (Hh : exists t l, le_encode 2 (er_type r) = t
    /\ le_encode 4 (N.of_nat (length (er_data r))) = l
    /\ length t = 2%nat /\ length l = 4%nat /\ le_val t = er_type r
    /\ le_val l = N.of_nat (length (er_data r))).
  { do 2 eexists. split_and!; [done|done|apply length_le_encode..| |];
      apply le_val_encode; cbn; lia. }
  destruct Hh as (t & l & Et & El & Lt & Ll & Vt & Vl).
  unfold encode_record. rewrite Et, El.
  destruct t as [|t0 [|t1 [|]]]; try done. destruct l as [|l0 [|l1 [|l2 [|l3 [|]]]]]; try done.
  cbn - [le_val]. unfold parseRecordHeader. cbn - [le_val].
  unfold subslice. cbn - [le_val]. by rewrite Vt, Vl.
Qed.

Lemma length_encode_record r : length (encode_record r) = (8 + length (er_data r))%nat.
Proof. unfold encode_record. rewrite !length_app, !length_le_encode. done. Qed.

(** A record is its eight header bytes followed by its data. *)
Lemma encode_record_split r : encode_record r = take 8 (encode_record r) ++ er_data r.
Proof.
  trans (take 8 (encode_record r) ++ drop 8 (encode_record r)); [by rewrite take_drop|].
  apply (f_equal (app _)). unfold encode_record. rewrite !app_assoc. by apply drop_app_length'.
Qed.

Lemma readRecordHeader_short r :
  (length r < 8)%nat -> readRecordHeader r = (Ok None, []).
Proof. intros. unfold readRecordHeader. by rewrite decide_True. Qed.

(** A header read is never a panic and consumes exactly eight bytes. *)
Lemma readRecordHeader_cases r :
  ((length r < 8)%nat /\ readRecordHeader r = (Ok None, []))
  \/ (8 <= length r)%nat
     /\ exists h, readRecordHeader r = (Ok (Some h), drop 8 r)
        /\ recordLength h < 4294967296.
Proof.
  unfold readRecordHeader. case_decide; [by left|right]. split; [lia|].
  unfold parseRecordHeader.
  rewrite decide_False by (rewrite length_take; lia).
  eexists. split; [done|]. cbn [recordLength].
  match goal with |- le_val ?l < _ => pose proof (le_val_lt l) as Hb; revert Hb end.
  rewrite length_subslice by (rewrite length_take; lia). cbn. lia.
Qed.

Lemma extractSlot_u64 ssz slot :
  extractSlotFromSignedBeaconBlockSSZ ssz = Ok slot -> u64 slot.
Proof.
  unfold extractSlotFromSignedBeaconBlockSSZ. case_decide; [done|]. case_match; [|done].
  intros [= <-]. match goal with |- u64 (le_val ?l) => pose proof (le_val_lt l) as Hb; revert Hb end.
  rewrite length_subslice by lia. cbn. u64_lia.
Qed.

(** ** Theorems *)

(** C8: [EraNumberForSlot] returns the one ERA file that covers the slot, for every
    [uint64] slot (the addition cannot wrap). *)
Theorem era_number_covers_slot (slot era : N) :
  u64 slot -> (EraNumberForSlot slot = era <-> era_covers era slot).
Proof.
  intros Hu. unfold EraNumberForSlot, era_covers. rewrite u64_add_small by u64_lia.
  split; [intros <-; lia|]. intros (? & ? & ?). lia.
Qed.

Lemma era_number_covers_slot_witness :
  EraNumberForSlot 8192 = 2 /\ era_covers 2 8192.
Proof.
  split; [reflexivity|]. apply (era_number_covers_slot 8192 2); [u64_lia|reflexivity].
Defined.
