(* ===== verification/EraReader.v ===== *)
(** * Package [era], file index and block reader ([pkg/era/reader.go])

    A cache directory is the map from file names to contents that [os.ReadDir] and
    [os.Open] see, [None] when the directory cannot be read; a path is the file's
    name inside it.  snappy is third-party code: [decompress] is a parameter,
    [None] for a decompression error.  The reader's state is its map of file
    indexes and its block cache (interface [Lru]); its mutex makes every operation
    below one atomic step. *)

From S2P Require Import Prelude Bytes Lru EraFormat.

(** ** Data *)

Record recordRef := mkRef { offset : N; reflen : N }.

Record eraIndex := mkIndex {
  path : bytes;
  blocks : gmap N recordRef;
  numRecs : N
}.

Abbreviation directory := (option (gmap bytes bytes)).

Record reader (C : Type) := mkReader {
  cacheDir : directory;
  eras : gmap N eraIndex;
  cache : C
}.
Arguments mkReader {C}.
Arguments cacheDir {C}.
Arguments eras {C}.
Arguments cache {C}.

(** ** Finding a file *)

Definition bytes_le (a b : bytes) : bool := negb (bytes_less b a).

(** [findCachedFile]: the first matching name in byte order; an unreadable
    directory is "not found" and no error. *)
Definition findCachedFile (dir : directory) (pattern : bytes) : option bytes :=
  match dir with
  | None => None
  | Some entries =>
      let names := filter (fun name => has_prefix name pattern && has_suffix name (str ".era"))
                     (fst <$> map_to_list entries) in
      head (sort_by bytes_less names)
  end.

(** [fmt.Sprintf("mainnet-%05d-", eraNumber)] *)
Definition eraFilePrefix (eraNumber : N) : bytes :=
  let digits := format_uint eraNumber in
  str "mainnet-" ++ replicate (5 - length digits) (to_byte 48) ++ digits ++ str "-".

Definition findEraFile (dir : directory) (eraNumber : N) : outcome era_error bytes :=
  match findCachedFile dir (eraFilePrefix eraNumber) with
  | Some path => Ok path
  | None => Err (ErrEraFileNotFound eraNumber)
  end.

Definition open (dir : directory) (path : bytes) : option bytes :=
  entries ← dir; entries !! path.

(** ** Indexing and reading *)

Section reader.
Context (decompress : bytes -> option bytes).

(** The loop over the records after the version record; each iteration consumes at
    least the eight bytes of a header. *)
Fixpoint index_records (fuel : nat) (p : bytes) (rest : bytes) (pos : N) (index : eraIndex)
    : outcome era_error eraIndex :=
  match fuel with
  | O => Panic
  | S fuel' =>
      match readRecordHeader rest with
      | (Err e, _) => Err e
      | (Panic, _) => Panic
      | (Ok None, _) => Ok index
      | (Ok (Some header), rest) =>
          let dataOffset := pos + 8 in
          let n := N.to_nat (recordLength header) in
          let numRecs' := numRecs index + 1 in
          if recordType header =? typeCompressedSignedBeaconBlock then
            if decide (length rest < n)%nat then Err (ErrBlockData p dataOffset)
            else
              match decompress (take n rest) with
              | None => Err (ErrDecompress p dataOffset)
              | Some ssz =>
                  match extractSlotFromSignedBeaconBlockSSZ ssz with
                  | Err e => Err (ErrExtractSlot p dataOffset e)
                  | Panic => Panic
                  | Ok slot =>
                      index_records fuel' p (drop n rest) (dataOffset + recordLength header)
                        (mkIndex (path index)
                           (<[slot := mkRef dataOffset (recordLength header)]> (blocks index))
                           numRecs')
                  end
              end
          else if decide (length rest < n)%nat then
            Err (if (recordType header =? typeCompressedBeaconState)
                    || (recordType header =? typeSlotIndex)
                    || (recordType header =? typeEmpty)
                 then ErrSkip (recordType header) p dataOffset
                 else ErrSkipUnknown (recordType header) p dataOffset)
          else
            index_records fuel' p (drop n rest) (dataOffset + recordLength header)
              (mkIndex (path index) (blocks index) numRecs')
      end
  end.

Definition index_file (p : bytes) (content : bytes) : outcome era_error eraIndex :=
  match readRecordHeader content with
  | (Err e, _) => Err e
  | (Panic, _) => Panic
  | (Ok None, _) => Err (ErrMissingVersion p)
  | (Ok (Some version), rest) =>
      if negb (recordType version =? typeVersion) then
        Err (ErrExpectedVersion (recordType version) p)
      else
        let n := N.to_nat (recordLength version) in
        if decide (length rest < n)%nat then Err (ErrVersionData p)
        else index_records (S (length content)) p (drop n rest) (8 + recordLength version)
               (mkIndex p ∅ 0)
  end.

Definition buildEraIndex (dir : directory) (eraNumber : N) : outcome era_error eraIndex :=
  p ← findEraFile dir eraNumber;
  match open dir p with
  | None => Err (ErrOpen p)
  | Some content => index_file p content
  end.

(** [file.ReadAt]: all the bytes of the reference or an error. *)
Definition read_at (p : bytes) (content : bytes) (ref : recordRef) : outcome era_error bytes :=
  let lo := N.to_nat (offset ref) in
  let hi := (lo + N.to_nat (reflen ref))%nat in
  if decide ((hi <= length content)%nat \/ reflen ref = 0) then Ok (subslice lo hi content)
  else Err (ErrReadRecord p (offset ref)).

Definition readRecordDataAt (dir : directory) (p : bytes) (ref : recordRef)
    : outcome era_error bytes :=
  match open dir p with
  | None => Err (ErrOpen p)
  | Some content => read_at p content ref
  end.

Definition decompressSnappy (data : bytes) : outcome era_error bytes :=
  match decompress data with Some d => Ok d | None => Err ErrSnappy end.

(** ** The reader's operations *)

Context {C : Type} {L : Lru N bytes C}.

(** [os.Stat] of the cache path: [None] on error, else whether it is a directory. *)
Definition New (stat : option bool) (dir : directory) : outcome era_error (reader C) :=
  match stat with
  | None => Err ErrStatCacheDir
  | Some false => Err ErrNotADirectory
  | Some true => Ok (mkReader dir ∅ lru_empty)
  end.

Definition ensureEraIndexLocked (eraNumber : N) (r : reader C)
    : outcome era_error eraIndex * reader C :=
  match eras r !! eraNumber with
  | Some index => (Ok index, r)
  | None =>
      match buildEraIndex (cacheDir r) eraNumber with
      | Ok index => (Ok index, mkReader (cacheDir r) (<[eraNumber := index]> (eras r)) (cache r))
      | Err e => (Err e, r)
      | Panic => (Panic, r)
      end
  end.

(** [cloneBytes] is the identity here: the model has no shared byte arrays. *)
Definition RawBlockSSZ (slot : N) (r : reader C) : outcome era_error (option bytes) * reader C :=
  let '(hit, cache') := lru_get slot (cache r) in
  let r := mkReader (cacheDir r) (eras r) cache' in
  match hit with
  | Some cached => (Ok (Some cached), r)
  | None =>
      match ensureEraIndexLocked (EraNumberForSlot slot) r with
      | (Err e, r) => (Err e, r)
      | (Panic, r) => (Panic, r)
      | (Ok index, r) =>
          match blocks index !! slot with
          | None => (Ok None, r)
          | Some ref =>
              match compressed ← readRecordDataAt (cacheDir r) (path index) ref;
                    decompressSnappy compressed with
              | Err e => (Err e, r)
              | Panic => (Panic, r)
              | Ok ssz =>
                  (Ok (Some ssz), mkReader (cacheDir r) (eras r) (lru_add slot ssz (cache r)))
              end
          end
      end
  end.

Definition BlockExists (slot : N) (r : reader C) : outcome era_error bool * reader C :=
  match ensureEraIndexLocked (EraNumberForSlot slot) r with
  | (Ok index, r) => (Ok (bool_decide (is_Some (blocks index !! slot))), r)
  | (Err e, r) => (Err e, r)
  | (Panic, r) => (Panic, r)
  end.

(** [for eraNumber := startEra; ; eraNumber++ { ...; if eraNumber == endEra break }] *)
Fixpoint preload_loop (fuel : nat) (eraNumber endEra : N) (r : reader C)
    : outcome era_error unit * reader C :=
  match ensureEraIndexLocked eraNumber r with
  | (Err e, r) => (Err e, r)
  | (Panic, r) => (Panic, r)
  | (Ok _, r) =>
      if eraNumber =? endEra then (Ok tt, r)
      else match fuel with
           | O => (Panic, r)
           | S fuel' => preload_loop fuel' (u64_add eraNumber 1) endEra r
           end
  end.

Definition PreloadEras (startEra endEra : N) (r : reader C)
    : outcome era_error unit * reader C :=
  if endEra <? startEra then (Err (ErrEraRange startEra endEra), r)
  else preload_loop (N.to_nat (endEra - startEra)) startEra endEra r.

(** ** Specification *)

(** The block a directory holds at a slot, with no reader state at all. *)
Definition era_block (dir : directory) (slot : N) : outcome era_error (option bytes) :=
  index ← buildEraIndex dir (EraNumberForSlot slot);
  match blocks index !! slot with
  | None => Ok None
  | Some ref =>
      compressed ← readRecordDataAt dir (path index) ref;
      ssz ← decompressSnappy compressed;
      Ok (Some ssz)
  end.

(** The slot under which a block record is indexed. *)
Definition record_slot (r : era_record) : option N :=
  if er_type r =? typeCompressedSignedBeaconBlock then
    ssz ← decompress (er_data r);
    match extractSlotFromSignedBeaconBlockSSZ ssz with Ok slot => Some slot | _ => None end
  else None.

(** Records the indexer accepts: every block record decodes to a slot. *)
Definition indexable (r : era_record) : Prop :=
  record_ok r
  /\ (er_type r = typeCompressedSignedBeaconBlock -> is_Some (record_slot r)).

(** The compressed block of each slot, the last record winning. *)
Definition era_blocks (recs : list era_record) : gmap N bytes :=
  foldl (fun m r => match record_slot r with
                    | Some slot => <[slot := er_data r]> m
                    | None => m
                    end) ∅ recs.

Definition encode_era (version : bytes) (recs : list era_record) (tail : bytes) : bytes :=
  encode_record (mkRecord typeVersion version) ++ concat (encode_record <$> recs) ++ tail.

(** The reader's caches agree with the directory. *)
Definition reader_ok (r : reader C) : Prop :=
  (forall n index, eras r !! n = Some index -> buildEraIndex (cacheDir r) n = Ok index)
  /\ lru_all (fun slot ssz => era_block (cacheDir r) slot = Ok (Some ssz)) (cache r).
End reader.

(** Samples for concrete instances: a toy compression (the identity) and a minimal block of the given slot. *)
Definition plain (data : bytes) : option bytes := Some data.
Definition sample_block (slot : N) : bytes :=
  le_encode 4 100 ++ replicate 96 Byte.x00 ++ le_encode 8 slot ++ [Byte.x2a].

(** ** Lemmas *)

Section lemmas.
Context (decompress : bytes -> option bytes).

(** A reference that reads back a block of the slot it is filed under. *)
Definition ref_ok (p content : bytes) (slot : N) (ref : recordRef) : Prop :=
  exists compressed ssz, read_at p content ref = Ok compressed
    /\ decompress compressed = Some ssz
    /\ extractSlotFromSignedBeaconBlockSSZ ssz = Ok slot.

Lemma read_at_mid p content pre data post off len :
  content = pre ++ data ++ post -> off = N.of_nat (length pre) ->
  len = N.of_nat (length data) -> read_at p content (mkRef off len) = Ok data.
Proof.
  intros -> -> ->. unfold read_at. cbn [offset reflen]. rewrite !Nat2N.id.
  rewrite decide_True by (rewrite !length_app; lia). by rewrite subslice_app.
Qed.

Lemma index_records_terminates fuel p rest pos index :
  (length rest < fuel)%nat -> index_records decompress fuel p rest pos index ≠ Panic.
Proof.
  revert rest pos index. induction fuel as [|fuel IH]; intros rest pos index Hf; [lia|].
  cbn [index_records].
  destruct (readRecordHeader_cases rest) as [[_ ->]|(Hl & h & -> & _)]; [done|].
  destruct (recordType h =? _).
  - case_decide; [done|]. destruct (decompress _) as [ssz|]; [|done].
    destruct (extractSlotFromSignedBeaconBlockSSZ ssz) eqn:E; [|done|].
    + apply IH. rewrite !length_drop. lia.
    + unfold extractSlotFromSignedBeaconBlockSSZ in E. by repeat case_match.
  - case_decide; [done|]. apply IH. rewrite !length_drop. lia.
Qed.

Lemma index_records_sound fuel p content pre rest pos index index' :
  content = pre ++ rest -> pos = N.of_nat (length pre) ->
  (forall slot ref, blocks index !! slot = Some ref -> ref_ok p content slot ref) ->
  index_records decompress fuel p rest pos index = Ok index' ->
  path index' = path index
  /\ forall slot ref, blocks index' !! slot = Some ref -> ref_ok p content slot ref.
Proof.
  revert pre rest pos index. induction fuel as [|fuel IH];
    intros pre rest pos index Hc Hpos Hok; [done|]. cbn [index_records].
  destruct (readRecordHeader_cases rest) as [[_ ->]|(Hl & h & -> & _)];
    [by intros [= <-]|].
  set (n := N.to_nat (recordLength h)).
  assert (Hrest : forall k, (k <= length (drop 8 rest))%nat ->
    content = (pre ++ take 8 rest ++ take k (drop 8 rest)) ++ drop k (drop 8 rest)
    /\ length (pre ++ take 8 rest ++ take k (drop 8 rest)) = (length pre + 8 + k)%nat).
  { intros k Hk. rewrite <- !app_assoc, !take_drop. split; [done|].
    rewrite !length_app, !length_take, length_drop. rewrite length_drop in Hk. lia. }
  destruct (recordType h =? _).
  - case_decide as Hd; [done|].
    destruct (decompress _) as [ssz|] eqn:Hz; [|done].
    destruct (extractSlotFromSignedBeaconBlockSSZ ssz) as [slot| |] eqn:E; try done.
    destruct (Hrest n ltac:(lia)) as [Hc' Hl'].
    intros HI. eapply IH in HI; [exact HI|exact Hc'|unfold n in *; lia|].
    cbn. intros slot' ref'. destruct (decide (slot = slot')) as [<-|?];
      [rewrite lookup_insert_eq|rewrite lookup_insert_ne by done; apply Hok].
    intros [= <-]. exists (take n (drop 8 rest)), ssz. split_and!; auto.
    eapply (read_at_mid _ _ (pre ++ take 8 rest) _ (drop n (drop 8 rest))).
    + by rewrite Hc', <- !app_assoc.
    + rewrite length_app, length_take. lia.
    + rewrite length_take. lia.
  - case_decide as Hd; [done|].
    destruct (Hrest n ltac:(lia)) as [Hc' Hl'].
    intros HI. eapply IH in HI; [exact HI|exact Hc'|unfold n in *; lia|]. by cbn.
Qed.

Lemma index_file_sound p content index :
  index_file decompress p content = Ok index ->
  path index = p /\ forall slot ref, blocks index !! slot = Some ref -> ref_ok p content slot ref.
Proof.
  unfold index_file.
  destruct (readRecordHeader_cases content) as [[_ ->]|(Hl & h & -> & _)]; [done|].
  destruct (recordType h =? _); cbn [negb]; [|done]. case_decide as Hd; [done|].
  intros HI. set (n := N.to_nat (recordLength h)) in *. eapply (index_records_sound _ _ content
    (take 8 content ++ take n (drop 8 content))) in HI.
  - exact HI.
  - by rewrite <- app_assoc, !take_drop.
  - rewrite length_app, !length_take. rewrite length_drop in *. lia.
  - cbn. intros ? ?. by rewrite lookup_empty.
Qed.

(** How an index relates to the blocks written so far. *)
Definition index_holds (p content : bytes) (index : eraIndex) (m : gmap N bytes) : Prop :=
  forall slot, match blocks index !! slot with
               | Some ref => exists d, m !! slot = Some d /\ read_at p content ref = Ok d
               | None => m !! slot = None
               end.

Lemma index_holds_insert p content index m slot ref d k :
  index_holds p content index m -> read_at p content ref = Ok d ->
  index_holds p content (mkIndex (path index) (<[slot := ref]> (blocks index)) k) (<[slot := d]> m).
Proof.
  intros Hm Hr slot'. cbn. destruct (decide (slot = slot')) as [<-|?].
  - rewrite !lookup_insert_eq. eauto.
  - rewrite !lookup_insert_ne by done. apply Hm.
Qed.

Lemma index_records_encode fuel p content pre recs tail pos index m :
  content = pre ++ concat (encode_record <$> recs) ++ tail ->
  pos = N.of_nat (length pre) -> (length tail < 8)%nat ->
  (length (concat (encode_record <$> recs) ++ tail) < fuel)%nat ->
  Forall (indexable decompress) recs -> index_holds p content index m ->
  exists index', index_records decompress fuel p (concat (encode_record <$> recs) ++ tail) pos index
                 = Ok index'
    /\ path index' = path index
    /\ numRecs index' = numRecs index + N.of_nat (length recs)
    /\ index_holds p content index'
         (foldl (fun m r => match record_slot decompress r with
                            | Some slot => <[slot := er_data r]> m
                            | None => m end) m recs).
Proof.
  intros Hc Hpos Ht. revert recs pre pos index m Hc Hpos.
  induction fuel as [|fuel IH]; intros recs pre pos index m Hc Hpos Hf Hrecs Hm; [lia|].
  destruct recs as [|r recs]; cbn [index_records fmap list_fmap concat].
  { rewrite readRecordHeader_short by done. exists index. cbn. split_and!; auto. lia. }
  apply Forall_cons in Hrecs as [[Hr Hs] Hrecs].
  rewrite <- app_assoc, readRecordHeader_encode by done. cbn [recordType recordLength].
  rewrite Nat2N.id.
  assert (Hd : ~ (length (er_data r ++ concat (encode_record <$> recs) ++ tail)
                  < length (er_data r))%nat) by (rewrite length_app; lia).
  rewrite drop_app_length, take_app_length.
  assert (Hpre : content = (pre ++ encode_record r) ++ concat (encode_record <$> recs) ++ tail).
  { rewrite Hc, fmap_cons. cbn [concat]. by rewrite <- !app_assoc. }
  assert (Hlen : N.of_nat (length (pre ++ encode_record r))
                 = pos + 8 + N.of_nat (length (er_data r))).
  { rewrite length_app, length_encode_record. lia. }
  assert (Hf' : (length (concat (encode_record <$> recs) ++ tail) < fuel)%nat).
  { rewrite fmap_cons in Hf; cbn [concat] in Hf. rewrite !length_app, length_encode_record in Hf. rewrite length_app. lia. }
  cbn [foldl].
  destruct (N.eqb_spec (er_type r) typeCompressedSignedBeaconBlock) as [Hty|Hty].
  - rewrite decide_False by done.
    destruct (Hs Hty) as [slot Hslot]. rewrite Hslot.
    unfold record_slot in Hslot. rewrite Hty in Hslot. cbn in Hslot.
    destruct (decompress (er_data r)) as [ssz|]; [cbn in Hslot|done].
    destruct (extractSlotFromSignedBeaconBlockSSZ ssz) as [s| |]; try done.
    injection Hslot as ->.
    edestruct (IH recs (pre ++ encode_record r) (pos + 8 + N.of_nat (length (er_data r)))
      (mkIndex (path index) (<[slot := mkRef (pos + 8)
      (N.of_nat (length (er_data r)))]> (blocks index)) (numRecs index + 1)))
      as (i' & -> & ? & Hn & ?); [exact Hpre|by symmetry|exact Hf'|done| |].
    + apply index_holds_insert; [exact Hm|].
      eapply (read_at_mid _ _ (pre ++ take 8 (encode_record r)) _
                (concat (encode_record <$> recs) ++ tail)); [|rewrite length_app, length_take,
        length_encode_record; lia|done].
      rewrite Hpre, (encode_record_split r) at 1. by rewrite <- !app_assoc.
    + exists i'. split_and!; auto. cbn in *. lia.
  - rewrite decide_False by done.
    assert (record_slot decompress r = None) as ->.
    { unfold record_slot. by rewrite (proj2 (N.eqb_neq _ _) Hty). }
    edestruct (IH recs (pre ++ encode_record r) (pos + 8 + N.of_nat (length (er_data r)))
      (mkIndex (path index) (blocks index) (numRecs index + 1)))
      as (i' & -> & ? & Hn & ?); [exact Hpre|by symmetry|exact Hf'|done|exact Hm|].
    exists i'. split_and!; auto. cbn in *. lia.
Qed.
End lemmas.

Section reader_lemmas.
Context (decompress : bytes -> option bytes) {C : Type} {L : Lru N bytes C}.

Lemma index_file_terminates p content : index_file decompress p content ≠ Panic.
Proof.
  unfold index_file.
  destruct (readRecordHeader_cases content) as [[_ ->]|(Hl & h & -> & _)]; [done|].
  case_match; [done|]. case_decide; [done|].
  apply index_records_terminates. rewrite !length_drop. lia.
Qed.

Lemma buildEraIndex_terminates dir n : buildEraIndex decompress dir n ≠ Panic.
Proof.
  unfold buildEraIndex, findEraFile, mbind, outcome_mbind.
  destruct (findCachedFile _ _); cbn; [|done].
  destruct (open _ _); [apply index_file_terminates|done].
Qed.

(** The interface the backend relies on: a block served for a slot is of that slot. *)
Lemma era_block_slot dir slot ssz :
  era_block decompress dir slot = Ok (Some ssz) ->
  extractSlotFromSignedBeaconBlockSSZ ssz = Ok slot.
Proof.
  unfold era_block. intros (index & Hb & H)%outcome_bind_Ok.
  destruct (blocks index !! slot) as [ref|] eqn:Href; [|done].
  apply outcome_bind_Ok in H as (z & Hz & (s & Hs & [= ->])%outcome_bind_Ok).
  unfold buildEraIndex in Hb. apply outcome_bind_Ok in Hb as (p & _ & Hb).
  destruct (open dir p) as [content|] eqn:Ho; [|done].
  destruct (index_file_sound _ _ _ _ Hb) as [Hp Hok].
  destruct (Hok _ _ Href) as (z' & s' & Hr & Hd & He).
  unfold readRecordDataAt in Hz. rewrite Hp, Ho in Hz.
  assert (z' = z) as -> by congruence.
  unfold decompressSnappy in Hs. rewrite Hd in Hs. congruence.
Qed.

Lemma New_ok stat dir r : New stat dir = Ok r -> reader_ok decompress r /\ cacheDir r = dir.
Proof.
  destruct stat as [[]|]; cbn; try done. intros [= <-]. split; [|done].
  split; [intros n i; cbn; by rewrite lookup_empty|cbn; auto with lru].
Qed.

Lemma ensureEraIndex_spec n (r : reader C) :
  reader_ok decompress r ->
  fst (ensureEraIndexLocked decompress n r) = buildEraIndex decompress (cacheDir r) n
  /\ reader_ok decompress (snd (ensureEraIndexLocked decompress n r))
  /\ cacheDir (snd (ensureEraIndexLocked decompress n r)) = cacheDir r.
Proof.
  intros [He Hc]. unfold ensureEraIndexLocked.
  destruct (eras r !! n) as [index|] eqn:Hn; [by rewrite (He _ _ Hn)|].
  destruct (buildEraIndex _ _ n) eqn:Hb; cbn; split_and!; try done. split; [|done].
  cbn. intros n' i. destruct (decide (n = n')) as [<-|?];
    [rewrite lookup_insert_eq; by intros [= <-]|rewrite lookup_insert_ne by done; apply He].
Qed.

Lemma ensureEraIndex_keeps n (r : reader C) m :
  is_Some (eras r !! m) ->
  eras (snd (ensureEraIndexLocked decompress n r)) !! m = eras r !! m.
Proof.
  unfold ensureEraIndexLocked. destruct (eras r !! n) as [i|] eqn:Hn; [done|].
  destruct (buildEraIndex _ _ n); cbn; try done.
  intros [i Hm]. rewrite lookup_insert_ne; [done|congruence].
Qed.

Lemma ensureEraIndex_stores n (r : reader C) index :
  fst (ensureEraIndexLocked decompress n r) = Ok index ->
  eras (snd (ensureEraIndexLocked decompress n r)) !! n = Some index.
Proof.
  unfold ensureEraIndexLocked. destruct (eras r !! n) as [i|] eqn:Hn; [by intros [= ->]|].
  destruct (buildEraIndex _ _ n); cbn; try done. intros [= ->]. apply lookup_insert_eq.
Qed.

Lemma preload_loop_spec fuel n endEra (r : reader C) :
  u64 endEra -> n <= endEra -> N.of_nat fuel = endEra - n -> reader_ok decompress r ->
  let '(o, r') := preload_loop decompress fuel n endEra r in
  o ≠ Panic /\ reader_ok decompress r'
  /\ (forall m, is_Some (eras r !! m) -> eras r' !! m = eras r !! m)
  /\ (o = Ok tt -> forall m, n <= m <= endEra -> is_Some (eras r' !! m)).
Proof.
  intros Hu. revert n r. induction fuel as [|fuel IH]; intros n r Hle Hf Hr; cbn [preload_loop];
    pose proof (ensureEraIndex_spec n r Hr) as (Hv & Hr' & Hd);
    pose proof (ensureEraIndex_keeps n r) as Hk;
    pose proof (ensureEraIndex_stores n r) as Hs;
    pose proof (buildEraIndex_terminates (cacheDir r) n) as Ht;
    destruct (ensureEraIndexLocked decompress n r) as [[index|e|] r1]; cbn in *;
    try (by split_and!); try congruence;
    specialize (Hs _ eq_refl).
  - replace (n =? endEra) with true by lia. split_and!; auto.
    intros _ m ?. replace m with n by lia. eauto.
  - destruct (N.eqb_spec n endEra) as [->|Hne].
    { split_and!; auto. intros _ m ?. replace m with endEra by lia. eauto. }
    rewrite u64_add_small by u64_lia.
    specialize (IH (n + 1) r1 ltac:(lia) ltac:(lia) Hr').
    destruct (preload_loop _ _ _ _ _) as [o r']. destruct IH as (? & ? & Hk' & Ho).
    split_and!; auto.
    + intros m Hm. rewrite Hk', Hk; auto. by rewrite Hk.
    + intros Hok m ?. destruct (decide (m = n)) as [->|].
      * rewrite Hk'; eauto.
      * apply Ho; auto. lia.
Qed.
Lemma BlockExists_spec slot (r : reader C) :
  reader_ok decompress r ->
  fst (BlockExists decompress slot r)
  = (index ← buildEraIndex decompress (cacheDir r) (EraNumberForSlot slot);
     Ok (bool_decide (is_Some (blocks index !! slot))))
  /\ reader_ok decompress (snd (BlockExists decompress slot r))
  /\ cacheDir (snd (BlockExists decompress slot r)) = cacheDir r.
Proof.
  intros Hr. unfold BlockExists.
  pose proof (ensureEraIndex_spec (EraNumberForSlot slot) r Hr) as (Hv & Hr' & Hd).
  rewrite <- Hv.
  destruct (ensureEraIndexLocked decompress (EraNumberForSlot slot) r) as [[i|e|] r2]; done.
Qed.

Lemma RawBlockSSZ_miss slot (r : reader C) :
  reader_ok decompress r -> fst (lru_get slot (cache r)) = None ->
  fst (RawBlockSSZ decompress slot r) = era_block decompress (cacheDir r) slot
  /\ reader_ok decompress (snd (RawBlockSSZ decompress slot r))
  /\ cacheDir (snd (RawBlockSSZ decompress slot r)) = cacheDir r.
Proof.
  intros [He Hc] Hmiss. unfold RawBlockSSZ.
  destruct (lru_get slot (cache r)) as [hit c'] eqn:Hget. cbn in Hmiss. subst hit.
  assert (Hr0 : reader_ok decompress (mkReader (cacheDir r) (eras r) c')).
  { split; [done|]. cbn. replace c' with (snd (lru_get slot (cache r))) by (by rewrite Hget).
    auto with lru. }
  pose proof (ensureEraIndex_spec (EraNumberForSlot slot) _ Hr0) as (Hv & Hr1 & Hd).
  cbn [cacheDir] in *.
  unfold era_block. rewrite <- Hv.
  destruct (ensureEraIndexLocked decompress (EraNumberForSlot slot) _) as [[index|e'|] r1];
    cbn in *; [|tauto..].
  destruct (blocks index !! slot) as [ref|] eqn:Href; [|tauto].
  rewrite Hd. destruct (readRecordDataAt _ _ _) as [z| |] eqn:Hz; cbn; [|tauto..].
  destruct (decompressSnappy decompress z) as [ssz| |] eqn:Hs; cbn; [|tauto..].
  destruct Hr1 as [He1 Hc1]. rewrite Hd in He1, Hc1. split; [done|]. split; [|done].
  split; [exact He1|]. cbn. apply lru_all_add; [exact Hc1|]. unfold era_block. rewrite <- Hv. cbn.
  rewrite Href. cbn. rewrite Hz. cbn. by rewrite Hs.
Qed.

Lemma RawBlockSSZ_spec slot (r : reader C) :
  reader_ok decompress r ->
  fst (RawBlockSSZ decompress slot r) = era_block decompress (cacheDir r) slot
  /\ reader_ok decompress (snd (RawBlockSSZ decompress slot r))
  /\ cacheDir (snd (RawBlockSSZ decompress slot r)) = cacheDir r.
Proof.
  intros Hr. destruct (fst (lru_get slot (cache r))) as [ssz|] eqn:Hhit;
    [|by apply RawBlockSSZ_miss].
  destruct Hr as [He Hc]. rewrite (lru_all_hit _ _ _ _ Hc Hhit). unfold RawBlockSSZ.
  pose proof (lru_all_get _ slot _ Hc) as Hc'.
  destruct (lru_get slot (cache r)) as [hit c']. cbn in Hhit. subst hit. done.
Qed.
End reader_lemmas.

(** ** Theorems *)

(** C9: round trip.  Index an ERA file written as a version record, any list of
    well-formed records and up to seven trailing bytes: the index has counted
    every record, and looking a slot up and reading its reference gives exactly
    the compressed block last written for that slot (and nothing for other slots). *)
Theorem era_index_roundtrip (decompress : bytes -> option bytes) (p version : bytes)
    (recs : list era_record) (tail : bytes) :
  record_ok (mkRecord typeVersion version) -> Forall (indexable decompress) recs ->
  (length tail < 8)%nat ->
  exists index, index_file decompress p (encode_era version recs tail) = Ok index
    /\ path index = p /\ numRecs index = N.of_nat (length recs)
    /\ forall slot, (read_at p (encode_era version recs tail) <$> blocks index !! slot)
                    = (Ok <$> era_blocks decompress recs !! slot).
Proof.
  intros Hv Hrecs Ht. unfold index_file, encode_era.
  rewrite readRecordHeader_encode by done. cbn [recordType recordLength negb er_type er_data].
  rewrite Nat2N.id, N.eqb_refl. cbn [negb].
  rewrite decide_False by (rewrite length_app; lia).
  rewrite drop_app_length.
  edestruct (index_records_encode decompress
    (S (length (encode_record (mkRecord typeVersion version) ++ concat (encode_record <$> recs)
        ++ tail))) p (encode_record (mkRecord typeVersion version)
      ++ concat (encode_record <$> recs) ++ tail)
    (encode_record (mkRecord typeVersion version)) recs tail
    (8 + N.of_nat (length version)) (mkIndex p ∅ 0) ∅) as (index & -> & Hp & Hn & Hh);
    [reflexivity| | | |exact Hrecs| |].
  - rewrite length_encode_record. cbn. lia.
  - done.
  - rewrite !length_app. lia.
  - intros slot. cbn. by rewrite !lookup_empty.
  - exists index. split; [done|]. split; [exact Hp|]. split; [cbn in Hn; lia|]. intros slot. specialize (Hh slot).
    fold (era_blocks decompress recs) in Hh.
    destruct (blocks index !! slot); cbn in *.
    + destruct Hh as (d & Hd & Hrd). rewrite Hd. cbn. by rewrite Hrd.
    + by rewrite Hh.
Qed.

Lemma era_index_roundtrip_witness :
  exists index, index_file plain (str "f.era")
      (encode_era [] [mkRecord 1 (sample_block 101); mkRecord 2 [Byte.x07];
                      mkRecord 1 (sample_block 103)] [Byte.x01]) = Ok index
    /\ path index = str "f.era" /\ numRecs index = 3
    /\ forall slot,
        (read_at (str "f.era") (encode_era [] [mkRecord 1 (sample_block 101);
            mkRecord 2 [Byte.x07]; mkRecord 1 (sample_block 103)] [Byte.x01])
           <$> blocks index !! slot)
        = (Ok <$> era_blocks plain [mkRecord 1 (sample_block 101); mkRecord 2 [Byte.x07];
                                    mkRecord 1 (sample_block 103)] !! slot).
Proof.
  apply (era_index_roundtrip plain (str "f.era") []
    [mkRecord 1 (sample_block 101); mkRecord 2 [Byte.x07]; mkRecord 1 (sample_block 103)]
    [Byte.x01]).
  - split; vm_compute; done.
  - repeat (constructor; [split; [split; vm_compute; done|vm_compute; eauto; done]|]).
    constructor.
  - cbn. lia.
Defined.

(** C10: indexing always terminates with a result or an error, and every reference
    of a successful index can be read back and decompresses to a block whose own
    slot field is the slot it is indexed under. *)
Theorem era_index_sound (decompress : bytes -> option bytes) (dir : directory) (n : N) :
  buildEraIndex decompress dir n ≠ Panic
  /\ forall index, buildEraIndex decompress dir n = Ok index ->
     forall slot ref, blocks index !! slot = Some ref ->
     exists compressed ssz, readRecordDataAt dir (path index) ref = Ok compressed
       /\ decompress compressed = Some ssz
       /\ extractSlotFromSignedBeaconBlockSSZ ssz = Ok slot.
Proof.
  split; [apply buildEraIndex_terminates|].
  unfold buildEraIndex. intros index (p & _ & Hb)%outcome_bind_Ok slot ref Href.
  destruct (open dir p) as [content|] eqn:Ho; [|done].
  destruct (index_file_sound _ _ _ _ Hb) as [Hp Hok].
  unfold readRecordDataAt. rewrite Hp, Ho. by apply Hok.
Qed.

(** C11: refinement.  As long as its caches agree with the directory, the caching
    reader answers [RawBlockSSZ] and [BlockExists] exactly as the stateless
    specification does, errors included, and its caches still agree afterwards. *)
Theorem reader_refines_directory (decompress : bytes -> option bytes) {C : Type}
    {L : Lru N bytes C} (slot : N) (r : reader C) :
  reader_ok decompress r ->
  let '(o, r') := RawBlockSSZ decompress slot r in
  let '(b, r'') := BlockExists decompress slot r in
  o = era_block decompress (cacheDir r) slot
  /\ reader_ok decompress r' /\ cacheDir r' = cacheDir r
  /\ b = (index ← buildEraIndex decompress (cacheDir r) (EraNumberForSlot slot);
          Ok (bool_decide (is_Some (blocks index !! slot))))
  /\ reader_ok decompress r'' /\ cacheDir r'' = cacheDir r.
Proof.
  intros Hr. pose proof (RawBlockSSZ_spec decompress slot r Hr) as Hraw.
  pose proof (BlockExists_spec decompress slot r Hr) as Hex.
  destruct (RawBlockSSZ _ _ _), (BlockExists _ _ _). cbn in *. naive_solver.
Qed.

Lemma reader_refines_directory_witness :
  let dir := Some {[str "mainnet-00001-a.era" := encode_era [] [mkRecord 1 (sample_block 101)] []]} in
  let r := mkReader dir ∅ [] : reader (list (N * bytes)) in
  fst (RawBlockSSZ (L := lru_list 64) plain 101 r) = Ok (Some (sample_block 101)).
Proof.
  cbn zeta. set (dir := Some _). set (r := mkReader dir ∅ []).
  pose proof (reader_refines_directory (L := lru_list 64) plain 101 r
    (proj1 (New_ok (L := lru_list 64) plain (Some true) dir r eq_refl))) as Ht.
  destruct (RawBlockSSZ (L := lru_list 64) plain 101 r) as [o r'].
  destruct (BlockExists plain 101 r) as [b r''].
  destruct Ht as (-> & _). vm_compute. reflexivity.
Defined.

(** C12: [PreloadEras] visits every era of the inclusive range exactly until the
    first failure: it always terminates (also when the range ends at the largest
    [uint64]), keeps the reader consistent and keeps what was loaded, and on
    success every era of the range is indexed. *)
Theorem preload_loads_every_era (decompress : bytes -> option bytes) {C : Type}
    {L : Lru N bytes C} (startEra endEra : N) (r : reader C) :
  u64 endEra -> reader_ok decompress r ->
  let '(o, r') := PreloadEras decompress startEra endEra r in
  o ≠ Panic /\ reader_ok decompress r'
  /\ (forall m, is_Some (eras r !! m) -> eras r' !! m = eras r !! m)
  /\ (o = Ok tt -> startEra <= endEra
      /\ forall m, startEra <= m <= endEra -> is_Some (eras r' !! m)).
Proof.
  intros Hu Hr. unfold PreloadEras. destruct (N.ltb_spec endEra startEra); [by split_and!|].
  pose proof (preload_loop_spec decompress (N.to_nat (endEra - startEra)) startEra endEra r Hu
    ltac:(lia) ltac:(lia) Hr) as H'.
  destruct (preload_loop _ _ _ _ _) as [o r']. destruct H' as (? & ? & ? & ?). split_and!; auto.
Qed.

Lemma preload_loads_every_era_witness :
  let dir := Some {[str "mainnet-00001-a.era" := encode_era [] [mkRecord 1 (sample_block 101)] []]} in
  let r := mkReader dir ∅ [] : reader (list (N * bytes)) in
  is_Some (eras (snd (PreloadEras plain 1 1 r)) !! 1).
Proof.
  cbn zeta. set (dir := Some _). set (r := mkReader dir ∅ []).
  pose proof (preload_loads_every_era (L := lru_list 64) plain 1 1 r ltac:(u64_lia)
    (proj1 (New_ok (L := lru_list 64) plain (Some true) dir r eq_refl))) as Ht.
  destruct (PreloadEras plain 1 1 r) as [o r'] eqn:E.
  destruct Ht as (_ & _ & _ & Ht). apply Ht; [|lia].
  change o with (fst (o, r')). rewrite <- E. vm_compute. reflexivity.
Defined.
