(* ===== verification/Sources.v ===== *)
(** * Interface of the canonical block source ([era.Reader] as the backend uses it)

    The backend reads canonical blocks through [Reader.RawBlockSSZ] alone.  The
    class [BlockSource] states what it relies on: the answers are a function of the
    slot that no call changes, a block returned for a slot carries that slot, and
    calls neither panic nor break the reader.  [reader_source] discharges it with
    the theorems of [EraReader]. *)

From S2P Require Import Prelude Bytes Lru EraFormat EraReader.

Class BlockSource (R : Type) := {
  raw_block : N -> R -> outcome era_error (option bytes) * R;
  source_ok : R -> Prop;
  (** what the source holds at each slot *)
  source_block : R -> N -> outcome era_error (option bytes);
  raw_block_result slot r :
    source_ok r -> fst (raw_block slot r) = source_block r slot;
  raw_block_ok slot r :
    source_ok r -> source_ok (snd (raw_block slot r));
  raw_block_stable slot r s :
    source_ok r -> source_block (snd (raw_block slot r)) s = source_block r s;
  source_block_slot r slot ssz :
    source_block r slot = Ok (Some ssz) -> extractSlotFromSignedBeaconBlockSSZ ssz = Ok slot;
  source_block_no_Panic r slot : source_block r slot ≠ Panic
}.

(** ** The ERA reader is such a source *)

Section reader_source.
Context (decompress : bytes -> option bytes) {C : Type} {L : Lru N bytes C}.

Lemma era_block_no_Panic dir slot : era_block decompress dir slot ≠ Panic.
Proof.
  unfold era_block. apply outcome_bind_no_Panic; [apply buildEraIndex_terminates|].
  intros index _. destruct (blocks index !! slot); [|done].
  apply outcome_bind_no_Panic.
  - unfold readRecordDataAt, read_at. repeat case_match; done.
  - intros z _. unfold decompressSnappy. by destruct (decompress z).
Qed.

#[export] Program Instance reader_source : BlockSource (reader C) := {|
  raw_block := RawBlockSSZ decompress;
  source_ok := reader_ok decompress;
  source_block := fun r => era_block decompress (cacheDir r)
|}.
Next Obligation. intros slot r Hr. by apply RawBlockSSZ_spec. Qed.
Next Obligation. intros slot r Hr. by apply RawBlockSSZ_spec. Qed.
Next Obligation.
  intros slot r s Hr. cbn. by destruct (RawBlockSSZ_spec decompress slot r Hr) as (_ & _ & ->).
Qed.
Next Obligation. intros r slot ssz. apply era_block_slot. Qed.
Next Obligation. intros r slot. apply era_block_no_Panic. Qed.
End reader_source.
