(* ===== verification/SlotRanges.v ===== *)
(** * Slot ranges ([pkg/beaconapi/realbackend.go]: [slotRange] and its list operations)

    The canonical block index keeps two lists of inclusive slot ranges: those
    already loaded, kept sorted, disjoint and merged when adjacent ([normal]), and
    those being loaded, kept sorted and disjoint ([disjoint_ranges]).  The list
    functions are the code's loops; their specifications speak of the sets of
    slots the lists denote ([covers]). *)

From S2P Require Import Prelude.

(** ** Saturating and checked additions *)

Definition checkedAdd (value delta : N) : option N :=
  if MaxUint64 - value <? delta then None else Some (u64_add value delta).

Definition saturatingAdd (value delta : N) : N :=
  if MaxUint64 - value <? delta then MaxUint64 else u64_add value delta.

(** ** Ranges *)

Record slotRange := mkRange { rfrom : N; rto : N }.

#[export] Instance slotRange_eq_dec : EqDecision slotRange.
Proof. solve_decision. Defined.

Abbreviation canonicalLoadChunkSize := 256%N.

Fixpoint rangeContainingSlot (ranges : list slotRange) (slot : N) : option slotRange :=
  match ranges with
  | [] => None
  | r :: ranges' =>
      if slot <? rfrom r then None
      else if slot <=? rto r then Some r
      else rangeContainingSlot ranges' slot
  end.

Definition rangeBefore (left right : slotRange) : bool :=
  if rto left =? MaxUint64 then false else u64_add (rto left) 1 <? rfrom right.

(** The loop of [addSlotRange]; the result is what it appends to [out]. *)
Fixpoint add_loop (ranges : list slotRange) (next : slotRange) (inserted : bool) : list slotRange :=
  match ranges with
  | [] => if inserted then [] else [next]
  | current :: ranges' =>
      if rangeBefore current next then current :: add_loop ranges' next inserted
      else if rangeBefore next current then
        (if inserted then [] else [next]) ++ current :: add_loop ranges' next true
      else
        let next := if rfrom current <? rfrom next then mkRange (rfrom current) (rto next) else next in
        let next := if rto next <? rto current then mkRange (rfrom next) (rto current) else next in
        add_loop ranges' next inserted
  end.

Definition addSlotRange (ranges : list slotRange) (next : slotRange) : list slotRange :=
  add_loop ranges next false.

Fixpoint insert_loop (ranges : list slotRange) (next : slotRange) (inserted : bool)
    : list slotRange :=
  match ranges with
  | [] => if inserted then [] else [next]
  | current :: ranges' =>
      if negb inserted && (rfrom next <? rfrom current) then
        next :: current :: insert_loop ranges' next true
      else current :: insert_loop ranges' next inserted
  end.

Definition insertSlotRange (ranges : list slotRange) (next : slotRange) : list slotRange :=
  insert_loop ranges next false.

Fixpoint removeSlotRange (ranges : list slotRange) (target : slotRange) : list slotRange :=
  match ranges with
  | [] => []
  | r :: ranges' =>
      if decide (r = target) then removeSlotRange ranges' target
      else r :: removeSlotRange ranges' target
  end.

(** ** The next gap to load *)

(** The three results of [nextGapLocked]: [ok = false], [wait], a gap. *)
Inductive gap_result := GapDone | GapWait | Gap (g : slotRange).

(** [for _, r := range loaded ++ loading { if r.from > slot && r.from-1 < gap.to ... }] *)
Definition clip_gap (slot : N) (to : N) (ranges : list slotRange) : N :=
  foldl (fun t r => if (slot <? rfrom r) && (u64_sub (rfrom r) 1 <? t)
                    then u64_sub (rfrom r) 1 else t) to ranges.

(** [if maxTo, ok := checkedAdd(slot, canonicalLoadChunkSize-1); ok && gap.to > maxTo]. *)
Definition limit_gap (slot gapTo : N) : N :=
  match checkedAdd slot (canonicalLoadChunkSize - 1) with
  | Some maxTo => if maxTo <? gapTo then maxTo else gapTo
  | None => gapTo
  end.

(** The loop of [nextGapLocked]; [None] is running out of fuel. *)
Fixpoint next_gap_loop (fuel : nat) (loaded loading : list slotRange) (slot to : N)
    : option gap_result :=
  match rangeContainingSlot loaded slot with
  | Some r =>
      if rto r =? MaxUint64 then Some GapDone
      else
        let slot := u64_add (rto r) 1 in
        if to <? slot then Some GapDone
        else match fuel with
             | O => None
             | S fuel' => next_gap_loop fuel' loaded loading slot to
             end
  | None =>
      match rangeContainingSlot loading slot with
      | Some _ => Some GapWait
      | None =>
          Some (Gap (mkRange slot (limit_gap slot (clip_gap slot to (loaded ++ loading)))))
      end
  end.

(** A pass over the loaded ranges visits each at most once. *)
Definition nextGapLocked (loaded loading : list slotRange) (from to : N) : option gap_result :=
  next_gap_loop (length loaded) loaded loading from to.

(** ** Specification *)

Definition in_range (r : slotRange) (x : N) : Prop := rfrom r <= x <= rto r.
Definition covers (ranges : list slotRange) (x : N) : Prop := exists r, r ∈ ranges /\ in_range r x.
Definition range_ok (r : slotRange) : Prop := rfrom r <= rto r /\ u64 (rto r).

(** Sorted and disjoint. *)
Definition before (a b : slotRange) : Prop := rto a < rfrom b.
Definition disjoint_ranges (ranges : list slotRange) : Prop :=
  Forall range_ok ranges /\ StronglySorted before ranges.

(** Sorted, disjoint and not adjacent: the normal form of a set of slots. *)
Definition apart (a b : slotRange) : Prop := rto a + 1 < rfrom b.
Definition normal (ranges : list slotRange) : Prop :=
  Forall range_ok ranges /\ StronglySorted apart ranges.

(** ** Lemmas: additions *)

Lemma checkedAdd_Some v d r : checkedAdd v d = Some r -> u64 v -> r = v + d /\ u64 (v + d).
Proof. unfold checkedAdd. case_ifs; intros [= <-] ?. bool_to_prop. u64_lia. Qed.

Lemma checkedAdd_spec v d :
  u64 v -> checkedAdd v d = if v + d <=? MaxUint64 then Some (v + d) else None.
Proof. intros. unfold checkedAdd. case_ifs; [|f_equal|f_equal|]; u64_lia. Qed.

Lemma saturatingAdd_spec v d : u64 v -> saturatingAdd v d = N.min (v + d) MaxUint64.
Proof. intros. unfold saturatingAdd. case_ifs; u64_lia. Qed.

(** ** Lemmas: ranges *)

Lemma covers_nil x : ~ covers [] x.
Proof. intros (r & Hr & _). by apply not_elem_of_nil in Hr. Qed.

Lemma covers_cons r rs x : covers (r :: rs) x <-> in_range r x \/ covers rs x.
Proof. unfold covers. setoid_rewrite elem_of_cons. naive_solver. Qed.

Lemma covers_app rs1 rs2 x : covers (rs1 ++ rs2) x <-> covers rs1 x \/ covers rs2 x.
Proof. unfold covers. setoid_rewrite elem_of_app. naive_solver. Qed.

Lemma normal_disjoint rs : normal rs -> disjoint_ranges rs.
Proof.
  intros [Hok Hs]. split; [done|]. eapply StronglySorted_impl; [|exact Hs].
  intros a b. unfold before, apart. lia.
Qed.

Lemma normal_nil : normal [].
Proof. split; constructor. Qed.

Lemma normal_cons_inv r rs : normal (r :: rs) -> range_ok r /\ Forall (apart r) rs /\ normal rs.
Proof. intros [[? ?]%Forall_cons [? ?]%StronglySorted_inv]. by split_and!. Qed.

Lemma normal_cons r rs : range_ok r -> Forall (apart r) rs -> normal rs -> normal (r :: rs).
Proof. intros ? ? [? ?]. split; by constructor. Qed.

Lemma disjoint_cons_inv r rs :
  disjoint_ranges (r :: rs) -> range_ok r /\ Forall (before r) rs /\ disjoint_ranges rs.
Proof. intros [[? ?]%Forall_cons [? ?]%StronglySorted_inv]. by split_and!. Qed.

Lemma rangeContainingSlot_Some rs x r :
  rangeContainingSlot rs x = Some r -> r ∈ rs /\ in_range r x.
Proof.
  induction rs as [|r' rs IH]; cbn; [done|]. case_ifs; bool_to_prop; intros Hx; simplify_eq.
  - split; [set_solver|]. unfold in_range. lia.
  - destruct (IH Hx). split; [set_solver|done].
Qed.

Lemma rangeContainingSlot_None rs x :
  disjoint_ranges rs -> rangeContainingSlot rs x = None -> ~ covers rs x.
Proof.
  induction rs as [|r rs IH]; [intros _ _; apply covers_nil|].
  intros (Hr & Hb & Hrs)%disjoint_cons_inv. cbn. rewrite covers_cons.
  case_ifs; bool_to_prop; [|done|].
  - intros _ [?|(r' & Hr' & ?)]; [unfold in_range in *; lia|].
    rewrite Forall_forall in Hb. specialize (Hb _ Hr'). unfold before, in_range, range_ok in *. lia.
  - intros Hx [?|?]; [unfold in_range in *; lia|by apply IH].
Qed.

Lemma rangeBefore_spec a b :
  u64 (rto a) -> u64 (rfrom b) -> rangeBefore a b = true <-> rto a + 1 < rfrom b.
Proof. intros. unfold rangeBefore. case_ifs; bool_to_prop; [u64_lia|]. rewrite N.ltb_lt. u64_lia. Qed.

(** [rangeBefore] as a reflection, for case analysis. *)
Lemma rangeBefore_reflect a b :
  u64 (rto a) -> u64 (rfrom b) -> BoolSpec (apart a b) (rfrom b <= rto a + 1) (rangeBefore a b).
Proof.
  intros. destruct (rangeBefore a b) eqn:E; constructor.
  - by apply rangeBefore_spec.
  - apply not_true_iff_false in E. rewrite rangeBefore_spec in E by done. lia.
Qed.

(** ** Lemmas: [addSlotRange] *)

Lemma add_loop_inserted rs next :
  Forall range_ok rs -> range_ok next -> Forall (apart next) rs -> add_loop rs next true = rs.
Proof.
  intros Hok [Hn Hu] Ha. induction rs as [|c rs IH]; [done|]. cbn.
  apply Forall_cons in Hok as [[Hc Hcu] Hok], Ha as [Hca Ha]. unfold apart in Hca.
  destruct (rangeBefore_reflect c next) as [Hb|Hb]; [u64_lia..|unfold apart in Hb; lia|].
  destruct (rangeBefore_reflect next c) as [Hb'|Hb']; [u64_lia..| |lia].
  cbn. f_equal. auto.
Qed.

Lemma add_loop_spec rs next :
  normal rs -> range_ok next ->
  normal (add_loop rs next false)
  /\ (forall x, covers (add_loop rs next false) x <-> covers rs x \/ in_range next x)
  /\ (forall r0, Forall (apart r0) rs -> apart r0 next ->
      Forall (apart r0) (add_loop rs next false)).
Proof.
  revert next. induction rs as [|c rs IH]; intros next Hrs Hn; cbn [add_loop].
  { split_and!; [apply normal_cons; auto using normal_nil| |auto].
    intros x. rewrite covers_cons. tauto. }
  apply normal_cons_inv in Hrs as (Hc & Hca & Hrs). pose proof Hc as [Hcle Hcu].
  pose proof Hn as [Hnle Hnu].
  destruct (rangeBefore_reflect c next) as [Hb|Hb]; [u64_lia..| |].
  - destruct (IH next Hrs Hn) as (HN & Hcov & Hap). split_and!.
    + apply normal_cons; auto.
    + intros x. rewrite !covers_cons, Hcov. tauto.
    + intros r0 [? ?]%Forall_cons ?. constructor; auto.
  - destruct (rangeBefore_reflect next c) as [Hb'|Hb']; [u64_lia..| |].
    + assert (Forall (apart next) rs) as Hnr.
      { eapply Forall_impl; [exact Hca|]. unfold apart, range_ok in *. lia. }
      cbn. rewrite add_loop_inserted by (done || apply Hrs). split_and!.
      * repeat apply normal_cons; auto.
      * intros x. rewrite !covers_cons. tauto.
      * intros r0 [? ?]%Forall_cons ?. repeat constructor; auto.
    + set (next' := if rto _ <? rto c then _ else _).
      assert (Hf : rfrom next' = N.min (rfrom c) (rfrom next)).
      { unfold next'. repeat (case_ifs; cbn in *); bool_to_prop; lia. }
      assert (Ht : rto next' = N.max (rto c) (rto next)).
      { unfold next'. repeat (case_ifs; cbn in *); bool_to_prop; lia. }
      destruct (IH next' Hrs) as (HN & Hcov & Hap); [unfold range_ok, u64 in *; lia|].
      split_and!; [done| |].
      * intros x. rewrite Hcov, covers_cons. unfold in_range. rewrite Hf, Ht.
        unfold range_ok in *. split; [|lia || (intros; destruct_or?; auto; right; lia)].
        intros [?|?]; [tauto|]. destruct (decide (rfrom c <= x <= rto c)); [tauto|].
        destruct (decide (rfrom next <= x <= rto next)); [tauto|]. lia.
      * intros r0 [? ?]%Forall_cons ?. apply Hap; [done|]. unfold apart in *. lia.
Qed.

(** ** Lemmas: the list of ranges being loaded *)

Lemma disjoint_cons r rs :
  range_ok r -> Forall (before r) rs -> disjoint_ranges rs -> disjoint_ranges (r :: rs).
Proof. intros ? ? [? ?]. split; by constructor. Qed.

Lemma insert_loop_inserted rs next : insert_loop rs next true = rs.
Proof. induction rs as [|c rs IH]; cbn; [done|]. by rewrite IH. Qed.

Lemma insertSlotRange_perm rs next : insertSlotRange rs next ≡ₚ next :: rs.
Proof.
  unfold insertSlotRange. induction rs as [|c rs IH]; cbn; [done|].
  destruct (rfrom next <? rfrom c); cbn.
  - by rewrite insert_loop_inserted.
  - rewrite IH. constructor.
Qed.

Lemma insertSlotRange_disjoint rs next :
  disjoint_ranges rs -> range_ok next ->
  (forall x, in_range next x -> ~ covers rs x) -> disjoint_ranges (insertSlotRange rs next).
Proof.
  unfold insertSlotRange. induction rs as [|c rs IH]; cbn; intros Hrs Hn Hd.
  { apply disjoint_cons; auto. }
  apply disjoint_cons_inv in Hrs as (Hc & Hb & Hrs). pose proof Hc as [Hcle _].
  pose proof Hn as [Hnle _].
  assert (~ (rfrom c <= rfrom next <= rto c)) as Hd1.
  { intros ?. apply (Hd (rfrom next)); [unfold in_range; lia|]. rewrite covers_cons.
    left. done. }
  assert (~ (rfrom next <= rfrom c <= rto next)) as Hd2.
  { intros ?. apply (Hd (rfrom c)); [done|]. rewrite covers_cons. left.
    unfold in_range. lia. }
  destruct (N.ltb_spec (rfrom next) (rfrom c)); cbn.
  - rewrite insert_loop_inserted. repeat apply disjoint_cons; auto.
    constructor; [unfold before; lia|]. eapply Forall_impl; [exact Hb|].
    unfold before. lia.
  - apply disjoint_cons; auto.
    + change (insert_loop rs next false) with (insertSlotRange rs next).
      rewrite insertSlotRange_perm. constructor; [unfold before; lia|done].
    + apply IH; auto. intros x Hx Hcov. apply (Hd x Hx). rewrite covers_cons. by right.
Qed.

Lemma elem_of_removeSlotRange rs target r :
  r ∈ removeSlotRange rs target <-> r ∈ rs /\ r ≠ target.
Proof.
  induction rs as [|r' rs IH]; cbn; [set_solver|].
  case_decide; rewrite ?elem_of_cons, IH; naive_solver.
Qed.

Lemma removeSlotRange_disjoint rs target :
  disjoint_ranges rs -> disjoint_ranges (removeSlotRange rs target).
Proof.
  induction rs as [|r rs IH]; cbn; [done|].
  intros (Hr & Hb & Hrs)%disjoint_cons_inv. case_decide; [auto|].
  apply disjoint_cons; auto. apply Forall_forall. intros r' [? _]%elem_of_removeSlotRange.
  rewrite Forall_forall in Hb. auto.
Qed.

(** ** Lemmas: the next gap *)

Lemma clip_gap_spec slot to rs :
  slot <= to -> Forall range_ok rs ->
  slot <= clip_gap slot to rs <= to
  /\ Forall (fun r => slot < rfrom r -> clip_gap slot to rs < rfrom r) rs.
Proof.
  unfold clip_gap. revert to. induction rs as [|r rs IH]; intros to Hle Hok; cbn.
  { split; [lia|constructor]. }
  apply Forall_cons in Hok as [[Hr Hu] Hok].
  assert (Hs : slot < rfrom r -> u64_sub (rfrom r) 1 = rfrom r - 1)
    by (intros; apply u64_sub_small; u64_lia).
  set (t := if _ && _ then _ else _).
  assert (slot <= t <= to /\ (slot < rfrom r -> t < rfrom r)) as [Ht Hlt].
  { unfold t. destruct (N.ltb_spec slot (rfrom r)); cbn; [|lia].
    rewrite Hs by lia. case_ifs; bool_to_prop; lia. }
  destruct (IH t ltac:(lia) Hok) as [Hb Hall]. split; [lia|]. constructor; [|done]. lia.
Qed.

Lemma not_covers_below rs x y :
  Forall range_ok rs -> ~ covers rs x ->
  Forall (fun r => x < rfrom r -> y < rfrom r) rs -> forall z, x <= z <= y -> ~ covers rs z.
Proof.
  intros _ Hx Hall z Hz (r & Hr & Hin). rewrite Forall_forall in Hall.
  specialize (Hall _ Hr). unfold in_range in *.
  destruct (decide (x < rfrom r)) as [Hlt|Hge]; [specialize (Hall Hlt); lia|].
  apply Hx. exists r. split; [done|]. unfold in_range. lia.
Qed.

(** What [nextGapLocked] promises about a request [[from, to]]. *)
Definition gap_spec (loaded loading : list slotRange) (from to : N) (g : gap_result) : Prop :=
  match g with
  | GapDone => forall x, from <= x <= to -> covers loaded x
  | GapWait => exists s, from <= s <= to /\ (forall x, from <= x < s -> covers loaded x)
                /\ ~ covers loaded s /\ covers loading s
  | Gap g => from <= rfrom g /\ rfrom g <= rto g <= to
             /\ (forall x, from <= x < rfrom g -> covers loaded x)
             /\ (forall x, in_range g x -> ~ covers loaded x /\ ~ covers loading x)
             /\ rto g - rfrom g < canonicalLoadChunkSize
  end.

Lemma limit_gap_spec slot t :
  slot <= t -> u64 t ->
  slot <= limit_gap slot t <= t /\ limit_gap slot t - slot < canonicalLoadChunkSize.
Proof.
  intros. unfold limit_gap. rewrite checkedAdd_spec by u64_lia.
  case_ifs; bool_to_prop; u64_lia.
Qed.

Lemma next_gap_at fuel loaded loading slot to :
  rangeContainingSlot loaded slot = None ->
  next_gap_loop fuel loaded loading slot to
  = Some (match rangeContainingSlot loading slot with
          | Some _ => GapWait
          | None => Gap (mkRange slot (limit_gap slot (clip_gap slot to (loaded ++ loading))))
          end).
Proof.
  intros H. destruct fuel; cbn [next_gap_loop]; rewrite H;
    by destruct (rangeContainingSlot loading slot).
Qed.

Lemma next_gap_free fuel loaded loading slot to :
  disjoint_ranges loaded -> disjoint_ranges loading -> slot <= to -> u64 to ->
  rangeContainingSlot loaded slot = None ->
  exists g, next_gap_loop fuel loaded loading slot to = Some g
    /\ gap_spec loaded loading slot to g /\ g ≠ GapDone.
Proof.
  intros Hd Hg Hle Hu Hfree. rewrite next_gap_at by done.
  pose proof (rangeContainingSlot_None _ _ Hd Hfree) as Hnl.
  eexists. split; [reflexivity|].
  destruct (rangeContainingSlot loading slot) as [r|] eqn:Hl; (split; [|done]).
  - apply rangeContainingSlot_Some in Hl as [Hr Hin].
    exists slot. split_and!; [lia|lia|lia|done|by exists r].
  - apply rangeContainingSlot_None in Hl; [|done].
    assert (Forall range_ok (loaded ++ loading)) as Hok.
    { apply Forall_app; split; [apply Hd|apply Hg]. }
    destruct (clip_gap_spec slot to (loaded ++ loading) Hle Hok) as [Hb Hall].
    destruct (limit_gap_spec slot (clip_gap slot to (loaded ++ loading))) as [Ht Hw];
      [lia|u64_lia|].
    assert (~ covers (loaded ++ loading) slot) as Hna by (rewrite covers_app; tauto).
    cbn. split_and!; try lia. intros x [Hx1 Hx2]. cbn in *.
    pose proof (not_covers_below _ _ _ Hok Hna Hall x ltac:(lia)) as Hx.
    rewrite covers_app in Hx. tauto.
Qed.

Lemma normal_next_free loaded slot r :
  normal loaded -> rangeContainingSlot loaded slot = Some r ->
  rangeContainingSlot loaded (rto r + 1) = None.
Proof.
  intros Hn Hr. destruct (rangeContainingSlot loaded (rto r + 1)) as [r'|] eqn:E; [|done].
  exfalso. apply rangeContainingSlot_Some in Hr as [Hr _], E as [Hr' [Hf Ht]].
  destruct Hn as [Hok Hs]. rewrite Forall_forall in Hok.
  destruct (Hok _ Hr) as [Hle _].
  apply list_elem_of_split in Hr as (l1 & l2 & ->).
  apply StronglySorted_mid in Hs as (H1 & H2 & _). rewrite Forall_forall in H1, H2.
  apply elem_of_app in Hr' as [Hr'|[->|Hr']%elem_of_cons].
  - specialize (H1 _ Hr'). unfold apart in H1. lia.
  - lia.
  - specialize (H2 _ Hr'). unfold apart in H2. lia.
Qed.

Lemma gap_spec_extend loaded loading from mid to g :
  from <= mid -> (forall x, from <= x < mid -> covers loaded x) ->
  gap_spec loaded loading mid to g -> gap_spec loaded loading from to g.
Proof.
  intros Hle Hcov. destruct g as [| |g]; cbn.
  - intros H x ?. destruct (decide (x < mid)); [apply Hcov|apply H]; lia.
  - intros (s & ? & H & ? & ?). exists s. split_and!; [lia|lia| |done|done].
    intros x ?. destruct (decide (x < mid)); [apply Hcov|apply H]; lia.
  - intros (? & ? & H & ? & ?). split_and!; [lia|lia|lia| |done|done].
    intros x ?. destruct (decide (x < mid)); [apply Hcov|apply H]; lia.
Qed.

(** ** Theorems *)

(** C13: [addSlotRange] keeps the list of loaded ranges in normal form (sorted,
    disjoint, never adjacent, within [uint64]) and adds exactly the slots of the
    new range to the set it denotes, whatever it overlaps or touches. *)
Theorem addSlotRange_union (ranges : list slotRange) (next : slotRange) :
  normal ranges -> range_ok next ->
  normal (addSlotRange ranges next)
  /\ forall x, covers (addSlotRange ranges next) x <-> covers ranges x \/ in_range next x.
Proof. intros Hn Hr. by destruct (add_loop_spec ranges next Hn Hr) as (? & ? & _). Qed.

Lemma addSlotRange_union_witness :
  addSlotRange [mkRange 1 4; mkRange 8 9; mkRange 20 30] (mkRange 5 19) = [mkRange 1 30]
  /\ normal (addSlotRange [mkRange 1 4; mkRange 8 9; mkRange 20 30] (mkRange 5 19)).
Proof.
  split; [reflexivity|].
  apply (addSlotRange_union [mkRange 1 4; mkRange 8 9; mkRange 20 30] (mkRange 5 19)).
  - split; repeat constructor; unfold apart; cbn; u64_lia.
  - split; cbn; u64_lia.
Defined.

(** C14: [nextGapLocked] always returns within one pass over the loaded ranges, and
    its answer is right: "done" only when all of [[from, to]] is loaded; "wait"
    only when the first slot that is not loaded is being loaded; otherwise a
    non-empty gap of at most 256 slots that begins at the first missing slot and
    meets no range loaded or being loaded. *)
Theorem nextGap_correct (loaded loading : list slotRange) (from to : N) :
  normal loaded -> disjoint_ranges loading -> from <= to -> u64 to ->
  exists g, nextGapLocked loaded loading from to = Some g /\ gap_spec loaded loading from to g.
Proof.
  intros Hn Hg Hle Hu. unfold nextGapLocked. pose proof (normal_disjoint _ Hn) as Hd.
  destruct (rangeContainingSlot loaded from) as [r|] eqn:Hr.
  - pose proof (normal_next_free _ _ _ Hn Hr) as Hfree.
    destruct (rangeContainingSlot_Some _ _ _ Hr) as [Hin [Hf Ht]].
    assert (Hok : range_ok r) by (destruct Hn as [Hok _]; rewrite Forall_forall in Hok; auto).
    destruct Hok as [_ Hru].
    assert (Hcov : forall x, from <= x < rto r + 1 -> covers loaded x).
    { intros x ?. exists r. split; [done|]. unfold in_range. lia. }
    destruct loaded as [|r0 rs]; [done|]. cbn [length]. cbn [next_gap_loop]. rewrite Hr.
    destruct (N.eqb_spec (rto r) MaxUint64).
    { exists GapDone. split; [done|]. cbn. intros x ?. apply Hcov. u64_lia. }
    rewrite u64_add_small by u64_lia.
    destruct (N.ltb_spec to (rto r + 1)).
    { exists GapDone. split; [done|]. cbn. intros x ?. apply Hcov. lia. }
    destruct (next_gap_free (length rs) (r0 :: rs) loading (rto r + 1) to) as (g & -> & Hs & _);
      auto.
    exists g. split; [done|]. eapply gap_spec_extend; [|exact Hcov|exact Hs]. lia.
  - destruct (next_gap_free (length loaded) loaded loading from to) as (g & -> & Hs & _);
      eauto.
Qed.

Lemma nextGap_correct_witness :
  nextGapLocked [mkRange 0 9] [mkRange 15 20] 5 40 = Some (Gap (mkRange 10 14))
  /\ gap_spec [mkRange 0 9] [mkRange 15 20] 5 40 (Gap (mkRange 10 14)).
Proof.
  split; [reflexivity|].
  destruct (nextGap_correct [mkRange 0 9] [mkRange 15 20] 5 40) as (g & Hg & Hs).
  - split; repeat constructor; cbn; u64_lia.
  - split; repeat constructor; cbn; u64_lia.
  - lia.
  - u64_lia.
  - vm_compute in Hg. injection Hg as <-. exact Hs.
Defined.
