(* ===== verification/BlockInfo.v ===== *)
(** * Decoded blocks ([pkg/beaconapi/blockinfo.go], [pkg/beaconapi/forkschedule.go])

    [parseBlockInfo] turns the SSZ bytes of a signed beacon block into the summary
    the planner works with.  The SSZ containers, hash tree roots and accessors are
    those of [attestantio/go-eth2-client]: third-party code, taken through the class
    [Eth2].  The slot itself is read by the repository's own code, see
    [EraFormat.extractSlotFromSignedBeaconBlockSSZ]. *)

From S2P Require Import Prelude Bytes EraFormat.

(** ** Data *)

Record attestationInfo := mkAttestation {
  a_Root : bytes;
  AggregationBits : bytes;
  CommitteeBits : option bytes;
  a_Slot : N;
  a_Index : N;
  BeaconBlockRoot : bytes;
  SourceEpoch : N;
  SourceRoot : bytes;
  TargetEpoch : N;
  TargetRoot : bytes;
  AttestingIndices : list N
}.

Record blockInfo := mkBlockInfo {
  Slot : N;
  Root : bytes;
  ParentRoot : bytes;
  Attestations : list attestationInfo
}.

(** The seven named values of [eth2spec.DataVersion] the code switches on, and any
    other value. *)
Inductive DataVersion :=
| DataVersionPhase0 | DataVersionAltair | DataVersionBellatrix | DataVersionCapella
| DataVersionDeneb | DataVersionElectra | DataVersionFulu
| DataVersionOther (n : N).

(** The packages whose [SignedBeaconBlock] is decoded. *)
Inductive container := Phase0 | Altair | Bellatrix | Capella | Deneb | Electra.

(** [VersionedSignedBeaconBlock]: the version and the one field that is set,
    named by the version it belongs to. *)
Record VersionedSignedBeaconBlock (block : Type) := mkVersioned {
  Version : DataVersion;
  field : DataVersion;
  field_container : container;
  field_block : block
}.
Arguments mkVersioned {block}.

(** [phase0.Checkpoint] and [phase0.AttestationData], with their nillable parts. *)
Record Checkpoint := mkCheckpoint { cp_Epoch : N; cp_Root : bytes }.
Record AttestationData := mkAttData {
  d_Slot : N;
  d_Index : N;
  d_BeaconBlockRoot : bytes;
  d_Source : option Checkpoint;
  d_Target : option Checkpoint
}.

(** The errors of [package beaconapi] that the model tells apart. *)
Inductive beacon_error :=
| ErrNotFound
| EEra (e : era_error)
| EDataVersion (slot : N)
| EDecode (version : DataVersion)
| EUnsupportedVersion (version : DataVersion)
| EBlockRoot (slot : N)
| EParentRoot (slot : N)
| EAttestations (slot : N)
| EAttestationRoot (slot : N)
| EAggregationBits (slot : N)
| EAttestationData (slot : N)
| EAttestationNil (slot : N)
| EParseCanonical (slot : N) (e : beacon_error)
| EParseArchive (root : bytes) (e : beacon_error)
| ERootMismatch (want got : bytes)
| EArchive
| EFirstSeen
| EEraReaderNotConfigured
| EFirstSeenNotConfigured
| EFromAfterTo (from to : N)
| ESimSlot (simSlot warmupStartSlot : N)
| ELookaheadCap
| EUnsupportedMode
| EWarmupIncrement (warmupStartSlot : N)
| ESourceNotCanonical (slot : N)
| EIndexRoot (slot : N)
| ESlotMismatch (root : bytes) (want got : N).

(** [errors.Is(err, ErrNotFound)]: looks through the errors wrapped with [%w]. *)
Fixpoint is_not_found (e : beacon_error) : bool :=
  match e with
  | ErrNotFound => true
  | EParseCanonical _ e | EParseArchive _ e => is_not_found e
  | _ => false
  end.

(** ** go-eth2-client *)

Class Eth2 := {
  eth2_block : Type;
  eth2_attestation : Type;
  (** [eth2spec.DataVersionFromString] *)
  DataVersionFromString : bytes -> option DataVersion;
  (** [(&pkg.SignedBeaconBlock{}).UnmarshalSSZ] *)
  UnmarshalSSZ : container -> bytes -> option eth2_block;
  (** the accessors of [VersionedSignedBeaconBlock] *)
  block_Root : VersionedSignedBeaconBlock eth2_block -> option bytes;
  block_ParentRoot : VersionedSignedBeaconBlock eth2_block -> option bytes;
  block_Attestations : VersionedSignedBeaconBlock eth2_block -> option (list eth2_attestation);
  (** the accessors of [VersionedAttestation] *)
  att_HashTreeRoot : eth2_attestation -> option bytes;
  att_AggregationBits : eth2_attestation -> option bytes;
  att_CommitteeBits : eth2_attestation -> option bytes;
  (** [None]: an error; [Some None]: a nil pointer *)
  att_Data : eth2_attestation -> option (option AttestationData)
}.

(** ** Operations *)

(** [formatRoot] and [bytesHex] *)
Definition bytesHex (data : bytes) : bytes := str "0x" ++ hex_encode data.

(** [strings.ToLower] on ASCII text. *)
Definition lower_byte (c : byte) : byte :=
  let v := byte_val c in if (65 <=? v) && (v <=? 90) then to_byte (v + 32) else c.
Definition to_lower (s : bytes) : bytes := lower_byte <$> s.

Definition MainnetForkAtSlot (slot : N) : bytes :=
  if 11649024 <=? slot then str "electra"
  else if 8626176 <=? slot then str "deneb"
  else if 6209536 <=? slot then str "capella"
  else if 4636672 <=? slot then str "bellatrix"
  else if 2375680 <=? slot then str "altair"
  else str "phase0".

(** The value of an optional result, or the error. *)
Definition or_err {E A} (e : E) (o : option A) : outcome E A :=
  match o with Some a => Ok a | None => Err e end.

Section parse.
Context {E2 : Eth2}.

Definition decode_as (version : DataVersion) (c : container) (ssz : bytes)
    : outcome beacon_error (VersionedSignedBeaconBlock eth2_block) :=
  block ← or_err (EDecode version) (UnmarshalSSZ c ssz);
  Ok (mkVersioned version version c block).

(** A Fulu block has Electra's container. *)
Definition decodeSignedBeaconBlockSSZ (ssz : bytes) (version : DataVersion)
    : outcome beacon_error (VersionedSignedBeaconBlock eth2_block) :=
  match version with
  | DataVersionPhase0 => decode_as version Phase0 ssz
  | DataVersionAltair => decode_as version Altair ssz
  | DataVersionBellatrix => decode_as version Bellatrix ssz
  | DataVersionCapella => decode_as version Capella ssz
  | DataVersionDeneb => decode_as version Deneb ssz
  | DataVersionElectra => decode_as version Electra ssz
  | DataVersionFulu => decode_as version Electra ssz
  | DataVersionOther _ => Err (EUnsupportedVersion version)
  end.

(** The body of the loop over the attestations of a block at [slot].  A failing
    [CommitteeBits] is not an error: attestations before Electra have none. *)
Definition attestation_info (slot : N) (attestation : eth2_attestation)
    : outcome beacon_error attestationInfo :=
  root ← or_err (EAttestationRoot slot) (att_HashTreeRoot attestation);
  aggregationBits ← or_err (EAggregationBits slot) (att_AggregationBits attestation);
  let committeeBits := bytesHex <$> att_CommitteeBits attestation in
  data ← or_err (EAttestationData slot) (att_Data attestation);
  match data with
  | Some (mkAttData dslot index bbr (Some source) (Some target)) =>
      Ok (mkAttestation root (bytesHex aggregationBits) committeeBits dslot index bbr
            (cp_Epoch source) (cp_Root source) (cp_Epoch target) (cp_Root target) [])
  | _ => Err (EAttestationNil slot)
  end.

Fixpoint attestation_infos (slot : N) (attestations : list eth2_attestation)
    : outcome beacon_error (list attestationInfo) :=
  match attestations with
  | [] => Ok []
  | attestation :: rest =>
      info ← attestation_info slot attestation;
      infos ← attestation_infos slot rest;
      Ok (info :: infos)
  end.

Definition parseBlockInfo (ssz : bytes) (forkAtSlot : N -> bytes)
    : outcome beacon_error blockInfo :=
  match extractSlotFromSignedBeaconBlockSSZ ssz with
  | Err e => Err (EEra e)
  | Panic => Panic
  | Ok slot =>
      version ← or_err (EDataVersion slot) (DataVersionFromString (to_lower (forkAtSlot slot)));
      block ← decodeSignedBeaconBlockSSZ ssz version;
      root ← or_err (EBlockRoot slot) (block_Root block);
      parentRoot ← or_err (EParentRoot slot) (block_ParentRoot block);
      attestations ← or_err (EAttestations slot) (block_Attestations block);
      infos ← attestation_infos slot attestations;
      Ok (mkBlockInfo slot root parentRoot infos)
  end.

(** ** Lemmas *)

Lemma or_err_Ok {E A} (e : E) (o : option A) a : or_err e o = Ok a <-> o = Some a.
Proof. destruct o; cbn; naive_solver. Qed.

Lemma or_err_Panic {E A} (e : E) (o : option A) : or_err e o ≠ Panic.
Proof. by destruct o. Qed.

Lemma parseBlockInfo_Slot ssz fork info :
  parseBlockInfo ssz fork = Ok info -> extractSlotFromSignedBeaconBlockSSZ ssz = Ok (Slot info).
Proof.
  unfold parseBlockInfo. destruct (extractSlotFromSignedBeaconBlockSSZ ssz) as [slot| |]; try done.
  intros H. outcome_inv.
  by injection H as <-.
Qed.
End parse.
