(* ===== verification/Samples.v ===== *)
(** * Sample instances

    Concrete values for the parameters of the development, used to evaluate the
    definitions on small inputs: a toy [go-eth2-client] whose SSZ blocks carry one
    byte per root after the slot field, and a cache directory with one ERA file. *)

From S2P Require Import Prelude Bytes Lru EraFormat EraReader BlockInfo.

(** The 32-byte root named by one byte; byte 0 is the zero root. *)
Definition toy_root (b : byte) : bytes := b :: replicate 31 Byte.x00.

(** A block's tail: its root, its parent's root, then four bytes per attestation
    (root, slot, target, head). *)
Definition toy_block (slot : N) (tail : bytes) : bytes :=
  le_encode 4 100 ++ replicate 96 Byte.x00 ++ le_encode 8 slot ++ tail.

Definition toy_version (s : bytes) : option DataVersion :=
  if decide (s = str "phase0") then Some DataVersionPhase0
  else if decide (s = str "fulu") then Some DataVersionFulu else None.

Fixpoint toy_attestations (s : bytes) : list (byte * byte * byte * byte) :=
  match s with
  | a :: b :: c :: d :: s' => (a, b, c, d) :: toy_attestations s'
  | _ => []
  end.

#[export] Instance toy_eth2 : Eth2 := {|
  eth2_block := bytes;
  eth2_attestation := byte * byte * byte * byte;
  DataVersionFromString := toy_version;
  UnmarshalSSZ := fun _ s => Some s;
  block_Root := fun v => toy_root <$> field_block _ v !! 108%nat;
  block_ParentRoot := fun v => toy_root <$> field_block _ v !! 109%nat;
  block_Attestations := fun v => Some (toy_attestations (drop 110 (field_block _ v)));
  att_HashTreeRoot := fun a => Some (toy_root (a.1.1.1));
  att_AggregationBits := fun a => Some [];
  att_CommitteeBits := fun a => None;
  att_Data := fun a =>
    Some (Some (mkAttData (byte_val (a.1.1.2)) 0 (toy_root a.2)
                  (Some (mkCheckpoint 0 zero_root)) (Some (mkCheckpoint 1 (toy_root (a.1.2))))))
|}.

(** Canonical blocks at slots 101, 103 and 104; 102 is missed.  The block of 103
    carries an attestation for the head [0x99], which is not canonical. *)
Definition toy_dir : directory :=
  Some {[str "mainnet-00001-a.era" := encode_era []
    [mkRecord 1 (toy_block 101 [Byte.x11; Byte.x10]);
     mkRecord 1 (toy_block 103 [Byte.x13; Byte.x11;
        Byte.x51; Byte.x66; Byte.x11; Byte.x99; Byte.x52; Byte.x65; Byte.x11; Byte.x11]);
     mkRecord 1 (toy_block 104 [Byte.x14; Byte.x13; Byte.x52; Byte.x65; Byte.x11; Byte.x11])] []]}.

Definition toy_reader : reader (list (N * bytes)) := mkReader toy_dir ∅ [].

Lemma toy_reader_ok : reader_ok (L := lru_list 64) plain toy_reader.
Proof. exact (proj1 (New_ok (L := lru_list 64) plain (Some true) toy_dir toy_reader eq_refl)). Qed.
