(* ===== verification/CanonicalIndex.v ===== *)
(** * The canonical block index ([pkg/beaconapi/realbackend.go], [canonicalBlockIndex])

    The index decodes canonical blocks of the ERA source on demand and is shared by
    all HTTP handlers.  [ensureRange] claims the next gap of a request under the
    mutex, loads it without the mutex, and publishes the result under the mutex
    again.  This file models the data, the decoding caches and the operations as
    one goroutine runs them; [IndexConcurrent] interleaves many. *)

From S2P Require Import Prelude Bytes Lru EraFormat EraReader Sources SlotRanges BlockInfo Samples.

(** ** State *)

Record canonicalBlockIndex := mkCIndex {
  loaded : list slotRange;
  loading : list slotRange;
  bySlot : gmap N blockInfo;
  byRoot : gmap bytes blockInfo
}.

Definition newCanonicalBlockIndex : canonicalBlockIndex := mkCIndex [] [] ∅ ∅.

(** The part of [realBackend] the index works on: the ERA reader ([None] for nil),
    the decoded-block caches ([None] when disabled) and the index. *)
Record istate (R CS CR : Type) := mkI {
  era : option R;
  decodedBySlot : option CS;
  decodedByRoot : option CR;
  canonicalIndex : canonicalBlockIndex
}.
Arguments mkI {R CS CR}.
Arguments era {R CS CR}.
Arguments decodedBySlot {R CS CR}.
Arguments decodedByRoot {R CS CR}.
Arguments canonicalIndex {R CS CR}.

Definition set_index {R CS CR} (i : canonicalBlockIndex) (st : istate R CS CR) : istate R CS CR :=
  mkI (era st) (decodedBySlot st) (decodedByRoot st) i.

(** [if cache != nil { cache.Get(k) }] and [if cache != nil { cache.Add(k, v) }] *)
Definition get_opt {K V C} `{Countable K} `{!Lru K V C} (k : K) (c : option C)
    : option V * option C :=
  match c with
  | None => (None, None)
  | Some c => let '(v, c') := lru_get k c in (v, Some c')
  end.

Definition add_opt {K V C} `{Countable K} `{!Lru K V C} (k : K) (v : V) (c : option C) : option C :=
  lru_add k v <$> c.

(** [fmt.Errorf("...: %w", err)] *)
Definition st_wrap {S E A} (f : E -> E) (m : stateM S E A) : stateM S E A :=
  fun st => match m st with (Err e, st') => (Err (f e), st') | r => r end.

(** The part of [NewRealBackend] that builds this state. *)
Definition newState {R CS CR : Type} `{!Lru N blockInfo CS} `{!Lru bytes blockInfo CR}
    (reader : option R) (cacheSize : Z) : istate R CS CR :=
  if (0 <? cacheSize)%Z
  then mkI reader (Some lru_empty) (Some lru_empty) newCanonicalBlockIndex
  else mkI reader None None newCanonicalBlockIndex.

(** ** Critical sections of the index *)

(** [i.loading = insertSlotRange(i.loading, gap)] *)
Definition claim (gap : slotRange) (i : canonicalBlockIndex) : canonicalBlockIndex :=
  mkCIndex (loaded i) (insertSlotRange (loading i) gap) (bySlot i) (byRoot i).

(** The section after the load: drop the claim and, on success, publish. *)
Definition publish (gap : slotRange) (result : option (list blockInfo)) (i : canonicalBlockIndex)
    : canonicalBlockIndex :=
  let loading' := removeSlotRange (loading i) gap in
  match result with
  | None => mkCIndex (loaded i) loading' (bySlot i) (byRoot i)
  | Some infos =>
      mkCIndex (addSlotRange (loaded i) gap) loading'
        (foldl (fun m info => <[Slot info := info]> m) (bySlot i) infos)
        (foldl (fun m info => <[Root info := info]> m) (byRoot i) infos)
  end.

Definition infoBySlot (i : canonicalBlockIndex) (slot : N) : option blockInfo := bySlot i !! slot.
Definition infoByRoot (i : canonicalBlockIndex) (root : bytes) : option blockInfo := byRoot i !! root.

(** The root map is filled in the map's iteration order, which matters only if two
    slots held blocks with the same root. *)
Definition snapshotRange (i : canonicalBlockIndex) (from to : N)
    : gmap N blockInfo * gmap bytes blockInfo :=
  let kept := filter (fun p => (p.1 <? from) || (to <? p.1) = false) (bySlot i) in
  (kept, foldl (fun m p => <[Root p.2 := p.2]> m) ∅ (map_to_list kept)).

(** ** Loading *)

Section index.
Context {E2 : Eth2} {R : Type} {BS : BlockSource R}.
Context {CS : Type} {LS : Lru N blockInfo CS} {CR : Type} {LR : Lru bytes blockInfo CR}.
(** [ConsensusVersionAtSlot] *)
Context (forkAtSlot : N -> bytes).

Abbreviation M := (stateM (istate R CS CR) beacon_error).

(** [b.cfg.EraReader.RawBlockSSZ(slot)]; a nil reader is a nil dereference. *)
Definition rawBlock (slot : N) : M (option bytes) := fun st =>
  match era st with
  | None => (Panic, st)
  | Some r =>
      let '(o, r') := raw_block slot r in
      (match o with Ok data => Ok data | Err e => Err (EEra e) | Panic => Panic end,
       mkI (Some r') (decodedBySlot st) (decodedByRoot st) (canonicalIndex st))
  end.

Definition decodeCanonicalBlockInfo (slot : N) (data : bytes) : M blockInfo := fun st =>
  let '(hit, c) := get_opt slot (decodedBySlot st) in
  let st := mkI (era st) c (decodedByRoot st) (canonicalIndex st) in
  match hit with
  | Some info => (Ok info, st)
  | None =>
      match parseBlockInfo data forkAtSlot with
      | Ok info =>
          (Ok info, mkI (era st) (add_opt slot info (decodedBySlot st))
                      (add_opt (Root info) info (decodedByRoot st)) (canonicalIndex st))
      | Err e => (Err e, st)
      | Panic => (Panic, st)
      end
  end.

Definition decodeBlockInfoByRoot (root data : bytes) : M blockInfo := fun st =>
  let '(hit, c) := get_opt root (decodedByRoot st) in
  let st := mkI (era st) (decodedBySlot st) c (canonicalIndex st) in
  match hit with
  | Some info => (Ok info, st)
  | None =>
      match parseBlockInfo data forkAtSlot with
      | Ok info =>
          if decide (Root info = root) then
            (Ok info, mkI (era st) (decodedBySlot st) (add_opt root info (decodedByRoot st))
                        (canonicalIndex st))
          else (Err (ERootMismatch root (Root info)), st)
      | Err e => (Err e, st)
      | Panic => (Panic, st)
      end
  end.

(** The second half of the body of [loadRange]'s loop. *)
Definition decode_slot (slot : N) (data : option bytes) : M (option blockInfo) :=
  match data with
  | None => mret None
  | Some data =>
      st_wrap (EParseCanonical slot)
        (info ← decodeCanonicalBlockInfo slot data; mret (Some info))
  end.

Definition load_slot (slot : N) : M (option blockInfo) :=
  data ← rawBlock slot; decode_slot slot data.

(** [if slot == r.to || slot == math.MaxUint64 { break }] *)
Definition last_slot (slot to : N) : bool := (slot =? to) || (slot =? MaxUint64).

Fixpoint load_loop (fuel : nat) (slot to : N) (infos : list blockInfo) : M (list blockInfo) :=
  info ← load_slot slot;
  let infos := infos ++ option_list info in
  if last_slot slot to then mret infos
  else match fuel with
       | O => st_lift Panic
       | S fuel' => load_loop fuel' (u64_add slot 1) to infos
       end.

Definition loadRange (r : slotRange) : M (list blockInfo) :=
  load_loop (N.to_nat (rto r - rfrom r)) (rfrom r) (rto r) [].

(** ** [ensureRange], run alone

    With nobody else loading, [cond.Wait] would block for ever: that case is
    [Panic], as is running out of fuel; [ensureRange_spec] excludes both. *)

Fixpoint ensure_loop (fuel : nat) (from to : N) : M unit := fun st =>
  let i := canonicalIndex st in
  match nextGapLocked (loaded i) (loading i) from to with
  | None | Some GapWait => (Panic, st)
  | Some GapDone => (Ok tt, st)
  | Some (Gap gap) =>
      match loadRange gap (set_index (claim gap i) st) with
      | (Ok infos, st') =>
          let st' := set_index (publish gap (Some infos) (canonicalIndex st')) st' in
          match fuel with
          | O => (Panic, st')
          | S fuel' => ensure_loop fuel' from to st'
          end
      | (Err e, st') => (Err e, set_index (publish gap None (canonicalIndex st')) st')
      | (Panic, st') => (Panic, st')
      end
  end.

Definition ensureRange (from to : N) : M unit :=
  if to <? from then mret tt else ensure_loop (S (N.to_nat (to - from))) from to.

Definition loadCanonicalBlockInfos (from to : N)
    : M (gmap N blockInfo * gmap bytes blockInfo) :=
  if to <? from then mret (∅, ∅)
  else _ ← ensureRange from to;
       st_gets (fun st => snapshotRange (canonicalIndex st) from to).

Definition canonicalInfoAtSlot (slot : N) : M (option blockInfo) :=
  _ ← ensureRange slot slot;
  st_gets (fun st => infoBySlot (canonicalIndex st) slot).

(** ** Specification *)

(** The canonical block of a slot, given what the source holds: no caches. *)
Definition canonical_at (content : N -> outcome era_error (option bytes)) (slot : N)
    : outcome beacon_error (option blockInfo) :=
  match content slot with
  | Ok None => Ok None
  | Ok (Some data) =>
      match parseBlockInfo data forkAtSlot with
      | Ok info => Ok (Some info)
      | Err e => Err (EParseCanonical slot e)
      | Panic => Panic
      end
  | Err e => Err (EEra e)
  | Panic => Panic
  end.

(** The source is intact and holds [content]; the caches agree with it. *)
Definition caches_ok (content : N -> outcome era_error (option bytes)) (st : istate R CS CR) : Prop :=
  (exists r, era st = Some r /\ source_ok r /\ forall slot, source_block r slot = content slot)
  /\ (forall c, decodedBySlot st = Some c ->
        lru_all (fun slot info => canonical_at content slot = Ok (Some info)) c)
  /\ (forall c, decodedByRoot st = Some c ->
        lru_all (fun root info => Root info = root /\ exists ssz, parseBlockInfo ssz forkAtSlot = Ok info) c).

(** Everything the index says is what the source says; what it has loaded is
    complete. *)
Record index_ok (content : N -> outcome era_error (option bytes)) (i : canonicalBlockIndex) : Prop := {
  io_loaded : normal (loaded i);
  io_loading : disjoint_ranges (loading i);
  io_apart : forall x, covers (loaded i) x -> ~ covers (loading i) x;
  io_complete : forall x, covers (loaded i) x -> canonical_at content x = Ok (bySlot i !! x);
  io_bySlot : forall x info, bySlot i !! x = Some info ->
    covers (loaded i) x /\ Slot info = x /\ is_Some (byRoot i !! Root info);
  io_byRoot : forall r info, byRoot i !! r = Some info ->
    Root info = r /\ bySlot i !! Slot info = Some info
}.
End index.

(** ** Lemmas *)

Lemma attestation_infos_no_Panic {E2 : Eth2} slot l : attestation_infos slot l ≠ Panic.
Proof.
  induction l as [|a l IH]; cbn [attestation_infos]; [done|].
  apply outcome_bind_no_Panic; [|intros; by apply outcome_bind_no_Panic].
  unfold attestation_info. repeat (apply outcome_bind_no_Panic; [apply or_err_Panic|intros ? _]).
  repeat case_match; done.
Qed.

Lemma parseBlockInfo_no_Panic {E2 : Eth2} ssz fork : parseBlockInfo ssz fork ≠ Panic.
Proof.
  unfold parseBlockInfo, extractSlotFromSignedBeaconBlockSSZ.
  repeat case_match; simplify_eq; try done.
  apply outcome_bind_no_Panic; [apply or_err_Panic|intros v _].
  apply outcome_bind_no_Panic.
  { destruct v; cbn; try done; (apply outcome_bind_no_Panic; [apply or_err_Panic|done]). }
  intros ? _. repeat (apply outcome_bind_no_Panic; [apply or_err_Panic|intros ? _]).
  apply outcome_bind_no_Panic; [apply attestation_infos_no_Panic|done].
Qed.

Section index_lemmas.
Context {E2 : Eth2} {R : Type} {BS : BlockSource R}.
Context {CS : Type} {LS : Lru N blockInfo CS} {CR : Type} {LR : Lru bytes blockInfo CR}.
Context (forkAtSlot : N -> bytes) (content : N -> outcome era_error (option bytes)).

Abbreviation state := (istate R CS CR).
Abbreviation canonical_at := (canonical_at forkAtSlot content).
Abbreviation caches_ok := (caches_ok forkAtSlot content).
Abbreviation index_ok := (index_ok forkAtSlot content).

Lemma caches_ok_set_index i (st : state) : caches_ok (set_index i st) <-> caches_ok st.
Proof. done. Qed.

Lemma caches_ok_content (st : state) slot : caches_ok st -> content slot ≠ Panic.
Proof. intros [(r & _ & _ & <-) _]. apply source_block_no_Panic. Qed.

Lemma canonical_at_no_Panic (st : state) slot : caches_ok st -> canonical_at slot ≠ Panic.
Proof.
  intros H%(caches_ok_content _ slot). unfold CanonicalIndex.canonical_at.
  destruct (content slot) as [[data|]| |]; try done.
  pose proof (parseBlockInfo_no_Panic data forkAtSlot). by destruct (parseBlockInfo _ _).
Qed.

Lemma canonical_at_Slot (st : state) slot info :
  caches_ok st -> canonical_at slot = Ok (Some info) -> Slot info = slot.
Proof.
  intros [(r & _ & _ & Hr) _]. unfold CanonicalIndex.canonical_at. rewrite <- Hr.
  destruct (source_block r slot) as [[data|]| |] eqn:Hs; try done.
  destruct (parseBlockInfo data forkAtSlot) as [i| |] eqn:Hp; try done. intros [= <-].
  apply parseBlockInfo_Slot in Hp. apply source_block_slot in Hs. congruence.
Qed.

Lemma rawBlock_spec slot (st : state) :
  caches_ok st ->
  let '(o, st') := rawBlock slot st in
  o = match content slot with Ok d => Ok d | Err e => Err (EEra e) | Panic => Panic end
  /\ caches_ok st' /\ canonicalIndex st' = canonicalIndex st.
Proof.
  intros [(r & He & Hok & Hc) Hcs]. unfold rawBlock. rewrite He.
  pose proof (raw_block_result slot r Hok) as H1. pose proof (raw_block_ok slot r Hok) as H2.
  pose proof (raw_block_stable slot r) as H3.
  destruct (raw_block slot r) as [o r']. cbn in *. rewrite H1, Hc. split; [done|]. split; [|done].
  split; [|exact Hcs]. exists r'. split; [done|]. split; [done|]. intros s. by rewrite H3, Hc.
Qed.

Lemma get_opt_spec {K V C} `{Countable K} `{!Lru K V C} (P : K -> V -> Prop) k (c : option C) :
  (forall c', c = Some c' -> lru_all P c') ->
  (forall v, fst (get_opt k c) = Some v -> P k v)
  /\ (forall c', snd (get_opt k c) = Some c' -> lru_all P c').
Proof.
  intros Hc. unfold get_opt. destruct c as [c|]; [|done]. specialize (Hc c eq_refl).
  pose proof (lru_all_hit P k c) as Hh. pose proof (lru_all_get P k c Hc) as Hg.
  destruct (lru_get k c) as [v c']. cbn in *. split; [eauto|]. by intros ? [= <-].
Qed.

Lemma add_opt_spec {K V C} `{Countable K} `{!Lru K V C} (P : K -> V -> Prop) k v (c : option C) :
  (forall c', c = Some c' -> lru_all P c') -> P k v ->
  forall c', add_opt k v c = Some c' -> lru_all P c'.
Proof.
  intros Hc Hp c'. unfold add_opt. destruct c as [c|]; cbn; [|done].
  intros [= <-]. apply lru_all_add; auto.
Qed.

Lemma decode_slot_spec slot data (st : state) :
  caches_ok st -> content slot = Ok data ->
  let '(o, st') := decode_slot forkAtSlot slot data st in
  o = canonical_at slot /\ caches_ok st' /\ canonicalIndex st' = canonicalIndex st.
Proof.
  intros (Hs & Hd & Hr) Hc. unfold CanonicalIndex.canonical_at. rewrite Hc.
  destruct data as [data|]; cbn; [|by split_and!].
  unfold st_wrap, mbind, stateM_bind, st_bind, decodeCanonicalBlockInfo.
  destruct (get_opt_spec _ slot (decodedBySlot st) Hd) as [Hhit Hd'].
  destruct (get_opt slot (decodedBySlot st)) as [hit c]. cbn in *.
  destruct hit as [info|].
  { specialize (Hhit info eq_refl). unfold CanonicalIndex.canonical_at in Hhit. rewrite Hc in Hhit.
    rewrite Hhit. split; [done|]. split; [|done]. by split. }
  destruct (parseBlockInfo data forkAtSlot) as [info| |] eqn:Hp;
    (split; [done|]; split; [|done]); (split; [exact Hs|]); split; cbn; try done.
  - apply add_opt_spec; [done|]. unfold CanonicalIndex.canonical_at. by rewrite Hc, Hp.
  - apply add_opt_spec; [done|]. eauto.
Qed.

(** The block of a slot as an option, for slots that are known not to fail. *)
Definition at_slot (slot : N) : option blockInfo :=
  match canonical_at slot with Ok o => o | _ => None end.

Definition fine (slot : N) : Prop := canonical_at slot = Ok (at_slot slot).

Lemma fine_spec slot o : canonical_at slot = Ok o -> fine slot /\ at_slot slot = o.
Proof. unfold fine, at_slot. by intros ->. Qed.

Lemma load_slot_spec slot (st : state) :
  caches_ok st ->
  let '(o, st') := load_slot forkAtSlot slot st in
  o = canonical_at slot /\ caches_ok st' /\ canonicalIndex st' = canonicalIndex st.
Proof.
  intros Hst. unfold load_slot, mbind, stateM_bind, st_bind.
  pose proof (rawBlock_spec slot st Hst) as Hraw. pose proof (caches_ok_content _ slot Hst) as Hnp.
  destruct (rawBlock slot st) as [o st1]. destruct Hraw as (Ho & Hst1 & Hi1).
  destruct (content slot) as [data|e|] eqn:Hc; subst o; [| |done].
  - pose proof (decode_slot_spec slot data st1 Hst1 Hc) as Hdec.
    destruct (decode_slot forkAtSlot slot data st1) as [o2 st2].
    destruct Hdec as (? & ? & ?). split_and!; [done|done|congruence].
  - split_and!; [|done|done]. unfold CanonicalIndex.canonical_at. by rewrite Hc.
Qed.

Lemma load_loop_unfold fuel slot to infos (st : state) :
  load_loop forkAtSlot fuel slot to infos st =
  match load_slot forkAtSlot slot st with
  | (Ok info, st') =>
      if last_slot slot to then (Ok (infos ++ option_list info), st')
      else match fuel with
           | O => (Panic, st')
           | S fuel' => load_loop forkAtSlot fuel' (u64_add slot 1) to (infos ++ option_list info) st'
           end
  | (Err e, st') => (Err e, st')
  | (Panic, st') => (Panic, st')
  end.
Proof.
  destruct fuel; cbn [load_loop]; unfold mbind, stateM_bind, st_bind;
    destruct (load_slot forkAtSlot slot st) as [[info|e|] st']; try done;
    by destruct (last_slot slot to).
Qed.

Lemma slots_omap_cons slot to (infos : list blockInfo) :
  slot <= to ->
  infos ++ omap at_slot (slots slot (to + 1))
  = (infos ++ option_list (at_slot slot)) ++ omap at_slot (slots (slot + 1) (to + 1)).
Proof.
  intros. rewrite slots_cons by lia. cbn [omap list_omap]. rewrite <- app_assoc.
  by destruct (at_slot slot).
Qed.

Lemma load_loop_spec fuel slot to infos (st : state) :
  caches_ok st -> slot <= to -> u64 to -> to <= slot + N.of_nat fuel ->
  let '(o, st') := load_loop forkAtSlot fuel slot to infos st in
  caches_ok st' /\ canonicalIndex st' = canonicalIndex st
  /\ match o with
     | Ok infos' => infos' = infos ++ omap at_slot (slots slot (to + 1))
                    /\ forall x, slot <= x <= to -> fine x
     | Err e => exists x, slot <= x <= to /\ canonical_at x = Err e
     | Panic => False
     end.
Proof.
  revert slot infos st. induction fuel as [|fuel IH]; intros slot infos st Hst Hle Hu Hf;
    rewrite load_loop_unfold, slots_omap_cons by lia;
    pose proof (load_slot_spec slot st Hst) as H; pose proof (canonical_at_no_Panic _ slot Hst);
    (destruct (load_slot forkAtSlot slot st) as [[info|e|] st1]); destruct H as (Ho & Hst1 & Hi1);
    try congruence; try (split_and!; [done|done|]; exists slot; split; [lia|done]);
    symmetry in Ho; destruct (fine_spec slot info Ho) as [Hfine <-]; unfold last_slot;
    (destruct (N.eqb_spec slot to) as [->|Hne]; cbn;
     [rewrite slots_empty, app_nil_r by lia; split_and!; [done|done|done|];
      intros x ?; by replace x with to by lia|]); [lia|].
  destruct (N.eqb_spec slot MaxUint64); [u64_lia|]. rewrite u64_add_small by u64_lia.
  specialize (IH (slot + 1) (infos ++ option_list (at_slot slot)) st1 Hst1
                ltac:(lia) Hu ltac:(lia)).
  destruct (load_loop _ _ _ _ _ _) as [o st3]. destruct IH as (? & ? & IH).
  split_and!; [done|congruence|]. destruct o as [infos'|e|]; [| |done].
  - destruct IH as [-> Hall]. split; [done|].
    intros x ?. destruct (decide (x = slot)) as [->|]; [done|]. apply Hall. lia.
  - destruct IH as (x & ? & ?). exists x. split; [lia|done].
Qed.

(** *** Publishing *)

Lemma option_union_None {A} (o : option A) : o ∪ None = o.
Proof. by destruct o. Qed.

Lemma foldl_bySlot_lookup (f : N -> option blockInfo) (l : list N) (m : gmap N blockInfo) x :
  NoDup l -> (forall s info, s ∈ l -> f s = Some info -> Slot info = s) ->
  foldl (fun m info => <[Slot info := info]> m) m (omap f l) !! x
  = if decide (x ∈ l) then f x ∪ m !! x else m !! x.
Proof.
  revert m. induction l as [|s l IH]; intros m Hnd Hs; [done|].
  apply NoDup_cons in Hnd as [Hsl Hnd].
  assert (forall m : gmap N blockInfo, foldl (fun m info => <[Slot info := info]> m) m (omap f l) !! x
                    = if decide (x ∈ l) then f x ∪ m !! x else m !! x) as IH'.
  { intros m'. apply IH; [done|]. intros. apply Hs; [by right|done]. }
  cbn [omap list_omap]. destruct (f s) as [info|] eqn:Hf; cbn [foldl]; rewrite IH'.
  - pose proof (Hs s info ltac:(by left) Hf) as ->. destruct (decide (x = s)) as [->|Hne].
    + rewrite decide_False, decide_True, lookup_insert_eq, Hf by (done || by left).
      by destruct (m !! s).
    + rewrite lookup_insert_ne by done.
      destruct (decide (x ∈ l)); [by rewrite decide_True by by right|].
      rewrite decide_False; [done|]. by intros [?|?]%elem_of_cons.
  - destruct (decide (x = s)) as [->|Hne].
    + rewrite decide_False, decide_True, Hf by (done || by left). by destruct (m !! s).
    + destruct (decide (x ∈ l)); [by rewrite decide_True by by right|].
      rewrite decide_False; [done|]. by intros [?|?]%elem_of_cons.
Qed.

Lemma foldl_byRoot_Some (l : list blockInfo) (m : gmap bytes blockInfo) r info :
  foldl (fun m info => <[Root info := info]> m) m l !! r = Some info ->
  (info ∈ l /\ Root info = r) \/ m !! r = Some info.
Proof.
  revert m. induction l as [|i l IH]; intros m; cbn; [auto|].
  intros [[? ?]|H]%IH; [left; split; [by right|done]|].
  destruct (decide (Root i = r)) as [<-|?].
  - rewrite lookup_insert_eq in H. injection H as <-. left. split; [by left|done].
  - rewrite lookup_insert_ne in H by done. by right.
Qed.

Lemma foldl_byRoot_mono (l : list blockInfo) (m : gmap bytes blockInfo) r :
  is_Some (m !! r) -> is_Some (foldl (fun m info => <[Root info := info]> m) m l !! r).
Proof.
  revert m. induction l as [|i l IH]; intros m H; cbn; [done|]. apply IH.
  destruct (decide (Root i = r)) as [<-|?];
    [rewrite lookup_insert_eq; eauto|by rewrite lookup_insert_ne].
Qed.

Lemma foldl_byRoot_in (l : list blockInfo) (m : gmap bytes blockInfo) info :
  info ∈ l -> is_Some (foldl (fun m info => <[Root info := info]> m) m l !! Root info).
Proof.
  revert m. induction l as [|i l IH]; intros m; [by intros ?%not_elem_of_nil|].
  intros [->|?]%elem_of_cons; cbn; [|auto]. apply foldl_byRoot_mono.
  rewrite lookup_insert_eq. eauto.
Qed.

(** The ranges being loaded other than [gap] do not meet [gap]. *)
Lemma removeSlotRange_apart rs gap x :
  disjoint_ranges rs -> gap ∈ rs -> covers (removeSlotRange rs gap) x ->
  covers rs x /\ ~ in_range gap x.
Proof.
  intros Hd Hg (r & [Hr Hne]%elem_of_removeSlotRange & Hx). split; [by exists r|].
  intros Hx'. apply list_elem_of_split in Hg as (l1 & l2 & ->).
  destruct Hd as [_ (H1 & H2 & _)%StronglySorted_mid]. rewrite Forall_forall in H1, H2.
  apply elem_of_app in Hr as [Hr|[->|Hr]%elem_of_cons]; [|done|].
  - specialize (H1 _ Hr). unfold before, in_range in *. lia.
  - specialize (H2 _ Hr). unfold before, in_range in *. lia.
Qed.

Lemma publish_None_ok gap i : index_ok i -> index_ok (publish gap None i).
Proof.
  intros [H1 H2 H3 H4 H5 H6]. split; cbn; auto using removeSlotRange_disjoint.
  intros x Hx (r & [Hr _]%elem_of_removeSlotRange & ?). apply (H3 x Hx). by exists r.
Qed.

Definition gap_infos (gap : slotRange) : list blockInfo :=
  omap at_slot (slots (rfrom gap) (rto gap + 1)).

Lemma elem_of_gap_infos (st : state) gap info :
  caches_ok st -> info ∈ gap_infos gap ->
  in_range gap (Slot info) /\ at_slot (Slot info) = Some info.
Proof.
  intros Hst (x & Hx & Hat)%list_elem_of_omap. rewrite elem_of_slots in Hx.
  assert (Slot info = x) as ->.
  { apply (canonical_at_Slot st); [done|]. unfold at_slot in Hat.
    destruct (canonical_at x) as [o| |]; congruence. }
  split; [unfold in_range; lia|done].
Qed.

Lemma publish_bySlot (st : state) gap i x :
  caches_ok st ->
  bySlot (publish gap (Some (gap_infos gap)) i) !! x
  = if decide (in_range gap x) then at_slot x ∪ bySlot i !! x else bySlot i !! x.
Proof.
  intros Hst. cbn. unfold gap_infos. rewrite foldl_bySlot_lookup; [|apply NoDup_slots|].
  - destruct (decide (x ∈ slots (rfrom gap) (rto gap + 1))) as [Hx|Hx];
      rewrite elem_of_slots in Hx; unfold in_range.
    + by rewrite decide_True by lia.
    + by rewrite decide_False by lia.
  - intros s info _ Hat. apply (canonical_at_Slot st); [done|]. unfold at_slot in Hat.
    destruct (canonical_at s) as [o| |]; congruence.
Qed.

Lemma publish_ok (st : state) gap i :
  caches_ok st -> index_ok i -> gap ∈ loading i -> (forall x, in_range gap x -> fine x) ->
  index_ok (publish gap (Some (gap_infos gap)) i).
Proof.
  intros Hst Hi Hg Hfine. pose proof Hi as [H1 H2 H3 H4 H5 H6].
  assert (Hok : range_ok gap) by (destruct H2 as [H2 _]; rewrite Forall_forall in H2; auto).
  destruct (add_loop_spec (loaded i) gap H1 Hok) as (Hn & Hcov & _).
  assert (Hnew : forall x, in_range gap x -> bySlot i !! x = None).
  { intros x Hx. destruct (bySlot i !! x) eqn:E; [|done].
    apply H5 in E as [E _]. destruct (H3 _ E). by exists gap. }
  pose proof (fun x => publish_bySlot st gap i x Hst) as Hby.
  pose proof (fun info => elem_of_gap_infos st gap info Hst) as Hin.
  split; fold (addSlotRange (loaded i) gap) in *.
  - done.
  - by apply removeSlotRange_disjoint.
  - cbn. intros x Hx%Hcov [Hx' Hng]%removeSlotRange_apart; [|done|done].
    destruct Hx as [Hx|Hx]; [by apply (H3 x)|done].
  - cbn [loaded publish]. intros x Hx%Hcov. rewrite Hby. case_decide as Hd.
    + rewrite Hnew, option_union_None by done. by apply Hfine.
    + destruct Hx; [auto|done].
  - cbn [loaded publish]. intros x info. rewrite Hby, Hcov. case_decide as Hd.
    + rewrite Hnew, option_union_None by done. intros Hat.
      assert (Slot info = x) as <-.
      { apply (canonical_at_Slot st); [done|]. unfold at_slot in Hat.
        destruct (canonical_at x) as [o| |]; congruence. }
      split_and!; [by right|done|]. apply foldl_byRoot_in. apply list_elem_of_omap.
      exists (Slot info). rewrite elem_of_slots. unfold in_range in Hd. split; [lia|done].
    + intros (? & ? & ?)%H5. split_and!; [by left|done|]. by apply foldl_byRoot_mono.
  - intros r info. rewrite Hby. cbn.
    intros [[Hl <-]|[<- Hr]%H6]%foldl_byRoot_Some; (split; [done|]).
    + destruct (Hin _ Hl) as [Hx Hat]. by rewrite decide_True, Hat, Hnew, option_union_None by done.
    + case_decide as Hd; [|done]. by rewrite Hnew in Hr.
Qed.

Lemma claim_ok gap i :
  index_ok i -> range_ok gap ->
  (forall x, in_range gap x -> ~ covers (loaded i) x /\ ~ covers (loading i) x) ->
  index_ok (claim gap i).
Proof.
  intros [H1 H2 H3 H4 H5 H6] Hr Hg. split; cbn; auto.
  - apply insertSlotRange_disjoint; auto. intros x Hx. by apply Hg.
  - intros x Hx (r & Hin & Hx'). rewrite insertSlotRange_perm in Hin.
    apply elem_of_cons in Hin as [->|Hin]; [by destruct (Hg x Hx')|].
    apply (H3 x Hx). by exists r.
Qed.

Lemma index_ok_new : index_ok newCanonicalBlockIndex.
Proof.
  split; cbn; try done; try (intros x Hx; by apply covers_nil in Hx).
  - apply normal_nil.
  - split; constructor.
Qed.

(** *** [ensureRange] *)

Lemma loadRange_spec gap (st : state) :
  caches_ok st -> range_ok gap ->
  let '(o, st') := loadRange forkAtSlot gap st in
  caches_ok st' /\ canonicalIndex st' = canonicalIndex st
  /\ match o with
     | Ok infos => infos = gap_infos gap /\ forall x, in_range gap x -> fine x
     | Err e => exists x, in_range gap x /\ canonical_at x = Err e
     | Panic => False
     end.
Proof.
  intros Hst [Hle Hu]. unfold loadRange.
  pose proof (load_loop_spec (N.to_nat (rto gap - rfrom gap)) (rfrom gap) (rto gap) [] st
                Hst Hle Hu ltac:(lia)) as H.
  by destruct (load_loop _ _ _ _ _ _).
Qed.

(** The state between two calls on an index no other goroutine is using. *)
Definition quiet (st : state) : Prop :=
  caches_ok st /\ index_ok (canonicalIndex st) /\ loading (canonicalIndex st) = [].

(** What one call promises: how [st'] relates to [st] and to the outcome. *)
Definition ensured (from to : N) (st : state) (o : outcome beacon_error unit) (st' : state) : Prop :=
  quiet st'
  /\ (forall x, covers (loaded (canonicalIndex st)) x -> covers (loaded (canonicalIndex st')) x)
  /\ match o with
     | Ok _ => forall x, from <= x <= to -> covers (loaded (canonicalIndex st')) x
     | Err e => exists x, from <= x <= to /\ canonical_at x = Err e
     | Panic => False
     end.

Lemma claim_publish gap i result :
  loading i = [] -> loading (publish gap result (claim gap i)) = [].
Proof. intros H. destruct result; cbn; rewrite H; cbn; by rewrite decide_True. Qed.

(** One round: claim, load, publish. *)
Lemma load_gap_spec gap (st : state) :
  quiet st -> range_ok gap -> (forall x, in_range gap x -> ~ covers (loaded (canonicalIndex st)) x) ->
  let '(o, st1) := loadRange forkAtSlot gap (set_index (claim gap (canonicalIndex st)) st) in
  match o with
  | Ok infos =>
      let st' := set_index (publish gap (Some infos) (canonicalIndex st1)) st1 in
      quiet st' /\ forall x, covers (loaded (canonicalIndex st')) x
                     <-> covers (loaded (canonicalIndex st)) x \/ in_range gap x
  | Err e =>
      let st' := set_index (publish gap None (canonicalIndex st1)) st1 in
      quiet st' /\ loaded (canonicalIndex st') = loaded (canonicalIndex st)
      /\ exists x, in_range gap x /\ canonical_at x = Err e
  | Panic => False
  end.
Proof.
  intros (Hst & Hi & Hl) Hr Hfree.
  assert (Hc : index_ok (claim gap (canonicalIndex st))).
  { apply claim_ok; auto. intros x Hx. rewrite Hl. split; [auto|apply covers_nil]. }
  pose proof (loadRange_spec gap (set_index (claim gap (canonicalIndex st)) st) Hst Hr) as H.
  destruct (loadRange _ _ _) as [[infos|e|] st1]; destruct H as (Hst1 & Hi1 & H); [| |done];
    cbn in Hi1; rewrite Hi1; unfold quiet; cbn [set_index canonicalIndex];
    rewrite claim_publish by done.
  - destruct H as [-> Hfine]. split.
    + split_and!; [done| |done]. apply (publish_ok st1); auto.
      cbn. by rewrite insertSlotRange_perm; left.
    + intros x. by destruct (add_loop_spec (loaded (canonicalIndex st)) gap (io_loaded _ _ _ Hi) Hr)
        as (_ & Hcov & _).
  - split_and!; [done| |done|done|done]. by apply publish_None_ok.
Qed.

Lemma ensure_loop_spec fuel from to s (st : state) :
  quiet st -> from <= to -> u64 to -> from <= s ->
  (forall x, from <= x < s -> covers (loaded (canonicalIndex st)) x) -> to < s + N.of_nat fuel ->
  let '(o, st') := ensure_loop forkAtSlot fuel from to st in ensured from to st o st'.
Proof.
  revert s st. induction fuel as [|fuel IH]; intros s st Hq Hle Hu Hs Hcov Hf; cbn [ensure_loop];
    pose proof Hq as (Hst & Hi & Hl);
    (destruct (nextGap_correct (loaded (canonicalIndex st)) (loading (canonicalIndex st)) from to)
      as (g & -> & Hg); [apply Hi|apply Hi|done|done|]);
    (destruct g as [| |gap]; cbn in Hg;
      [by split|destruct Hg as (x & _ & _ & _ & Hx); rewrite Hl in Hx; by apply covers_nil in Hx|]);
    destruct Hg as (Hg1 & [Hg2 Hg3] & Hbelow & Hfree & _);
    (assert (Hsg : s <= rfrom gap);
     [destruct (decide (s <= rfrom gap)); [done|];
      destruct (Hfree (rfrom gap)) as [[] _]; [unfold in_range; lia|apply Hcov; lia]|]);
    [lia|].
  assert (Hr : range_ok gap) by (split; [done|u64_lia]).
  pose proof (load_gap_spec gap st Hq Hr (fun x Hx => proj1 (Hfree x Hx))) as H.
  destruct (loadRange _ _ _) as [[infos|e|] st1]; [| |done].
  - destruct H as (Hq' & Hcov'). set (st2 := set_index _ st1) in *.
    specialize (IH (rto gap + 1) st2 Hq' Hle Hu ltac:(lia)).
    destruct (ensure_loop _ _ _ _ _) as [o st3]. destruct IH as (H1 & H2 & H3).
    + intros x Hx. apply Hcov'. unfold in_range.
      destruct (decide (x < rfrom gap)); [left; apply Hbelow; lia|right; lia].
    + lia.
    + split; [done|]. split; [|done]. intros x Hx. apply H2, Hcov'. by left.
  - destruct H as (Hq' & Hsame & x & Hx & Hxe). split; [done|]. split; [by rewrite Hsame|].
    exists x. unfold in_range in Hx. split; [lia|done].
Qed.

Lemma ensureRange_ensured from to (st : state) :
  quiet st -> u64 to ->
  let '(o, st') := ensureRange forkAtSlot from to st in ensured from to st o st'.
Proof.
  intros Hq Hu. unfold ensureRange. destruct (N.ltb_spec to from) as [Hlt|Hge].
  - split; [done|]. split; [done|]. lia.
  - pose proof (ensure_loop_spec (S (N.to_nat (to - from))) from to from st Hq ltac:(lia) Hu
      ltac:(lia) ltac:(lia) ltac:(lia)) as H'. by destruct (ensure_loop _ _ _ _ _).
Qed.

Lemma ensured_fine from to (st st' : state) :
  ensured from to st (Ok tt) st' ->
  forall x, from <= x <= to -> canonical_at x = Ok (infoBySlot (canonicalIndex st') x).
Proof.
  intros ((_ & Hi & _) & _ & Hcov) x Hx. by apply (io_complete _ _ _ Hi), Hcov.
Qed.

Lemma canonicalInfoAtSlot_spec slot (st : state) :
  quiet st -> u64 slot ->
  let '(o, st') := canonicalInfoAtSlot forkAtSlot slot st in
  o = canonical_at slot /\ quiet st'
  /\ (forall x, covers (loaded (canonicalIndex st)) x -> covers (loaded (canonicalIndex st')) x).
Proof.
  intros Hq Hu. unfold canonicalInfoAtSlot, mbind, stateM_bind, st_bind.
  pose proof (ensureRange_ensured slot slot st Hq Hu) as H.
  destruct (ensureRange _ _ _ _) as [[[]|e|] st'].
  - pose proof (ensured_fine _ _ _ _ H slot ltac:(lia)) as Hf. destruct H as (? & ? & _). by split_and!.
  - destruct H as (? & ? & x & ? & Hx). assert (x = slot) as -> by lia. by split_and!.
  - by destruct H as (_ & _ & []).
Qed.
Lemma newState_quiet (r : R) cacheSize :
  source_ok r -> (forall slot, source_block r slot = content slot) ->
  quiet (newState (Some r) cacheSize).
Proof.
  intros Hr Hc. unfold newState. destruct (0 <? cacheSize)%Z; (split; [|split; [apply index_ok_new|done]]);
    (split; [by exists r|]); split; try done; intros ? [= <-]; apply lru_all_empty.
Qed.

End index_lemmas.

(** *** Snapshots *)

Lemma snapshotRange_spec i from to :
  let '(slots, roots) := snapshotRange i from to in
  (forall x, slots !! x = if decide (from <= x <= to) then bySlot i !! x else None)
  /\ (forall root, is_Some (roots !! root) <-> exists x info, slots !! x = Some info /\ Root info = root)
  /\ (forall root info, roots !! root = Some info ->
        Root info = root /\ exists x, slots !! x = Some info).
Proof.
  unfold snapshotRange. set (kept := filter _ (bySlot i)).
  assert (Heq : foldl (fun m p => <[Root p.2 := p.2]> m) ∅ (map_to_list kept)
                = foldl (fun m info => <[Root info := info]> m) (∅ : gmap bytes blockInfo)
                    (snd <$> map_to_list kept)) by (by rewrite foldl_fmap).
  rewrite Heq. clear Heq.
  assert (Hin : forall info, info ∈ snd <$> map_to_list kept <-> exists x, kept !! x = Some info).
  { intros info. rewrite list_elem_of_fmap. setoid_rewrite elem_of_map_to_list'.
    split; [intros ([x ?] & -> & ?); eauto|intros [x ?]; by exists (x, info)]. }
  split_and!.
  - intros x. unfold kept. rewrite map_lookup_filter. destruct (bySlot i !! x) as [info|]; cbn;
      [|by case_decide].
    case_guard as Hg; cbn in Hg; case_decide as Hd; try done; exfalso.
    + bool_to_prop. lia.
    + apply Hg. rewrite orb_false_iff, !N.ltb_ge. lia.
  - intros root. split.
    + intros [info [[Hl <-]|Hr]%foldl_byRoot_Some]; [|by rewrite lookup_empty in Hr].
      apply Hin in Hl as [x ?]. eauto.
    + intros (x & info & Hx & <-). apply foldl_byRoot_in, Hin. eauto.
  - intros root info [[Hl <-]|Hr]%foldl_byRoot_Some; [|by rewrite lookup_empty in Hr].
    split; [done|]. by apply Hin.
Qed.

Section load_lemmas.
Context {E2 : Eth2} {R : Type} {BS : BlockSource R}.
Context {CS : Type} {LS : Lru N blockInfo CS} {CR : Type} {LR : Lru bytes blockInfo CR}.
Context (forkAtSlot : N -> bytes) (content : N -> outcome era_error (option bytes)).

Abbreviation state := (istate R CS CR).
Abbreviation canonical_at := (canonical_at forkAtSlot content).
Abbreviation quiet := (quiet (R := R) (CS := CS) (CR := CR) forkAtSlot content).
Abbreviation at_slot := (at_slot forkAtSlot content).
Abbreviation fine := (fine forkAtSlot content).

(** The maps of [loadCanonicalBlockInfos]. *)
Definition exact_maps (from to : N) (maps : gmap N blockInfo * gmap bytes blockInfo) : Prop :=
  (forall x, maps.1 !! x = if decide (from <= x <= to) then at_slot x else None)
  /\ (forall x, from <= x <= to -> fine x)
  /\ (forall root, is_Some (maps.2 !! root)
       <-> exists x info, maps.1 !! x = Some info /\ Root info = root)
  /\ (forall root info, maps.2 !! root = Some info ->
       Root info = root /\ maps.1 !! Slot info = Some info).

Lemma exact_maps_empty from to : to < from -> exact_maps from to (∅, ∅).
Proof.
  intros Hlt. split_and!; cbn; intros.
  - rewrite decide_False by lia. apply lookup_empty.
  - lia.
  - split; [intros [? He]; by rewrite lookup_empty in He|].
    intros (? & ? & He & _). by rewrite lookup_empty in He.
  - exfalso. match goal with H : _ !! _ = _ |- _ => by rewrite lookup_empty in H end.
Qed.

Lemma loadCanonicalBlockInfos_spec from to (st : state) :
  quiet st -> u64 to ->
  let '(o, st') := loadCanonicalBlockInfos forkAtSlot from to st in
  quiet st' /\ match o with
  | Ok maps => exact_maps from to maps
  | Err e => exists x, from <= x <= to /\ canonical_at x = Err e
  | Panic => False
  end.
Proof.
  intros Hq Hu. unfold loadCanonicalBlockInfos. destruct (N.ltb_spec to from) as [Hlt|Hge].
  { split; [done|]. by apply exact_maps_empty. }
  pose proof (ensureRange_ensured forkAtSlot content from to st Hq Hu) as H.
  unfold mbind, stateM_bind, st_bind. destruct (ensureRange _ _ _ _) as [[[]|e|] st'];
    [|split; apply H|by destruct H as (_ & _ & [])].
  split; [apply H|].
  pose proof (snapshotRange_spec (canonicalIndex st') from to) as Hs.
  destruct (snapshotRange _ _ _) as [slots roots]. destruct Hs as (Hs1 & Hs2 & Hs3).
  pose proof (ensured_fine forkAtSlot content _ _ _ _ H) as Hfine. destruct H as ((_ & Hi & _) & _).
  assert (Hf : forall x, from <= x <= to -> fine x /\ at_slot x = bySlot (canonicalIndex st') !! x).
  { intros x Hx. by apply fine_spec, Hfine. }
  unfold exact_maps. cbn [fst snd]. split_and!; [|apply Hf|exact Hs2|].
  - intros x. rewrite Hs1. case_decide as Hd; [|done]. symmetry. by apply Hf.
  - intros root info Hr. destruct (Hs3 _ _ Hr) as [? [x Hx]]. split; [done|].
    pose proof Hx as Hx'. rewrite Hs1 in Hx'. case_decide; [|done].
    by apply (io_bySlot _ _ _ Hi) in Hx' as (_ & -> & _).
Qed.
End load_lemmas.

(** A sample state: the toy directory behind a fresh backend with caches. *)
#[export] Instance toy_source : BlockSource (reader (list (N * bytes))) :=
  reader_source plain (L := lru_list 64).
#[export] Instance toy_bySlot : Lru N blockInfo (list (N * blockInfo)) := lru_list 4.
#[export] Instance toy_byRoot : Lru bytes blockInfo (list (bytes * blockInfo)) := lru_list 4.

Definition toy_istate := newState (CS := list (N * blockInfo)) (CR := list (bytes * blockInfo))
  (Some toy_reader) 4.

Lemma toy_quiet : quiet MainnetForkAtSlot (era_block plain toy_dir) toy_istate.
Proof. by apply newState_quiet; [apply toy_reader_ok|]. Qed.

(** ** Theorems *)

(** C15: [ensureRange] always returns, whatever the range and however much of it is
    loaded already; it succeeds exactly when every slot of the range can be read
    and decoded, and then the index answers for each of them what the source
    holds; on failure the error is that of a slot in the range.  The index and
    the decoding caches stay sound, nothing loaded is lost and no claim is left
    behind, also after an error. *)
Theorem ensureRange_spec {E2 : Eth2} {R} {BS : BlockSource R} {CS} {LS : Lru N blockInfo CS}
    {CR} {LR : Lru bytes blockInfo CR} (forkAtSlot : N -> bytes)
    (content : N -> outcome era_error (option bytes)) (from to : N) (st : istate R CS CR) :
  quiet forkAtSlot content st -> u64 to ->
  let '(o, st') := ensureRange forkAtSlot from to st in
  quiet forkAtSlot content st'
  /\ (forall x, covers (loaded (canonicalIndex st)) x -> covers (loaded (canonicalIndex st')) x)
  /\ match o with
     | Ok _ => forall x, from <= x <= to ->
         canonical_at forkAtSlot content x = Ok (infoBySlot (canonicalIndex st') x)
     | Err e => exists x, from <= x <= to /\ canonical_at forkAtSlot content x = Err e
     | Panic => False
     end.
Proof.
  intros Hq Hu. pose proof (ensureRange_ensured forkAtSlot content from to st Hq Hu) as H.
  destruct (ensureRange _ _ _ _) as [[[]|e|] st'].
  - split_and!; [apply H|apply H|]. by apply (ensured_fine _ _ _ _ _ _ H).
  - apply H.
  - apply H.
Qed.

Lemma ensureRange_spec_witness :
  canonical_at MainnetForkAtSlot (era_block plain toy_dir) 103
  = Ok (infoBySlot (canonicalIndex (snd (ensureRange MainnetForkAtSlot 101 104 toy_istate))) 103).
Proof.
  pose proof (ensureRange_spec MainnetForkAtSlot (era_block plain toy_dir) 101 104 toy_istate
    toy_quiet ltac:(u64_lia)) as H.
  destruct (ensureRange MainnetForkAtSlot 101 104 toy_istate) as [o st'] eqn:E.
  assert (is_Ok (fst (ensureRange MainnetForkAtSlot 101 104 toy_istate)) = true) as Hm
    by (vm_compute; reflexivity).
  rewrite E in Hm. destruct o as [[]| |]; [|discriminate Hm..].
  apply H. lia.
Defined.

(** C16: refinement.  However its caches and its index are filled, a lookup of a
    canonical slot ([canonicalInfoAtSlot], behind [CanonicalRootLookup.Lookup])
    returns exactly what reading and decoding that one slot afresh returns,
    missed slots and errors included. *)
Theorem canonicalInfoAtSlot_refines_source {E2 : Eth2} {R} {BS : BlockSource R} {CS}
    {LS : Lru N blockInfo CS} {CR} {LR : Lru bytes blockInfo CR} (forkAtSlot : N -> bytes)
    (content : N -> outcome era_error (option bytes)) (slot : N) (st : istate R CS CR) :
  quiet forkAtSlot content st -> u64 slot ->
  let '(o, st') := canonicalInfoAtSlot forkAtSlot slot st in
  o = canonical_at forkAtSlot content slot /\ quiet forkAtSlot content st'.
Proof.
  intros Hq Hu. pose proof (canonicalInfoAtSlot_spec forkAtSlot content slot st Hq Hu) as H.
  destruct (canonicalInfoAtSlot _ _ _). tauto.
Qed.

Lemma canonicalInfoAtSlot_refines_source_witness :
  fst (canonicalInfoAtSlot MainnetForkAtSlot 102 toy_istate) = Ok None.
Proof.
  pose proof (canonicalInfoAtSlot_refines_source MainnetForkAtSlot (era_block plain toy_dir) 102
    toy_istate toy_quiet ltac:(u64_lia)) as H.
  destruct (canonicalInfoAtSlot MainnetForkAtSlot 102 toy_istate) as [o st'].
  destruct H as [-> _]. vm_compute. reflexivity.
Defined.

(** C17: [loadCanonicalBlockInfos] returns exactly the canonical blocks of the range:
    its slot map holds the block of every slot of the range and nothing else, and
    its root map holds those blocks under their roots. *)
Theorem loadCanonicalBlockInfos_exact {E2 : Eth2} {R} {BS : BlockSource R} {CS}
    {LS : Lru N blockInfo CS} {CR} {LR : Lru bytes blockInfo CR} (forkAtSlot : N -> bytes)
    (content : N -> outcome era_error (option bytes)) (from to : N) (st : istate R CS CR) :
  quiet forkAtSlot content st -> u64 to ->
  match fst (loadCanonicalBlockInfos forkAtSlot from to st) with
  | Ok (bySlot, byRoot) =>
      (forall x, bySlot !! x = if decide (from <= x <= to)
                               then at_slot forkAtSlot content x else None)
      /\ (forall x, from <= x <= to -> fine forkAtSlot content x)
      /\ (forall root, is_Some (byRoot !! root)
           <-> exists x info, bySlot !! x = Some info /\ Root info = root)
      /\ (forall root info, byRoot !! root = Some info ->
           Root info = root /\ bySlot !! Slot info = Some info)
  | Err e => exists x, from <= x <= to /\ canonical_at forkAtSlot content x = Err e
  | Panic => False
  end.
Proof.
  intros Hq Hu.
  pose proof (loadCanonicalBlockInfos_spec forkAtSlot content from to st Hq Hu) as H.
  destruct (loadCanonicalBlockInfos _ _ _ _) as [[[slots roots]|e|] st']; exact (proj2 H).
Qed.

Lemma loadCanonicalBlockInfos_exact_witness :
  match fst (loadCanonicalBlockInfos MainnetForkAtSlot 101 103 toy_istate) with
  | Ok (slots, roots) => Root <$> slots !! 103 = Some (toy_root Byte.x13) /\ slots !! 104 = None
  | _ => False
  end.
Proof.
  pose proof (loadCanonicalBlockInfos_exact MainnetForkAtSlot (era_block plain toy_dir) 101 103
    toy_istate toy_quiet ltac:(u64_lia)) as H.
  assert (is_Ok (fst (loadCanonicalBlockInfos MainnetForkAtSlot 101 103 toy_istate)) = true) as Hm
    by (vm_compute; reflexivity).
  destruct (fst (loadCanonicalBlockInfos MainnetForkAtSlot 101 103 toy_istate)) as [[slots roots]| |];
    [|discriminate Hm..].
  destruct H as [H _]. rewrite !H. split; vm_compute; reflexivity.
Defined.
