(* ===== verification/IndexConcurrent.v ===== *)
(** * Concurrent [ensureRange] ([pkg/beaconapi/realbackend.go], [canonicalBlockIndex])

    The HTTP server runs one goroutine per request, and all of them call
    [ensureRange] on the one shared index.  The step relation below interleaves any
    number of calls at the granularity of the code: a critical section under the
    index mutex, a [RawBlockSSZ] (atomic under the reader's mutex) and a decode are
    one step each, [cond.Wait] parks a goroutine until some publisher's
    [Broadcast], and new calls may start at any time. *)

From S2P Require Import Prelude Bytes Lru EraFormat EraReader Sources.
From S2P Require Import SlotRanges BlockInfo Samples CanonicalIndex.

(** ** Goroutines inside [ensureRange(from, to)] *)

Inductive goroutine :=
| GStart (from to : N)                    (** at the head of the loop *)
| GWaiting (from to : N)                  (** in [i.cond.Wait()] *)
| GFetch (from to : N) (gap : slotRange) (slot : N) (infos : list blockInfo)
    (** in [loadRange(gap)], about to read [slot] *)
| GDecode (from to : N) (gap : slotRange) (slot : N) (data : option bytes) (infos : list blockInfo)
    (** in [loadRange(gap)], having read [slot] *)
| GPublish (from to : N) (gap : slotRange) (result : beacon_error + list blockInfo)
    (** [loadRange] has returned *)
| GDone (from to : N) (err : option beacon_error).

(** [i.cond.Broadcast()] *)
Definition wake (g : goroutine) : goroutine :=
  match g with GWaiting from to => GStart from to | g => g end.

(** The range a goroutine has claimed and not yet published. *)
Definition claim_of (g : goroutine) : option slotRange :=
  match g with
  | GFetch _ _ gap _ _ | GDecode _ _ gap _ _ _ | GPublish _ _ gap _ => Some gap
  | _ => None
  end.

Definition result_infos (result : beacon_error + list blockInfo) : option (list blockInfo) :=
  match result with inl _ => None | inr infos => Some infos end.

(** After publishing: return the error or go round the loop again. *)
Definition after_publish (from to : N) (result : beacon_error + list blockInfo) : goroutine :=
  match result with inl e => GDone from to (Some e) | inr _ => GStart from to end.

(** After decoding a slot: the next iteration of [loadRange] or its end. *)
Definition after_decode (from to : N) (gap : slotRange) (slot : N) (infos : list blockInfo)
    : goroutine :=
  if last_slot slot (rto gap) then GPublish from to gap (inr infos)
  else GFetch from to gap (u64_add slot 1) infos.

Section concurrent.
Context {E2 : Eth2} {R : Type} {BS : BlockSource R}.
Context {CS : Type} {LS : Lru N blockInfo CS} {CR : Type} {LR : Lru bytes blockInfo CR}.
Context (forkAtSlot : N -> bytes).

(** The shared state and the goroutines. *)
Abbreviation config := (istate R CS CR * list goroutine)%type.

(** What goroutine [g] can do next: the new shared state, its own next state, and
    whether it broadcasts. *)
Inductive act (st : istate R CS CR) : goroutine -> istate R CS CR -> goroutine -> bool -> Prop :=
| act_empty from to :
    (to <? from) = true -> act st (GStart from to) st (GDone from to None) false
| act_done from to :
    (to <? from) = false ->
    nextGapLocked (loaded (canonicalIndex st)) (loading (canonicalIndex st)) from to = Some GapDone ->
    act st (GStart from to) st (GDone from to None) false
| act_wait from to :
    (to <? from) = false ->
    nextGapLocked (loaded (canonicalIndex st)) (loading (canonicalIndex st)) from to = Some GapWait ->
    act st (GStart from to) st (GWaiting from to) false
| act_claim from to gap :
    (to <? from) = false ->
    nextGapLocked (loaded (canonicalIndex st)) (loading (canonicalIndex st)) from to = Some (Gap gap) ->
    act st (GStart from to) (set_index (claim gap (canonicalIndex st)) st)
      (GFetch from to gap (rfrom gap) []) false
| act_fetch from to gap slot infos data st' :
    rawBlock slot st = (Ok data, st') ->
    act st (GFetch from to gap slot infos) st' (GDecode from to gap slot data infos) false
| act_fetch_error from to gap slot infos e st' :
    rawBlock slot st = (Err e, st') ->
    act st (GFetch from to gap slot infos) st' (GPublish from to gap (inl e)) false
| act_decode from to gap slot data infos info st' :
    decode_slot forkAtSlot slot data st = (Ok info, st') ->
    act st (GDecode from to gap slot data infos) st'
      (after_decode from to gap slot (infos ++ option_list info)) false
| act_decode_error from to gap slot data infos e st' :
    decode_slot forkAtSlot slot data st = (Err e, st') ->
    act st (GDecode from to gap slot data infos) st' (GPublish from to gap (inl e)) false
| act_publish from to gap result :
    act st (GPublish from to gap result)
      (set_index (publish gap (result_infos result) (canonicalIndex st)) st)
      (after_publish from to result) true.

Definition broadcast (b : bool) (gs : list goroutine) : list goroutine :=
  if b then wake <$> gs else gs.

(** One goroutine moves. *)
Inductive step : config -> config -> Prop :=
| step_act st l1 g l2 st' g' b :
    act st g st' g' b ->
    step (st, l1 ++ g :: l2) (st', broadcast b l1 ++ g' :: broadcast b l2).

(** A new request arrives. *)
Inductive spawn : config -> config -> Prop :=
| spawn_request st gs from to : u64 to -> spawn (st, gs) (st, gs ++ [GStart from to]).

Inductive reachable (st0 : istate R CS CR) : config -> Prop :=
| reach_init : reachable st0 (st0, [])
| reach_spawn c c' : reachable st0 c -> spawn c c' -> reachable st0 c'
| reach_step c c' : reachable st0 c -> step c c' -> reachable st0 c'.

(** ** The invariant *)

Context (content : N -> outcome era_error (option bytes)).

Definition goroutine_ok (ld : list slotRange) (g : goroutine) : Prop :=
  match g with
  | GStart _ to | GWaiting _ to => u64 to
  | GFetch from to gap slot infos =>
      u64 to /\ from <= rfrom gap /\ rto gap <= to /\ in_range gap slot
      /\ infos = omap (at_slot forkAtSlot content) (slots (rfrom gap) slot)
      /\ forall x, rfrom gap <= x < slot -> fine forkAtSlot content x
  | GDecode from to gap slot data infos =>
      u64 to /\ from <= rfrom gap /\ rto gap <= to /\ in_range gap slot
      /\ infos = omap (at_slot forkAtSlot content) (slots (rfrom gap) slot)
      /\ (forall x, rfrom gap <= x < slot -> fine forkAtSlot content x)
      /\ content slot = Ok data
  | GPublish from to gap result =>
      u64 to /\ from <= rfrom gap /\ rto gap <= to
      /\ match result with
         | inl e => exists x, in_range gap x /\ canonical_at forkAtSlot content x = Err e
         | inr infos => infos = gap_infos forkAtSlot content gap
                        /\ forall x, in_range gap x -> fine forkAtSlot content x
         end
  | GDone from to None => forall x, from <= x <= to -> covers ld x
  | GDone from to (Some e) => exists x, from <= x <= to /\ canonical_at forkAtSlot content x = Err e
  end.

Definition is_waiting (g : goroutine) : Prop :=
  match g with GWaiting _ _ => True | _ => False end.

Definition is_done (g : goroutine) : Prop :=
  match g with GDone _ _ _ => True | _ => False end.

Record config_ok (c : config) : Prop := {
  co_caches : caches_ok forkAtSlot content c.1;
  co_index : index_ok forkAtSlot content (canonicalIndex c.1);
  (** every claim on the index is held by exactly one goroutine *)
  co_claims : omap claim_of c.2 ≡ₚ loading (canonicalIndex c.1);
  co_goroutines : Forall (goroutine_ok (loaded (canonicalIndex c.1))) c.2;
  (** whoever waits, waits for a claim that is still held *)
  co_waiting : Exists is_waiting c.2 -> loading (canonicalIndex c.1) ≠ []
}.
End concurrent.

(** ** Lemmas *)

Lemma removeSlotRange_perm rs gap l :
  NoDup rs -> gap :: l ≡ₚ rs -> removeSlotRange rs gap ≡ₚ l.
Proof.
  intros Hnd Hp. rewrite <- Hp in Hnd. apply NoDup_cons in Hnd as [Hni Hnd].
  assert (Hrm : forall rs', removeSlotRange rs' gap = filter (fun r => r ≠ gap) rs').
  { induction rs' as [|r rs' IH]; [done|]. cbn [removeSlotRange]. rewrite filter_cons, IH.
    repeat case_decide; congruence. }
  rewrite Hrm, <- Hp, filter_cons_False by tauto.
  clear Hrm Hp Hnd. induction l as [|r l IH]; [done|].
  apply not_elem_of_cons in Hni as [Hne Hni]. rewrite filter_cons_True by congruence.
  by rewrite IH.
Qed.

Lemma disjoint_NoDup rs : disjoint_ranges rs -> NoDup rs.
Proof.
  induction rs as [|r rs IH]; [constructor|]. intros ([Hle _] & Hb & Hrs)%disjoint_cons_inv.
  constructor; [|auto]. intros Hr. rewrite Forall_forall in Hb. specialize (Hb _ Hr).
  unfold before in Hb. lia.
Qed.

Lemma claim_of_wake g : claim_of (wake g) = claim_of g.
Proof. by destruct g. Qed.

Lemma omap_claim_wake (gs : list goroutine) : omap claim_of (wake <$> gs) = omap claim_of gs.
Proof.
  induction gs as [|g gs IH]; [done|]. cbn. rewrite claim_of_wake. by rewrite IH.
Qed.

Lemma not_waiting_wake (gs : list goroutine) : ~ Exists is_waiting (wake <$> gs).
Proof.
  induction gs as [|g gs IH]; intros H; apply Exists_cons in H || by apply Exists_nil in H.
  destruct H; [by destruct g|auto].
Qed.

Section concurrent_lemmas.
Context {E2 : Eth2} {R : Type} {BS : BlockSource R}.
Context {CS : Type} {LS : Lru N blockInfo CS} {CR : Type} {LR : Lru bytes blockInfo CR}.
Context (forkAtSlot : N -> bytes) (content : N -> outcome era_error (option bytes)).

Abbreviation state := (istate R CS CR).
Abbreviation goroutine_ok := (goroutine_ok forkAtSlot content).
Abbreviation config_ok := (config_ok forkAtSlot content).
Implicit Types st : state.

Lemma goroutine_ok_mono ld ld' g :
  (forall x, covers ld x -> covers ld' x) -> goroutine_ok ld g -> goroutine_ok ld' g.
Proof. intros H. destruct g as [| | | | |from to [e|]]; cbn; auto. Qed.

Lemma goroutine_ok_wake ld g : goroutine_ok ld g -> goroutine_ok ld (wake g).
Proof. by destruct g. Qed.

(** A move that leaves the index alone. *)
Lemma config_ok_same_index st st' l1 g g' l2 :
  config_ok (st, l1 ++ g :: l2) -> caches_ok forkAtSlot content st' ->
  canonicalIndex st' = canonicalIndex st -> claim_of g' = claim_of g ->
  goroutine_ok (loaded (canonicalIndex st)) g' ->
  (is_waiting g' -> loading (canonicalIndex st) ≠ []) ->
  config_ok (st', l1 ++ g' :: l2).
Proof.
  intros [H1 H2 H3 H4 H5] Hc Hi Hcl Hg Hw. cbn in *.
  apply Forall_app in H4 as [H4a [_ H4b]%Forall_cons].
  split; cbn; rewrite ?Hi; auto.
  - rewrite <- H3, !omap_app. cbn. by rewrite Hcl.
  - apply Forall_app. split; [done|]. by constructor.
  - rewrite Exists_app, Exists_cons. rewrite Exists_app, Exists_cons in H5. tauto.
Qed.

(** The claiming and the publishing critical sections. *)
Lemma config_ok_claim st l1 from to gap l2 :
  config_ok (st, l1 ++ GStart from to :: l2) -> (to <? from) = false ->
  nextGapLocked (loaded (canonicalIndex st)) (loading (canonicalIndex st)) from to
    = Some (Gap gap) ->
  config_ok (set_index (claim gap (canonicalIndex st)) st,
    l1 ++ GFetch from to gap (rfrom gap) [] :: l2).
Proof.
  intros [H1 H2 H3 H4 H5] Hle Hgap. cbn in *. bool_to_prop.
  apply Forall_app in H4 as [H4a [Hu H4b]%Forall_cons]. cbn in Hu.
  destruct (nextGap_correct _ _ from to (io_loaded _ _ _ H2) (io_loading _ _ _ H2) Hle Hu)
    as (g & Hg & Hspec). rewrite Hgap in Hg. injection Hg as <-.
  destruct Hspec as (Hf & [Hr1 Hr2] & _ & Hfree & _).
  assert (Hr : range_ok gap) by (split; [done|u64_lia]).
  split; cbn.
  - done.
  - by apply claim_ok.
  - rewrite insertSlotRange_perm, <- H3, !omap_app. cbn. by rewrite Permutation_middle.
  - apply Forall_app. split; [done|]. constructor; [|done]. cbn.
    rewrite slots_empty by lia. unfold in_range. split_and!; try done; try lia.
  - intros _ Hnil. pose proof (insertSlotRange_perm (loading (canonicalIndex st)) gap) as Hp.
    rewrite Hnil in Hp. by apply Permutation_nil_cons in Hp.
Qed.

Lemma config_ok_publish st l1 from to gap result l2 :
  config_ok (st, l1 ++ GPublish from to gap result :: l2) ->
  config_ok (set_index (publish gap (result_infos result) (canonicalIndex st)) st,
    broadcast true l1 ++ after_publish from to result :: broadcast true l2).
Proof.
  intros [H1 H2 H3 H4 H5]. cbn in *.
  apply Forall_app in H4 as [H4a [(Hu & Hf & Ht & Hres) H4b]%Forall_cons].
  assert (Hin : gap ∈ loading (canonicalIndex st)).
  { rewrite <- H3, omap_app. cbn. set_solver. }
  assert (Hr : range_ok gap).
  { destruct H2 as [_ [H2 _] _ _ _ _]. rewrite Forall_forall in H2. auto. }
  assert (Hok : index_ok forkAtSlot content (publish gap (result_infos result) (canonicalIndex st))).
  { destruct result as [e|infos]; [by apply publish_None_ok|]. destruct Hres as [-> Hfine].
    by apply (publish_ok _ _ st). }
  assert (Hmono : forall x, covers (loaded (canonicalIndex st)) x ->
    covers (loaded (publish gap (result_infos result) (canonicalIndex st))) x).
  { intros x Hx. destruct result; [done|]. cbn.
    destruct (add_loop_spec (loaded (canonicalIndex st)) gap (io_loaded _ _ _ H2) Hr) as (_ & Hc & _).
    apply Hc. by left. }
  assert (Hall : forall l, Forall (goroutine_ok (loaded (canonicalIndex st))) l ->
    Forall (goroutine_ok (loaded (publish gap (result_infos result) (canonicalIndex st)))) (wake <$> l)).
  { intros l Hl. apply Forall_fmap. eapply Forall_impl; [exact Hl|]. intros g Hg.
    apply goroutine_ok_wake. by eapply goroutine_ok_mono. }
  split; cbn [fst snd set_index canonicalIndex].
  - done.
  - done.
  - assert (Hp : loading (publish gap (result_infos result) (canonicalIndex st))
                 ≡ₚ omap claim_of l1 ++ omap claim_of l2).
    { transitivity (removeSlotRange (loading (canonicalIndex st)) gap); [by destruct result|].
      apply removeSlotRange_perm; [apply disjoint_NoDup, H2|].
      rewrite <- H3, omap_app. cbn. by rewrite Permutation_middle. }
    assert (forall l, omap claim_of (after_publish from to result :: l) = omap claim_of l) as Hn
      by (intros; by destruct result).
    rewrite Hp, omap_app, Hn. by rewrite !omap_claim_wake.
  - cbn. apply Forall_app. split; [auto|]. constructor; [|auto].
    destruct result as [e|infos]; cbn; [|done]. destruct Hres as (x & [? ?] & ?).
    exists x. split; [lia|done].
  - rewrite Exists_app, Exists_cons. intros [H|[H|H]]; exfalso.
    + by apply not_waiting_wake in H.
    + by destruct result.
    + by apply not_waiting_wake in H.
Qed.

(** The goroutine's own condition after reading and after decoding a slot. *)
Lemma after_decode_ok ld from to gap slot info :
  u64 to -> from <= rfrom gap -> rto gap <= to -> in_range gap slot ->
  (forall x, rfrom gap <= x < slot -> fine forkAtSlot content x) ->
  canonical_at forkAtSlot content slot = Ok info ->
  let g' := after_decode from to gap slot
    (omap (at_slot forkAtSlot content) (slots (rfrom gap) slot) ++ option_list info) in
  goroutine_ok ld g' /\ claim_of g' = Some gap /\ ~ is_waiting g'.
Proof.
  intros Hu Hf Ht [Hs1 Hs2] Hfine [Hfs <-]%fine_spec.
  assert (omap (at_slot forkAtSlot content) (slots (rfrom gap) slot)
          ++ option_list (at_slot forkAtSlot content slot)
          = omap (at_slot forkAtSlot content) (slots (rfrom gap) (slot + 1))) as ->.
  { rewrite (slots_app (rfrom gap) slot (slot + 1)) by lia. rewrite omap_app. f_equal.
    rewrite slots_cons, slots_empty by lia. cbn. by destruct (at_slot _ _ _). }
  assert (Hfine' : forall x, rfrom gap <= x < slot + 1 -> fine forkAtSlot content x).
  { intros x ?. destruct (decide (x = slot)) as [->|]; [done|]. apply Hfine. lia. }
  unfold after_decode, last_slot. destruct (N.eqb_spec slot (rto gap)) as [->|Hne]; cbn.
  - split_and!; try done. 2: tauto. intros x [? ?]. apply Hfine'. lia.
  - destruct (N.eqb_spec slot MaxUint64); [u64_lia|]. cbn. rewrite u64_add_small by u64_lia.
    split_and!; try done; unfold in_range; try lia.
Qed.

Lemma act_fetch_ok st from to gap slot infos o st' ld :
  caches_ok forkAtSlot content st -> rawBlock slot st = (o, st') ->
  goroutine_ok ld (GFetch from to gap slot infos) ->
  caches_ok forkAtSlot content st' /\ canonicalIndex st' = canonicalIndex st
  /\ match o with
     | Ok data => goroutine_ok ld (GDecode from to gap slot data infos)
     | Err e => goroutine_ok ld (GPublish from to gap (inl e))
     | Panic => False
     end.
Proof.
  intros Hst Hraw (? & ? & ? & ? & ? & ?).
  pose proof (rawBlock_spec forkAtSlot content slot st Hst) as Hs.
  pose proof (caches_ok_content _ _ st slot Hst) as Hnp.
  rewrite Hraw in Hs. destruct Hs as (Ho & Hc & Hi). split; [done|]. split; [done|].
  destruct (content slot) as [data|e|] eqn:E; subst o; cbn; [by split_and!| |done].
  split_and!; try done. exists slot. split; [done|]. unfold canonical_at. by rewrite E.
Qed.

Lemma act_decode_ok st from to gap slot data infos o st' ld :
  caches_ok forkAtSlot content st -> decode_slot forkAtSlot slot data st = (o, st') ->
  goroutine_ok ld (GDecode from to gap slot data infos) ->
  caches_ok forkAtSlot content st' /\ canonicalIndex st' = canonicalIndex st
  /\ match o with
     | Ok info =>
         let g' := after_decode from to gap slot (infos ++ option_list info) in
         goroutine_ok ld g' /\ claim_of g' = Some gap /\ ~ is_waiting g'
     | Err e => goroutine_ok ld (GPublish from to gap (inl e))
     | Panic => False
     end.
Proof.
  intros Hst Hdec (? & ? & ? & ? & -> & ? & Hc).
  pose proof (decode_slot_spec forkAtSlot content slot data st Hst Hc) as Hs.
  pose proof (canonical_at_no_Panic _ _ st slot Hst) as Hnp.
  rewrite Hdec in Hs. destruct Hs as (-> & ? & ?). split; [done|]. split; [done|].
  destruct (canonical_at forkAtSlot content slot) as [info|e|] eqn:E; [| |done].
  - by apply after_decode_ok.
  - cbn. split_and!; try done. by exists slot.
Qed.

(** Every move preserves the invariant. *)
Lemma act_ok st l1 g l2 st' g' b :
  config_ok (st, l1 ++ g :: l2) -> act forkAtSlot st g st' g' b ->
  config_ok (st', broadcast b l1 ++ g' :: broadcast b l2).
Proof.
  intros Hok Hact. pose proof Hok as [H1 H2 _ H4 _]. cbn in H1, H2, H4.
  apply Forall_app in H4 as [_ [Hg _]%Forall_cons]. pose proof H2 as [Hld Hlg _ _ _ _].
  assert (Hnext : forall from to g', u64 to -> (to <? from) = false ->
    nextGapLocked (loaded (canonicalIndex st)) (loading (canonicalIndex st)) from to = Some g' ->
    gap_spec (loaded (canonicalIndex st)) (loading (canonicalIndex st)) from to g').
  { intros from to g0 Hu Hle Hg0. bool_to_prop.
    destruct (nextGap_correct _ _ from to Hld Hlg Hle Hu) as (g1 & Hg1 & ?). congruence. }
  destruct Hact as [from to Hlt|from to Hle Hgap|from to Hle Hgap|from to gap Hle Hgap
    |from to gap slot infos data st' Hraw|from to gap slot infos e st' Hraw
    |from to gap slot data infos info st' Hdec|from to gap slot data infos e st' Hdec
    |from to gap result]; cbn [broadcast].
  - eapply config_ok_same_index; try done. cbn. bool_to_prop. intros; lia.
  - eapply config_ok_same_index; try done. apply (Hnext _ _ _ Hg Hle Hgap).
  - eapply config_ok_same_index; try done. intros _ Hnil.
    destruct (Hnext _ _ _ Hg Hle Hgap) as (x & _ & _ & _ & Hx). rewrite Hnil in Hx.
    by apply covers_nil in Hx.
  - by apply config_ok_claim.
  - destruct (act_fetch_ok _ _ _ _ _ _ _ _ _ H1 Hraw Hg) as (? & ? & ?).
    by eapply config_ok_same_index.
  - destruct (act_fetch_ok _ _ _ _ _ _ _ _ _ H1 Hraw Hg) as (? & ? & ?).
    by eapply config_ok_same_index.
  - destruct (act_decode_ok _ _ _ _ _ _ _ _ _ _ H1 Hdec Hg) as (? & ? & ? & ? & ?).
    by eapply config_ok_same_index.
  - destruct (act_decode_ok _ _ _ _ _ _ _ _ _ _ H1 Hdec Hg) as (? & ? & ?).
    by eapply config_ok_same_index.
  - by apply config_ok_publish.
Qed.

Lemma spawn_ok c c' : config_ok c -> spawn c c' -> config_ok c'.
Proof.
  intros Hok Hs. destruct Hs as [st gs from to Hu], Hok as [H1 H2 H3 H4 H5]. cbn in *. split; cbn; auto.
  - rewrite <- H3, omap_app. cbn. by rewrite app_nil_r.
  - apply Forall_app. split; [done|]. by repeat constructor.
  - rewrite Exists_app, Exists_cons, Exists_nil. cbn. tauto.
Qed.

Lemma reachable_ok st0 c :
  quiet forkAtSlot content st0 -> reachable forkAtSlot st0 c -> config_ok c.
Proof.
  intros (H1 & H2 & H3). induction 1 as [|c c' _ IH Hs|c c' _ IH Hs].
  - split; cbn; [done|done|by rewrite H3|constructor|inversion 1].
  - by eapply spawn_ok.
  - destruct Hs. by eapply act_ok.
Qed.

(** *** Progress: whoever neither waits nor is done can move *)

Lemma act_enabled st l1 g l2 :
  config_ok (st, l1 ++ g :: l2) -> ~ is_waiting g -> ~ is_done g ->
  exists st' g' b, act forkAtSlot st g st' g' b.
Proof.
  intros [H1 [Hld Hlg _ _ _ _] _ H4 _] Hw Hd. cbn in *.
  apply Forall_app in H4 as [_ [Hg _]%Forall_cons].
  destruct g as [from to|from to|from to gap slot infos|from to gap slot data infos
    |from to gap result|]; try (by destruct Hw); try (by destruct Hd).
  - destruct (to <? from) eqn:Hle; [do 3 eexists; by apply act_empty|].
    destruct (nextGap_correct _ _ from to Hld Hlg ltac:(lia) Hg) as ([| |gap] & Hgap & _);
      do 3 eexists; [by apply act_done|by apply act_wait|by apply act_claim].
  - destruct (rawBlock slot st) as [[data|e|] st'] eqn:Hraw;
      [do 3 eexists; by apply act_fetch|do 3 eexists; by eapply act_fetch_error|].
    by destruct (act_fetch_ok _ _ _ _ _ _ _ _ _ H1 Hraw Hg) as (_ & _ & []).
  - destruct (decode_slot forkAtSlot slot data st) as [[info|e|] st'] eqn:Hdec;
      [do 3 eexists; by apply act_decode|do 3 eexists; by eapply act_decode_error|].
    by destruct (act_decode_ok _ _ _ _ _ _ _ _ _ _ H1 Hdec Hg) as (_ & _ & []).
  - do 3 eexists. apply act_publish.
Qed.

Lemma no_lost_wakeup st gs :
  config_ok (st, gs) -> Forall (fun g => is_waiting g \/ is_done g) gs -> Forall is_done gs.
Proof.
  intros [_ _ H3 _ H5] Hall. cbn in *.
  assert (omap claim_of gs = []) as Hnil.
  { clear -Hall. induction Hall as [|g gs Hg _ IH]; [done|]. cbn. rewrite IH. by destruct g, Hg. }
  rewrite Hnil in H3. apply Permutation_nil_l in H3.
  apply Forall_forall. intros g Hg. rewrite Forall_forall in Hall.
  destruct (Hall g Hg) as [Hw|]; [|done]. destruct H5; [|done].
  apply Exists_exists. eauto.
Qed.

Lemma config_progress c : config_ok c -> Forall is_done c.2 \/ exists c', step forkAtSlot c c'.
Proof.
  destruct c as [st gs]. intros Hok. cbn.
  assert (Hdec : forall g : goroutine, {is_waiting g \/ is_done g} + {~ (is_waiting g \/ is_done g)})
    by (intros []; cbn; tauto || (left; tauto) || (right; tauto)).
  destruct (Forall_Exists_dec _ _ Hdec gs) as [Hall|(g & Hg & Hn)%Exists_exists].
  - left. by eapply no_lost_wakeup.
  - right. apply list_elem_of_split in Hg as (l1 & l2 & ->).
    destruct (act_enabled _ _ _ _ Hok) as (st' & g' & b & Hact); [tauto..|].
    eexists. by econstructor.
Qed.

(** *** Termination: publishing loads a new slot or ends a call; in between every
    goroutine does a bounded amount of work *)

Definition uncovered (ld : list slotRange) (from to : N) : nat :=
  length (List.filter (fun x => negb (bool_decide (is_Some (rangeContainingSlot ld x))))
            (slots from (to + 1))).

Definition pending (ld : list slotRange) (g : goroutine) : nat :=
  match g with
  | GDone _ _ _ => 0
  | GStart from to | GWaiting from to | GFetch from to _ _ _ | GDecode from to _ _ _ _
  | GPublish from to _ _ => S (uncovered ld from to)
  end.

Definition effort (g : goroutine) : nat :=
  match g with
  | GStart from to => N.to_nat (2 * (to - from) + 6)
  | GFetch _ _ gap slot _ => N.to_nat (2 * (rto gap - slot) + 4)
  | GDecode _ _ gap slot _ _ => N.to_nat (2 * (rto gap - slot) + 3)
  | GPublish _ _ _ _ => 1
  | GWaiting _ _ | GDone _ _ _ => 0
  end.

Definition total (f : goroutine -> nat) (gs : list goroutine) : nat := sum_list_with f gs.

Lemma total_mid f l1 g l2 : total f (l1 ++ g :: l2) = (total f l1 + f g + total f l2)%nat.
Proof. unfold total. rewrite sum_list_with_app. cbn. lia. Qed.

Lemma uncovered_le ld ld' from to :
  normal ld -> normal ld' -> (forall x, covers ld x -> covers ld' x) ->
  (uncovered ld' from to <= uncovered ld from to)%nat
  /\ forall x, from <= x <= to -> ~ covers ld x -> covers ld' x ->
     (uncovered ld' from to < uncovered ld from to)%nat.
Proof.
  intros Hn Hn' Hmono. unfold uncovered.
  assert (Hb : forall l x, normal l -> bool_decide (is_Some (rangeContainingSlot l x)) = true <-> covers l x).
  { intros l x Hl. rewrite bool_decide_eq_true. split.
    - intros [r [? ?]%rangeContainingSlot_Some]. by exists r.
    - intros Hc. destruct (rangeContainingSlot l x) eqn:E; [eauto|].
      by apply rangeContainingSlot_None in E; [|by apply normal_disjoint]. }
  assert (Himp : forall x, bool_decide (is_Some (rangeContainingSlot ld x)) = true ->
                           bool_decide (is_Some (rangeContainingSlot ld' x)) = true).
  { intros x. rewrite !Hb by done. auto. }
  assert (Hle : forall l, (length (List.filter (fun x => negb (bool_decide (is_Some (rangeContainingSlot ld' x)))) l)
    <= length (List.filter (fun x => negb (bool_decide (is_Some (rangeContainingSlot ld x)))) l))%nat).
  { induction l as [|y l IH]; [done|]. cbn. specialize (Himp y).
    do 2 case_bool_decide; cbn; lia. }
  split; [apply Hle|]. intros x Hx Hnc Hc.
  assert (x ∈ slots from (to + 1)) as (l1 & l2 & ->)%list_elem_of_split
    by (rewrite elem_of_slots; lia).
  rewrite !List.filter_app, !length_app. pose proof (Hle l1). pose proof (Hle l2).
  rewrite <- Hb in Hc by done. rewrite <- Hb, not_true_iff_false in Hnc by done.
  cbn. rewrite Hc, Hnc. cbn. lia.
Qed.

Lemma total_pending_le ld ld' b gs :
  (forall from to, (uncovered ld' from to <= uncovered ld from to)%nat) ->
  (total (pending ld') (broadcast b gs) <= total (pending ld) gs)%nat.
Proof.
  intros Hle. unfold total. induction gs as [|g gs IH]; [by destruct b|].
  assert (H : (pending ld' (if b then wake g else g) <= pending ld g)%nat).
  { destruct b, g; cbn; try specialize (Hle from to); lia. }
  destruct b; cbn in *; lia.
Qed.

(** A move without a broadcast uses up effort and loads nothing. *)
Lemma act_effort st l1 g l2 st' g' :
  config_ok (st, l1 ++ g :: l2) -> act forkAtSlot st g st' g' false ->
  loaded (canonicalIndex st') = loaded (canonicalIndex st)
  /\ (forall ld, pending ld g' <= pending ld g)%nat /\ (effort g' < effort g)%nat.
Proof.
  intros [H1 [Hld Hlg _ _ _ _] _ H4 _] Hact. cbn in *.
  apply Forall_app in H4 as [_ [Hg _]%Forall_cons].
  inversion Hact as [from to Hle|from to Hle Hgap|from to Hle Hgap|from to gap Hle Hgap
    |from to gap slot infos data ? Hraw|from to gap slot infos e ? Hraw
    |from to gap slot data infos info ? Hdec|from to gap slot data infos e ? Hdec|]; subst.
  - cbn. split_and!; [done|intros ld; cbn [pending]; lia|lia].
  - cbn. split_and!; [done|intros ld; cbn [pending]; lia|lia].
  - cbn. split_and!; [done|intros ld; cbn [pending]; lia|lia].
  - destruct (nextGap_correct _ _ from to Hld Hlg ltac:(lia) Hg) as (g0 & Hg0 & Hsp).
    rewrite Hgap in Hg0. injection Hg0 as <-. destruct Hsp as (? & [? ?] & _).
    cbn [effort pending claim set_index canonicalIndex loaded rfrom] in *. split_and!; [done|intros ld; cbn [pending]; lia|lia].
  - destruct (act_fetch_ok _ _ _ _ _ _ _ _ _ H1 Hraw Hg) as (_ & -> & _). cbn [effort pending].
    split_and!; [done|intros ld; cbn [pending]; lia|lia].
  - destruct (act_fetch_ok _ _ _ _ _ _ _ _ _ H1 Hraw Hg) as (_ & -> & _). cbn [effort pending].
    split_and!; [done|intros ld; cbn [pending]; lia|lia].
  - destruct (act_decode_ok _ _ _ _ _ _ _ _ _ _ H1 Hdec Hg) as (_ & -> & _).
    destruct Hg as (Hu & _ & Ht & [_ Hs] & _). unfold after_decode, last_slot.
    destruct (N.eqb_spec slot (rto gap)), (N.eqb_spec slot MaxUint64); cbn [orb];
      rewrite ?u64_add_small by u64_lia; split_and!; try (intros ld; cbn [pending]); cbn [effort]; done || lia.
  - destruct (act_decode_ok _ _ _ _ _ _ _ _ _ _ H1 Hdec Hg) as (_ & -> & _). cbn [effort pending].
    split_and!; [done|intros ld; cbn [pending]; lia|lia].
Qed.

(** A publication loads a missing slot of its own request or ends the call. *)
Lemma publish_pending st l1 from to gap result l2 :
  config_ok (st, l1 ++ GPublish from to gap result :: l2) ->
  (total (pending (loaded (publish gap (result_infos result) (canonicalIndex st))))
     (broadcast true l1 ++ after_publish from to result :: broadcast true l2)
   < total (pending (loaded (canonicalIndex st))) (l1 ++ GPublish from to gap result :: l2))%nat.
Proof.
  intros Hok. pose proof (config_ok_publish _ _ _ _ _ _ _ Hok) as [_ [Hn' _ _ _ _ _] _ _ _].
  destruct Hok as [_ [Hn Hlg Hap _ _ _] H3 H4 _]. cbn in *.
  apply Forall_app in H4 as [_ [(Hu & Hf & Ht & _) _]%Forall_cons].
  assert (Hin : gap ∈ loading (canonicalIndex st)) by (rewrite <- H3, omap_app; cbn; set_solver).
  assert (Hr : range_ok gap) by (destruct Hlg as [Hlg _]; rewrite Forall_forall in Hlg; auto).
  pose proof Hr as [Hr1 _].
  set (ld' := loaded (publish _ _ _)) in *.
  assert (Hcov : forall x, covers ld' x <-> covers (loaded (canonicalIndex st)) x
                   \/ (in_range gap x /\ exists infos, result = inr infos)).
  { intros x. unfold ld'. destruct result as [e|infos]; cbn; [naive_solver|].
    destruct (add_loop_spec (loaded (canonicalIndex st)) gap Hn Hr) as (_ & Hc & _).
    rewrite Hc. naive_solver. }
  pose proof (fun from to => uncovered_le _ ld' from to Hn Hn' (fun x Hx => proj2 (Hcov x) (or_introl Hx)))
    as Hle.
  rewrite !total_mid.
  pose proof (total_pending_le _ ld' true l1 (fun f t => proj1 (Hle f t))).
  pose proof (total_pending_le _ ld' true l2 (fun f t => proj1 (Hle f t))).
  assert (pending ld' (after_publish from to result)
          < pending (loaded (canonicalIndex st)) (GPublish from to gap result))%nat; [|cbn [broadcast] in *; lia].
  destruct result as [e|infos]; cbn; [lia|].
  destruct (Hle from to) as [_ Hlt]. apply -> Nat.succ_lt_mono.
  apply (Hlt (rfrom gap)); [lia| |].
  - intros Hc. apply (Hap _ Hc). exists gap. split; [done|]. unfold in_range. lia.
  - apply Hcov. right. split; [unfold in_range; lia|eauto].
Qed.

Lemma step_Acc c : config_ok c -> Acc (fun c2 c1 => step forkAtSlot c1 c2) c.
Proof.
  remember (total (pending (loaded (canonicalIndex c.1))) c.2) as n eqn:Hn.
  remember (total effort c.2) as m eqn:Hm.
  revert m c Hn Hm. induction n as [n IHn] using lt_wf_ind.
  intros m. induction m as [m IHm] using lt_wf_ind. intros c -> -> Hok.
  constructor. intros c' Hs. destruct Hs as [st l1 g l2 st' g' b Hact].
  pose proof (act_ok _ _ _ _ _ _ _ Hok Hact) as Hok'. cbn [fst snd] in *.
  destruct b.
  - inversion Hact; subst. eapply IHn; [|reflexivity|reflexivity|done].
    apply (publish_pending st). done.
  - destruct (act_effort _ _ _ _ _ _ Hok Hact) as (Hld & Hp & He). cbn [broadcast] in *.
    assert (HP : (total (pending (loaded (canonicalIndex st'))) (l1 ++ g' :: l2)
      <= total (pending (loaded (canonicalIndex st))) (l1 ++ g :: l2))%nat).
    { rewrite Hld, !total_mid. specialize (Hp (loaded (canonicalIndex st))). lia. }
    assert (HE : (total effort (l1 ++ g' :: l2) < total effort (l1 ++ g :: l2))%nat).
    { rewrite !total_mid. lia. }
    apply Nat.lt_eq_cases in HP as [HP|HP].
    + by eapply IHn; [exact HP|reflexivity|reflexivity|].
    + by eapply IHm; [exact HE|symmetry; exact HP|reflexivity|].
Qed.
End concurrent_lemmas.

(** A sample run: two requests for the same slots; the first claims them, the
    second waits. *)
Definition two_requests : istate _ _ _ * list goroutine :=
  (set_index (claim (mkRange 101 104) (canonicalIndex toy_istate)) toy_istate,
   [GFetch 101 104 (mkRange 101 104) 101 []; GWaiting 101 104]).

Lemma two_requests_reachable : reachable MainnetForkAtSlot toy_istate two_requests.
Proof.
  eapply reach_step; [eapply reach_step; [eapply reach_spawn; [eapply reach_spawn;
    [apply reach_init|]|]|]|].
  - apply (spawn_request _ [] 101 104). u64_lia.
  - apply (spawn_request _ _ 101 104). u64_lia.
  - apply (step_act _ _ [] _ _ _ _ _ (act_claim _ toy_istate 101 104 (mkRange 101 104) eq_refl eq_refl)).
  - apply (step_act _ _ [_] _ [] _ _ _ (act_wait _ (fst two_requests) 101 104 eq_refl eq_refl)).
Qed.

(** ** Theorems *)

(** C18: safety of the shared index under every interleaving of any number of
    [ensureRange] calls.  At every reachable moment: an entry of the index is the
    canonical block of its slot; a call that returned without error has its whole
    range loaded and the index answers for each slot what the source holds; an
    error returned by a call is that of a slot of its range; and the claims held
    are pairwise disjoint, each by one goroutine, and contain no loaded slot, so
    that no slot is ever loaded twice. *)
Theorem index_safe {E2 : Eth2} {R} {BS : BlockSource R} {CS} {LS : Lru N blockInfo CS}
    {CR} {LR : Lru bytes blockInfo CR} (forkAtSlot : N -> bytes)
    (content : N -> outcome era_error (option bytes)) (st0 st : istate R CS CR)
    (gs : list goroutine) :
  quiet forkAtSlot content st0 -> reachable forkAtSlot st0 (st, gs) ->
  (forall slot info, infoBySlot (canonicalIndex st) slot = Some info ->
     canonical_at forkAtSlot content slot = Ok (Some info))
  /\ (forall from to, GDone from to None ∈ gs -> forall slot, from <= slot <= to ->
       canonical_at forkAtSlot content slot = Ok (infoBySlot (canonicalIndex st) slot))
  /\ (forall from to e, GDone from to (Some e) ∈ gs ->
       exists slot, from <= slot <= to /\ canonical_at forkAtSlot content slot = Err e)
  /\ omap claim_of gs ≡ₚ loading (canonicalIndex st)
  /\ disjoint_ranges (loading (canonicalIndex st))
  /\ (forall slot, covers (loaded (canonicalIndex st)) slot ->
       ~ covers (loading (canonicalIndex st)) slot).
Proof.
  intros Hq Hr. destruct (reachable_ok _ _ _ _ Hq Hr) as [_ [Hld Hlg Hap Hco Hbs _] Hcl Hgs _].
  cbn in *. rewrite Forall_forall in Hgs. split_and!; try done.
  - intros slot info Hs. rewrite <- Hs. apply Hco. by apply (Hbs slot info).
  - intros from to Hd slot Hs. apply Hco. by apply (Hgs _ Hd).
  - intros from to e Hd. apply (Hgs _ Hd).
Qed.

Lemma index_safe_witness :
  omap claim_of (snd two_requests) = [mkRange 101 104]
  /\ omap claim_of (snd two_requests) ≡ₚ loading (canonicalIndex (fst two_requests)).
Proof.
  split; [reflexivity|].
  by destruct (index_safe MainnetForkAtSlot (era_block plain toy_dir) toy_istate
    (fst two_requests) (snd two_requests) toy_quiet two_requests_reachable) as (_ & _ & _ & H & _).
Defined.

(** C19: liveness.  No interleaving deadlocks or loses a wake-up: while some call
    has not returned, some goroutine can move; and no run goes on for ever unless
    new requests keep arriving.  So all calls return under every scheduler. *)
Theorem index_calls_return {E2 : Eth2} {R} {BS : BlockSource R} {CS} {LS : Lru N blockInfo CS}
    {CR} {LR : Lru bytes blockInfo CR} (forkAtSlot : N -> bytes)
    (content : N -> outcome era_error (option bytes)) (st0 : istate R CS CR)
    (c : istate R CS CR * list goroutine) :
  quiet forkAtSlot content st0 -> reachable forkAtSlot st0 c ->
  Acc (fun c2 c1 => step forkAtSlot c1 c2) c
  /\ (Forall is_done c.2 \/ exists c', step forkAtSlot c c').
Proof.
  intros Hq Hr. pose proof (reachable_ok _ _ _ _ Hq Hr) as Hok.
  split; [by apply (step_Acc _ content)|by apply (config_progress _ content)].
Qed.

Lemma index_calls_return_witness : exists c', step MainnetForkAtSlot two_requests c'.
Proof.
  destruct (index_calls_return MainnetForkAtSlot (era_block plain toy_dir) toy_istate two_requests
    toy_quiet two_requests_reachable) as [_ [H|H]]; [|exact H].
  exfalso. apply Forall_cons in H as [H _]. exact H.
Defined.
