(* ===== verification/PlanSources.v ===== *)
(** * Attestation sources of a slot ([pkg/beaconapi/realbackend.go])

    The backend's own copy of the source rules of package [attplan], with the
    attestation-slot bound of the greedy mode, and the plan's data types
    ([pkg/beaconapi/types.go]). *)

From S2P Require Import Prelude Bytes AttPlan SlotRanges BlockInfo.

(** ** Data *)

Record PlanAttestationSource := mkSource {
  s_Slot : N;
  MaxAttestationSlot : option N
}.

Record PlanBlockImport := mkImport {
  i_Slot : N;
  i_Root : bytes;
  Canonical : bool
}.

Record PlanEntry := mkPlanEntry {
  pe_SimSlot : N;
  pe_EvalSlot : N;
  pe_ImportBlocks : list PlanBlockImport;
  AttestationSources : list PlanAttestationSource;
  pe_SourceBlockSlot : option N
}.

Record PlanCheckpoint := mkPlanCheckpoint { Epoch : N; c_Root : bytes }.

Record PlanAttestationData := mkPlanData {
  pd_Slot : N;
  pd_Index : N;
  pd_BeaconBlockRoot : bytes;
  Source : PlanCheckpoint;
  Target : PlanCheckpoint
}.

Record PlanAttestation := mkPlanAttestation {
  pa_AggregationBits : bytes;
  pa_CommitteeBits : option bytes;
  Data : PlanAttestationData;
  pa_AttestingIndices : list N
}.

Record SlotInstruction := mkInstruction {
  si_SimSlot : N;
  si_EvalSlot : N;
  si_ImportBlocks : list PlanBlockImport;
  si_Attestations : list PlanAttestation
}.

(** ** Operations *)

Definition formatRoot (root : bytes) : bytes := str "0x" ++ hex_encode root.

Definition isZeroRoot (root : bytes) : bool := bool_decide (root = zero_root).

Definition blockImport (info : blockInfo) (canonical : bool) : PlanBlockImport :=
  mkImport (Slot info) (formatRoot (Root info)) canonical.

Definition planAttestation (a : attestationInfo) : PlanAttestation :=
  mkPlanAttestation (AggregationBits a) (CommitteeBits a)
    (mkPlanData (a_Slot a) (a_Index a) (formatRoot (BeaconBlockRoot a))
       (mkPlanCheckpoint (SourceEpoch a) (formatRoot (SourceRoot a)))
       (mkPlanCheckpoint (TargetEpoch a) (formatRoot (TargetRoot a))))
    (AttestingIndices a).

(** The order of [sortBlockInfos]; [sort.SliceStable] with it is [sort_by]. *)
Definition blockInfo_less (a b : blockInfo) : bool :=
  if Slot a =? Slot b then bytes_less (Root a) (Root b) else Slot a <? Slot b.

Definition sortBlockInfos (infos : list blockInfo) : list blockInfo := sort_by blockInfo_less infos.

Definition sortedRootKeys (roots : gset bytes) : list bytes := sort_by bytes_less (elements roots).

Fixpoint first_loop (fuel : nat) (blockExists : gmap N bool) (slot last : N) : option N :=
  if exists_at blockExists slot then Some slot
  else if slot =? last then None
  else match fuel with
       | O => None
       | S fuel' => first_loop fuel' blockExists (u64_add slot 1) last
       end.

Definition firstNonMissedSource (blockExists : gmap N bool) (simSlot lookaheadCap : N) : option N :=
  if MaxUint64 - simSlot <? lookaheadCap then None
  else
    let last := u64_add simSlot lookaheadCap in
    first_loop (N.to_nat (u64_sub last (u64_add simSlot 1))) blockExists (u64_add simSlot 1) last.

(** The loop of the greedy case: what it appends to [sources]. *)
Fixpoint greedy_loop (fuel : nat) (blockExists : gmap N bool) (slot last evalSlot : N)
    : list PlanAttestationSource :=
  (if exists_at blockExists slot then [mkSource slot (Some evalSlot)] else [])
  ++ (if slot =? last then []
      else match fuel with
           | O => []
           | S fuel' => greedy_loop fuel' blockExists (u64_add slot 1) last evalSlot
           end).

(** The result is [nil] or a slice; both are the list here.  The greedy case
    allocates [lookaheadCap] entries of 16 bytes. *)
Definition planSourcesForSlot (blockExists : gmap N bool) (simSlot : N) (mode : Mode)
    (lookaheadCap evalSlot : N) : outcome beacon_error (list PlanAttestationSource) :=
  if (mode =? ModeNextNonMissed)%Z then
    Ok (match firstNonMissedSource blockExists simSlot lookaheadCap with
        | None => []
        | Some source => [mkSource source None]
        end)
  else if (mode =? ModeStrictKMinus1)%Z then
    Ok (match checkedAdd simSlot 1 with
        | Some source => if exists_at blockExists source then [mkSource source None] else []
        | None => []
        end)
  else if (mode =? ModeGreedyLookahead)%Z then
    if MaxUint64 - simSlot <? lookaheadCap then Ok []
    else if makeslice_panics 16 lookaheadCap then Panic
    else
      let last := u64_add simSlot lookaheadCap in
      Ok (greedy_loop (N.to_nat (u64_sub last (u64_add simSlot 1))) blockExists
            (u64_add simSlot 1) last evalSlot)
  else Ok [].

(** ** Lemmas *)

Lemma first_loop_scan fuel m slot last : first_loop fuel m slot last = scan_window fuel m slot last.
Proof. revert slot. induction fuel as [|fuel IH]; intros slot; cbn; [done|]. by rewrite IH. Qed.

Lemma firstNonMissedSource_next m simSlot cap :
  firstNonMissedSource m simSlot cap = nextNonMissedSource m simSlot cap.
Proof. unfold firstNonMissedSource, nextNonMissedSource. by rewrite first_loop_scan. Qed.

Lemma greedy_loop_filter fuel m slot last evalSlot :
  slot <= last -> u64 last -> N.of_nat fuel = last - slot ->
  greedy_loop fuel m slot last evalSlot
  = (fun s => mkSource s (Some evalSlot)) <$> filter (fun s => exists_at m s = true) (slots slot (last + 1)).
Proof.
  revert slot. induction fuel as [|fuel IH]; intros slot Hle Hu Hf; cbn [greedy_loop];
    rewrite slots_cons, filter_cons by lia.
  - replace last with slot by lia. rewrite N.eqb_refl, slots_empty by lia.
    by destruct (exists_at m slot).
  - destruct (N.eqb_spec slot last); [lia|]. rewrite u64_add_small by u64_lia.
    rewrite IH by u64_lia. by destruct (exists_at m slot).
Qed.

Lemma greedy_loop_head fuel m slot last evalSlot :
  s_Slot <$> head (greedy_loop fuel m slot last evalSlot) = scan_window fuel m slot last.
Proof.
  revert slot. induction fuel as [|fuel IH]; intros slot; cbn [greedy_loop scan_window];
    destruct (exists_at m slot); cbn; try done; by destruct (slot =? last).
Qed.

Lemma greedy_sources m simSlot cap evalSlot :
  1 <= cap -> u64 (simSlot + cap) -> 16 * cap <= maxAlloc ->
  planSourcesForSlot m simSlot ModeGreedyLookahead cap evalSlot
  = Ok ((fun s => mkSource s (Some evalSlot))
          <$> filter (fun s => exists_at m s = true) (slots (simSlot + 1) (simSlot + cap + 1))).
Proof.
  intros Hc Hu Ha. unfold planSourcesForSlot. cbn.
  destruct (N.ltb_spec (MaxUint64 - simSlot) cap) as [Hlt|_]; [u64_lia|].
  unfold makeslice_panics. destruct (N.ltb_spec maxAlloc (16 * cap)) as [Hlt|_]; [lia|].
  rewrite !u64_add_small, u64_sub_small by u64_lia.
  by rewrite greedy_loop_filter by u64_lia.
Qed.

(** Every source is a slot with a block, after the simulated slot and within the
    look-ahead window. *)
Lemma planSourcesForSlot_in m simSlot mode cap evalSlot l source :
  u64 simSlot -> (mode = ModeStrictKMinus1 -> 1 <= cap) ->
  (mode = ModeNextNonMissed \/ mode = ModeGreedyLookahead -> 1 <= cap) ->
  planSourcesForSlot m simSlot mode cap evalSlot = Ok l -> source ∈ l ->
  exists_at m (s_Slot source) = true /\ simSlot < s_Slot source <= simSlot + cap /\ u64 (s_Slot source).
Proof.
  intros Hu Hst Hca. unfold planSourcesForSlot.
  destruct (Z.eqb_spec mode ModeNextNonMissed) as [Hm|_].
  { intros [= <-]. rewrite firstNonMissedSource_next. specialize (Hca (or_introl Hm)).
    unfold nextNonMissedSource. destruct (N.ltb_spec (MaxUint64 - simSlot) cap); [set_solver|].
    rewrite !u64_add_small, u64_sub_small by u64_lia.
    pose proof (scan_window_spec (N.to_nat (simSlot + cap - (simSlot + 1))) m (simSlot + 1)
      (simSlot + cap) ltac:(lia) ltac:(u64_lia) ltac:(lia)) as Hs.
    destruct (scan_window _ _ _ _) as [k|]; [|set_solver]. destruct Hs as (? & ? & _).
    intros ->%list_elem_of_singleton. cbn. split_and!; [done|lia|lia|u64_lia]. }
  destruct (Z.eqb_spec mode ModeStrictKMinus1) as [Hm|_].
  { intros [= <-]. destruct (checkedAdd simSlot 1) as [s|] eqn:Hs; [|set_solver].
    apply checkedAdd_Some in Hs as [-> Hu']; [|done].
    destruct (exists_at m (simSlot + 1)) eqn:He; [|set_solver].
    intros ->%list_elem_of_singleton. cbn. specialize (Hst Hm). split_and!; [done|lia|lia|done]. }
  destruct (Z.eqb_spec mode ModeGreedyLookahead) as [Hm|_]; [|intros [= <-]; set_solver].
  specialize (Hca (or_intror Hm)).
  destruct (N.ltb_spec (MaxUint64 - simSlot) cap); [intros [= <-]; set_solver|].
  case_ifs; [done|]. rewrite !u64_add_small, u64_sub_small by u64_lia. intros [= <-].
  rewrite greedy_loop_filter by u64_lia.
  intros (s & -> & [He Hs]%list_elem_of_filter)%list_elem_of_fmap. rewrite elem_of_slots in Hs. cbn.
  split_and!; [done|lia|lia|u64_lia].
Qed.

Lemma planSourcesForSlot_Ok m simSlot mode cap evalSlot :
  16 * cap <= maxAlloc -> exists l, planSourcesForSlot m simSlot mode cap evalSlot = Ok l.
Proof. intros. unfold planSourcesForSlot, makeslice_panics. case_ifs; eauto. lia. Qed.

(** *** Sorting *)

Lemma blockInfo_less_asym a b : blockInfo_less a b = true -> blockInfo_less b a = false.
Proof.
  unfold blockInfo_less. rewrite (N.eqb_sym (Slot b)). case_ifs; [apply bytes_less_asym|].
  rewrite N.ltb_lt, N.ltb_ge. lia.
Qed.

Lemma blockInfo_not_less_trans a b c :
  not_less blockInfo_less a b -> not_less blockInfo_less b c -> not_less blockInfo_less a c.
Proof.
  unfold not_less, blockInfo_less.
  destruct (N.eqb_spec (Slot b) (Slot a)), (N.eqb_spec (Slot c) (Slot b)),
    (N.eqb_spec (Slot c) (Slot a)); rewrite ?N.ltb_ge; try lia; try congruence.
  intros H1 H2. by apply (bytes_not_less_trans _ _ _ H1 H2).
Qed.

Lemma sortBlockInfos_sorted l : StronglySorted (not_less blockInfo_less) (sortBlockInfos l).
Proof. apply sort_by_sorted; [apply blockInfo_not_less_trans|apply blockInfo_less_asym]. Qed.

Lemma elem_of_sortedRootKeys x roots : x ∈ sortedRootKeys roots <-> x ∈ roots.
Proof. unfold sortedRootKeys. by rewrite elem_of_sort_by, elem_of_elements. Qed.

Lemma NoDup_sortedRootKeys roots : NoDup (sortedRootKeys roots).
Proof. unfold sortedRootKeys. rewrite sort_by_perm. apply NoDup_elements. Qed.

Lemma formatRoot_inj a b : formatRoot a = formatRoot b -> a = b.
Proof. intros H%app_inv_head. by apply hex_encode_inj. Qed.

(** ** Theorems *)

(** C20: the backend's source rule is that of package [attplan]: for every mode,
    the first source of a slot is [attplan]'s source for it, in greedy mode the
    sources are all existing slots of the look-ahead window in ascending order,
    bounded by the evaluation slot, and the other modes yield at most one source. *)
Theorem sources_agree_with_attplan (m : gmap N bool) (simSlot cap evalSlot : N) (mode : Mode) :
  simSlot < MaxUint64 -> 1 <= cap -> 16 * cap <= maxAlloc ->
  exists sources, planSourcesForSlot m simSlot mode cap evalSlot = Ok sources
    /\ s_Slot <$> head sources = plan_source m simSlot mode cap
    /\ (mode = ModeGreedyLookahead -> u64 (simSlot + cap) ->
        s_Slot <$> sources = filter (fun s => exists_at m s = true) (slots (simSlot + 1) (simSlot + cap + 1))
        /\ Forall (fun source => MaxAttestationSlot source = Some evalSlot) sources)
    /\ (mode ≠ ModeGreedyLookahead ->
        (length sources <= 1)%nat /\ Forall (fun source => MaxAttestationSlot source = None) sources).
Proof.
  intros Hs Hc Ha. unfold planSourcesForSlot, plan_source. rewrite firstNonMissedSource_next.
  destruct (Z.eqb_spec mode ModeNextNonMissed) as [->|Hn].
  { eexists. split; [reflexivity|]. split; [by destruct (nextNonMissedSource _ _ _)|].
    split; [done|]. intros _. destruct (nextNonMissedSource _ _ _); cbn; repeat constructor; lia. }
  destruct (Z.eqb_spec mode ModeStrictKMinus1) as [->|Hst].
  { eexists. split; [reflexivity|]. cbn. unfold strictKMinus1Source.
    rewrite checkedAdd_spec, u64_add_small by u64_lia.
    destruct (N.leb_spec (simSlot + 1) MaxUint64) as [_|]; [|lia].
    destruct (exists_at m (simSlot + 1)); cbn; (split; [done|]); (split; [done|]);
      intros _; split; repeat constructor; lia. }
  destruct (Z.eqb_spec mode ModeGreedyLookahead) as [->|Hg]; cbn.
  - unfold nextNonMissedSource.
    destruct (N.ltb_spec (MaxUint64 - simSlot) cap) as [Hov|Hno].
    { eexists. split; [reflexivity|]. split; [done|]. split; [u64_lia|done]. }
    pose proof (greedy_sources m simSlot cap evalSlot Hc ltac:(u64_lia) Ha) as Hgr.
    unfold makeslice_panics. destruct (N.ltb_spec maxAlloc (16 * cap)) as [|_]; [lia|].
    eexists. split; [reflexivity|]. split; [apply greedy_loop_head|]. split; [|done]. intros _ _.
    rewrite !u64_add_small, u64_sub_small by u64_lia. rewrite greedy_loop_filter by u64_lia.
    split; [|by apply Forall_fmap, Forall_true].
    rewrite <- list_fmap_compose. apply list_fmap_id.
  - eexists. split; [reflexivity|]. split; [done|]. split; [done|]. intros _.
    split; [cbn; lia|constructor].
Qed.

Lemma sources_agree_with_attplan_witness :
  s_Slot <$> [mkSource 102 (Some 101); mkSource 104 (Some 101)]
  = filter (fun s => exists_at {[102 := true; 104 := true]} s = true) (slots 101 105).
Proof.
  destruct (sources_agree_with_attplan {[102 := true; 104 := true]} 100 4 101 ModeGreedyLookahead
    ltac:(lia) ltac:(lia) ltac:(lia)) as (sources & Hs & _ & Hg & _).
  vm_compute in Hs. injection Hs as <-. apply Hg; [reflexivity|u64_lia].
Defined.
