(* ===== verification/PlanState.v ===== *)
(** * Plan building state ([pkg/beaconapi/realbackend.go], [planBuildState])

    What [BuildSlot], [BuildPlan] and [WarmBlockArchiveCache] share: the backend's
    mutable parts, the canonical blocks behind their interface, the root sets, the
    orphan lookups and the walk from an orphan root to its known ancestors.  The
    block archive and the first-seen source are taken through classes. *)

From S2P Require Import Prelude Bytes Lru EraFormat Sources SlotRanges BlockInfo CanonicalIndex PlanSources.

(** ** The other data sources *)

(** The archive client's results; [ANotFound] is [blockarchive.ErrNotFound]. *)
Inductive archive_result (A : Type) :=
| AOk (a : A)
| ANotFound
| AError.
Arguments AOk {A}.
Arguments ANotFound {A}.
Arguments AError {A}.

(** The methods of [blockarchive.Client] the backend calls; the number is
    [FetchStats.TransientFailuresRetried].  An index entry is its slot and its
    root text as parsed by [ParseRoot] ([None]: malformed). *)
Class Archive (A : Type) := {
  ReadCachedSSZByRoot : bytes -> A -> archive_result bytes * A;
  FetchBlockSSZByRootWithStats : bytes -> A -> archive_result bytes * N * A;
  FetchBlockSSZBySlotAndRootWithStats : N -> bytes -> A -> archive_result bytes * N * A;
  ListIndexBySlotRangeWithStats : N -> N -> N -> A -> archive_result (list (N * option bytes)) * N * A
}.

(** [FirstSeenAttestationSource.AttestationsForSlot]; [None] is an error. *)
Class FirstSeen (F : Type) := {
  AttestationsForSlot : N -> (N -> bytes) -> F -> option (list attestationInfo) * F
}.

(** ** The interface [canonicalBlocks]

    Its laws: an added block is known, and found at its slot unless another block
    already was.  [can_sound] says every block the value knows is canonical; it survives
    the growth of the shared index. *)

Definition sound_blocks {E2 : Eth2} (forkAtSlot : N -> bytes)
    (content : N -> outcome era_error (option bytes))
    (at_slot : N -> option blockInfo) (known : bytes -> bool) : Prop :=
  (forall slot info, at_slot slot = Some info ->
     canonical_at forkAtSlot content slot = Ok (Some info))
  /\ (forall root, known root = true -> exists info,
       Root info = root /\ canonical_at forkAtSlot content (Slot info) = Ok (Some info)).

Class canonicalBlocks (Can : Type) := {
  can_infoBySlot : canonicalBlockIndex -> Can -> N -> option blockInfo;
  can_rootKnown : canonicalBlockIndex -> Can -> bytes -> bool;
  can_add : blockInfo -> Can -> Can;
  can_add_rootKnown i c info root :
    can_rootKnown i (can_add info c) root = bool_decide (root = Root info) || can_rootKnown i c root;
  can_add_same i c info :
    can_infoBySlot i (can_add info c) (Slot info) = Some info
    \/ (is_Some (can_infoBySlot i c (Slot info))
        /\ can_infoBySlot i (can_add info c) (Slot info) = can_infoBySlot i c (Slot info));
  can_add_other i c info slot :
    slot ≠ Slot info -> can_infoBySlot i (can_add info c) slot = can_infoBySlot i c slot;
  can_grow_some i i' c slot :
    bySlot i ⊆ bySlot i' -> is_Some (can_infoBySlot i c slot) -> is_Some (can_infoBySlot i' c slot);
  can_grow {E2 : Eth2} forkAtSlot content i i' c :
    bySlot i ⊆ bySlot i' -> index_ok forkAtSlot content i' ->
    sound_blocks forkAtSlot content (can_infoBySlot i c) (can_rootKnown i c) ->
    sound_blocks forkAtSlot content (can_infoBySlot i' c) (can_rootKnown i' c)
}.

(** *** [canonicalBlockMap] *)

Record canonicalBlockMap := mkCMap {
  m_bySlot : gmap N blockInfo;
  m_byRoot : gmap bytes blockInfo
}.

Definition map_add (info : blockInfo) (m : canonicalBlockMap) : canonicalBlockMap :=
  mkCMap (<[Slot info := info]> (m_bySlot m)) (<[Root info := info]> (m_byRoot m)).

Definition map_rootKnown (m : canonicalBlockMap) (root : bytes) : bool :=
  bool_decide (is_Some (m_byRoot m !! root)).

(** *** [canonicalBlockView]: a window on the shared index, and additions *)

Record canonicalBlockView := mkView {
  v_from : N;
  v_to : N;
  extraBySlot : gmap N blockInfo;
  extraByRoot : gmap bytes blockInfo
}.

Definition in_window (v : canonicalBlockView) (slot : N) : bool :=
  (v_from v <=? slot) && (slot <=? v_to v).

Definition view_infoBySlot (i : canonicalBlockIndex) (v : canonicalBlockView) (slot : N)
    : option blockInfo :=
  match (if in_window v slot then infoBySlot i slot else None) with
  | Some info => Some info
  | None => extraBySlot v !! slot
  end.

Definition view_rootKnown (i : canonicalBlockIndex) (v : canonicalBlockView) (root : bytes) : bool :=
  if bool_decide (is_Some (extraByRoot v !! root)) then true
  else match infoByRoot i root with
       | None => false
       | Some info => in_window v (Slot info)
       end.

Definition view_add (info : blockInfo) (v : canonicalBlockView) : canonicalBlockView :=
  mkView (v_from v) (v_to v) (<[Slot info := info]> (extraBySlot v))
    (<[Root info := info]> (extraByRoot v)).

Definition view (from to : N) : canonicalBlockView := mkView from to ∅ ∅.

(** ** Warm-up statistics ([archiveWarmAccumulator]); [None] is the nil pointer *)

Record ArchiveWarmStats := mkStats {
  WorkerRanges : N;
  SlotRangeQueries : N;
  OrphanRootsDiscovered : N;
  HighOrphanFanoutSlots : N;
  RootsResolvedCached : N;
  RootsArchiveMissing : N;
  TransientFailuresRetried : N;
  ChainsTruncated : N;
  ChainsPreWarmupParent : N
}.

Record archiveWarmAccumulator := mkAcc {
  stats : ArchiveWarmStats;
  resolved : gset bytes;
  missing : gset bytes;
  acc_orphanRootsBySlot : gmap N (list bytes);
  highFanoutSlots : gset N
}.

Abbreviation maxArchiveOrphansPerSlot := 8%nat.
Abbreviation maxOrphanWalk := 16%nat.

Definition upd_stats (f : ArchiveWarmStats -> ArchiveWarmStats) (a : archiveWarmAccumulator) :=
  mkAcc (f (stats a)) (resolved a) (missing a) (acc_orphanRootsBySlot a) (highFanoutSlots a).

Definition newArchiveWarmAccumulator : archiveWarmAccumulator :=
  mkAcc (mkStats 0 0 0 0 0 0 0 0 0) ∅ ∅ ∅ ∅.

(** [appendOrphanRoot]: the new map, [added] and [highFanout]. *)
Definition appendOrphanRoot (m : gmap N (list bytes)) (slot : N) (root : bytes)
    : gmap N (list bytes) * bool * bool :=
  if isZeroRoot root then (m, false, false)
  else
    let roots := default [] (m !! slot) in
    if bool_decide (root ∈ roots) then (m, false, false)
    else if decide (maxArchiveOrphansPerSlot <= length roots)%nat then (m, false, true)
    else (<[slot := roots ++ [root]]> m, true, false).

Definition addHighFanoutSlot (slot : N) (a : archiveWarmAccumulator) : archiveWarmAccumulator :=
  if bool_decide (slot ∈ highFanoutSlots a) then a
  else upd_stats (fun s => mkStats (WorkerRanges s) (SlotRangeQueries s) (OrphanRootsDiscovered s)
         (HighOrphanFanoutSlots s + 1) (RootsResolvedCached s) (RootsArchiveMissing s)
         (TransientFailuresRetried s) (ChainsTruncated s) (ChainsPreWarmupParent s))
         (mkAcc (stats a) (resolved a) (missing a) (acc_orphanRootsBySlot a)
            ({[slot]} ∪ highFanoutSlots a)).

Definition addOrphanRoot (slot : N) (root : bytes) (a : archiveWarmAccumulator)
    : archiveWarmAccumulator :=
  let '(m, added, highFanout) := appendOrphanRoot (acc_orphanRootsBySlot a) slot root in
  let a := mkAcc (stats a) (resolved a) (missing a) m (highFanoutSlots a) in
  let a := if highFanout then addHighFanoutSlot slot a else a in
  if added then
    upd_stats (fun s => mkStats (WorkerRanges s) (SlotRangeQueries s) (OrphanRootsDiscovered s + 1)
      (HighOrphanFanoutSlots s) (RootsResolvedCached s) (RootsArchiveMissing s)
      (TransientFailuresRetried s) (ChainsTruncated s) (ChainsPreWarmupParent s)) a
  else a.

Definition addResolved (root : bytes) (a : archiveWarmAccumulator) : archiveWarmAccumulator :=
  if bool_decide (root ∈ resolved a) then a
  else upd_stats (fun s => mkStats (WorkerRanges s) (SlotRangeQueries s) (OrphanRootsDiscovered s)
         (HighOrphanFanoutSlots s) (RootsResolvedCached s + 1) (RootsArchiveMissing s)
         (TransientFailuresRetried s) (ChainsTruncated s) (ChainsPreWarmupParent s))
         (mkAcc (stats a) ({[root]} ∪ resolved a) (missing a) (acc_orphanRootsBySlot a)
            (highFanoutSlots a)).

Definition addMissing (root : bytes) (a : archiveWarmAccumulator) : archiveWarmAccumulator :=
  if bool_decide (root ∈ missing a) then a
  else upd_stats (fun s => mkStats (WorkerRanges s) (SlotRangeQueries s) (OrphanRootsDiscovered s)
         (HighOrphanFanoutSlots s) (RootsResolvedCached s) (RootsArchiveMissing s + 1)
         (TransientFailuresRetried s) (ChainsTruncated s) (ChainsPreWarmupParent s))
         (mkAcc (stats a) (resolved a) ({[root]} ∪ missing a) (acc_orphanRootsBySlot a)
            (highFanoutSlots a)).

Definition addTransientRetries (count : N) (a : archiveWarmAccumulator) : archiveWarmAccumulator :=
  upd_stats (fun s => mkStats (WorkerRanges s) (SlotRangeQueries s) (OrphanRootsDiscovered s)
    (HighOrphanFanoutSlots s) (RootsResolvedCached s) (RootsArchiveMissing s)
    (TransientFailuresRetried s + count) (ChainsTruncated s) (ChainsPreWarmupParent s)) a.

Definition addTruncatedChain (a : archiveWarmAccumulator) : archiveWarmAccumulator :=
  upd_stats (fun s => mkStats (WorkerRanges s) (SlotRangeQueries s) (OrphanRootsDiscovered s)
    (HighOrphanFanoutSlots s) (RootsResolvedCached s) (RootsArchiveMissing s)
    (TransientFailuresRetried s) (ChainsTruncated s + 1) (ChainsPreWarmupParent s)) a.

(** [cloneOrphanRootsBySlot]: empty slots dropped, every list sorted. *)
Definition cloneOrphanRootsBySlot (m : gmap N (list bytes)) : gmap N (list bytes) :=
  sort_by bytes_less <$> filter (fun p => p.2 ≠ []) m.

(** ** State *)

(** What does not change while a backend serves. *)
Record RealBackendConfig := mkConfig {
  Mode : AttPlan.Mode;
  LookaheadCap : N;
  CheckpointBlocksByRoot : gmap bytes bytes;
  ArchiveCacheOnly : bool;
  ArchiveOrphanRootsBySlot : gmap N (list bytes);
  SlotFork : N -> bytes
}.

(** What does: the index and its caches, the archive client, the first-seen source. *)
Record realBackend (R CS CR A F : Type) := mkBackend {
  ix : istate R CS CR;
  BlockArchive : option A;
  FirstSeenSource : option F
}.
Arguments mkBackend {R CS CR A F}.
Arguments ix {R CS CR A F}.
Arguments BlockArchive {R CS CR A F}.
Arguments FirstSeenSource {R CS CR A F}.

Record planBuildState (B Can : Type) := mkPlan {
  backend : B;
  canonical : Can;
  importedRoots : gset bytes;
  scheduledRoots : gset bytes;
  missingRoots : gset bytes;
  ignoredRoots : gset bytes;
  fetchedByRoot : gmap bytes blockInfo;
  orphanRootsBySlot : gmap N (list bytes);
  warm : option archiveWarmAccumulator
}.
Arguments mkPlan {B Can}.
Arguments backend {B Can}.
Arguments canonical {B Can}.
Arguments importedRoots {B Can}.
Arguments scheduledRoots {B Can}.
Arguments missingRoots {B Can}.
Arguments ignoredRoots {B Can}.
Arguments fetchedByRoot {B Can}.
Arguments orphanRootsBySlot {B Can}.
Arguments warm {B Can}.

Section setters.
Context {B Can : Type}.
Implicit Types s : planBuildState B Can.

Definition set_backend (b : B) s := mkPlan b (canonical s) (importedRoots s) (scheduledRoots s)
  (missingRoots s) (ignoredRoots s) (fetchedByRoot s) (orphanRootsBySlot s) (warm s).
Definition set_canonical (c : Can) s := mkPlan (backend s) c (importedRoots s) (scheduledRoots s)
  (missingRoots s) (ignoredRoots s) (fetchedByRoot s) (orphanRootsBySlot s) (warm s).
Definition mark_imported (root : bytes) s := mkPlan (backend s) (canonical s)
  ({[root]} ∪ importedRoots s) (scheduledRoots s) (missingRoots s) (ignoredRoots s)
  (fetchedByRoot s) (orphanRootsBySlot s) (warm s).
Definition mark_scheduled (root : bytes) s := mkPlan (backend s) (canonical s) (importedRoots s)
  ({[root]} ∪ scheduledRoots s) (missingRoots s) (ignoredRoots s) (fetchedByRoot s)
  (orphanRootsBySlot s) (warm s).
Definition mark_missing (root : bytes) s := mkPlan (backend s) (canonical s) (importedRoots s)
  (scheduledRoots s) ({[root]} ∪ missingRoots s) (ignoredRoots s) (fetchedByRoot s)
  (orphanRootsBySlot s) (warm s).
Definition mark_ignored (root : bytes) s := mkPlan (backend s) (canonical s) (importedRoots s)
  (scheduledRoots s) (missingRoots s) ({[root]} ∪ ignoredRoots s) (fetchedByRoot s)
  (orphanRootsBySlot s) (warm s).
Definition store_fetched (root : bytes) (info : blockInfo) s := mkPlan (backend s) (canonical s)
  (importedRoots s) (scheduledRoots s) (missingRoots s) (ignoredRoots s)
  (<[root := info]> (fetchedByRoot s)) (orphanRootsBySlot s) (warm s).
Definition set_orphans (m : gmap N (list bytes)) s := mkPlan (backend s) (canonical s)
  (importedRoots s) (scheduledRoots s) (missingRoots s) (ignoredRoots s) (fetchedByRoot s) m (warm s).
(** A method call on [s.warm]; on the nil accumulator it does nothing. *)
Definition on_warm (f : archiveWarmAccumulator -> archiveWarmAccumulator) s :=
  mkPlan (backend s) (canonical s) (importedRoots s) (scheduledRoots s) (missingRoots s)
    (ignoredRoots s) (fetchedByRoot s) (orphanRootsBySlot s) (f <$> warm s).
End setters.

(** ** Operations *)

(** [if errors.Is(err, ErrNotFound) ... if err != nil ...]: the error as a value. *)
Definition st_try {S E A} (m : stateM S E A) : stateM S E (E + A) := fun s =>
  match m s with
  | (Ok a, s') => (Ok (inr a), s')
  | (Err e, s') => (Ok (inl e), s')
  | (Panic, s') => (Panic, s')
  end.

Definition st_fail {S E A} (e : E) : stateM S E A := st_lift (Err e).

Section operations.
Context {E2 : Eth2} {R : Type} {BS : BlockSource R}.
Context {CS : Type} {LS : Lru N blockInfo CS} {CR : Type} {LR : Lru bytes blockInfo CR}.
Context {A : Type} {AR : Archive A} {F : Type} {Can : Type} {CB : canonicalBlocks Can}.
Context (cfg : RealBackendConfig).

Abbreviation state := (planBuildState (realBackend R CS CR A F) Can).
Abbreviation P := (stateM state beacon_error).

(** A call on the canonical index and its caches. *)
Definition on_index {T} (m : stateM (istate R CS CR) beacon_error T) : P T := fun s =>
  let '(o, i) := m (ix (backend s)) in
  (o, set_backend (mkBackend i (BlockArchive (backend s)) (FirstSeenSource (backend s))) s).

Definition canonical_infoBySlot (slot : N) : P (option blockInfo) :=
  st_gets (fun s => can_infoBySlot (canonicalIndex (ix (backend s))) (canonical s) slot).

(** [planBuildState.rootKnown] *)
Definition rootKnown_in (s : state) (root : bytes) : bool :=
  if decide (root ∈ importedRoots s) then true
  else can_rootKnown (canonicalIndex (ix (backend s))) (canonical s) root.

Definition rootKnown (root : bytes) : P bool := st_gets (fun s => rootKnown_in s root).

(** The guard the collecting loops repeat. *)
Definition skip_root (s : state) (root : bytes) : bool :=
  isZeroRoot root || rootKnown_in s root || bool_decide (root ∈ scheduledRoots s)
  || bool_decide (root ∈ missingRoots s) || bool_decide (root ∈ ignoredRoots s).

(** A call on the backend that answers with the archive's results. *)
Definition on_backend {T} (call : realBackend R CS CR A F -> T * realBackend R CS CR A F) : P T := fun s =>
  let '(res, b) := call (backend s) in (Ok res, set_backend b s).

Definition fetchBlockSSZByRootForPlanWithStats (root : bytes) (b : realBackend R CS CR A F)
    : archive_result bytes * N * realBackend R CS CR A F :=
  match CheckpointBlocksByRoot cfg !! root with
  | Some data => (AOk data, 0, b)
  | None =>
      match BlockArchive b with
      | None => (ANotFound, 0, b)
      | Some a =>
          let '(res, retried, a) :=
            if ArchiveCacheOnly cfg then
              let '(res, a) := ReadCachedSSZByRoot root a in (res, 0, a)
            else FetchBlockSSZByRootWithStats root a in
          (res, retried, mkBackend (ix b) (Some a) (FirstSeenSource b))
      end
  end.

Definition fetchBlockInfoByRoot (root : bytes) : P blockInfo :=
  known ← st_gets (fun s => fetchedByRoot s !! root);
  match known with
  | Some info => mret info
  | None =>
      fetched ← on_backend (fetchBlockSSZByRootForPlanWithStats root);
      _ ← st_modify (on_warm (addTransientRetries fetched.2));
      match fetched.1 with
      | ANotFound => _ ← st_modify (on_warm (addMissing root)); st_fail ErrNotFound
      | AError => st_fail EArchive
      | AOk data =>
          info ← st_wrap (EParseArchive root) (on_index (decodeBlockInfoByRoot (SlotFork cfg) root data));
          _ ← st_modify (store_fetched root info);
          _ ← st_modify (on_warm (addResolved root));
          mret info
      end
  end.

Definition isCanonicalBlockInfo (info : blockInfo) : P bool :=
  found ← canonical_infoBySlot (Slot info);
  match found with
  | Some canonical => mret (bool_decide (Root canonical = Root info))
  | None =>
      reader ← st_gets (fun s => era (ix (backend s)));
      match reader with
      | None => mret false
      | Some _ =>
          found ← on_index (canonicalInfoAtSlot (SlotFork cfg) (Slot info));
          match found with
          | None => mret false
          | Some canonical =>
              _ ← st_modify (fun s => set_canonical (can_add canonical (PlanState.canonical s)) s);
              mret (bool_decide (Root canonical = Root info))
          end
      end
  end.

Definition rememberArchiveOrphanRoot (slot : N) (root : bytes) : P unit :=
  st_modify (fun s =>
    if isZeroRoot root then s
    else
      let '(m, added, highFanout) := appendOrphanRoot (orphanRootsBySlot s) slot root in
      let s := set_orphans m s in
      if highFanout then on_warm (addHighFanoutSlot slot) s
      else if added then on_warm (addOrphanRoot slot root) s else s).

Definition rememberArchiveOrphanInfo (info : blockInfo) : P unit :=
  rememberArchiveOrphanRoot (Slot info) (Root info).

(** The loop of [resolveOrphanChain]: the chain as appended, and [truncated]. *)
Fixpoint walk (depth : nat) (current : bytes) (seen : gset bytes) (chain : list blockInfo) (evalSlot : N)
    : P (list blockInfo * bool) :=
  match depth with
  | O => mret (chain, true)
  | S depth' =>
      s ← st_get;
      if isZeroRoot current || rootKnown_in s current || bool_decide (current ∈ missingRoots s)
         || bool_decide (current ∈ seen) then mret (chain, false)
      else
        let seen := {[current]} ∪ seen in
        fetched ← st_try (fetchBlockInfoByRoot current);
        match fetched with
        | inl e =>
            if is_not_found e then _ ← st_modify (mark_missing current); mret (chain, false)
            else st_fail e
        | inr info =>
            if evalSlot <? Slot info then mret (chain, false)
            else
              canonical ← isCanonicalBlockInfo info;
              if canonical : bool then mret (chain, false)
              else
                _ ← rememberArchiveOrphanInfo info;
                walk depth' (ParentRoot info) seen (chain ++ [info]) evalSlot
        end
  end.

Definition resolveOrphanChain (root : bytes) (evalSlot : N) : P (list blockInfo) :=
  walked ← walk maxOrphanWalk root ∅ [] evalSlot;
  _ ← (if walked.2 : bool then st_modify (on_warm addTruncatedChain) else mret tt);
  mret (reverse walked.1).

(** The loop of [archiveOrphanInfosBySlot] over the roots noted for [slot]. *)
Definition orphan_step (slot : N) (acc : gset bytes * list blockInfo) (root : bytes)
    : P (gset bytes * list blockInfo) :=
  s ← st_get;
  if isZeroRoot root || bool_decide (root ∈ acc.1) || bool_decide (root ∈ missingRoots s)
     || bool_decide (root ∈ ignoredRoots s) then mret acc
  else
    let seen := {[root]} ∪ acc.1 in
    fetched ← st_try (fetchBlockInfoByRoot root);
    match fetched with
    | inl e =>
        if is_not_found e then _ ← st_modify (mark_missing root); mret (seen, acc.2)
        else st_fail e
    | inr info =>
        if negb (Slot info =? slot) then _ ← st_modify (mark_ignored root); mret (seen, acc.2)
        else
          canonical ← isCanonicalBlockInfo info;
          if canonical : bool then _ ← st_modify (mark_ignored root); mret (seen, acc.2)
          else mret (seen, acc.2 ++ [info])
    end.

Definition archiveOrphanInfosBySlot (slot : N) : P (list blockInfo) :=
  roots ← st_gets (fun s => default [] (orphanRootsBySlot s !! slot));
  acc ← st_fold (orphan_step slot) (∅, []) roots;
  mret (sortBlockInfos acc.2).

Definition sourceBlockInfosBySlot (slot : N) : P (list blockInfo) :=
  found ← canonical_infoBySlot slot;
  orphans ← archiveOrphanInfosBySlot slot;
  mret (option_list found ++ orphans).

(** [source.MaxAttestationSlot != nil && attestation.Slot > *source.MaxAttestationSlot] *)
Definition too_late (source : PlanAttestationSource) (a : attestationInfo) : bool :=
  match MaxAttestationSlot source with Some maxSlot => maxSlot <? a_Slot a | None => false end.

(** The inner loops of [attestationsFromSources] over one block's attestations. *)
Definition take_attestation (source : PlanAttestationSource)
    (acc : gset bytes * list attestationInfo) (a : attestationInfo)
    : gset bytes * list attestationInfo :=
  if too_late source a || bool_decide (a_Root a ∈ acc.1) then acc
  else ({[a_Root a]} ∪ acc.1, acc.2 ++ [a]).

Definition take_source (acc : gset bytes * list attestationInfo) (source : PlanAttestationSource)
    : P (gset bytes * list attestationInfo) :=
  infos ← sourceBlockInfosBySlot (s_Slot source);
  mret (foldl (fun acc info => foldl (take_attestation source) acc (Attestations info)) acc infos).

Definition attestationsFromSources (sources : list PlanAttestationSource) : P (list attestationInfo) :=
  acc ← st_fold take_source (∅, []) sources;
  mret acc.2.

(** The loop of [archiveOrphanImportsForSlot]. *)
Definition orphan_import (minImportSlot : N) (imports : list PlanBlockImport) (info : blockInfo)
    : P (list PlanBlockImport) :=
  s ← st_get;
  if Slot info <? minImportSlot then _ ← st_modify (mark_ignored (Root info)); mret imports
  else if rootKnown_in s (Root info) || bool_decide (Root info ∈ scheduledRoots s) then mret imports
  else _ ← st_modify (mark_imported (Root info)); mret (imports ++ [blockImport info false]).

Definition archiveOrphanImportsForSlot (slot minImportSlot : N) : P (list PlanBlockImport) :=
  infos ← archiveOrphanInfosBySlot slot;
  st_fold (orphan_import minImportSlot) [] infos.

(** [collectUnknownAttestationInfoRoots] and the first loop of
    [orphanImportsForSlotAttestations]: the roots voted for that are not settled. *)
Definition unknown_roots (s : state) (attestations : list attestationInfo) (roots : gset bytes) : gset bytes :=
  foldl (fun roots root => if skip_root s root then roots else {[root]} ∪ roots) roots
    (attestations ≫= fun a => [TargetRoot a; BeaconBlockRoot a]).

(** The loop over a chain in [orphanImportsForSlotAttestations]. *)
Definition schedule_info (simSlot minImportSlot : N) (infos : list blockInfo) (info : blockInfo)
    : P (list blockInfo) :=
  s ← st_get;
  if Slot info <? minImportSlot then _ ← st_modify (mark_ignored (Root info)); mret infos
  else if (simSlot <? Slot info) || rootKnown_in s (Root info)
          || bool_decide (Root info ∈ scheduledRoots s) then mret infos
  else _ ← st_modify (mark_scheduled (Root info)); mret (infos ++ [info]).

Definition schedule_root (simSlot minImportSlot : N) (infos : list blockInfo) (root : bytes)
    : P (list blockInfo) :=
  s ← st_get;
  if rootKnown_in s root || bool_decide (root ∈ scheduledRoots s)
     || bool_decide (root ∈ missingRoots s) || bool_decide (root ∈ ignoredRoots s) then mret infos
  else
    chain ← resolveOrphanChain root simSlot;
    match last chain with
    | None => mret infos
    | Some tip =>
        if negb (bool_decide (Root tip = root)) || negb (Slot tip =? simSlot) then
          _ ← st_modify (mark_ignored root); mret infos
        else st_fold (schedule_info simSlot minImportSlot) infos chain
    end.

Definition orphanImportsForSlotAttestations (attestations : list attestationInfo) (simSlot minImportSlot : N)
    : P (list PlanBlockImport) :=
  s ← st_get;
  infos ← st_fold (schedule_root simSlot minImportSlot) []
            (sortedRootKeys (unknown_roots s attestations ∅));
  mret ((fun info => blockImport info false) <$> sortBlockInfos infos).
End operations.

(** ** The two implementations of [canonicalBlocks] *)

Lemma bool_decide_is_Some_insert (m : gmap bytes blockInfo) info root :
  bool_decide (is_Some (<[Root info := info]> m !! root))
  = bool_decide (root = Root info) || bool_decide (is_Some (m !! root)).
Proof.
  destruct (decide (root = Root info)) as [->|Hne].
  - rewrite lookup_insert_eq, !bool_decide_eq_true_2 by (done || eauto). done.
  - rewrite lookup_insert_ne by done. by rewrite (bool_decide_eq_false_2 (root = _)).
Qed.

#[export] Program Instance canonicalBlockMap_blocks : canonicalBlocks canonicalBlockMap := {|
  can_infoBySlot := fun _ m slot => m_bySlot m !! slot;
  can_rootKnown := fun _ m root => map_rootKnown m root;
  can_add := map_add
|}.
Next Obligation. intros i c info root. apply bool_decide_is_Some_insert. Qed.
Next Obligation. intros i c info. left. cbn. apply lookup_insert_eq. Qed.
Next Obligation. intros i c info slot Hne. cbn. by rewrite lookup_insert_ne. Qed.
Next Obligation. intros i i' c slot _ H. exact H. Qed.
Next Obligation. intros E2 fork content i i' c _ _ H. exact H. Qed.

#[export] Program Instance canonicalBlockView_blocks : canonicalBlocks canonicalBlockView := {|
  can_infoBySlot := view_infoBySlot;
  can_rootKnown := view_rootKnown;
  can_add := view_add
|}.
Next Obligation.
  intros i c info root. unfold view_rootKnown. cbn. rewrite bool_decide_is_Some_insert.
  destruct (bool_decide (root = Root info)), (bool_decide (is_Some (extraByRoot c !! root))); done.
Qed.
Next Obligation.
  intros i c info. unfold view_infoBySlot. cbn.
  assert (in_window (view_add info c) (Slot info) = in_window c (Slot info)) as -> by done.
  destruct (if in_window c (Slot info) then _ else _) as [x|]; [right; eauto|left].
  apply lookup_insert_eq.
Qed.
Next Obligation.
  intros i c info slot Hne. unfold view_infoBySlot. cbn. by rewrite lookup_insert_ne.
Qed.
Next Obligation.
  intros i i' c slot Hsub. unfold view_infoBySlot, infoBySlot. destruct (in_window c slot); [|done].
  destruct (bySlot i !! slot) as [info|] eqn:Hi.
  - by rewrite (lookup_weaken _ _ _ _ Hi Hsub).
  - intros ?. by destruct (bySlot i' !! slot).
Qed.
Next Obligation.
  intros E2 fork content i i' c Hsub Hok [Hs Hr]. split.
  - intros slot info. unfold view_infoBySlot, infoBySlot. intros Hi.
    destruct (in_window c slot) eqn:Hw.
    + destruct (bySlot i' !! slot) as [x|] eqn:Hx.
      * injection Hi as ->. pose proof (io_bySlot _ _ _ Hok _ _ Hx) as (Hc & _ & _).
        by rewrite (io_complete _ _ _ Hok _ Hc), Hx.
      * apply Hs. unfold view_infoBySlot, infoBySlot. rewrite Hw.
        destruct (bySlot i !! slot) as [y|] eqn:Hy; [|done].
        by rewrite (lookup_weaken _ _ _ _ Hy Hsub) in Hx.
    + apply Hs. unfold view_infoBySlot. by rewrite Hw.
  - intros root. unfold view_rootKnown. destruct (bool_decide (is_Some (extraByRoot c !! root))) eqn:He.
    + intros _. apply Hr. unfold view_rootKnown. by rewrite He.
    + unfold infoByRoot. destruct (byRoot i' !! root) as [info|] eqn:Hb; [|done]. intros _.
      destruct (io_byRoot _ _ _ Hok _ _ Hb) as [<- Hx]. exists info. split; [done|].
      pose proof (io_bySlot _ _ _ Hok _ _ Hx) as (Hc & _ & _).
      by rewrite (io_complete _ _ _ Hok _ Hc), Hx.
Qed.

(** ** The invariant of a plan under construction *)

Section plan_lemmas.
Context {E2 : Eth2} {R : Type} {BS : BlockSource R}.
Context {CS : Type} {LS : Lru N blockInfo CS} {CR : Type} {LR : Lru bytes blockInfo CR}.
Context {A : Type} {AR : Archive A} {F : Type} {Can : Type} {CB : canonicalBlocks Can}.
Context (cfg : RealBackendConfig) (content : N -> outcome era_error (option bytes)).

Abbreviation state := (planBuildState (realBackend R CS CR A F) Can).
Abbreviation P := (stateM state beacon_error).
Abbreviation canonical_at := (canonical_at (SlotFork cfg) content).

(** [info] is what some bytes decode to. *)
Definition parsed (info : blockInfo) : Prop := exists ssz, parseBlockInfo ssz (SlotFork cfg) = Ok info.

(** [info] is the canonical block of its slot. *)
Definition is_canonical (info : blockInfo) : Prop :=
  exists c, canonical_at (Slot info) = Ok (Some c) /\ Root c = Root info.

Definition can_sound (s : state) : Prop :=
  sound_blocks (SlotFork cfg) content (can_infoBySlot (canonicalIndex (ix (backend s))) (canonical s))
    (can_rootKnown (canonicalIndex (ix (backend s))) (canonical s)).

(** The orphans noted per slot: at most eight distinct non-zero roots, each of a
    decoded non-canonical block of that slot. *)
Definition noted_ok (m : gmap N (list bytes)) : Prop :=
  forall slot roots, m !! slot = Some roots ->
    (length roots <= maxArchiveOrphansPerSlot)%nat /\ NoDup roots
    /\ Forall (fun root => root ≠ zero_root /\ exists info, parsed info /\ Slot info = slot
                /\ Root info = root /\ ~ is_canonical info) roots.

Definition warm_ok (s : state) : Prop :=
  forall acc, warm s = Some acc -> noted_ok (acc_orphanRootsBySlot acc).

Definition plan_ok (s : state) : Prop :=
  quiet (SlotFork cfg) content (ix (backend s)) /\ can_sound s
  /\ (forall root info, fetchedByRoot s !! root = Some info -> Root info = root /\ parsed info)
  /\ (Mode cfg = AttPlan.ModeFirstSeenGossip -> is_Some (FirstSeenSource (backend s)))
  /\ warm_ok s.

(** The outcome of a call: the invariant always, [Q] for a result, [X] for an error. *)
Definition call {T} (r : outcome beacon_error T * state) (Q : T -> state -> Prop) (X : state -> Prop)
    : Prop :=
  match r with
  | (Ok a, s') => plan_ok s' /\ Q a s'
  | (Err _, s') => plan_ok s' /\ X s'
  | (Panic, _) => False
  end.

(** The canonical block a state sees at a slot. *)
Definition sees (s : state) (slot : N) : option blockInfo :=
  can_infoBySlot (canonicalIndex (ix (backend s))) (canonical s) slot.

Definition sees_more (s s' : state) : Prop := forall slot, is_Some (sees s slot) -> is_Some (sees s' slot).

(** What lookups leave alone. *)
Definition same_marks (s s' : state) : Prop :=
  importedRoots s' = importedRoots s /\ scheduledRoots s' = scheduledRoots s
  /\ missingRoots s' = missingRoots s /\ ignoredRoots s' = ignoredRoots s
  /\ orphanRootsBySlot s' = orphanRootsBySlot s /\ sees_more s s'.

Lemma sees_more_frame s s' :
  ix (backend s') = ix (backend s) -> canonical s' = canonical s -> sees_more s s'.
Proof. intros H1 H2 slot. unfold sees. by rewrite H1, H2. Qed.

Lemma sees_more_trans s1 s2 s3 : sees_more s1 s2 -> sees_more s2 s3 -> sees_more s1 s3.
Proof. intros H1 H2 slot Hs. by apply H2, H1. Qed.

Lemma same_marks_trans s1 s2 s3 : same_marks s1 s2 -> same_marks s2 s3 -> same_marks s1 s3.
Proof.
  unfold same_marks. intros (?&?&?&?&?&?) (?&?&?&?&?&?).
  split_and!; [congruence..|by eapply sees_more_trans].
Qed.

(** *** Noting orphans *)

Lemma noted_ok_empty : noted_ok ∅.
Proof. intros slot roots. by rewrite lookup_empty. Qed.

Lemma appendOrphanRoot_ok m slot root :
  noted_ok m ->
  (exists info, parsed info /\ Slot info = slot /\ Root info = root /\ ~ is_canonical info) ->
  noted_ok (appendOrphanRoot m slot root).1.1.
Proof.
  intros Hm Hinfo. unfold appendOrphanRoot. case_match eqn:Hz; [done|].
  case_bool_decide as Hin; [done|]. case_decide as Hlen; [done|]. cbn.
  intros t roots. destruct (decide (slot = t)) as [<-|Hne];
    [rewrite lookup_insert_eq|rewrite lookup_insert_ne by done; apply Hm].
  intros [= <-]. rewrite length_app. cbn. unfold isZeroRoot in Hz. apply bool_decide_eq_false in Hz.
  destruct (m !! slot) as [roots|] eqn:Hs; cbn in *.
  - destruct (Hm _ _ Hs) as (_ & Hnd & Hall). split_and!; [lia| |].
    + apply NoDup_app. split_and!; [done| |apply NoDup_singleton]. set_solver.
    + apply Forall_app. split; [done|]. by constructor.
  - split_and!; [lia|apply NoDup_singleton|by constructor].
Qed.

(** Accumulator updates that leave the noted orphans alone. *)
Definition keeps_notes (f : archiveWarmAccumulator -> archiveWarmAccumulator) : Prop :=
  forall a, acc_orphanRootsBySlot (f a) = acc_orphanRootsBySlot a.

Lemma warm_ok_keep f s : keeps_notes f -> warm_ok s -> warm_ok (on_warm f s).
Proof.
  intros Hf Hw acc. cbn. destruct (warm s) as [a|] eqn:Ha; [|done]. cbn. intros [= <-].
  rewrite Hf. by apply Hw.
Qed.

(** *** Rules for calls *)

Section rules.
Context {T U : Type}.
Implicit Types (Q : T -> state -> Prop) (X : state -> Prop).

Lemma call_ret (a : T) s Q X : plan_ok s -> Q a s -> call (@mret P _ _ a s) Q X.
Proof. by split. Qed.

Lemma call_gets (f : state -> T) s Q X : plan_ok s -> Q (f s) s -> call (st_gets f s) Q X.
Proof. by split. Qed.

Lemma call_bind (m : P T) (f : T -> P U) s Q' (Q : U -> state -> Prop) X' X :
  call (m s) Q' X' -> (forall a s', plan_ok s' -> Q' a s' -> call (f a s') Q X) ->
  (forall s', X' s' -> X s') -> call ((m ≫= f) s) Q X.
Proof.
  intros Hm Hf HX. unfold mbind, stateM_bind, st_bind, call in *.
  destruct (m s) as [[a|e|] s']; [|naive_solver|done]. destruct Hm. by apply Hf.
Qed.

Lemma call_try (m : P T) s Q X :
  call (m s) Q X ->
  call (st_try m s) (fun r s' => match r with inr a => Q a s' | inl _ => X s' end) (fun _ => False).
Proof. unfold st_try, call. by destruct (m s) as [[a|e|] s']. Qed.

Lemma call_impl (r : outcome beacon_error T * state) Q Q' X X' :
  call r Q X -> (forall a s', Q a s' -> Q' a s') -> (forall s', X s' -> X' s') -> call r Q' X'.
Proof. unfold call. destruct r as [[a|e|] s']; naive_solver. Qed.
End rules.

Lemma call_modify (f : state -> state) s (Q : unit -> state -> Prop) X :
  plan_ok (f s) -> Q tt (f s) -> call (st_modify f s) Q X.
Proof. by split. Qed.

(** The loop rule. *)
Lemma call_fold {T B} (body : B -> T -> P B) (I : list T -> B -> state -> Prop) (X : state -> Prop)
    (l : list T) (acc : B) s :
  plan_ok s -> I [] acc s ->
  (forall done x left acc s, l = done ++ x :: left -> plan_ok s -> I done acc s ->
     call (body acc x s) (I (done ++ [x])) X) ->
  call (st_fold body acc l s) (I l) X.
Proof.
  intros Hs HI Hb.
  cut (forall left done acc s, l = done ++ left -> plan_ok s -> I done acc s ->
    call (st_fold body acc left s) (I l) X); [intros H; by apply (H l [])|].
  clear acc s Hs HI. induction left as [|x left IH]; intros done acc s Hl Hs HI; cbn.
  - rewrite app_nil_r in Hl. by subst done.
  - specialize (Hb done x left acc s Hl Hs HI). unfold st_bind, call in *.
    destruct (body acc x s) as [[acc'|e|] s']; [|done|done]. destruct Hb as [Hs' HI'].
    apply (IH (done ++ [x])); [by rewrite <- app_assoc|done|done].
Qed.
End plan_lemmas.

(** ** Roots the backend can serve *)

Section serves_root.
Context {R CS CR A F : Type} {AR : Archive A} (cfg : RealBackendConfig).
Abbreviation backend_state := (realBackend R CS CR A F).

(** Asked for [root], the backend answers with [data]: now, and after any further
    requests for blocks.  What happens to the index and the first-seen source does
    not matter.  The greatest such predicate, as a union of invariants. *)
Definition serves_root (root data : bytes) (b : backend_state) : Prop :=
  exists inv : backend_state -> Prop,
    inv b
    /\ (forall b, inv b -> (fetchBlockSSZByRootForPlanWithStats cfg root b).1.1 = AOk data)
    /\ (forall r b, inv b -> inv (fetchBlockSSZByRootForPlanWithStats cfg r b).2)
    /\ (forall b i f, inv b -> inv (mkBackend i (BlockArchive b) f)).

Lemma serves_root_answer root data b :
  serves_root root data b -> (fetchBlockSSZByRootForPlanWithStats cfg root b).1.1 = AOk data.
Proof. intros (inv & Hb & Ha & _). by apply Ha. Qed.

Lemma serves_root_fetch root data r b :
  serves_root root data b -> serves_root root data (fetchBlockSSZByRootForPlanWithStats cfg r b).2.
Proof. intros (inv & Hb & Ha & Hf & Hm). exists inv. auto. Qed.

Lemma serves_root_frame root data b i f :
  serves_root root data b -> serves_root root data (mkBackend i (BlockArchive b) f).
Proof. intros (inv & Hb & Ha & Hf & Hm). exists inv. auto. Qed.

(** The checkpoint blocks always are served. *)
Lemma checkpoint_served root data b :
  CheckpointBlocksByRoot cfg !! root = Some data -> serves_root root data b.
Proof.
  intros Hc. exists (fun _ => True). split_and!; try done. intros b' _.
  unfold fetchBlockSSZByRootForPlanWithStats. by rewrite Hc.
Qed.
End serves_root.

Lemma keeps_addTransientRetries n : keeps_notes (addTransientRetries n).
Proof. done. Qed.

Lemma keeps_addMissing root : keeps_notes (addMissing root).
Proof. intros a. unfold addMissing. by case_bool_decide. Qed.

Lemma keeps_addResolved root : keeps_notes (addResolved root).
Proof. intros a. unfold addResolved. by case_bool_decide. Qed.

Lemma keeps_addTruncatedChain : keeps_notes addTruncatedChain.
Proof. done. Qed.

Lemma keeps_addHighFanoutSlot slot : keeps_notes (addHighFanoutSlot slot).
Proof. intros a. unfold addHighFanoutSlot. by case_bool_decide. Qed.

Create HintDb warm.
#[export] Hint Resolve warm_ok_keep keeps_addTransientRetries keeps_addMissing keeps_addResolved
  keeps_addTruncatedChain keeps_addHighFanoutSlot : warm.
#[export] Hint Extern 0 (sees_more _ _) => (apply sees_more_frame; reflexivity) : core.
