(* ===== verification/PlanSamples.v ===== *)
(** * Sample planning states

    The toy sources of [Samples] with a block archive that holds two orphans at
    slots 102 and 103; the second one is the child of the first. *)

From S2P Require Import Prelude Bytes Lru EraFormat EraReader Sources SlotRanges BlockInfo Samples.
From S2P Require Import AttPlan CanonicalIndex PlanSources PlanState.

#[export] Instance toy_archive : Archive (gmap bytes bytes) := {|
  ReadCachedSSZByRoot := fun root a =>
    (match a !! root with Some d => AOk d | None => ANotFound end, a);
  FetchBlockSSZByRootWithStats := fun root a =>
    (match a !! root with Some d => AOk d | None => ANotFound end, 0, a);
  FetchBlockSSZBySlotAndRootWithStats := fun _ root a =>
    (match a !! root with Some d => AOk d | None => ANotFound end, 0, a);
  ListIndexBySlotRangeWithStats := fun from to _ a =>
    (AOk (if (from <=? 102) && (102 <=? to) then [(102, Some (toy_root Byte.x99))] else []), 0, a)
|}.

#[export] Instance toy_firstseen : FirstSeen unit := {|
  AttestationsForSlot := fun _ _ u => (Some [], u)
|}.

Definition toy_orphans : gmap bytes bytes :=
  {[toy_root Byte.x99 := toy_block 102 [Byte.x99; Byte.x11];
    toy_root Byte.x98 := toy_block 103 [Byte.x98; Byte.x99]]}.

Definition toy_config (mode : AttPlan.Mode) (cap : N) : RealBackendConfig :=
  mkConfig mode cap ∅ true {[102 := [toy_root Byte.x99]]} MainnetForkAtSlot.

Definition toy_backend := mkBackend toy_istate (Some toy_orphans) (Some tt).

Definition toy_plan : planBuildState _ canonicalBlockMap :=
  mkPlan toy_backend (mkCMap ∅ ∅) ∅ ∅ ∅ ∅ ∅ ∅ None.

Lemma toy_plan_ok mode cap : plan_ok (toy_config mode cap) (era_block plain toy_dir) toy_plan.
Proof.
  split; [exact toy_quiet|]. split; [split|].
  - intros slot info. cbn. by rewrite lookup_empty.
  - intros root. cbn. unfold map_rootKnown. cbn.
    rewrite lookup_empty. by rewrite bool_decide_eq_false_2 by (by intros [? ?]).
  - split; [intros root info; cbn; by rewrite lookup_empty|].
    split; [intros _; by exists tt|done].
Qed.
