(* ===== verification/Orphans.v ===== *)
(** * Orphan lookups and orphan chains: what they guarantee

    Specifications of the [PlanState] operations that fetch blocks from the archive,
    decide whether a block is canonical and walk from an orphan to its known
    ancestors. *)

From S2P Require Import Prelude Bytes Lru EraFormat EraReader Sources SlotRanges BlockInfo Samples.
From S2P Require Import CanonicalIndex PlanSources PlanState PlanSamples.

Section orphans.
Context {E2 : Eth2} {R : Type} {BS : BlockSource R}.
Context {CS : Type} {LS : Lru N blockInfo CS} {CR : Type} {LR : Lru bytes blockInfo CR}.
Context {A : Type} {AR : Archive A} {F : Type} {Can : Type} {CB : canonicalBlocks Can}.
Context (cfg : RealBackendConfig) (content : N -> outcome era_error (option bytes)).

Abbreviation state := (planBuildState (realBackend R CS CR A F) Can).
Abbreviation istate := (istate R CS CR).
Abbreviation plan_ok := (plan_ok (Can := Can) (A := A) (F := F) cfg content).
Abbreviation is_canonical := (is_canonical cfg content).
Abbreviation parsed := (parsed cfg).
Abbreviation quiet := (quiet (SlotFork cfg) content).
Abbreviation canonical_at := (canonical_at (SlotFork cfg) content).
Abbreviation call := (call cfg content).
Implicit Types (s : state) (i : istate).

(** ** Calls on the index *)

Lemma quiet_grow i i' :
  quiet i -> quiet i' ->
  (forall x, covers (loaded (canonicalIndex i)) x -> covers (loaded (canonicalIndex i')) x) ->
  bySlot (canonicalIndex i) ⊆ bySlot (canonicalIndex i').
Proof.
  intros (_ & Hi & _) (_ & Hi' & _) Hc. apply map_subseteq_spec. intros slot info Hs.
  destruct (io_bySlot _ _ _ Hi _ _ Hs) as (Hcov & _).
  pose proof (io_complete _ _ _ Hi _ Hcov) as H1. pose proof (io_complete _ _ _ Hi' _ (Hc _ Hcov)) as H2.
  rewrite Hs in H1. congruence.
Qed.

(** A call that keeps the index sound and growing keeps the plan's invariant. *)
Lemma on_index_spec {T} (m : stateM istate beacon_error T) s (Q : T -> istate -> Prop) :
  plan_ok s ->
  (let '(o, i') := m (ix (backend s)) in
   quiet i' /\ (forall x, covers (loaded (canonicalIndex (ix (backend s)))) x ->
                          covers (loaded (canonicalIndex i')) x)
   /\ match o with Ok a => Q a i' | Err _ => True | Panic => False end) ->
  call (on_index m s) (fun a s' => same_marks s s' /\ canonical s' = canonical s
                         /\ fetchedByRoot s' = fetchedByRoot s /\ Q a (ix (backend s')))
    (same_marks s).
Proof.
  intros (Hq & Hc & Hf & Hfs & Hw) Hm. unfold on_index, PlanState.call.
  destruct (m (ix (backend s))) as [o i']. destruct Hm as (Hq' & Hcov & Ho).
  assert (Hok : plan_ok (set_backend (mkBackend i' (BlockArchive (backend s)) (FirstSeenSource (backend s))) s)).
  { split; [done|]. split; [|by split_and!]. cbn. eapply can_grow; [|apply Hq'|exact Hc].
    by apply quiet_grow. }
  assert (Hsm : sees_more s
    (set_backend (mkBackend i' (BlockArchive (backend s)) (FirstSeenSource (backend s))) s)).
  { intros slot. apply can_grow_some. by apply quiet_grow. }
  destruct o; [|split; [done|by split_and!]|done].
  split; [done|]. by split_and!.
Qed.

Lemma decodeBlockInfoByRoot_spec root data i :
  quiet i ->
  let '(o, i') := decodeBlockInfoByRoot (SlotFork cfg) root data i in
  quiet i' /\ (forall x, covers (loaded (canonicalIndex i)) x -> covers (loaded (canonicalIndex i')) x)
  /\ match o with Ok info => Root info = root /\ parsed info | Err _ => True | Panic => False end.
Proof.
  intros ((Hs & Hd & Hr) & Hi & Hl). unfold decodeBlockInfoByRoot.
  destruct (get_opt_spec _ root (decodedByRoot i) Hr) as [Hhit Hr'].
  destruct (get_opt root (decodedByRoot i)) as [hit c]. cbn in *.
  assert (Hkeep : forall c', (forall d, c' = Some d -> lru_all (fun root info => Root info = root
      /\ exists ssz, parseBlockInfo ssz (SlotFork cfg) = Ok info) d) ->
    quiet (mkI (era i) (decodedBySlot i) c' (canonicalIndex i))) by (intros c' Hc'; by split_and!).
  destruct hit as [info|]; [split_and!; auto; by apply Hhit|].
  pose proof (parseBlockInfo_no_Panic data (SlotFork cfg)) as Hnp.
  destruct (parseBlockInfo data (SlotFork cfg)) as [info|e|] eqn:Hp; [|split_and!; auto|done].
  case_decide as Hroot; [|split_and!; auto].
  split_and!; auto; [|by exists data]. apply Hkeep. apply add_opt_spec; [done|]. eauto.
Qed.

(** ** Fetching *)

Lemma plan_ok_frame s s' :
  ix (backend s') = ix (backend s) -> canonical s' = canonical s ->
  fetchedByRoot s' = fetchedByRoot s ->
  (is_Some (FirstSeenSource (backend s)) -> is_Some (FirstSeenSource (backend s'))) ->
  (warm_ok cfg content s -> warm_ok cfg content s') ->
  plan_ok s -> plan_ok s'.
Proof.
  intros H1 H2 H3 H4 H5 (Hq & Hc & Hf & Hfs & Hw). unfold PlanState.plan_ok, can_sound in *.
  rewrite H1, H2, H3. split_and!; auto.
Qed.

(** A change of the accumulator that keeps the noted orphans. *)
Lemma plan_ok_on_warm f s : keeps_notes f -> plan_ok s -> plan_ok (on_warm f s).
Proof. intros Hf. apply plan_ok_frame; auto with warm. Qed.

(** Only the archive client changes. *)
Lemma fetchBlockSSZ_frame root (b : realBackend R CS CR A F) :
  let '(_, b') := fetchBlockSSZByRootForPlanWithStats cfg root b in
  ix b' = ix b /\ FirstSeenSource b' = FirstSeenSource b.
Proof.
  unfold fetchBlockSSZByRootForPlanWithStats. destruct (CheckpointBlocksByRoot cfg !! root); [done|].
  destruct (BlockArchive b) as [a|]; [|done]. by destruct (if ArchiveCacheOnly cfg then _ else _) as [[res n] a'].
Qed.

Lemma fetchBlockSSZ_spec root s :
  plan_ok s ->
  call (on_backend (fetchBlockSSZByRootForPlanWithStats cfg root) s)
    (fun _ s' => same_marks s s' /\ canonical s' = canonical s) (same_marks s).
Proof.
  intros Hs. unfold on_backend. pose proof (fetchBlockSSZ_frame root (backend s)) as H.
  destruct (fetchBlockSSZByRootForPlanWithStats _ _ _) as [res b']. destruct H as [Hi Hf].
  split; [apply (plan_ok_frame s); cbn; rewrite ?Hi, ?Hf; auto|].
  split; [|done]. split_and!; try done. by apply sees_more_frame.
Qed.

Lemma fetchBlockInfoByRoot_spec root s :
  plan_ok s ->
  call (fetchBlockInfoByRoot cfg root s)
    (fun info s' => same_marks s s' /\ canonical s' = canonical s /\ Root info = root /\ parsed info)
    (same_marks s).
Proof.
  intros Hs. unfold fetchBlockInfoByRoot.
  st_step. destruct (fetchedByRoot s !! root) as [info|] eqn:Hkn.
  { apply call_ret; [done|]. destruct Hs as (_ & _ & Hf & _). destruct (Hf _ _ Hkn). by split_and!. }
  eapply call_bind; [by apply fetchBlockSSZ_spec| |done].
  intros [res n] s1 Hs1 [Hm1 Hc1]. st_step. cbn [fst snd].
  set (s2 := on_warm (addTransientRetries n) s1).
  assert (Hs2 : plan_ok s2) by (apply plan_ok_on_warm; auto with warm).
  destruct res as [data| |].
  - eapply (call_bind _ _ _ _ _ (fun info s' => same_marks s s' /\ canonical s' = canonical s
      /\ Root info = root /\ parsed info) _ (same_marks s)).
    + unfold st_wrap. pose proof (on_index_spec (decodeBlockInfoByRoot (SlotFork cfg) root data) s2
        (fun info _ => Root info = root /\ parsed info) Hs2) as H.
      pose proof (decodeBlockInfoByRoot_spec root data (ix (backend s2))) as Hd.
      assert (Hq2 : quiet (ix (backend s2))) by apply Hs2. specialize (Hd Hq2).
      destruct (decodeBlockInfoByRoot _ _ _ _) as [o i']. specialize (H Hd).
      unfold PlanState.call in *. destruct (on_index _ _) as [[info|e|] s3]; [| |done].
      * destruct H as (? & Hm3 & Hc3 & _ & ? & ?). split; [done|]. split_and!; [| |done|done].
        -- by eapply same_marks_trans.
        -- by rewrite Hc3.
      * destruct H. split; [done|]. by eapply same_marks_trans.
    + intros info s3 Hs3 (Hm3 & Hc3 & Hroot & Hp). st_step. apply call_ret; [|done].
      apply plan_ok_on_warm; [auto with warm|].
      destruct Hs3 as (? & ? & Hf & ?). split_and!; [done|done| |tauto|tauto]. intros r i. cbn.
      destruct (decide (root = r)) as [<-|?];
        [rewrite lookup_insert_eq; by intros [= <-]|rewrite lookup_insert_ne by done; apply Hf].
    + done.
  - st_step. split; [|done]. apply plan_ok_on_warm; auto with warm.
  - by split.
Qed.

(** ** Canonical or orphan *)

Lemma parsed_u64 info : parsed info -> u64 (Slot info).
Proof. intros [ssz H%parseBlockInfo_Slot]. by eapply extractSlot_u64. Qed.

Lemma can_sound_add s info :
  can_sound cfg content s -> canonical_at (Slot info) = Ok (Some info) ->
  can_sound cfg content (set_canonical (can_add info (canonical s)) s).
Proof.
  intros [H1 H2] Hinfo. unfold can_sound. cbn. set (i := canonicalIndex (ix (backend s))) in *. split.
  - intros slot info' Hs. destruct (decide (slot = Slot info)) as [->|Hne].
    + destruct (can_add_same i (canonical s) info) as [H|[_ H]]; rewrite H in Hs.
      * by injection Hs as <-.
      * by apply H1.
    + rewrite can_add_other in Hs by done. by apply H1.
  - intros root. rewrite can_add_rootKnown. intros [Hr|Hr]%orb_true_iff; [|by apply H2].
    apply bool_decide_eq_true in Hr as ->. eauto.
Qed.

Lemma sees_more_add s info : sees_more s (set_canonical (can_add info (canonical s)) s).
Proof.
  intros slot Hs. unfold sees in *. cbn. destruct (decide (slot = Slot info)) as [->|Hne].
  - destruct (can_add_same (canonicalIndex (ix (backend s))) (canonical s) info) as [->|[_ ->]]; eauto.
  - by rewrite can_add_other.
Qed.

Lemma canonicalInfoAtSlot_call info s :
  plan_ok s -> parsed info ->
  call (on_index (canonicalInfoAtSlot (SlotFork cfg) (Slot info)) s)
    (fun o s' => same_marks s s' /\ canonical_at (Slot info) = Ok o) (same_marks s).
Proof.
  intros Hs Hp. pose proof (on_index_spec (canonicalInfoAtSlot (SlotFork cfg) (Slot info)) s
    (fun o _ => canonical_at (Slot info) = Ok o) Hs) as H.
  pose proof (canonicalInfoAtSlot_spec (SlotFork cfg) content (Slot info) (ix (backend s))
    (proj1 Hs) (parsed_u64 _ Hp)) as Hc.
  destruct (canonicalInfoAtSlot _ _ _) as [o i'] eqn:E. destruct Hc as (Ho & Hq & Hcov).
  eapply call_impl; [apply H|naive_solver|done]. split; [done|]. split; [done|].
  pose proof (canonical_at_no_Panic (SlotFork cfg) content (ix (backend s)) (Slot info) (proj1 (proj1 Hs))).
  destruct o; [congruence|done|congruence].
Qed.

Lemma isCanonicalBlockInfo_spec info s :
  plan_ok s -> parsed info ->
  call (isCanonicalBlockInfo cfg info s)
    (fun b s' => same_marks s s' /\ (b = true <-> is_canonical info)) (same_marks s).
Proof.
  intros Hs Hp. unfold isCanonicalBlockInfo, canonical_infoBySlot. st_step.
  pose proof Hs as ((((r & Hr & _) & _) & _) & [Hsound _] & _).
  destruct (can_infoBySlot _ _ _) as [c|] eqn:Hc.
  { apply call_ret; [done|]. split; [by split_and!|]. rewrite bool_decide_eq_true.
    specialize (Hsound _ _ Hc). unfold PlanState.is_canonical. split; [by exists c|].
    intros (c' & Hc' & <-). congruence. }
  st_step. rewrite Hr.
  eapply call_bind; [by apply canonicalInfoAtSlot_call| |done].
  intros o s1 Hs1 [Hm1 Ho]. destruct o as [c|].
  - st_step. assert (Slot c = Slot info) as Hslot.
    { eapply (canonical_at_Slot (SlotFork cfg) content (ix (backend s))); [apply Hs|exact Ho]. }
    apply call_ret.
    + destruct Hs1 as (? & ? & ? & ? & ?). split_and!; [done| |done|done|done]. apply can_sound_add; [done|].
      by rewrite Hslot.
    + split; [eapply same_marks_trans; [exact Hm1|]; split_and!; [done..|apply sees_more_add]|].
      rewrite bool_decide_eq_true. unfold PlanState.is_canonical.
      split; [by exists c|]. intros (c' & Hc' & <-). congruence.
  - apply call_ret; [done|]. split; [done|]. split; [done|]. intros (c' & Hc' & _). congruence.
Qed.

(** ** The walk *)

(** [l] is a chain of parents starting at root [current]. *)
Fixpoint linked (current : bytes) (l : list blockInfo) : Prop :=
  match l with
  | [] => True
  | info :: l' => Root info = current /\ linked (ParentRoot info) l'
  end.

(** The root the chain stops at. *)
Fixpoint end_of (current : bytes) (l : list blockInfo) : bytes :=
  match l with [] => current | info :: l' => end_of (ParentRoot info) l' end.

(** A block the walk may collect. *)
Definition orphan_of (s : state) (evalSlot : N) (info : blockInfo) : Prop :=
  parsed info /\ Slot info <= evalSlot /\ ~ is_canonical info /\ Root info ≠ zero_root
  /\ Root info ∉ importedRoots s /\ Root info ∉ missingRoots s.

(** Why the walk stops at [root]: nothing there, known, missing, visited, too new
    or canonical. *)
Definition stops (s' : state) (evalSlot : N) (visited : gset bytes) (root : bytes) : Prop :=
  root = zero_root \/ rootKnown_in s' root = true \/ root ∈ missingRoots s' \/ root ∈ visited
  \/ exists info, Root info = root /\ parsed info /\ (evalSlot < Slot info \/ is_canonical info).

(** What the walk changes: it only adds missing roots and notes orphans. *)
Definition walk_marks (s s' : state) : Prop :=
  importedRoots s' = importedRoots s /\ scheduledRoots s' = scheduledRoots s
  /\ ignoredRoots s' = ignoredRoots s /\ missingRoots s ⊆ missingRoots s' /\ sees_more s s'.

Lemma walk_marks_same s s' : same_marks s s' -> walk_marks s s'.
Proof. unfold walk_marks. intros (?&?&->&?&?&?). by split_and!. Qed.

Lemma walk_marks_trans s1 s2 s3 : walk_marks s1 s2 -> walk_marks s2 s3 -> walk_marks s1 s3.
Proof.
  unfold walk_marks. intros (?&?&?&?&?) (?&?&?&?&?).
  split_and!; [congruence..|set_solver|by eapply sees_more_trans].
Qed.

Lemma orphan_of_weaken s s' evalSlot info :
  walk_marks s s' -> orphan_of s' evalSlot info -> orphan_of s evalSlot info.
Proof.
  intros (Hi & _ & _ & Hm & _) (?&?&?&?&?&?). unfold orphan_of. rewrite <- Hi.
  split_and!; auto.
Qed.

Lemma warm_ok_note info s :
  warm_ok cfg content s -> parsed info -> ~ is_canonical info ->
  warm_ok cfg content (on_warm (addOrphanRoot (Slot info) (Root info)) s).
Proof.
  intros Hw Hp Hnc acc. cbn. destruct (warm s) as [a|] eqn:Ha; [|done]. cbn. intros [= <-].
  pose proof (appendOrphanRoot_ok cfg content (acc_orphanRootsBySlot a) (Slot info) (Root info)
    (Hw _ Ha) ltac:(by exists info)) as Hok.
  unfold addOrphanRoot. destruct (appendOrphanRoot _ _ _) as [[m added] high]. cbn in Hok.
  destruct added, high; cbn; try rewrite keeps_addHighFanoutSlot; done.
Qed.

Lemma rememberArchiveOrphanInfo_spec info s :
  plan_ok s -> parsed info -> ~ is_canonical info ->
  call (rememberArchiveOrphanInfo info s) (fun _ s' => walk_marks s s') (walk_marks s).
Proof.
  intros Hs Hp Hnc. unfold rememberArchiveOrphanInfo, rememberArchiveOrphanRoot.
  pose proof Hs as (_ & _ & _ & _ & Hw). apply call_modify.
  - case_match; [done|]. destruct (appendOrphanRoot _ _ _) as [[m added] high].
    destruct high; [apply plan_ok_on_warm; [auto with warm|done]|].
    destruct added; [|done]. apply (plan_ok_frame s); auto. intros _. by apply warm_ok_note.
  - case_match; [by split_and!|]. destruct (appendOrphanRoot _ _ _) as [[m added] high].
    destruct high, added; by split_and!.
Qed.

Definition walk_post (s : state) (depth : nat) (evalSlot : N) (current : bytes) (seen : gset bytes)
    (chain : list blockInfo) (r : list blockInfo * bool) (s' : state) : Prop :=
  walk_marks s s' /\ exists l, r.1 = chain ++ l /\ linked current l
    /\ (length l <= depth)%nat /\ NoDup (Root <$> l) /\ Forall (fun info => Root info ∉ seen) l
    /\ Forall (orphan_of s evalSlot) l
    /\ if r.2 then length l = depth
       else stops s' evalSlot (list_to_set (Root <$> l) ∪ seen) (end_of current l).

Lemma walk_post_stop s depth evalSlot current seen chain s' :
  walk_marks s s' -> stops s' evalSlot seen current ->
  walk_post s (S depth) evalSlot current seen chain (chain, false) s'.
Proof.
  intros Hm Hst. split; [done|]. exists []. cbn [fst snd fmap list_fmap list_to_set end_of length].
  rewrite app_nil_r, union_empty_l_L. split_and!; done || lia || constructor.
Qed.

Lemma walk_post_step s depth evalSlot current seen chain info r s1 s' :
  walk_marks s s1 -> Root info = current -> current ∉ seen -> orphan_of s evalSlot info ->
  walk_post s1 depth evalSlot (ParentRoot info) ({[current]} ∪ seen) (chain ++ [info]) r s' ->
  walk_post s (S depth) evalSlot current seen chain r s'.
Proof.
  intros Hm <- Hns Ho (Hm' & l & Hl & Hlink & Hlen & Hnd & Hseen & Hall & Hend).
  split; [by eapply walk_marks_trans|]. exists (info :: l).
  rewrite Hl, <- app_assoc. split_and!; cbn; try done.
  - lia.
  - constructor; [|done]. intros (i & Hi & Hin)%list_elem_of_fmap. rewrite Forall_forall in Hseen.
    specialize (Hseen i Hin). set_solver.
  - constructor; [done|]. eapply Forall_impl; [exact Hseen|]. set_solver.
  - constructor; [done|]. eapply Forall_impl; [exact Hall|]. intros i. by apply orphan_of_weaken.
  - destruct r.2; [lia|].
    replace ({[Root info]} ∪ list_to_set (Root <$> l) ∪ seen)
      with (list_to_set (Root <$> l) ∪ ({[Root info]} ∪ seen) : gset bytes) by set_solver. done.
Qed.

Lemma walk_spec depth evalSlot current seen chain s :
  plan_ok s ->
  call (walk cfg depth current seen chain evalSlot s)
    (walk_post s depth evalSlot current seen chain) (walk_marks s).
Proof.
  revert current seen chain s.
  induction depth as [|depth IH]; intros current seen chain s Hs; cbn [walk].
  { apply call_ret; [done|]. split; [by split_and!|]. exists []. cbn. rewrite app_nil_r.
    split_and!; done || constructor. }
  st_step. destruct (isZeroRoot current || _ || _ || _) eqn:Hguard.
  { apply call_ret; [done|]. apply walk_post_stop; [by split_and!|]. unfold stops.
    unfold isZeroRoot in Hguard. rewrite !orb_true_iff, !bool_decide_eq_true in Hguard. tauto. }
  unfold isZeroRoot in Hguard. rewrite !orb_false_iff, !bool_decide_eq_false in Hguard.
  destruct Hguard as (((Hz & Hk) & Hmiss) & Hns). unfold rootKnown_in in Hk.
  case_decide as Himp; [done|].
  eapply (call_bind _ _ _ _ _ _ _ (fun _ => False));
    [eapply call_try; by apply fetchBlockInfoByRoot_spec| |done].
  intros [e|info] s1 Hs1 Hpost; cbn beta iota in *.
  { destruct (is_not_found e).
    - st_step. apply call_ret; [done|]. pose proof (walk_marks_same _ _ Hpost) as (?&?&?&?&?).
      apply walk_post_stop; [split_and!; cbn; done || set_solver|]. unfold stops. cbn. set_solver.
    - split; [done|]. by apply walk_marks_same. }
  destruct Hpost as (Hm1 & _ & Hroot & Hp).
  destruct (N.ltb_spec evalSlot (Slot info)) as [Hlate|Hle].
  { apply call_ret; [done|]. apply walk_post_stop; [by apply walk_marks_same|].
    unfold stops. eauto 10. }
  eapply call_bind; [by apply isCanonicalBlockInfo_spec| |].
  2:{ intros s' Hs'. apply walk_marks_same. by eapply same_marks_trans. }
  intros canonical s2 Hs2 [Hm2 Hcan]. pose proof (same_marks_trans _ _ _ Hm1 Hm2) as Hm.
  destruct canonical.
  { apply call_ret; [done|]. apply walk_post_stop; [by apply walk_marks_same|].
    unfold stops. do 4 right. exists info. split_and!; [done|done|]. right. by apply Hcan. }
  assert (~ is_canonical info) as Hnc by (rewrite <- Hcan; done).
  eapply call_bind; [by apply rememberArchiveOrphanInfo_spec| |].
  2:{ intros s' Hs'. eapply walk_marks_trans; [by apply walk_marks_same|done]. }
  intros u s3 Hs3 Hm3. cbn beta in Hm3.
  assert (walk_marks s s3) as Hws by (eapply walk_marks_trans; [by apply walk_marks_same|done]).
  eapply call_impl; [by apply IH| |].
  - intros r s' Hpost. eapply walk_post_step; [exact Hws|done|done| |exact Hpost].
    subst current. by split_and!.
  - intros s' Hs'. by eapply walk_marks_trans.
Qed.

Lemma linked_end_app current l info :
  linked current (l ++ [info]) -> Root info = end_of current l.
Proof. revert current. induction l as [|i l IH]; intros current; cbn; [tauto|]. intros [_ ?]. auto. Qed.

Lemma resolveOrphanChain_call root evalSlot s :
  plan_ok s ->
  call (resolveOrphanChain cfg root evalSlot s)
    (fun chain s' => walk_marks s s' /\ (length chain <= maxOrphanWalk)%nat
       /\ linked root (reverse chain) /\ NoDup (Root <$> chain)
       /\ Forall (orphan_of s evalSlot) chain
       /\ ((length chain < maxOrphanWalk)%nat ->
           stops s' evalSlot (list_to_set (Root <$> chain)) (end_of root (reverse chain))))
    (walk_marks s).
Proof.
  intros Hs. unfold resolveOrphanChain.
  eapply call_bind; [by apply walk_spec| |done].
  intros [l trunc] s1 Hs1 (Hm & l' & Hl & Hlink & Hlen & Hnd & _ & Hall & Hend).
  cbn [fst snd app] in *. subst l'.
  set (s2 := if trunc then on_warm addTruncatedChain s1 else s1).
  assert (Hs2 : plan_ok s2) by (unfold s2; destruct trunc; [apply plan_ok_on_warm; auto with warm|done]).
  assert (Heq : forall k : unit -> stateM state beacon_error (list blockInfo),
    ((if trunc then st_modify (on_warm addTruncatedChain) else mret tt) ≫= k) s1 = k tt s2)
    by (intros k; unfold s2; by destruct trunc).
  rewrite Heq. apply call_ret; [done|]. rewrite length_reverse, reverse_involutive. split_and!.
  - unfold s2. by destruct trunc.
  - done.
  - done.
  - by rewrite fmap_reverse, reverse_Permutation.
  - by rewrite reverse_Permutation.
  - intros Hlt. destruct trunc; [lia|]. rewrite fmap_reverse.
    replace (list_to_set (reverse (Root <$> l))) with (list_to_set (Root <$> l) ∪ ∅ : gset bytes); [done|].
    apply set_eq. intros x. rewrite elem_of_union, !elem_of_list_to_set, elem_of_reverse. set_solver.
Qed.

(** ** The orphans of a slot *)

(** An orphan block noted for [slot] and usable in state [s]. *)
Definition slot_orphan (s : state) (slot : N) (info : blockInfo) : Prop :=
  parsed info /\ Slot info = slot /\ ~ is_canonical info /\ Root info ≠ zero_root
  /\ Root info ∉ missingRoots s /\ Root info ∉ ignoredRoots s
  /\ Root info ∈ default [] (orphanRootsBySlot s !! slot).

(** What looking up orphans changes: it settles roots as missing or ignored. *)
Definition lookup_marks (s s' : state) : Prop :=
  importedRoots s' = importedRoots s /\ scheduledRoots s' = scheduledRoots s
  /\ missingRoots s ⊆ missingRoots s' /\ ignoredRoots s ⊆ ignoredRoots s'
  /\ orphanRootsBySlot s' = orphanRootsBySlot s /\ sees_more s s'.

Lemma lookup_marks_same s s' : same_marks s s' -> lookup_marks s s'.
Proof. unfold lookup_marks. intros (?&?&->&->&?&?). by split_and!. Qed.

Lemma lookup_marks_trans s1 s2 s3 : lookup_marks s1 s2 -> lookup_marks s2 s3 -> lookup_marks s1 s3.
Proof.
  unfold lookup_marks. intros (?&?&?&?&?&?) (?&?&?&?&?&?).
  split_and!; [congruence|congruence|set_solver..|congruence|by eapply sees_more_trans].
Qed.

Definition orphans_post (s : state) (slot : N) (acc : gset bytes * list blockInfo) (s' : state) : Prop :=
  lookup_marks s s' /\ NoDup (Root <$> acc.2) /\ Forall (slot_orphan s slot) acc.2
  /\ Forall (fun info => Root info ∈ acc.1) acc.2.

Lemma orphan_step_spec slot s acc root s1 :
  plan_ok s1 -> orphans_post s slot acc s1 -> root ∈ default [] (orphanRootsBySlot s !! slot) ->
  call (orphan_step cfg slot acc root s1) (orphans_post s slot) (lookup_marks s).
Proof.
  intros Hs1 (Hm & Hnd & Hall & Hseen) Hin. unfold orphan_step. st_step.
  unfold isZeroRoot. destruct (bool_decide _ || _ || _ || _) eqn:Hg.
  { apply call_ret; [done|]. by split_and!. }
  rewrite !orb_false_iff, !bool_decide_eq_false in Hg. destruct Hg as (((Hz & Hns) & Hmiss) & Hign).
  assert (Hskip : forall s2, lookup_marks s s2 -> orphans_post s slot ({[root]} ∪ acc.1, acc.2) s2).
  { intros s2 Hs2. split_and!; [apply Hs2..|done|done|]. cbn.
    eapply Forall_impl; [exact Hseen|]. set_solver. }
  eapply (call_bind _ _ _ _ _ _ _ (fun _ => False));
    [eapply call_try; by apply fetchBlockInfoByRoot_spec| |done].
  intros [e|info] s2 Hs2 Hpost; cbn beta iota in *.
  { assert (lookup_marks s s2) as Hm2 by (eapply lookup_marks_trans; [done|by apply lookup_marks_same]).
    destruct (is_not_found e); [|by split]. st_step. apply call_ret; [done|]. apply Hskip.
    destruct Hm2 as (?&?&?&?&?&?). split_and!; cbn; try done; set_solver. }
  destruct Hpost as (Hm2 & _ & Hroot & Hp).
  assert (Hm12 : lookup_marks s s2) by (eapply lookup_marks_trans; [done|by apply lookup_marks_same]).
  assert (Hignore : forall s3, plan_ok s3 -> lookup_marks s s3 ->
    call ((st_modify (mark_ignored root) ≫= (fun _ => mret ({[root]} ∪ acc.1, acc.2))) s3)
      (orphans_post s slot) (lookup_marks s)).
  { intros s3 Hs3 Hm3. st_step. apply call_ret; [done|]. apply Hskip.
    destruct Hm3 as (?&?&?&?&?&?). split_and!; cbn; try done; set_solver. }
  destruct (N.eqb_spec (Slot info) slot) as [Hslot|Hne]; cbn [negb]; [|by apply Hignore].
  eapply call_bind; [by apply isCanonicalBlockInfo_spec| |].
  2:{ intros s' Hs'. eapply lookup_marks_trans; [done|by apply lookup_marks_same]. }
  intros canonical s3 Hs3 [Hm3 Hcan].
  assert (lookup_marks s s3) as Hm13 by (eapply lookup_marks_trans; [done|by apply lookup_marks_same]).
  destruct canonical; [by apply Hignore|].
  apply call_ret; [done|]. split_and!; [apply Hm13..| | |]; cbn [fst snd].
  - rewrite fmap_app. apply NoDup_app. split_and!; [done| |apply NoDup_singleton].
    intros r (i & -> & Hi)%list_elem_of_fmap Heq%list_elem_of_singleton.
    rewrite Forall_forall in Hseen. specialize (Hseen _ Hi). cbn in Hseen. congruence.
  - apply Forall_app. split; [done|]. constructor; [|done]. destruct Hm as (_&_&?&?&_&_).
    subst root. split_and!; try done; set_solver.
  - apply Forall_app. split; [eapply Forall_impl; [exact Hseen|]; set_solver|].
    constructor; [|done]. set_solver.
Qed.

Lemma archiveOrphanInfosBySlot_spec slot s :
  plan_ok s ->
  call (archiveOrphanInfosBySlot cfg slot s)
    (fun infos s' => lookup_marks s s' /\ NoDup (Root <$> infos) /\ Forall (slot_orphan s slot) infos
       /\ StronglySorted (not_less blockInfo_less) infos)
    (lookup_marks s).
Proof.
  intros Hs. unfold archiveOrphanInfosBySlot. st_step.
  eapply call_bind; [eapply (call_fold _ _ _ (fun _ acc s' => orphans_post s slot acc s'))| |done].
  - done.
  - split_and!; try done; constructor.
  - intros done root left acc s1 Hl Hs1 HI. apply orphan_step_spec; [done|done|].
    rewrite Hl. set_solver.
  - intros acc s' Hs' (Hm & Hnd & Hall & _). apply call_ret; [done|].
    pose proof (sort_by_perm blockInfo_less acc.2) as Hperm. split_and!.
    + done.
    + unfold sortBlockInfos. by rewrite Hperm.
    + unfold sortBlockInfos. by rewrite Hperm.
    + apply sortBlockInfos_sorted.
Qed.
End orphans.

(** ** Theorems *)

(** C21: the walk from an orphan root always returns.  Its chain has at most 16
    blocks, oldest first: reversed, it starts at the requested root and every
    block is followed by its parent; no block occurs twice, none is canonical,
    zero, imported, known to be missing or newer than the evaluation slot; and a
    chain shorter than the limit is complete: the root it stops at is zero, known,
    missing, already in the chain, too new or canonical.  Imported, scheduled and
    ignored roots are untouched. *)
Theorem resolveOrphanChain_spec {E2 : Eth2} {R} {BS : BlockSource R} {CS} {LS : Lru N blockInfo CS}
    {CR} {LR : Lru bytes blockInfo CR} {A} {AR : Archive A} {F Can} {CB : canonicalBlocks Can}
    (cfg : RealBackendConfig) (content : N -> outcome era_error (option bytes))
    (root : bytes) (evalSlot : N) (s : planBuildState (realBackend R CS CR A F) Can) :
  plan_ok cfg content s ->
  match resolveOrphanChain cfg root evalSlot s with
  | (Ok chain, s') =>
      plan_ok cfg content s' /\ walk_marks s s' /\ (length chain <= maxOrphanWalk)%nat
      /\ linked root (reverse chain) /\ NoDup (Root <$> chain)
      /\ Forall (orphan_of cfg content s evalSlot) chain
      /\ ((length chain < maxOrphanWalk)%nat ->
          stops cfg content s' evalSlot (list_to_set (Root <$> chain)) (end_of root (reverse chain)))
  | (Err _, s') => plan_ok cfg content s' /\ walk_marks s s'
  | (Panic, _) => False
  end.
Proof.
  intros Hs. pose proof (resolveOrphanChain_call cfg content root evalSlot s Hs) as H.
  unfold call in H. by destruct (resolveOrphanChain _ _ _ _) as [[chain|e|] s'].
Qed.

Lemma resolveOrphanChain_spec_witness :
  match fst (resolveOrphanChain (toy_config 2%Z 4) (toy_root Byte.x98) 103 toy_plan) with
  | Ok chain => Root <$> chain = [toy_root Byte.x99; toy_root Byte.x98]
                /\ linked (toy_root Byte.x98) (reverse chain)
  | _ => False
  end.
Proof.
  pose proof (resolveOrphanChain_spec (toy_config 2%Z 4) (era_block plain toy_dir)
    (toy_root Byte.x98) 103 toy_plan (toy_plan_ok 2%Z 4)) as H.
  assert (match fst (resolveOrphanChain (toy_config 2%Z 4) (toy_root Byte.x98) 103 toy_plan) with
          | Ok chain => Root <$> chain = [toy_root Byte.x99; toy_root Byte.x98]
          | _ => False end) as Hv by (vm_compute; reflexivity).
  destruct (resolveOrphanChain (toy_config 2%Z 4) (toy_root Byte.x98) 103 toy_plan) as [[chain| |] s'];
    [|destruct Hv..].
  destruct H as (_ & _ & _ & H & _). split; [exact Hv|exact H].
Defined.
