(* ===== verification/OrphanSources.v ===== *)
(** * Orphans that are not lost ([pkg/beaconapi/realbackend.go], [archiveOrphanInfosBySlot])

    [Orphans] bounds what an orphan lookup may return; this file says what it must
    return: an orphan recorded for a slot, whose bytes the backend can serve, is among
    the blocks [archiveOrphanInfosBySlot] gives for that slot, whatever was looked up
    before. *)

From S2P Require Import Prelude Bytes Lru EraFormat EraReader Sources SlotRanges BlockInfo Samples.
From S2P Require Import CanonicalIndex PlanSources PlanState PlanSamples Orphans.

Section ready.
Context {E2 : Eth2} {R : Type} {BS : BlockSource R}.
Context {CS : Type} {LS : Lru N blockInfo CS} {CR : Type} {LR : Lru bytes blockInfo CR}.
Context {A : Type} {AR : Archive A} {F : Type} {Can : Type} {CB : canonicalBlocks Can}.
Context (cfg : RealBackendConfig) (content : N -> outcome era_error (option bytes)).

Abbreviation backend_state := (realBackend R CS CR A F).
Abbreviation state := (planBuildState backend_state Can).
Abbreviation P := (stateM state beacon_error).
Abbreviation plan_ok := (plan_ok (Can := Can) (A := A) (F := F) cfg content).
Abbreviation is_canonical := (is_canonical cfg content).
Abbreviation parsed := (parsed cfg).
Abbreviation call := (call cfg content).
Implicit Types (s : state) (info : blockInfo).

(** ** Definitions *)

(** The backend serves bytes that decode to [info]. *)
Definition served_as (info : blockInfo) (b : backend_state) : Prop :=
  exists data, parseBlockInfo data (SlotFork cfg) = Ok info /\ serves_root cfg (Root info) data b.

(** A block that is an orphan, and the only one with its root: no zero root, not
    canonical, and no other bytes decode to a different block of the same root. *)
Definition proper_orphan (info : blockInfo) : Prop :=
  ~ is_canonical info /\ Root info ≠ zero_root
  /\ forall other, parsed other -> Root other = Root info -> other = info.

(** An orphan the lookups of state [s] will find: it is served, recorded for no slot
    but its own, and not settled as missing or ignored. *)
Definition ready (s : state) (info : blockInfo) : Prop :=
  proper_orphan info /\ served_as info (backend s)
  /\ Root info ∉ missingRoots s /\ Root info ∉ ignoredRoots s
  /\ forall slot, Root info ∈ default [] (orphanRootsBySlot s !! slot) -> slot = Slot info.

(** ** The archive under the operations *)

(** An operation that keeps what the backend serves. *)
Definition keeps {T} (m : P T) : Prop :=
  forall info s, served_as info (backend s) -> served_as info (backend (m s).2).

Lemma served_as_frame info b i f :
  served_as info b -> served_as info (mkBackend i (BlockArchive b) f).
Proof. intros (data & ? & ?). exists data. split; [done|]. by apply serves_root_frame. Qed.

Lemma keeps_ret {T} (a : T) : keeps (mret a).
Proof. by intros info s. Qed.

Lemma keeps_lift {T} (o : outcome beacon_error T) : keeps (st_lift o).
Proof. by intros info s. Qed.

Lemma keeps_fail {T} (e : beacon_error) : keeps (T := T) (st_fail e).
Proof. by intros info s. Qed.

Lemma keeps_gets {T} (f : state -> T) : keeps (st_gets f).
Proof. by intros info s. Qed.

Lemma keeps_get : keeps st_get.
Proof. by intros info s. Qed.

Lemma keeps_modify (f : state -> state) : (forall s, backend (f s) = backend s) -> keeps (st_modify f).
Proof. intros Hf info s H. cbn. by rewrite Hf. Qed.

Lemma keeps_bind {T U} (m : P T) (f : T -> P U) : keeps m -> (forall a, keeps (f a)) -> keeps (m ≫= f).
Proof.
  intros Hm Hf info s H. specialize (Hm info s H). unfold mbind, stateM_bind, st_bind.
  destruct (m s) as [[a|e|] s1]; [|done..]. by apply Hf.
Qed.

Lemma keeps_try {T} (m : P T) : keeps m -> keeps (st_try m).
Proof. intros Hm info s H. specialize (Hm info s H). unfold st_try. by destruct (m s) as [[a|e|] s1]. Qed.

Lemma keeps_wrap {T} f (m : P T) : keeps m -> keeps (st_wrap f m).
Proof. intros Hm info s H. specialize (Hm info s H). unfold st_wrap. by destruct (m s) as [[a|e|] s1]. Qed.

Lemma keeps_fold {T B} (body : B -> T -> P B) l acc : (forall acc x, keeps (body acc x)) -> keeps (st_fold body acc l).
Proof.
  intros Hb. revert acc. induction l as [|x l IH]; intros acc; [apply keeps_ret|].
  cbn [st_fold]. apply (keeps_bind (body acc x)); [apply Hb|done].
Qed.

Lemma keeps_on_index {T} (m : stateM (istate R CS CR) beacon_error T) : keeps (on_index m).
Proof.
  intros info s H. unfold on_index. destruct (m (ix (backend s))) as [o i]. cbn. by apply served_as_frame.
Qed.

Lemma keeps_fetchSSZ root : keeps (on_backend (fetchBlockSSZByRootForPlanWithStats cfg root)).
Proof.
  intros info s (data & Hp & Hs). exists data. split; [done|].
  pose proof (serves_root_fetch cfg _ _ root _ Hs) as H. unfold on_backend.
  by destruct (fetchBlockSSZByRootForPlanWithStats cfg root (backend s)).
Qed.

#[local] Hint Resolve keeps_ret keeps_lift keeps_fail keeps_gets keeps_get keeps_bind keeps_try keeps_wrap
  keeps_fold keeps_on_index keeps_fetchSSZ : keeps.
#[local] Hint Extern 1 (keeps (st_modify _)) => (apply keeps_modify; reflexivity) : keeps.
#[local] Hint Extern 2 (keeps (match ?x with _ => _ end)) => destruct x : keeps.

Lemma keeps_fetchBlockInfo root : keeps (fetchBlockInfoByRoot cfg root).
Proof. unfold fetchBlockInfoByRoot. auto 20 with keeps. Qed.

Lemma keeps_isCanonical info : keeps (isCanonicalBlockInfo cfg info).
Proof. unfold isCanonicalBlockInfo, canonical_infoBySlot. auto 20 with keeps. Qed.

#[local] Hint Resolve keeps_fetchBlockInfo keeps_isCanonical : keeps.

Lemma keeps_orphan_step slot acc root : keeps (orphan_step cfg slot acc root).
Proof. unfold orphan_step. auto 20 with keeps. Qed.

(** A call of an operation that keeps the archive. *)
Lemma call_keeps {T} (m : P T) s (Q : T -> state -> Prop) X :
  keeps m -> call (m s) Q X ->
  call (m s) (fun a s' => Q a s' /\ forall info, served_as info (backend s) -> served_as info (backend s'))
    (fun s' => X s' /\ forall info, served_as info (backend s) -> served_as info (backend s')).
Proof.
  intros Hk. unfold PlanState.call. specialize (fun info => Hk info s).
  destruct (m s) as [[a|e|] s']; naive_solver.
Qed.

(** Two promises of the same call, the second for every [x] of a kind. *)
Lemma call_all {T U} (r : outcome beacon_error T * state) (K : U -> Prop)
    (Q : T -> state -> Prop) X (Q' : U -> T -> state -> Prop) :
  call r Q X -> (forall x, K x -> call r (Q' x) (fun _ => True)) ->
  call r (fun a s' => Q a s' /\ forall x, K x -> Q' x a s') X.
Proof.
  unfold PlanState.call. destruct r as [[a|e|] s0]; [|done..]. intros [? ?] Hq. split; [done|].
  split; [done|]. intros x Hx. by apply Hq.
Qed.

(** ** Lookups *)

Lemma ready_same s s' info :
  same_marks s s' -> (served_as info (backend s) -> served_as info (backend s')) -> ready s info -> ready s' info.
Proof.
  intros (_&_&Hm&Hi&Ho&_) Hk (?&?&?&?&?). unfold ready. rewrite Hm, Hi, Ho. split_and!; auto.
Qed.

(** A root is settled that is not the one looked for. *)
Lemma ready_missing s root info : Root info ≠ root -> ready s info -> ready (mark_missing root s) info.
Proof. intros Hne (?&?&?&?&?). unfold ready. cbn. split_and!; auto; set_solver. Qed.

Lemma ready_ignored s root info : Root info ≠ root -> ready s info -> ready (mark_ignored root s) info.
Proof. intros Hne (?&?&?&?&?). unfold ready. cbn. split_and!; auto; set_solver. Qed.

(** A served root always resolves. *)
Lemma fetch_served info s : served_as info (backend s) -> is_Ok (fetchBlockInfoByRoot cfg (Root info) s).1 = true.
Proof.
  intros (data & Hp & Hs). apply serves_root_answer in Hs. unfold fetchBlockInfoByRoot. st_step.
  destruct (fetchedByRoot s !! Root info) as [other|]; [done|].
  unfold mbind at 1, stateM_bind at 1, st_bind at 1, on_backend.
  destruct (fetchBlockSSZByRootForPlanWithStats cfg (Root info) (backend s)) as [[res n] b]. cbn in Hs. subst res.
  st_step. cbn [fst snd]. unfold mbind at 1, stateM_bind at 1, st_bind at 1, st_wrap, on_index, decodeBlockInfoByRoot.
  destruct (get_opt _ _) as [[other|] c]; [done|]. rewrite Hp. by rewrite decide_True.
Qed.

Lemma fetch_ready info root s :
  plan_ok s -> ready s info ->
  call (fetchBlockInfoByRoot cfg root s) (fun i s' => ready s' info /\ parsed i /\ (root = Root info -> i = info))
    (fun s' => ready s' info /\ root ≠ Root info).
Proof.
  intros Hs Hr. pose proof Hr as ((_ & _ & Huniq) & Hsrv & _).
  pose proof (call_keeps _ _ _ _ (keeps_fetchBlockInfo root) (fetchBlockInfoByRoot_spec cfg content root s Hs)) as H.
  pose proof (fetch_served info s Hsrv) as Hok. unfold PlanState.call in *.
  destruct (fetchBlockInfoByRoot cfg root s) as [[i|e|] s'] eqn:E; [| |done].
  - destruct H as (Hs' & (Hm & _ & Hroot & Hp) & Hk). split; [done|]. split; [eapply ready_same; [exact Hm|apply Hk|done]|].
    split; [done|]. intros ->. by apply Huniq.
  - destruct H as (Hs' & Hm & Hk). split; [done|]. split; [eapply ready_same; [exact Hm|apply Hk|done]|].
    intros ->. by rewrite E in Hok.
Qed.

Lemma isCanonical_ready info other s :
  plan_ok s -> parsed other -> ready s info ->
  call (isCanonicalBlockInfo cfg other s) (fun b s' => ready s' info /\ (b = true <-> is_canonical other))
    (fun s' => ready s' info).
Proof.
  intros Hs Hp Hr.
  eapply call_impl; [exact (call_keeps _ _ _ _ (keeps_isCanonical other) (isCanonicalBlockInfo_spec cfg content other s Hs Hp))|..].
  - intros b s' [[Hm Hb] Hk]. split; [eapply ready_same; [exact Hm|apply Hk|done]|done].
  - intros s' [Hm Hk]. eapply ready_same; [exact Hm|apply Hk|done].
Qed.

(** One root of a slot's list: the orphan stays findable, and is found at its root. *)
Lemma orphan_step_ready info slot acc root s :
  plan_ok s -> ready s info -> (root = Root info -> slot = Slot info) ->
  (Root info ∈ acc.1 -> info ∈ acc.2) ->
  call (orphan_step cfg slot acc root s)
    (fun acc' s' => ready s' info /\ (info ∈ acc.2 -> info ∈ acc'.2)
       /\ (Root info ∈ acc'.1 -> info ∈ acc'.2) /\ (root = Root info -> info ∈ acc'.2))
    (fun _ => True).
Proof.
  intros Hs Hr Hslot Hseen. pose proof Hr as ((Hnc & Hz & _) & _ & Hmiss & Hign & _).
  unfold orphan_step. st_step. unfold isZeroRoot.
  destruct (bool_decide _ || _ || _ || _) eqn:Hg.
  { apply call_ret; [done|]. split_and!; auto. intros ->.
    rewrite !orb_true_iff, !bool_decide_eq_true in Hg. intuition done. }
  eapply call_bind; [eapply call_try; by apply fetch_ready| |done].
  intros [e|i] s1 Hs1 Hpost; cbn beta iota in *.
  { destruct Hpost as [Hr1 Hroot], (is_not_found e); [|by split]. st_step. apply call_ret; [done|].
    split_and!; [by apply ready_missing|..]; cbn; try done. set_solver. }
  destruct Hpost as (Hr1 & Hp & Hroot).
  assert (Hignore : forall s2, plan_ok s2 -> ready s2 info -> root ≠ Root info ->
    call ((st_modify (mark_ignored root) ≫= (fun _ => mret ({[root]} ∪ acc.1, acc.2))) s2)
      (fun acc' s' => ready s' info /\ (info ∈ acc.2 -> info ∈ acc'.2)
         /\ (Root info ∈ acc'.1 -> info ∈ acc'.2) /\ (root = Root info -> info ∈ acc'.2)) (fun _ => True)).
  { intros s2 Hs2 Hr2 Hne. st_step. apply call_ret; [done|].
    split_and!; [by apply ready_ignored|..]; cbn; try done. set_solver. }
  destruct (N.eqb_spec (Slot i) slot) as [Hsl|Hsl]; cbn [negb].
  2:{ apply Hignore; [done|done|]. intros Heq. rewrite (Hroot Heq), (Hslot Heq) in Hsl. done. }
  eapply call_bind; [by apply isCanonical_ready|..|done].
  intros canonical s2 Hs2 [Hr2 Hcan]. destruct canonical.
  { apply Hignore; [done|done|]. intros Heq. apply Hnc. rewrite <- (Hroot Heq). by apply Hcan. }
  apply call_ret; [done|]. cbn. split_and!; [done|set_solver| |intros Heq; rewrite (Hroot Heq); set_solver].
  intros [Heq%elem_of_singleton|?]%elem_of_union; [rewrite (Hroot (eq_sym Heq))|]; set_solver.
Qed.

Lemma archiveOrphanInfosBySlot_ready info slot s :
  plan_ok s -> ready s info ->
  call (archiveOrphanInfosBySlot cfg slot s)
    (fun infos s' => ready s' info /\ (Root info ∈ default [] (orphanRootsBySlot s !! slot) -> info ∈ infos))
    (fun _ => True).
Proof.
  intros Hs Hr. unfold archiveOrphanInfosBySlot. st_step.
  eapply call_bind; [eapply (call_fold _ _ _ (fun roots acc s' => ready s' info
    /\ (Root info ∈ acc.1 -> info ∈ acc.2) /\ (Root info ∈ roots -> info ∈ acc.2)))| |done].
  - done.
  - split_and!; [done|set_solver..].
  - intros roots root left acc s1 Hl Hs1 (Hr1 & Hseen & Hdone).
    eapply call_impl; [eapply (orphan_step_ready info slot acc root s1)| |done]; try done.
    + intros Heq. apply Hr. rewrite Hl, Heq. set_solver.
    + intros acc' s' (? & Hmono & ? & Hhit). split_and!; try done.
      intros [?|Heq%list_elem_of_singleton]%elem_of_app; auto.
  - intros acc s' Hs' (Hr' & _ & Hfound). apply call_ret; [done|]. split; [done|]. intros Hin.
    unfold sortBlockInfos. rewrite (sort_by_perm blockInfo_less acc.2). auto.
Qed.

Lemma sourceBlockInfosBySlot_ready info slot s :
  plan_ok s -> ready s info ->
  call (sourceBlockInfosBySlot cfg slot s)
    (fun infos s' => ready s' info /\ (Root info ∈ default [] (orphanRootsBySlot s !! slot) -> info ∈ infos))
    (fun _ => True).
Proof.
  intros Hs Hr. unfold sourceBlockInfosBySlot, canonical_infoBySlot. st_step.
  eapply call_bind; [by apply (archiveOrphanInfosBySlot_ready info)| |done].
  intros orphans s' Hs' [Hr' Hin]. apply call_ret; [done|]. split; [done|]. set_solver.
Qed.
End ready.
