(* ===== verification/BuildSlot.v ===== *)
(** * One slot's instructions ([pkg/beaconapi/realbackend.go], [BuildSlot])

    [BuildSlot] answers the engines' request for one simulated slot: which blocks
    to import (the canonical block first, then orphans) and which attestations to
    inject.  It is stateless between slots except for the shared index and caches. *)

From S2P Require Import Prelude Bytes Lru EraFormat EraReader Sources SlotRanges BlockInfo Samples.
From S2P Require Import AttPlan CanonicalIndex PlanSources PlanState PlanSamples Orphans OrphanSources.

(** ** Definitions *)

(** [for slot := ...; slot <= loadEnd; slot++ { ...; if slot == math.MaxUint64 break }] *)
Fixpoint exists_loop (fuel : nat) (infoAt : N -> option blockInfo) (slot loadEnd : N)
    (blockExists : gmap N bool) : gmap N bool :=
  match fuel with
  | O => blockExists
  | S fuel' =>
      if slot <=? loadEnd then
        let blockExists :=
          match infoAt slot with Some _ => <[slot := true]> blockExists | None => blockExists end in
        if slot =? MaxUint64 then blockExists
        else exists_loop fuel' infoAt (u64_add slot 1) loadEnd blockExists
      else blockExists
  end.

Section build_slot.
Context {E2 : Eth2} {R : Type} {BS : BlockSource R}.
Context {CS : Type} {LS : Lru N blockInfo CS} {CR : Type} {LR : Lru bytes blockInfo CR}.
Context {A : Type} {AR : Archive A} {F : Type} {FS : FirstSeen F}.
Context {Can : Type} {CB : canonicalBlocks Can}.
Context (cfg : RealBackendConfig).

Abbreviation backend_state := (realBackend R CS CR A F).
Abbreviation plan Can := (planBuildState backend_state Can).

(** [planBuildState{...}] as [BuildSlot] and [BuildPlan] fill it. *)
Definition newPlanState (b : backend_state) (c : Can) : plan Can :=
  mkPlan b c (dom (CheckpointBlocksByRoot cfg)) ∅ ∅ ∅ ∅
    (cloneOrphanRootsBySlot (ArchiveOrphanRootsBySlot cfg)) None.

Definition first_seen (simSlot : N) : stateM (plan Can) beacon_error (list attestationInfo) := fun s =>
  match FirstSeenSource (backend s) with
  | None => (Panic, s)
  | Some f =>
      let '(res, f) := AttestationsForSlot simSlot (SlotFork cfg) f in
      (match res with Some l => Ok l | None => Err EFirstSeen end,
       set_backend (mkBackend (ix (backend s)) (BlockArchive (backend s)) (Some f)) s)
  end.

(** The canonical block of the slot, imported first. *)
Definition canonical_import (simSlot : N) : stateM (plan Can) beacon_error (list PlanBlockImport) :=
  found ← canonical_infoBySlot simSlot;
  match found with
  | Some info => _ ← st_modify (mark_imported (Root info)); mret [blockImport info true]
  | None => mret []
  end.

(** The attestations of the slot, by mode. *)
Definition slot_attestations (blockExists : gmap N bool) (simSlot lookaheadCap evalSlot : N)
    : stateM (plan Can) beacon_error (list attestationInfo) :=
  if (Mode cfg =? ModeFirstSeenGossip)%Z then first_seen simSlot
  else
    sources ← st_lift (planSourcesForSlot blockExists simSlot (Mode cfg) lookaheadCap evalSlot);
    attestationsFromSources cfg sources.

(** [BuildSlot] after the canonical blocks are loaded. *)
Definition slot_plan (blockExists : gmap N bool) (simSlot lookaheadCap minImportSlot : N)
    : stateM (plan Can) beacon_error SlotInstruction :=
  let evalSlot := saturatingAdd simSlot 1 in
  canonical ← canonical_import simSlot;
  slotOrphanImports ← archiveOrphanImportsForSlot cfg simSlot minImportSlot;
  slotAttestations ← slot_attestations blockExists simSlot lookaheadCap evalSlot;
  orphanImports ← orphanImportsForSlotAttestations cfg slotAttestations simSlot minImportSlot;
  mret (mkInstruction simSlot evalSlot (canonical ++ slotOrphanImports ++ orphanImports)
          (planAttestation <$> slotAttestations)).
End build_slot.

Section BuildSlot.
Context {E2 : Eth2} {R : Type} {BS : BlockSource R}.
Context {CS : Type} {LS : Lru N blockInfo CS} {CR : Type} {LR : Lru bytes blockInfo CR}.
Context {A : Type} {AR : Archive A} {F : Type} {FS : FirstSeen F}.
Context (cfg : RealBackendConfig).

Abbreviation backend_state := (realBackend R CS CR A F).

(** The cap [BuildSlot] works with and the last slot it loads. *)
Definition slot_cap : N :=
  if (Mode cfg =? ModeStrictKMinus1)%Z then 1 else LookaheadCap cfg.

Definition slot_loadEnd (simSlot : N) : N :=
  if (Mode cfg =? ModeFirstSeenGossip)%Z then simSlot else saturatingAdd simSlot slot_cap.

(** The early returns, in order. *)
Definition slot_guard (simSlot warmupStartSlot : N) (b : backend_state) : outcome beacon_error N :=
  match era (ix b) with
  | None => Err EEraReaderNotConfigured
  | Some _ =>
      if simSlot <=? warmupStartSlot then Err (ESimSlot simSlot warmupStartSlot)
      else if mode_needs_cap (Mode cfg) && (LookaheadCap cfg <? 1) then Err ELookaheadCap
      else if (Mode cfg =? ModeFirstSeenGossip)%Z && bool_decide (FirstSeenSource b = None) then
        Err EFirstSeenNotConfigured
      else match checkedAdd warmupStartSlot 1 with
           | None => Err (EWarmupIncrement warmupStartSlot)
           | Some minImportSlot => Ok minImportSlot
           end
  end.

Definition BuildSlot (simSlot warmupStartSlot : N) : stateM backend_state beacon_error SlotInstruction :=
  fun b =>
  match slot_guard simSlot warmupStartSlot b with
  | Err e => (Err e, b)
  | Panic => (Panic, b)
  | Ok minImportSlot =>
      let loadEnd := slot_loadEnd simSlot in
      let '(loaded, i) := ensureRange (SlotFork cfg) minImportSlot loadEnd (ix b) in
      let b := mkBackend i (BlockArchive b) (FirstSeenSource b) in
      match loaded with
      | Err e => (Err e, b)
      | Panic => (Panic, b)
      | Ok _ =>
          let canonical := view minImportSlot loadEnd in
          let start := saturatingAdd simSlot 1 in
          let blockExists := exists_loop (S (N.to_nat (loadEnd - start)))
            (view_infoBySlot (canonicalIndex i) canonical) start loadEnd ∅ in
          let '(o, s) := slot_plan cfg blockExists simSlot slot_cap minImportSlot
                           (newPlanState cfg b canonical) in
          (o, backend s)
      end
  end.
End BuildSlot.

(** ** Lemmas *)

Lemma exists_loop_spec fuel infoAt slot loadEnd m t :
  u64 loadEnd -> loadEnd < slot + N.of_nat fuel ->
  exists_at (exists_loop fuel infoAt slot loadEnd m) t = true
  <-> exists_at m t = true \/ (slot <= t <= loadEnd /\ is_Some (infoAt t)).
Proof.
  intros Hu. revert slot m. induction fuel as [|fuel IH]; intros slot m Hf; cbn [exists_loop].
  { split; [auto|]. intros [?|[? _]]; [done|lia]. }
  destruct (N.leb_spec slot loadEnd) as [Hle|Hgt]; [|split; [auto|intros [?|[? _]]; [done|lia]]].
  set (m' := match infoAt slot with Some _ => _ | None => _ end).
  assert (Hm' : exists_at m' t = true <-> exists_at m t = true \/ (t = slot /\ is_Some (infoAt t))).
  { unfold m', exists_at. destruct (infoAt slot) as [i|] eqn:Hi.
    - destruct (decide (t = slot)) as [->|Hne]; [rewrite lookup_insert_eq; cbn; naive_solver|].
      rewrite lookup_insert_ne by done. naive_solver.
    - split; [auto|]. intros [?|[-> H]]; [done|]. rewrite Hi in H. by destruct H. }
  destruct (N.eqb_spec slot MaxUint64) as [->|Hne].
  - rewrite Hm'. assert (loadEnd = MaxUint64) as -> by u64_lia.
    split; intros [?|[? ?]]; auto; right; split; auto; lia.
  - rewrite u64_add_small by u64_lia. rewrite IH, Hm' by lia.
    destruct (decide (t = slot)) as [->|]; [intuition lia|].
    split; intros; destruct_or?; destruct_and?; auto; try tauto; right; split; auto; lia.
Qed.

Section plan.
Context {E2 : Eth2} {R : Type} {BS : BlockSource R}.
Context {CS : Type} {LS : Lru N blockInfo CS} {CR : Type} {LR : Lru bytes blockInfo CR}.
Context {A : Type} {AR : Archive A} {F : Type} {FS : FirstSeen F}.
Context {Can : Type} {CB : canonicalBlocks Can}.
Context (cfg : RealBackendConfig) (content : N -> outcome era_error (option bytes)).

Abbreviation state := (planBuildState (realBackend R CS CR A F) Can).
Abbreviation plan_ok := (plan_ok (Can := Can) (A := A) (F := F) cfg content).
Abbreviation is_canonical := (is_canonical cfg content).
Abbreviation parsed := (parsed cfg).
Abbreviation call := (call cfg content).
Abbreviation canonical_at := (canonical_at (SlotFork cfg) content).
Abbreviation ready := (ready (Can := Can) (CS := CS) (CR := CR) (A := A) (F := F) cfg content).
Implicit Types s : state.

(** The orphan roots recorded for a slot. *)
Definition noted (s : state) (slot : N) : list bytes := default [] (orphanRootsBySlot s !! slot).

Lemma sees_sound s slot info : plan_ok s -> sees s slot = Some info -> canonical_at slot = Ok (Some info).
Proof. intros (_ & [H _] & _). apply H. Qed.

(** *** Attestations of the sources *)

(** A block whose attestations count for a source at [slot]. *)
Definition source_block (s : state) (slot : N) (info : blockInfo) : Prop :=
  canonical_at slot = Ok (Some info) \/ slot_orphan cfg content s slot info.

Lemma sourceBlockInfosBySlot_spec slot s :
  plan_ok s ->
  call (sourceBlockInfosBySlot cfg slot s)
    (fun infos s' => lookup_marks s s' /\ Forall (source_block s slot) infos
       /\ forall info, sees s slot = Some info -> info ∈ infos)
    (lookup_marks s).
Proof.
  intros Hs. unfold sourceBlockInfosBySlot, canonical_infoBySlot. st_step. fold (sees s slot).
  eapply call_bind; [by apply archiveOrphanInfosBySlot_spec| |done].
  intros orphans s' Hs' (Hm & _ & Hall & _). apply call_ret; [done|]. split_and!; [done|..].
  - apply Forall_app. split.
    + destruct (sees s slot) as [info|] eqn:Hc; cbn; [|done]. constructor; [|done].
      left. by apply (sees_sound s).
    + eapply Forall_impl; [exact Hall|]. intros info. by right.
  - intros info ->. cbn. by left.
Qed.

(** What [attestationsFromSources] has collected from the sources done so far. *)
Definition atts_post (s : state) (sources : list PlanAttestationSource)
    (acc : gset bytes * list attestationInfo) (s' : state) : Prop :=
  lookup_marks s s' /\ NoDup (a_Root <$> acc.2)
  /\ (forall r, r ∈ acc.1 <-> r ∈ a_Root <$> acc.2)
  /\ (forall a, a ∈ acc.2 -> exists source info, source ∈ sources
        /\ source_block s (s_Slot source) info /\ a ∈ Attestations info /\ too_late source a = false)
  /\ (forall source info a, source ∈ sources -> sees s (s_Slot source) = Some info ->
        a ∈ Attestations info -> too_late source a = false -> a_Root a ∈ acc.1)
  /\ (forall info, ready s info -> ready s' info
        /\ forall source a, source ∈ sources -> Root info ∈ noted s (s_Slot source) ->
             a ∈ Attestations info -> too_late source a = false -> a_Root a ∈ acc.1).

Lemma take_attestation_spec source acc a :
  NoDup (a_Root <$> acc.2) -> (forall r, r ∈ acc.1 <-> r ∈ a_Root <$> acc.2) ->
  let acc' := take_attestation source acc a in
  NoDup (a_Root <$> acc'.2) /\ (forall r, r ∈ acc'.1 <-> r ∈ a_Root <$> acc'.2)
  /\ acc.1 ⊆ acc'.1 /\ (too_late source a = false -> a_Root a ∈ acc'.1)
  /\ (forall x, x ∈ acc'.2 -> x ∈ acc.2 \/ (x = a /\ too_late source a = false)).
Proof.
  intros Hnd Hin. unfold take_attestation. destruct (too_late source a) eqn:Hl; cbn.
  { split_and!; auto. done. }
  case_bool_decide as Hr; cbn; [by split_and!; auto|].
  rewrite fmap_app. change (a_Root <$> [a]) with [a_Root a]. split_and!.
  - apply NoDup_app. split_and!; [done| |apply NoDup_singleton].
    intros r Hr1 ->%list_elem_of_singleton. by apply Hr, Hin.
  - intros r. rewrite elem_of_union, elem_of_app, Hin, elem_of_singleton, list_elem_of_singleton. tauto.
  - set_solver.
  - set_solver.
  - intros x [?| ->%list_elem_of_singleton]%elem_of_app; auto.
Qed.

(** The two inner loops over the blocks of one source. *)
Lemma take_atts_spec source atts acc :
  NoDup (a_Root <$> acc.2) -> (forall r, r ∈ acc.1 <-> r ∈ a_Root <$> acc.2) ->
  let acc' := foldl (take_attestation source) acc atts in
  NoDup (a_Root <$> acc'.2) /\ (forall r, r ∈ acc'.1 <-> r ∈ a_Root <$> acc'.2)
  /\ acc.1 ⊆ acc'.1 /\ (forall a, a ∈ atts -> too_late source a = false -> a_Root a ∈ acc'.1)
  /\ (forall x, x ∈ acc'.2 -> x ∈ acc.2 \/ (x ∈ atts /\ too_late source x = false)).
Proof.
  revert acc. induction atts as [|a atts IH]; intros acc Hnd Hin; cbn.
  { split_and!; auto. intros a []%not_elem_of_nil. }
  destruct (take_attestation_spec source acc a Hnd Hin) as (Hnd' & Hin' & Hsub & Ha & Hx).
  destruct (IH (take_attestation source acc a) Hnd' Hin') as (? & ? & ? & Hb & Hy). split_and!; auto.
  - set_solver.
  - intros b [->|?]%elem_of_cons; [|auto]. intros Hl. set_solver.
  - intros x Hx'. destruct (Hy x Hx') as [[?|[-> ?]]%Hx|[? ?]]; auto; right; (split; [|done]);
      [by left|by right].
Qed.

Lemma take_infos_spec source infos acc :
  NoDup (a_Root <$> acc.2) -> (forall r, r ∈ acc.1 <-> r ∈ a_Root <$> acc.2) ->
  let acc' := foldl (fun acc info => foldl (take_attestation source) acc (Attestations info)) acc infos in
  NoDup (a_Root <$> acc'.2) /\ (forall r, r ∈ acc'.1 <-> r ∈ a_Root <$> acc'.2)
  /\ acc.1 ⊆ acc'.1
  /\ (forall info a, info ∈ infos -> a ∈ Attestations info -> too_late source a = false -> a_Root a ∈ acc'.1)
  /\ (forall x, x ∈ acc'.2 -> x ∈ acc.2
        \/ exists info, info ∈ infos /\ x ∈ Attestations info /\ too_late source x = false).
Proof.
  revert acc. induction infos as [|info infos IH]; intros acc Hnd Hin; cbn.
  { split_and!; auto. intros ? ? []%not_elem_of_nil. }
  destruct (take_atts_spec source (Attestations info) acc Hnd Hin) as (Hnd' & Hin' & Hsub & Ha & Hx).
  destruct (IH _ Hnd' Hin') as (? & ? & ? & Hb & Hy). split_and!; auto.
  - set_solver.
  - intros i b [->|?]%elem_of_cons; [|eauto]. intros Hi Hl. specialize (Ha b Hi Hl). set_solver.
  - intros x Hx'. destruct (Hy x Hx') as [[?|[? ?]]%Hx|(i & ? & ? & ?)]; auto; right.
    + exists info. split; [by left|done].
    + exists i. split; [by right|done].
Qed.

Lemma slot_orphan_weaken s s' slot info :
  lookup_marks s s' -> slot_orphan cfg content s' slot info -> slot_orphan cfg content s slot info.
Proof.
  intros (_&_&?&?&Ho&_) (?&?&?&?&?&?&Hin). rewrite Ho in Hin. split_and!; auto; set_solver.
Qed.

Lemma source_block_weaken s s' slot info :
  lookup_marks s s' -> source_block s' slot info -> source_block s slot info.
Proof. intros Hm [?|?]; [by left|right; by eapply slot_orphan_weaken]. Qed.

(** A state that sees more still sees the same block. *)
Lemma sees_stable s s' slot info :
  plan_ok s -> plan_ok s' -> sees_more s s' -> sees s slot = Some info -> sees s' slot = Some info.
Proof.
  intros Hs Hs' Hm Hc. destruct (Hm slot) as [info' Hc']; [by eauto|].
  pose proof (sees_sound _ _ _ Hs Hc). pose proof (sees_sound _ _ _ Hs' Hc'). congruence.
Qed.

Lemma attestationsFromSources_spec sources s :
  plan_ok s ->
  call (attestationsFromSources cfg sources s)
    (fun atts s' => lookup_marks s s' /\ NoDup (a_Root <$> atts)
       /\ (forall a, a ∈ atts -> exists source info, source ∈ sources
             /\ source_block s (s_Slot source) info /\ a ∈ Attestations info /\ too_late source a = false)
       /\ (forall source info a, source ∈ sources -> sees s (s_Slot source) = Some info ->
             a ∈ Attestations info -> too_late source a = false -> a_Root a ∈ a_Root <$> atts)
       /\ (forall source info a, source ∈ sources -> ready s info -> Root info ∈ noted s (s_Slot source) ->
             a ∈ Attestations info -> too_late source a = false -> a_Root a ∈ a_Root <$> atts))
    (lookup_marks s).
Proof.
  intros Hs. unfold attestationsFromSources.
  eapply call_bind; [eapply (call_fold _ _ _ (atts_post s))| |done].
  - done.
  - split_and!; try done; cbn; try constructor; intros; try done; set_solver.
  - intros done source left acc s1 _ Hs1 (Hm & Hnd & Hr & Hsound & Hcompl & Horph). unfold take_source.
    eapply call_bind; [apply (call_all _ _ _ (ready s1));
      [by apply sourceBlockInfosBySlot_spec|intros info Hi; by apply (sourceBlockInfosBySlot_ready _ _ info)]| |].
    2:{ intros s' Hs'. by eapply lookup_marks_trans. }
    intros infos s2 Hs2 ((Hm2 & Hsrc & Hcan) & Hready). apply call_ret; [done|].
    destruct (take_infos_spec source infos acc Hnd Hr) as (Hnd' & Hr' & Hsub & Ha & Hx).
    unfold atts_post. cbn zeta in *. split_and!; [by eapply lookup_marks_trans|done|done| | |].
    + intros a [Hin|(info & Hi & Hia & Hl)]%Hx.
      * destruct (Hsound a Hin) as (so & i & ? & ?). exists so, i. split; [set_solver|done].
      * exists source, info. split; [set_solver|]. split; [|done].
        rewrite Forall_forall in Hsrc. eapply source_block_weaken; [exact Hm|auto].
    + intros so info a Hso Hc Hia Hl. apply elem_of_app in Hso as [Hso| ->%list_elem_of_singleton].
      * apply Hsub. by eapply Hcompl.
      * eapply Ha; [|done|done]. apply Hcan. eapply (sees_stable s); try done. apply Hm.
    + intros info Hi. destruct (Horph info Hi) as [Hi1 Hold], (Hready info Hi1) as [Hi2 Hnew].
      split; [done|]. intros so a Hso Hin Hia Hl.
      apply elem_of_app in Hso as [Hso| ->%list_elem_of_singleton]; [apply Hsub; by eapply Hold|].
      eapply Ha; [|done|done]. apply Hnew. destruct Hm as (_&_&_&_&Ho&_). by rewrite Ho.
  - intros acc s' Hs' (Hm & Hnd & Hr & Hsound & Hcompl & Horph). apply call_ret; [done|].
    split_and!; [done|done|done|intros; apply Hr; eauto|].
    intros source info a Hin Hi Hno Hia Hl. apply Hr. by apply (proj2 (Horph info Hi) source a).
Qed.

(** *** Imports *)

(** A non-canonical block that state [s] may import at slots [[lo, hi]]. *)
Definition importable (s : state) (lo hi : N) (info : blockInfo) : Prop :=
  parsed info /\ ~ is_canonical info /\ lo <= Slot info <= hi /\ Root info ≠ zero_root
  /\ Root info ∉ importedRoots s.

Definition orphan_imports (infos : list blockInfo) : list PlanBlockImport :=
  (fun info => blockImport info false) <$> infos.

Definition imports_post (s : state) (lo hi : N) (imports : list PlanBlockImport) (s' : state) : Prop :=
  exists infos, imports = orphan_imports infos /\ NoDup (Root <$> infos)
    /\ Forall (importable s lo hi) infos
    /\ importedRoots s' = importedRoots s ∪ list_to_set (Root <$> infos)
    /\ scheduledRoots s' = scheduledRoots s /\ sees_more s s'
    /\ orphanRootsBySlot s' = orphanRootsBySlot s
    /\ missingRoots s ⊆ missingRoots s' /\ ignoredRoots s ⊆ ignoredRoots s'.

Lemma rootKnown_in_not_imported s root : rootKnown_in s root = false -> root ∉ importedRoots s.
Proof. unfold rootKnown_in. by case_decide. Qed.

Lemma orphan_import_spec s slot lo imports info s1 :
  plan_ok s1 -> imports_post s lo slot imports s1 -> slot_orphan cfg content s slot info ->
  call (orphan_import lo imports info s1) (imports_post s lo slot) (fun _ => True).
Proof.
  intros Hs1 Hpost (Hp & Hslot & Hnc & Hz & _). unfold orphan_import. st_step.
  destruct (N.ltb_spec (Slot info) lo) as [Hlo|Hlo].
  { st_step. apply call_ret; [done|].
    destruct Hpost as (infos & ? & ? & ? & ? & ? & ? & ? & ? & ?). exists infos.
    split_and!; try done; cbn; set_solver. }
  destruct (rootKnown_in s1 (Root info)) eqn:Hk; [by apply call_ret|].
  case_bool_decide as Hsch; [by apply call_ret|]. cbn [orb]. st_step. apply call_ret; [done|].
  apply rootKnown_in_not_imported in Hk.
  destruct Hpost as (infos & -> & Hnd & Hall & Himp & ? & ? & ? & ? & ?).
  rewrite Himp in Hk. exists (infos ++ [info]). unfold orphan_imports. rewrite !fmap_app. cbn.
  split_and!; try done.
  - apply NoDup_app. split_and!; [done| |apply NoDup_singleton].
    intros r Hr ->%list_elem_of_singleton. apply Hk. rewrite elem_of_union, elem_of_list_to_set. auto.
  - apply Forall_app. split; [done|]. constructor; [|done]. split_and!; try done; [lia|set_solver].
  - rewrite Himp, list_to_set_app_L. set_solver.
Qed.

Lemma archiveOrphanImportsForSlot_spec slot lo s :
  plan_ok s ->
  call (archiveOrphanImportsForSlot cfg slot lo s) (imports_post s lo slot) (fun _ => True).
Proof.
  intros Hs. unfold archiveOrphanImportsForSlot.
  eapply call_bind; [by apply archiveOrphanInfosBySlot_spec| |done].
  intros infos s1 Hs1 (Hm & Hnd & Hall & _). rewrite Forall_forall in Hall.
  eapply (call_fold _ _ _ (fun _ imports s' => imports_post s lo slot imports s')); [done| |].
  - destruct Hm as (Hi & ? & ? & ? & ? & ?). exists []. rewrite Hi. cbn.
    split_and!; try done; try constructor. set_solver.
  - intros done info left imports s2 Hl Hs2 Hpost. apply orphan_import_spec; [done|done|].
    apply Hall. rewrite Hl. set_solver.
Qed.

(** Importing the orphans of a slot loses none of the others. *)
Lemma archiveOrphanImportsForSlot_ready info slot lo s :
  plan_ok s -> ready s info -> lo <= slot ->
  call (archiveOrphanImportsForSlot cfg slot lo s) (fun _ s' => ready s' info) (fun _ => True).
Proof.
  intros Hs Hr Hlo. unfold archiveOrphanImportsForSlot.
  eapply call_bind; [apply (call_all _ _ _ (ready s));
    [by apply archiveOrphanInfosBySlot_spec|intros i Hi; by apply (archiveOrphanInfosBySlot_ready _ _ i)]| |done].
  intros infos s1 Hs1 ((_ & _ & Hall & _) & Hri). destruct (Hri info Hr) as [Hr1 _].
  rewrite Forall_forall in Hall.
  eapply (call_fold _ _ _ (fun _ _ s' => ready s' info)); [done|done|].
  intros before i left imports s2 Hl Hs2 Hr2. destruct (Hall i) as (_ & Hslot & _); [rewrite Hl; set_solver|].
  unfold orphan_import. st_step. destruct (N.ltb_spec (Slot i) lo); [lia|].
  destruct (_ || _); [by apply call_ret|]. st_step. by apply call_ret.
Qed.

(** The orphans scheduled so far for the attestations of a slot. *)
Definition sched_post (s : state) (lo hi : N) (infos : list blockInfo) (s' : state) : Prop :=
  importedRoots s' = importedRoots s /\ missingRoots s ⊆ missingRoots s'
  /\ NoDup (Root <$> infos) /\ Forall (importable s lo hi) infos
  /\ Forall (fun info => Root info ∈ scheduledRoots s') infos.

Lemma schedule_info_spec s lo hi infos info s1 :
  plan_ok s1 -> sched_post s lo hi infos s1 -> orphan_of cfg content s hi info ->
  call (schedule_info hi lo infos info s1) (sched_post s lo hi) (fun _ => True).
Proof.
  intros Hs1 Hpost (Hp & Hle & Hnc & Hz & Hni & _). unfold schedule_info. st_step.
  destruct (N.ltb_spec (Slot info) lo); [by st_step; apply call_ret|].
  destruct ((hi <? Slot info) || _ || _) eqn:Hg; [by apply call_ret|].
  rewrite !orb_false_iff, bool_decide_eq_false in Hg. destruct Hg as [_ Hns].
  st_step. apply call_ret; [done|]. destruct Hpost as (Hi & Hsub & Hnd & Hall & Hsch).
  split_and!; cbn; [done|done|..].
  - rewrite fmap_app. apply NoDup_app. split_and!; [done| |apply NoDup_singleton].
    intros r (i & -> & Hin)%list_elem_of_fmap Heq%list_elem_of_singleton.
    rewrite Forall_forall in Hsch. specialize (Hsch _ Hin). cbn in Hsch. congruence.
  - apply Forall_app. split; [done|]. constructor; [|done]. by split_and!.
  - apply Forall_app. split; [eapply Forall_impl; [exact Hsch|]; set_solver|].
    constructor; [set_solver|done].
Qed.

Lemma orphan_of_imported s s' hi info :
  importedRoots s' = importedRoots s -> missingRoots s ⊆ missingRoots s' ->
  orphan_of cfg content s' hi info -> orphan_of cfg content s hi info.
Proof.
  intros Hi Hm (?&?&?&?&?&?). unfold orphan_of. rewrite <- Hi. split_and!; auto.
Qed.

Lemma schedule_root_spec s lo hi infos root s1 :
  plan_ok s1 -> sched_post s lo hi infos s1 ->
  call (schedule_root cfg hi lo infos root s1) (sched_post s lo hi) (fun _ => True).
Proof.
  intros Hs1 Hpost. unfold schedule_root. st_step.
  destruct (rootKnown_in s1 root || _ || _ || _); [by apply call_ret|].
  eapply call_bind; [by apply resolveOrphanChain_call| |done].
  intros chain s2 Hs2 (Hm & _ & _ & _ & Hall & _).
  assert (Hpost2 : sched_post s lo hi infos s2).
  { destruct Hm as (Hi & Hsc & _ & Hms & _), Hpost as (Hi' & Hsub & ? & ? & Hsch).
    split_and!; [congruence|set_solver|done|done|by rewrite Hsc]. }
  destruct (last chain) as [tip|]; [|by apply call_ret].
  destruct (negb _ || negb _); [by st_step; apply call_ret|].
  eapply (call_fold _ _ _ (fun _ acc s' => sched_post s lo hi acc s')); [done|done|].
  intros done info left acc s3 Hl Hs3 Hp3. apply schedule_info_spec; [done|done|].
  rewrite Forall_forall in Hall. specialize (Hall info ltac:(rewrite Hl; set_solver)).
  destruct Hpost as (Hi & Hsub & _). by eapply orphan_of_imported.
Qed.

Lemma orphanImportsForSlotAttestations_spec atts lo hi s :
  plan_ok s ->
  call (orphanImportsForSlotAttestations cfg atts hi lo s)
    (fun imports s' => exists infos, imports = orphan_imports infos /\ NoDup (Root <$> infos)
       /\ Forall (importable s lo hi) infos /\ StronglySorted (not_less blockInfo_less) infos)
    (fun _ => True).
Proof.
  intros Hs. unfold orphanImportsForSlotAttestations. st_step.
  eapply call_bind; [eapply (call_fold _ _ _ (fun _ acc s' => sched_post s lo hi acc s'))| |done].
  - done.
  - split_and!; try done; constructor.
  - intros done root left acc s1 _ Hs1 Hp. by apply schedule_root_spec.
  - intros infos s' Hs' (_ & _ & Hnd & Hall & _). apply call_ret; [done|].
    pose proof (sort_by_perm blockInfo_less infos) as Hperm.
    exists (sortBlockInfos infos). unfold sortBlockInfos.
    split_and!; [done|by rewrite Hperm|by rewrite Hperm|apply sortBlockInfos_sorted].
Qed.

(** *** The plan of a slot *)

Definition source_rule (s : state) (simSlot cap : N) (atts : list attestationInfo) : Prop :=
  exists blockExists sources,
    (forall t, simSlot < t <= simSlot + cap -> u64 t ->
       exists_at blockExists t = true <-> is_Some (sees s t))
    /\ planSourcesForSlot blockExists simSlot (Mode cfg) cap (saturatingAdd simSlot 1) = Ok sources
    /\ (forall a, a ∈ atts -> exists source info, source ∈ sources
          /\ source_block s (s_Slot source) info /\ a ∈ Attestations info /\ too_late source a = false)
    /\ (forall source info a, source ∈ sources -> sees s (s_Slot source) = Some info ->
          a ∈ Attestations info -> too_late source a = false -> a_Root a ∈ a_Root <$> atts)
    /\ (forall source info a, source ∈ sources -> ready s info -> Root info ∈ noted s (s_Slot source) ->
          a ∈ Attestations info -> too_late source a = false -> a_Root a ∈ a_Root <$> atts).

Lemma canonical_import_spec simSlot s :
  plan_ok s ->
  let '(o, s') := canonical_import (Can := Can) simSlot s in
  o = Ok ((fun info => blockImport info true) <$> option_list (sees s simSlot))
  /\ plan_ok s' /\ sees_more s s'
  /\ importedRoots s' = list_to_set (Root <$> option_list (sees s simSlot)) ∪ importedRoots s
  /\ missingRoots s' = missingRoots s /\ ignoredRoots s' = ignoredRoots s
  /\ orphanRootsBySlot s' = orphanRootsBySlot s /\ (forall info, ready s info -> ready s' info).
Proof.
  intros Hs. unfold canonical_import, canonical_infoBySlot. st_step. fold (sees s simSlot).
  destruct (sees s simSlot) as [info|]; cbn [mret stateM_ret option_list fmap list_fmap list_to_set].
  - st_step. cbn. split_and!; try done. by rewrite union_empty_r_L.
  - cbn. split_and!; try done. by rewrite union_empty_l_L.
Qed.

Lemma first_seen_spec simSlot s :
  plan_ok s -> is_Some (FirstSeenSource (backend s)) ->
  call (first_seen cfg simSlot s) (fun _ s' => same_marks s s') (fun _ => True).
Proof.
  intros Hs [f Hf]. unfold first_seen. rewrite Hf.
  destruct (AttestationsForSlot _ _ _) as [[l|] f']; (split; [by eapply (plan_ok_frame _ _ s)|done || by split_and!]).
Qed.

(** The rule, from a later state that has only settled roots and seen more. *)
Lemma source_rule_intro s s1 simSlot cap atts blockExists sources :
  plan_ok s -> plan_ok s1 -> sees_more s s1 -> missingRoots s ⊆ missingRoots s1 ->
  ignoredRoots s ⊆ ignoredRoots s1 -> orphanRootsBySlot s1 = orphanRootsBySlot s ->
  (forall info, ready s info -> ready s1 info) ->
  (forall t, simSlot < t <= simSlot + cap -> u64 t ->
     exists_at blockExists t = true <-> is_Some (sees s t)) ->
  planSourcesForSlot blockExists simSlot (Mode cfg) cap (saturatingAdd simSlot 1) = Ok sources ->
  (forall a, a ∈ atts -> exists source info, source ∈ sources
     /\ source_block s1 (s_Slot source) info /\ a ∈ Attestations info /\ too_late source a = false) ->
  (forall source info a, source ∈ sources -> sees s1 (s_Slot source) = Some info ->
     a ∈ Attestations info -> too_late source a = false -> a_Root a ∈ a_Root <$> atts) ->
  (forall source info a, source ∈ sources -> ready s1 info -> Root info ∈ noted s1 (s_Slot source) ->
     a ∈ Attestations info -> too_late source a = false -> a_Root a ∈ a_Root <$> atts) ->
  source_rule s simSlot cap atts.
Proof.
  intros Hs Hs1 Hm Hmiss Hign Hor Hready Hex Hsrc Hsound Hcompl Horph. exists blockExists, sources.
  split_and!; [done|done| | |].
  - intros a Ha. destruct (Hsound a Ha) as (source & info & ? & Hb & ? & ?).
    exists source, info. split_and!; try done.
    destruct Hb as [Hb|(?&?&?&?&?&?&Hin)]; [by left|right]. rewrite Hor in Hin.
    split_and!; auto.
  - intros source info a Hin Hsees. eapply Hcompl; [done|]. by eapply (sees_stable s).
  - intros source info a Hin Hi Hno. eapply Horph; [done|by apply Hready|]. unfold noted. by rewrite Hor.
Qed.

Lemma slot_attestations_spec blockExists simSlot cap s s1 :
  plan_ok s -> plan_ok s1 -> sees_more s s1 -> missingRoots s ⊆ missingRoots s1 ->
  ignoredRoots s ⊆ ignoredRoots s1 -> orphanRootsBySlot s1 = orphanRootsBySlot s ->
  (forall info, ready s info -> ready s1 info) ->
  16 * cap <= maxAlloc ->
  (forall t, simSlot < t <= simSlot + cap -> u64 t ->
     exists_at blockExists t = true <-> is_Some (sees s t)) ->
  call (slot_attestations cfg blockExists simSlot cap (saturatingAdd simSlot 1) s1)
    (fun atts s' => importedRoots s' = importedRoots s1
       /\ (Mode cfg ≠ ModeFirstSeenGossip -> NoDup (a_Root <$> atts) /\ source_rule s simSlot cap atts))
    (fun _ => True).
Proof.
  intros Hs Hs1 Hm Hmiss Hign Hor Hready Ha Hex. unfold slot_attestations.
  destruct (Z.eqb_spec (Mode cfg) ModeFirstSeenGossip) as [Hmode|Hmode].
  { eapply call_impl; [apply first_seen_spec; [done|by apply Hs1]| |done]. intros atts s' (Hi & _). done. }
  destruct (planSourcesForSlot_Ok blockExists simSlot (Mode cfg) cap (saturatingAdd simSlot 1) Ha)
    as [sources Hsrc]. rewrite Hsrc.
  change (call (attestationsFromSources cfg sources s1)
    (fun atts s' => importedRoots s' = importedRoots s1
       /\ (Mode cfg ≠ ModeFirstSeenGossip -> NoDup (a_Root <$> atts) /\ source_rule s simSlot cap atts))
    (fun _ => True)).
  eapply call_impl; [by apply attestationsFromSources_spec| |done].
  intros atts s' ((Hi & _) & Hnd & Hsound & Hcompl & Horph). split; [done|]. intros _. split; [done|].
  by apply (source_rule_intro s s1 simSlot cap atts blockExists sources).
Qed.

(** What one instruction promises, relative to the state it starts from. *)
Definition instruction_ok (s : state) (simSlot minImportSlot cap : N) (ins : SlotInstruction) : Prop :=
  si_SimSlot ins = simSlot /\ si_EvalSlot ins = saturatingAdd simSlot 1
  /\ exists orphans atts,
    si_ImportBlocks ins = ((fun info => blockImport info true) <$> option_list (sees s simSlot))
                          ++ orphan_imports orphans
    /\ NoDup (Root <$> (option_list (sees s simSlot) ++ orphans))
    /\ Forall (importable s minImportSlot simSlot) orphans
    /\ si_Attestations ins = planAttestation <$> atts
    /\ (Mode cfg ≠ ModeFirstSeenGossip -> NoDup (a_Root <$> atts) /\ source_rule s simSlot cap atts).

Lemma importable_weaken s s' lo hi info :
  importedRoots s ⊆ importedRoots s' -> importable s' lo hi info -> importable s lo hi info.
Proof. intros Hsub (?&?&?&?&?). split_and!; auto; tauto. Qed.

Lemma slot_plan_spec blockExists simSlot cap minImportSlot s :
  plan_ok s -> 16 * cap <= maxAlloc -> minImportSlot <= simSlot ->
  (forall t, simSlot < t <= simSlot + cap -> u64 t ->
     exists_at blockExists t = true <-> is_Some (sees s t)) ->
  call (slot_plan cfg blockExists simSlot cap minImportSlot s)
    (fun ins _ => instruction_ok s simSlot minImportSlot cap ins) (fun _ => True).
Proof.
  intros Hs Ha Hlo Hex. unfold slot_plan.
  pose proof (canonical_import_spec simSlot s Hs) as Hcan.
  unfold mbind at 1, stateM_bind at 1, st_bind at 1.
  destruct (canonical_import simSlot s) as [o s1].
  destruct Hcan as (-> & Hs1 & Hm1 & Hi1 & Hms1 & Hig1 & Hor1 & Hrd1).
  eapply call_bind; [apply (call_all _ _ _ (ready s1)); [by apply archiveOrphanImportsForSlot_spec|
    intros info Hi; by apply (archiveOrphanImportsForSlot_ready info)]| |done].
  intros imports s2 Hs2 ((infos & -> & Hnd & Hall & Hi2 & _ & Hm2 & Hor2 & Hms2 & Hig2) & Hrd2).
  eapply call_bind; [apply (slot_attestations_spec blockExists simSlot cap s s2)| |done]; try done.
  { by eapply sees_more_trans. } { set_solver. } { set_solver. } { congruence. } { auto. }
  intros atts s3 Hs3 [Hi3 Hatts].
  eapply call_bind; [by apply orphanImportsForSlotAttestations_spec| |done].
  intros imports s4 Hs4 (infos2 & -> & Hnd2 & Hall2 & _). apply call_ret; [done|].
  assert (Hd : forall info, info ∈ infos2 -> Root info ∉ importedRoots s1 /\ Root info ∉ Root <$> infos).
  { intros info Hin. rewrite Forall_forall in Hall2. destruct (Hall2 info Hin) as (_&_&_&_&Hni).
    rewrite Hi3, Hi2 in Hni. set_solver. }
  split; [done|]. split; [done|]. exists (infos ++ infos2), atts.
  split_and!; [|rewrite !fmap_app, !NoDup_app; split_and!| |done|done].
  - unfold orphan_imports. by rewrite fmap_app.
  - destruct (sees s simSlot); cbn; repeat constructor. set_solver.
  - intros r Hr1 [Hr2|Hr2]%elem_of_app; apply list_elem_of_fmap in Hr2 as (info & -> & Hin).
    + rewrite Forall_forall in Hall. destruct (Hall info Hin) as (_&_&_&_&Hni).
      rewrite Hi1 in Hni. set_solver.
    + destruct (Hd info Hin) as [Hni _]. rewrite Hi1 in Hni. set_solver.
  - done.
  - intros r Hr1 (info & -> & Hin)%list_elem_of_fmap. by destruct (Hd info Hin).
  - done.
  - apply Forall_app. split.
    + eapply Forall_impl; [exact Hall|]. intros info. apply importable_weaken. set_solver.
    + eapply Forall_impl; [exact Hall2|]. intros info. apply importable_weaken. set_solver.
Qed.
End plan.

(** *** From the backend to the plan *)

Section backend.
Context {E2 : Eth2} {R : Type} {BS : BlockSource R}.
Context {CS : Type} {LS : Lru N blockInfo CS} {CR : Type} {LR : Lru bytes blockInfo CR}.
Context {A : Type} {AR : Archive A} {F : Type} {FS : FirstSeen F}.
Context (cfg : RealBackendConfig) (content : N -> outcome era_error (option bytes)).

Abbreviation backend_state := (realBackend R CS CR A F).
Abbreviation at_slot := (at_slot (SlotFork cfg) content).

Lemma canonical_at_parsed slot info :
  canonical_at (SlotFork cfg) content slot = Ok (Some info) -> parsed cfg info.
Proof.
  unfold canonical_at. destruct (content slot) as [[data|]| |]; try done.
  destruct (parseBlockInfo data (SlotFork cfg)) eqn:Hp; try done. intros [= <-]. by exists data.
Qed.

Lemma view_sees (i : istate R CS CR) from to :
  quiet (SlotFork cfg) content i ->
  (forall x, from <= x <= to -> covers (loaded (canonicalIndex i)) x) ->
  sound_blocks (SlotFork cfg) content (view_infoBySlot (canonicalIndex i) (view from to))
    (view_rootKnown (canonicalIndex i) (view from to))
  /\ forall x, from <= x <= to -> view_infoBySlot (canonicalIndex i) (view from to) x = at_slot x.
Proof.
  intros (_ & Hi & _) Hcov.
  assert (Hsound : forall x info, bySlot (canonicalIndex i) !! x = Some info ->
    canonical_at (SlotFork cfg) content x = Ok (Some info)).
  { intros x info Hx. rewrite <- Hx. apply (io_complete _ _ _ Hi). by apply (io_bySlot _ _ _ Hi x info). }
  split; [split|].
  - intros x info. unfold view_infoBySlot. cbn. rewrite lookup_empty.
    destruct (in_window _ _); [|done]. unfold infoBySlot.
    destruct (bySlot _ !! x) eqn:Hx; [|done]. intros [= <-]. by apply Hsound.
  - intros root. unfold view_rootKnown. cbn. rewrite lookup_empty.
    rewrite bool_decide_eq_false_2 by (by intros [? ?]). unfold infoByRoot.
    destruct (byRoot _ !! root) as [info|] eqn:Hr; [|done]. intros _. exists info.
    destruct (io_byRoot _ _ _ Hi _ _ Hr) as [? Hx]. split; [done|]. by apply Hsound.
  - intros x Hx. unfold view_infoBySlot, in_window. cbn. rewrite lookup_empty.
    replace ((from <=? x) && (x <=? to)) with true by lia. unfold infoBySlot.
    pose proof (io_complete _ _ _ Hi x (Hcov x Hx)) as Hc.
    unfold CanonicalIndex.at_slot. rewrite Hc. by destruct (bySlot _ !! x).
Qed.

Lemma slot_guard_Ok simSlot warmup (b : backend_state) m :
  u64 warmup -> slot_guard cfg simSlot warmup b = Ok m ->
  m = warmup + 1 /\ warmup < simSlot
  /\ (Mode cfg = ModeFirstSeenGossip -> is_Some (FirstSeenSource b)).
Proof.
  intros Hu. unfold slot_guard. destruct (era (ix b)); [|done].
  destruct (N.leb_spec simSlot warmup); [done|]. destruct (_ && _); [done|].
  destruct (_ && _) eqn:Hfs; [done|].
  destruct (checkedAdd warmup 1) as [m'|] eqn:Hc; [|done]. intros [= <-].
  apply checkedAdd_Some in Hc as [-> _]; [|done]. split_and!; [done|done|]. intros Hm.
  rewrite Hm, Z.eqb_refl in Hfs.
  cbn [andb] in Hfs. apply bool_decide_eq_false in Hfs. destruct (FirstSeenSource b); [eauto|by destruct Hfs].
Qed.

(** The orphan roots [WarmBlockArchiveCache] recorded for a slot. *)
Definition recorded (slot : N) : list bytes := default [] (ArchiveOrphanRootsBySlot cfg !! slot).

Lemma newPlanState_noted {Can} (b : backend_state) (c : Can) slot root :
  root ∈ noted (newPlanState cfg b c) slot <-> root ∈ recorded slot.
Proof.
  unfold noted, recorded. cbn. unfold cloneOrphanRootsBySlot. rewrite lookup_fmap, map_lookup_filter.
  destruct (ArchiveOrphanRootsBySlot cfg !! slot) as [roots|]; cbn; [|done].
  destruct (decide (roots = [])) as [->|Hne]; [by rewrite option_guard_False by naive_solver|].
  rewrite option_guard_True by done. cbn. by rewrite (sort_by_perm bytes_less roots).
Qed.

(** A recorded orphan the backend can serve. *)
Definition recoverable (b : backend_state) (info : blockInfo) : Prop :=
  proper_orphan cfg content info /\ served_as cfg info b
  /\ forall slot, Root info ∈ recorded slot -> slot = Slot info.

(** The roots [WarmBlockArchiveCache] records (C25) are each recorded for the slot of
    their block only. *)
Lemma noted_own_slot info slot :
  noted_ok cfg content (ArchiveOrphanRootsBySlot cfg) -> proper_orphan cfg content info ->
  Root info ∈ recorded slot -> slot = Slot info.
Proof.
  intros Hn (_ & _ & Huniq). unfold recorded.
  destruct (ArchiveOrphanRootsBySlot cfg !! slot) as [roots|] eqn:Hs; cbn; [|by intros ?%not_elem_of_nil].
  intros Hin. destruct (Hn slot roots Hs) as (_ & _ & Hall). rewrite Forall_forall in Hall.
  destruct (Hall _ Hin) as (_ & other & Hp & <- & Hr & _). by rewrite (Huniq other).
Qed.

Lemma newPlanState_ready {Can} (b : backend_state) (i : istate R CS CR) (c : Can) info :
  recoverable b info ->
  ready cfg content (newPlanState cfg (mkBackend i (BlockArchive b) (FirstSeenSource b)) c) info.
Proof.
  intros (Hp & Hs & Hr). unfold ready. split_and!; [apply Hp..| | | |].
  - by apply served_as_frame.
  - cbn. set_solver.
  - cbn. set_solver.
  - intros slot Hin. apply Hr. by apply (newPlanState_noted _ c) in Hin.
Qed.

(** A block whose attestations a source at [slot] stands for: the canonical block, or an
    orphan recorded for the slot. *)
Definition block_of_source (slot : N) (info : blockInfo) : Prop :=
  at_slot slot = Some info
  \/ (parsed cfg info /\ Slot info = slot /\ ~ is_canonical cfg content info
      /\ Root info ≠ zero_root /\ Root info ∈ recorded slot).

(** A successful call, in terms of the plan's first state. *)
Lemma BuildSlot_call simSlot warmup (b : backend_state) :
  quiet (SlotFork cfg) content (ix b) -> u64 simSlot -> u64 warmup -> u64 (slot_cap cfg) ->
  16 * slot_cap cfg <= maxAlloc ->
  let '(o, b') := BuildSlot cfg simSlot warmup b in
  quiet (SlotFork cfg) content (ix b')
  /\ match o with
     | Ok ins => warmup < simSlot /\ exists s : planBuildState backend_state canonicalBlockView,
         plan_ok cfg content s
         /\ (exists i v, s = newPlanState cfg (mkBackend i (BlockArchive b) (FirstSeenSource b)) v)
         /\ (forall x, warmup < x <= slot_loadEnd cfg simSlot -> sees s x = at_slot x)
         /\ instruction_ok cfg content s simSlot (warmup + 1) (slot_cap cfg) ins
     | Err _ => True
     | Panic => False
     end.
Proof.
  intros Hq Hus Huw Huc Ha. unfold BuildSlot.
  destruct (slot_guard cfg simSlot warmup b) as [m|e|] eqn:Hg; [|done|].
  2:{ unfold slot_guard in Hg. repeat case_match; discriminate. }
  apply slot_guard_Ok in Hg as (-> & Hlt & Hfs); [|done].
  assert (Hle : u64 (slot_loadEnd cfg simSlot) /\ simSlot <= slot_loadEnd cfg simSlot).
  { unfold slot_loadEnd. rewrite saturatingAdd_spec by done. case_ifs; u64_lia. }
  pose proof (ensureRange_ensured (SlotFork cfg) content (warmup + 1) (slot_loadEnd cfg simSlot)
    (ix b) Hq (proj1 Hle)) as He.
  destruct (ensureRange _ _ _ _) as [[[]|e|] i]; [|by split; [apply He|]|by destruct He as (_ & _ & [])].
  destruct He as (Hq' & _ & Hcov).
  destruct (view_sees i (warmup + 1) (slot_loadEnd cfg simSlot) Hq' Hcov) as [Hsound Hsees].
  set (b' := mkBackend i _ _). set (v := view _ _) in *. set (m := exists_loop _ _ _ _ _).
  assert (Hs : plan_ok cfg content (newPlanState cfg b' v)).
  { split_and!; [done|exact Hsound| |done|done].
    intros r info. cbn. by rewrite lookup_empty. }
  pose proof (slot_plan_spec cfg content m simSlot (slot_cap cfg) (warmup + 1)
    (newPlanState cfg b' v) Hs Ha ltac:(lia)) as Hcall.
  destruct (slot_plan cfg m simSlot (slot_cap cfg) (warmup + 1) (newPlanState cfg b' v)) as [o s'].
  assert (Hpre : forall t, simSlot < t <= simSlot + slot_cap cfg -> u64 t ->
    exists_at m t = true <-> is_Some (sees (newPlanState cfg b' v) t)).
  { intros t Ht Hut. unfold m.
    rewrite exists_loop_spec by (apply Hle || lia).
    rewrite saturatingAdd_spec by done. unfold exists_at. rewrite lookup_empty. cbn [default].
    change (sees (newPlanState cfg b' v) t) with (view_infoBySlot (canonicalIndex i) v t).
    destruct (decide (t <= slot_loadEnd cfg simSlot)) as [Hin|Hout].
    - split; [intros [?|[_ ?]]; done|]. intros ?. right. split; [lia|done].
    - split; [intros [?|[? _]]; [done|lia]|]. unfold view_infoBySlot, in_window, v. cbn.
      rewrite lookup_empty. replace (t <=? slot_loadEnd cfg simSlot) with false by lia.
      rewrite andb_false_r. by intros [? ?]. }
  specialize (Hcall Hpre). destruct o as [ins|e|]; [| |done]; destruct Hcall as [Hs' Hins].
  - split; [apply Hs'|]. split; [done|]. exists (newPlanState cfg b' v). split_and!; [done| | |].
    + by eexists _, _.
    + intros x Hx. apply Hsees. lia.
    + done.
  - split; [apply Hs'|done].
Qed.
End backend.

(** ** A sample with an orphan source

    The blocks of [toy_dir], named by all of their bytes, so that no two blocks share a
    root; and an orphan at slot 103 with one attestation. *)

Definition named_eth2 : Eth2 := {|
  eth2_block := bytes;
  eth2_attestation := byte * byte * byte * byte;
  DataVersionFromString := toy_version;
  UnmarshalSSZ := fun _ s => Some s;
  block_Root := fun v => Some (field_block _ v);
  block_ParentRoot := fun v => toy_root <$> field_block _ v !! 109%nat;
  block_Attestations := fun v => Some (toy_attestations (drop 110 (field_block _ v)));
  att_HashTreeRoot := @att_HashTreeRoot toy_eth2;
  att_AggregationBits := @att_AggregationBits toy_eth2;
  att_CommitteeBits := @att_CommitteeBits toy_eth2;
  att_Data := @att_Data toy_eth2
|}.

Definition orphan_source : bytes :=
  toy_block 103 [Byte.x97; Byte.x11; Byte.x53; Byte.x66; Byte.x11; Byte.x11].
Definition orphan_config : RealBackendConfig :=
  mkConfig 2%Z 2 ∅ true {[103 := [orphan_source]]} MainnetForkAtSlot.
Definition orphan_archive : gmap bytes bytes := {[orphan_source := orphan_source]}.
Definition orphan_backend := mkBackend toy_istate (Some orphan_archive) (Some tt).
Definition orphan_info : blockInfo :=
  mkBlockInfo 103 orphan_source (toy_root Byte.x11)
    [mkAttestation (toy_root Byte.x53) (str "0x") None 102 0 (toy_root Byte.x11) 0 zero_root 1
       (toy_root Byte.x11) []].

Lemma orphan_parsed : parseBlockInfo (E2 := named_eth2) orphan_source MainnetForkAtSlot = Ok orphan_info.
Proof. vm_compute. reflexivity. Qed.

(** A block's root is its bytes. *)
Lemma named_root ssz fork info :
  parseBlockInfo (E2 := named_eth2) ssz fork = Ok info -> Root info = ssz.
Proof.
  unfold parseBlockInfo. destruct (extractSlotFromSignedBeaconBlockSSZ ssz) as [slot| |]; try done.
  intros H. outcome_inv.
  match goal with H : decodeSignedBeaconBlockSSZ ssz ?version = Ok ?b |- _ =>
    assert (field_block _ b = ssz) as Hb end.
  { match goal with H : decodeSignedBeaconBlockSSZ ssz ?version = _ |- _ =>
      destruct version; cbn in H; try discriminate H; by injection H as <- end. }
  match goal with H : or_err (EBlockRoot _) _ = Ok _ |- _ => apply or_err_Ok in H; cbn in H; injection H as <- end.
  match goal with H : Ok _ = Ok info |- _ => by injection H as <- end.
Qed.

Lemma orphan_recoverable :
  recoverable (E2 := named_eth2) orphan_config (era_block plain toy_dir) orphan_backend orphan_info.
Proof.
  split; [split|split].
  - intros (c & Hc & Hr). assert (match canonical_at (E2 := named_eth2) MainnetForkAtSlot (era_block plain toy_dir) 103 with
      | Ok (Some c) => bool_decide (Root c = orphan_source) | _ => false end = false) as Hv by (vm_compute; reflexivity).
    change (Slot orphan_info) with 103 in Hc. change (SlotFork orphan_config) with MainnetForkAtSlot in Hc.
    rewrite Hc in Hv. apply bool_decide_eq_false in Hv. by apply Hv.
  - split; [by apply (bool_decide_eq_false_1 (orphan_source = zero_root))|].
    intros other [ssz Hp] Hr. pose proof (named_root _ _ _ Hp) as Hs.
    assert (ssz = orphan_source) as -> by (by rewrite <- Hs, Hr).
    change (SlotFork orphan_config) with MainnetForkAtSlot in Hp. rewrite orphan_parsed in Hp. by injection Hp as <-.
  - exists orphan_source. split; [exact orphan_parsed|].
    exists (fun b => BlockArchive b = Some orphan_archive). split_and!; [done| | |done].
    + intros b Hb. unfold fetchBlockSSZByRootForPlanWithStats. rewrite Hb. vm_compute. reflexivity.
    + intros r b Hb. unfold fetchBlockSSZByRootForPlanWithStats. by rewrite Hb.
  - intros slot. unfold recorded. cbn [ArchiveOrphanRootsBySlot orphan_config].
    destruct (decide (slot = 103)) as [->|Hne]; [done|]. rewrite lookup_singleton_ne by done. by intros ?%not_elem_of_nil.
Qed.

(** ** Theorems *)

(** C22: the import list of a slot.  When [BuildSlot] succeeds, the list is the
    canonical block of the slot, if there is one and flagged as canonical, followed
    by orphans only: every one decodes from fetched bytes, is not the canonical
    block of its slot, lies after the warm-up start and not after the simulated
    slot, and is neither the zero root nor a checkpoint; and no block is listed
    twice.  The call never panics, and whatever its outcome it leaves the shared
    index sound. *)
Theorem BuildSlot_imports {E2 : Eth2} {R} {BS : BlockSource R} {CS} {LS : Lru N blockInfo CS}
    {CR} {LR : Lru bytes blockInfo CR} {A} {AR : Archive A} {F} {FS : FirstSeen F}
    (cfg : RealBackendConfig) (content : N -> outcome era_error (option bytes))
    (simSlot warmup : N) (b : realBackend R CS CR A F) :
  quiet (SlotFork cfg) content (ix b) -> u64 simSlot -> u64 warmup -> u64 (slot_cap cfg) ->
  16 * slot_cap cfg <= maxAlloc ->
  let '(o, b') := BuildSlot cfg simSlot warmup b in
  quiet (SlotFork cfg) content (ix b')
  /\ match o with
     | Ok ins =>
         si_SimSlot ins = simSlot /\ si_EvalSlot ins = N.min (simSlot + 1) MaxUint64
         /\ exists orphans,
           si_ImportBlocks ins
             = ((fun info => blockImport info true)
                  <$> option_list (at_slot (SlotFork cfg) content simSlot)) ++ orphan_imports orphans
           /\ NoDup (i_Root <$> si_ImportBlocks ins)
           /\ Forall (fun info => parsed cfg info /\ ~ is_canonical cfg content info
                 /\ warmup < Slot info <= simSlot /\ Root info ≠ zero_root
                 /\ CheckpointBlocksByRoot cfg !! Root info = None) orphans
     | Err _ => True
     | Panic => False
     end.
Proof.
  intros Hq Hus Huw Huc Ha.
  pose proof (BuildSlot_call cfg content simSlot warmup b Hq Hus Huw Huc Ha) as H.
  destruct (BuildSlot cfg simSlot warmup b) as [o b']. destruct H as [Hq' H]. split; [done|].
  destruct o as [ins|e|]; [|done|done].
  destruct H as (Hlt & s & Hs & (i & v & Hnew) & Hsees & Hsim & Heval & orphans & atts & Himports & Hnd & Hall & _).
  rewrite Hsees in Himports, Hnd by (unfold slot_loadEnd; rewrite saturatingAdd_spec by done;
    case_ifs; u64_lia).
  assert (Himp : importedRoots s = dom (CheckpointBlocksByRoot cfg)) by (by rewrite Hnew).
  split; [done|]. split; [by rewrite Heval, saturatingAdd_spec|]. exists orphans. split; [done|].
  split.
  - rewrite Himports. unfold orphan_imports. rewrite fmap_app, <- !list_fmap_compose.
    change (i_Root ∘ (fun info => blockImport info true)) with (formatRoot ∘ Root).
    change (i_Root ∘ (fun info => blockImport info false)) with (formatRoot ∘ Root).
    rewrite <- fmap_app, list_fmap_compose. apply (NoDup_fmap_2_strong _ _); [|done].
    intros r1 r2 _ _. apply formatRoot_inj.
  - eapply Forall_impl; [exact Hall|]. intros info (?&?&?&?&Hni). rewrite Himp in Hni.
    split_and!; try done; [lia|lia|]. by apply not_elem_of_dom.
Qed.

Lemma BuildSlot_imports_witness :
  match fst (BuildSlot (toy_config 2%Z 2) 102 100 toy_backend) with
  | Ok ins => si_ImportBlocks ins = [mkImport 102 (formatRoot (toy_root Byte.x99)) false]
              /\ NoDup (i_Root <$> si_ImportBlocks ins)
  | _ => False
  end.
Proof.
  pose proof (BuildSlot_imports (toy_config 2%Z 2) (era_block plain toy_dir) 102 100 toy_backend
    toy_quiet ltac:(u64_lia) ltac:(u64_lia) ltac:(cbn; u64_lia) ltac:(cbn; lia)) as H.
  assert (match fst (BuildSlot (toy_config 2%Z 2) 102 100 toy_backend) with
          | Ok ins => si_ImportBlocks ins = [mkImport 102 (formatRoot (toy_root Byte.x99)) false]
          | _ => False end) as Hv by (vm_compute; reflexivity).
  destruct (BuildSlot (toy_config 2%Z 2) 102 100 toy_backend) as [[ins| |] b']; [|destruct Hv..].
  destruct H as (_ & _ & _ & orphans & _ & H & _). split; [exact Hv|exact H].
Defined.

(** C23: the attestations of a slot (every mode but first-seen gossip).  The sources
    are those the planner's rule selects among the canonical blocks ahead; a source
    stands for the canonical block of its slot and for the orphans recorded for that
    slot.  The injected attestations are exactly theirs: each one is contained in such
    a block and respects the source's slot bound; conversely every attestation within
    the bound is injected, up to exact repeats, of the canonical block of each source
    and of each orphan recorded for its slot that the backend can serve (the archive
    client: [Archive.cached_block_served]); and no two injected ones are repeats of
    each other. *)
Theorem BuildSlot_attestations {E2 : Eth2} {R} {BS : BlockSource R} {CS} {LS : Lru N blockInfo CS}
    {CR} {LR : Lru bytes blockInfo CR} {A} {AR : Archive A} {F} {FS : FirstSeen F}
    (cfg : RealBackendConfig) (content : N -> outcome era_error (option bytes))
    (simSlot warmup : N) (b b' : realBackend R CS CR A F) (ins : SlotInstruction) :
  quiet (SlotFork cfg) content (ix b) -> u64 simSlot -> u64 warmup -> 1 <= slot_cap cfg ->
  u64 (simSlot + slot_cap cfg) -> 16 * slot_cap cfg <= maxAlloc -> Mode cfg ≠ ModeFirstSeenGossip ->
  BuildSlot cfg simSlot warmup b = (Ok ins, b') ->
  exists blockExists sources atts,
    si_Attestations ins = planAttestation <$> atts /\ NoDup (a_Root <$> atts)
    /\ (forall t, simSlot < t <= simSlot + slot_cap cfg ->
         exists_at blockExists t = true <-> is_Some (at_slot (SlotFork cfg) content t))
    /\ planSourcesForSlot blockExists simSlot (Mode cfg) (slot_cap cfg) (simSlot + 1) = Ok sources
    /\ (forall a, a ∈ atts -> exists source info, source ∈ sources
          /\ block_of_source cfg content (s_Slot source) info /\ parsed cfg info
          /\ Slot info = s_Slot source /\ a ∈ Attestations info /\ too_late source a = false)
    /\ (forall source info a, source ∈ sources ->
          at_slot (SlotFork cfg) content (s_Slot source) = Some info -> a ∈ Attestations info ->
          too_late source a = false -> a_Root a ∈ a_Root <$> atts)
    /\ (forall source info a, source ∈ sources ->
          Root info ∈ recorded cfg (s_Slot source) -> recoverable cfg content b info ->
          a ∈ Attestations info -> too_late source a = false -> a_Root a ∈ a_Root <$> atts).
Proof.
  intros Hq Hus Huw Hc Hucap Ha Hmode Hrun.
  pose proof (BuildSlot_call cfg content simSlot warmup b Hq Hus Huw ltac:(u64_lia) Ha) as H.
  rewrite Hrun in H.
  destruct H as (_ & Hlt & s & Hs & (i & v & Hnew) & Hsees & _ & _ & orphans & atts & _ & _ & _ & Hatts & Hrule).
  destruct (Hrule Hmode) as (Hnd & m & sources & Hex & Hsrc & Hsound & Hcompl & Horph).
  rewrite saturatingAdd_spec in Hsrc by done.
  replace (N.min (simSlot + 1) MaxUint64) with (simSlot + 1) in Hsrc by u64_lia.
  assert (Hend : slot_loadEnd cfg simSlot = simSlot + slot_cap cfg).
  { unfold slot_loadEnd. destruct (Z.eqb_spec (Mode cfg) ModeFirstSeenGossip); [done|].
    rewrite saturatingAdd_spec by done. u64_lia. }
  assert (Hwin : forall t, simSlot < t <= simSlot + slot_cap cfg -> sees s t = at_slot (SlotFork cfg) content t).
  { intros t Ht. apply Hsees. rewrite Hend. lia. }
  assert (Hin_win : forall source, source ∈ sources -> simSlot < s_Slot source <= simSlot + slot_cap cfg).
  { intros source Hin. destruct (planSourcesForSlot_in m simSlot (Mode cfg) (slot_cap cfg) (simSlot + 1) sources source)
      as (_ & ? & _); try done; auto. }
  exists m, sources, atts. split_and!; [done|done| |done| | |].
  - intros t Ht. rewrite <- Hwin by done. apply Hex; [done|u64_lia].
  - intros a Hin. destruct (Hsound a Hin) as (source & info & ? & Hb & ? & ?).
    exists source, info. destruct Hb as [Hb|(?&?&?&?&_&_&Hr)].
    + split_and!; try done; [left; by apply (fine_spec (SlotFork cfg) content)|by eapply canonical_at_parsed|].
      by eapply (canonical_at_Slot (SlotFork cfg) content (ix b)); [apply Hq|].
    + split_and!; try done. right. split_and!; try done. rewrite Hnew in Hr. by apply newPlanState_noted in Hr.
  - intros source info a Hin Hat Hia Hl. eapply Hcompl; try done. by rewrite Hwin by auto.
  - intros source info a Hin Hr Hrec Hia Hl. eapply Horph; try done.
    + rewrite Hnew. by apply newPlanState_ready.
    + rewrite Hnew. by apply newPlanState_noted.
Qed.

Lemma BuildSlot_attestations_witness :
  exists ins b' (sources : list PlanAttestationSource) atts,
    BuildSlot (E2 := named_eth2) orphan_config 102 100 orphan_backend = (Ok ins, b')
    /\ pa_AggregationBits <$> si_Attestations ins = [str "0x"; str "0x"; str "0x"]
    /\ si_Attestations ins = planAttestation <$> atts /\ NoDup (a_Root <$> atts)
    /\ (forall source a, source ∈ sources -> s_Slot source = 103 -> a ∈ Attestations orphan_info ->
          too_late source a = false -> a_Root a ∈ a_Root <$> atts).
Proof.
  assert (match fst (BuildSlot (E2 := named_eth2) orphan_config 102 100 orphan_backend) with
          | Ok ins => pa_AggregationBits <$> si_Attestations ins = [str "0x"; str "0x"; str "0x"]
          | _ => False end) as Hv by (vm_compute; reflexivity).
  destruct (BuildSlot (E2 := named_eth2) orphan_config 102 100 orphan_backend) as [[ins| |] b'] eqn:E;
    [|destruct Hv..].
  assert (quiet (E2 := named_eth2) (SlotFork orphan_config) (era_block plain toy_dir) (ix orphan_backend)) as Hq
    by (by apply newState_quiet; [apply toy_reader_ok|]).
  destruct (BuildSlot_attestations (E2 := named_eth2) orphan_config (era_block plain toy_dir) 102 100
    orphan_backend b' ins Hq ltac:(u64_lia) ltac:(u64_lia) ltac:(cbn; lia) ltac:(cbn; u64_lia)
    ltac:(cbn; lia) ltac:(cbn; discriminate) E)
    as (_ & sources & atts & H1 & H2 & _ & _ & _ & _ & H3).
  exists ins, b', sources, atts. split; [reflexivity|]. split; [exact Hv|]. split; [exact H1|].
  split; [exact H2|]. intros source a Hin Hslot. apply H3; [exact Hin| |exact orphan_recoverable].
  rewrite Hslot. by apply list_elem_of_singleton.
Defined.
