(* ===== verification/BuildPlan.v ===== *)
(** * The plan of a slot range ([pkg/beaconapi/realbackend.go], [BuildPlan])

    [BuildPlan] answers for all simulated slots of [[from, to)] at once and keeps
    its planning state from slot to slot: an orphan found early is scheduled for
    the slot at which it becomes importable ([pendingOrphanImports]). *)

From S2P Require Import Prelude Bytes Lru EraFormat EraReader Sources SlotRanges BlockInfo Samples.
From S2P Require Import AttPlan CanonicalIndex PlanSources PlanState PlanSamples Orphans BuildSlot.

Section build_plan.
Context {E2 : Eth2} {R : Type} {BS : BlockSource R}.
Context {CS : Type} {LS : Lru N blockInfo CS} {CR : Type} {LR : Lru bytes blockInfo CR}.
Context {A : Type} {AR : Archive A} {F : Type}.
Context (cfg : RealBackendConfig).

Abbreviation backend_state := (realBackend R CS CR A F).
Abbreviation P := (stateM (planBuildState backend_state canonicalBlockMap) beacon_error).
(** [map[uint64][]blockInfo] *)
Abbreviation pending_map := (gmap N (list blockInfo)).

(** The first loop of [orphanImportsForSources], for one source. *)
Definition collect_source (roots : gset bytes) (source : PlanAttestationSource) : P (gset bytes) :=
  infos ← sourceBlockInfosBySlot cfg (s_Slot source);
  match infos with
  | [] => st_fail (ESourceNotCanonical (s_Slot source))
  | _ =>
      s ← st_get;
      mret (unknown_roots s (filter (fun a => too_late source a = false) (infos ≫= Attestations)) roots)
  end.

(** The loop over a chain: import now, schedule for later, or ignore. *)
Definition place_info (simSlot minImportSlot planEnd : N) (acc : list blockInfo * pending_map)
    (info : blockInfo) : P (list blockInfo * pending_map) :=
  s ← st_get;
  if Slot info <? minImportSlot then _ ← st_modify (mark_ignored (Root info)); mret acc
  else if rootKnown_in s (Root info) || bool_decide (Root info ∈ scheduledRoots s) then mret acc
  else
    let targetSimSlot := if Slot info <? simSlot then simSlot else Slot info in
    if planEnd <=? targetSimSlot then _ ← st_modify (mark_ignored (Root info)); mret acc
    else if targetSimSlot =? simSlot then
      _ ← st_modify (mark_imported (Root info)); mret (acc.1 ++ [info], acc.2)
    else
      _ ← st_modify (mark_scheduled (Root info));
      mret (acc.1, <[targetSimSlot := default [] (acc.2 !! targetSimSlot) ++ [info]]> acc.2).

Definition place_root (simSlot evalSlot minImportSlot planEnd : N)
    (acc : list blockInfo * pending_map) (root : bytes) : P (list blockInfo * pending_map) :=
  s ← st_get;
  if rootKnown_in s root || bool_decide (root ∈ scheduledRoots s)
     || bool_decide (root ∈ missingRoots s) || bool_decide (root ∈ ignoredRoots s) then mret acc
  else
    chain ← resolveOrphanChain cfg root evalSlot;
    st_fold (place_info simSlot minImportSlot planEnd) acc chain.

Definition orphanImportsForSources (sources : list PlanAttestationSource)
    (simSlot evalSlot minImportSlot planEnd : N) (pending : pending_map)
    : P (list PlanBlockImport * pending_map) :=
  if negb (Mode cfg =? ModeGreedyLookahead)%Z then mret ([], pending)
  else
    roots ← st_fold collect_source ∅ sources;
    acc ← st_fold (place_root simSlot evalSlot minImportSlot planEnd) ([], pending)
            (sortedRootKeys roots);
    mret (orphan_imports (sortBlockInfos acc.1), acc.2).

(** The loop over [pendingOrphanImports[simSlot]]. *)
Definition pending_import (imports : list PlanBlockImport) (info : blockInfo) : P (list PlanBlockImport) :=
  s ← st_get;
  if decide (Root info ∈ importedRoots s) then mret imports
  else _ ← st_modify (mark_imported (Root info)); mret (imports ++ [blockImport info false]).

(** The body of the loop over the simulated slots. *)
Definition plan_slot (blockExists : gmap N bool) (from to simSlot : N) (pending : pending_map)
    : P (PlanEntry * pending_map) :=
  let evalSlot := saturatingAdd simSlot 1 in
  sources ← st_lift (planSourcesForSlot blockExists simSlot (Mode cfg) (LookaheadCap cfg) evalSlot);
  canonical ← canonical_import simSlot;
  slotOrphanImports ← archiveOrphanImportsForSlot cfg simSlot from;
  pendingImports ← st_fold pending_import [] (sortBlockInfos (default [] (pending !! simSlot)));
  let pending := delete simSlot pending in
  placed ← orphanImportsForSources sources simSlot evalSlot from to pending;
  mret (mkPlanEntry simSlot evalSlot (canonical ++ slotOrphanImports ++ pendingImports ++ placed.1)
          sources (s_Slot <$> head sources), placed.2).

(** [for simSlot := from; simSlot < to; simSlot++] *)
Fixpoint plan_slots (fuel : nat) (blockExists : gmap N bool) (from to simSlot : N)
    (pending : pending_map) (out : list PlanEntry) : P (list PlanEntry) :=
  if simSlot <? to then
    match fuel with
    | O => st_lift Panic
    | S fuel' =>
        r ← plan_slot blockExists from to simSlot pending;
        plan_slots fuel' blockExists from to (u64_add simSlot 1) r.2 (out ++ [r.1])
    end
  else mret out.

Definition plan_guard (from to : N) (b : backend_state) : outcome beacon_error unit :=
  match era (ix b) with
  | None => Err EEraReaderNotConfigured
  | Some _ =>
      if to <? from then Err (EFromAfterTo from to)
      else if mode_needs_cap (Mode cfg) && (LookaheadCap cfg <? 1) then Err ELookaheadCap
      else if negb (mode_supported (Mode cfg)) then Err EUnsupportedMode
      else if (Mode cfg =? ModeFirstSeenGossip)%Z && bool_decide (FirstSeenSource b = None) then
        Err EFirstSeenNotConfigured
      else Ok tt
  end.

(** [canonicalBySlot] is also the state's map: what [add] puts in it, later
    iterations see; [blockExists] is computed before.  A [PlanEntry] takes 72
    bytes. *)
Definition BuildPlan (from to : N) : stateM backend_state beacon_error (list PlanEntry) := fun b =>
  match plan_guard from to b with
  | Err e => (Err e, b)
  | Panic => (Panic, b)
  | Ok _ =>
      let loadStart := if 0 <? from then u64_sub from 1 else from in
      let loadEnd := saturatingAdd to (LookaheadCap cfg) in
      let '(loaded, i) := loadCanonicalBlockInfos (SlotFork cfg) loadStart loadEnd (ix b) in
      let b := mkBackend i (BlockArchive b) (FirstSeenSource b) in
      match loaded with
      | Err e => (Err e, b)
      | Panic => (Panic, b)
      | Ok (canonicalBySlot, canonicalByRoot) =>
          let blockExists := (fun _ => true) <$> canonicalBySlot in
          let state := newPlanState cfg b (mkCMap canonicalBySlot canonicalByRoot) in
          let state :=
            if 0 <? from then
              match canonicalBySlot !! u64_sub from 1 with
              | Some info => mark_imported (Root info) state
              | None => state
              end
            else state in
          if makeslice_panics 72 (u64_sub to from) then (Panic, b)
          else
            let '(o, s) := plan_slots (N.to_nat (to - from)) blockExists from to from ∅ [] state in
            (o, backend s)
      end
  end.
End build_plan.

(** ** Lemmas *)

Section plan.
Context {E2 : Eth2} {R : Type} {BS : BlockSource R}.
Context {CS : Type} {LS : Lru N blockInfo CS} {CR : Type} {LR : Lru bytes blockInfo CR}.
Context {A : Type} {AR : Archive A} {F : Type}.
Context (cfg : RealBackendConfig) (content : N -> outcome era_error (option bytes)).

Abbreviation state := (planBuildState (realBackend R CS CR A F) canonicalBlockMap).
Abbreviation plan_ok := (plan_ok (Can := canonicalBlockMap) (A := A) (F := F) cfg content).
Abbreviation call := (call cfg content).
Abbreviation importable := (importable (Can := canonicalBlockMap) (A := A) (F := F) cfg content).
Abbreviation pending_map := (gmap N (list blockInfo)).
Implicit Types (s : state) (pending : pending_map).

(** Between [s] and [s'] the blocks of [l] were imported, each for the first time. *)
Definition imported (s : state) (lo hi : N) (l : list blockInfo) (s' : state) : Prop :=
  NoDup (Root <$> l) /\ Forall (importable s lo hi) l
  /\ Forall (fun info => Root info ∈ importedRoots s') l
  /\ importedRoots s ⊆ importedRoots s' /\ sees_more s s'.

Lemma imported_nil s s' lo hi :
  importedRoots s ⊆ importedRoots s' -> sees_more s s' -> imported s lo hi [] s'.
Proof. intros. split_and!; try done; constructor. Qed.

Lemma imported_app s1 s2 s3 lo hi l1 l2 :
  imported s1 lo hi l1 s2 -> imported s2 lo hi l2 s3 -> imported s1 lo hi (l1 ++ l2) s3.
Proof.
  intros (Hn1 & Ha1 & Hi1 & Hs1 & Hm1) (Hn2 & Ha2 & Hi2 & Hs2 & Hm2). split_and!.
  - rewrite fmap_app. apply NoDup_app. split_and!; [done| |done].
    intros r (i & -> & Hi)%list_elem_of_fmap (j & Heq & Hj)%list_elem_of_fmap.
    rewrite Forall_forall in Hi1, Ha2. destruct (Ha2 j Hj) as (_&_&_&_&Hni).
    rewrite <- Heq in Hni. by apply Hni, Hi1.
  - apply Forall_app. split; [done|]. eapply Forall_impl; [exact Ha2|]. intros info.
    by apply importable_weaken.
  - apply Forall_app. split; [|done]. eapply Forall_impl; [exact Hi1|]. set_solver.
  - set_solver.
  - by eapply sees_more_trans.
Qed.

Lemma imported_weaken s lo hi lo' hi' l s' :
  lo' <= lo -> hi <= hi' -> imported s lo hi l s' -> imported s lo' hi' l s'.
Proof.
  intros ? ? (?&Ha&?&?&?). split_and!; try done. eapply Forall_impl; [exact Ha|].
  intros info (?&?&?&?&?). split_and!; try done; lia.
Qed.

(** One more import. *)
Lemma imported_one s s1 lo hi l info :
  imported s lo hi l s1 -> importable s1 lo hi info ->
  imported s lo hi (l ++ [info]) (mark_imported (Root info) s1).
Proof.
  intros Hl Hi. eapply imported_app; [exact Hl|]. split_and!; cbn.
  - apply NoDup_singleton.
  - by constructor.
  - constructor; [set_solver|done].
  - set_solver.
  - done.
Qed.

(** Scheduled blocks: filed under their own slot. *)
Definition pending_ok (from : N) pending : Prop :=
  forall t infos info, pending !! t = Some infos -> info ∈ infos ->
    parsed cfg info /\ ~ is_canonical cfg content info /\ Slot info = t /\ from <= t
    /\ Root info ≠ zero_root.

Lemma pending_ok_empty from : pending_ok from ∅.
Proof. intros t infos info. by rewrite lookup_empty. Qed.

Lemma pending_ok_default from pending t info :
  pending_ok from pending -> info ∈ default [] (pending !! t) ->
  parsed cfg info /\ ~ is_canonical cfg content info /\ Slot info = t /\ from <= t
  /\ Root info ≠ zero_root.
Proof.
  intros Hp. destruct (pending !! t) as [infos|] eqn:Ht; cbn; [by apply (Hp t)|].
  by intros ?%not_elem_of_nil.
Qed.

Lemma pending_import_spec s from simSlot infos :
  plan_ok s -> (forall info, info ∈ infos -> parsed cfg info /\ ~ is_canonical cfg content info
    /\ Slot info = simSlot /\ from <= simSlot /\ Root info ≠ zero_root) ->
  call (st_fold pending_import [] infos s)
    (fun imports s' => exists l, imports = orphan_imports l /\ imported s from simSlot l s')
    (fun _ => True).
Proof.
  intros Hs Hinfos.
  eapply (call_fold _ _ _ (fun _ imports s' => exists l, imports = orphan_imports l
    /\ imported s from simSlot l s')); [done|exists []; split; [done|by apply imported_nil]|].
  intros done info left acc s1 Hl Hs1 (l & -> & Himp). unfold pending_import. st_step.
  case_decide as Hin; [apply call_ret; eauto|]. st_step. apply call_ret; [done|].
  exists (l ++ [info]). split; [unfold orphan_imports; by rewrite fmap_app|].
  apply imported_one; [done|].
  destruct (Hinfos info ltac:(rewrite Hl; set_solver)) as (?&?&Hsl&?&?). split_and!; done || lia.
Qed.

(** *** Placing the blocks of a chain *)

Definition place_post s (from simSlot : N) (acc : list blockInfo * pending_map) (s' : state) : Prop :=
  imported s from simSlot acc.1 s' /\ pending_ok from acc.2 /\ missingRoots s ⊆ missingRoots s'.

Lemma place_info_spec s s0 from to simSlot evalSlot acc info s1 :
  plan_ok s1 -> place_post s from simSlot acc s1 -> orphan_of cfg content s0 evalSlot info ->
  call (place_info simSlot from to acc info s1) (place_post s from simSlot) (fun _ => True).
Proof.
  intros Hs1 Hpost (Hp & _ & Hnc & Hz & _ & _). unfold place_info. st_step.
  destruct (N.ltb_spec (Slot info) from); [by st_step; apply call_ret|].
  destruct (rootKnown_in s1 (Root info)) eqn:Hk; [by apply call_ret|].
  case_bool_decide as Hsch; [by apply call_ret|]. cbn [orb]. set (target := if _ <? _ then _ else _).
  destruct (to <=? target); [by st_step; apply call_ret|].
  apply rootKnown_in_not_imported in Hk. destruct Hpost as (Himp & Hpend & Hms).
  destruct (N.eqb_spec target simSlot) as [Ht|Ht]; st_step; (apply call_ret; [done|]).
  - split_and!; [|done|done]. cbn. apply imported_one; [done|].
    unfold target in Ht. destruct (N.ltb_spec (Slot info) simSlot); split_and!; done || lia.
  - split_and!; [done| |done]. cbn. unfold target in Ht |- *.
    destruct (N.ltb_spec (Slot info) simSlot); [done|].
    intros t infos i. destruct (decide (Slot info = t)) as [<-|Hne];
      [rewrite lookup_insert_eq|rewrite lookup_insert_ne by done; apply Hpend].
    intros [= <-] [Hi| ->%list_elem_of_singleton]%elem_of_app; [|done].
    by apply (pending_ok_default from acc.2).
Qed.

Lemma place_root_spec s from to simSlot evalSlot acc root s1 :
  plan_ok s1 -> place_post s from simSlot acc s1 ->
  call (place_root cfg simSlot evalSlot from to acc root s1) (place_post s from simSlot) (fun _ => True).
Proof.
  intros Hs1 Hpost. unfold place_root. st_step.
  destruct (rootKnown_in s1 root || _ || _ || _); [by apply call_ret|].
  eapply call_bind; [by apply resolveOrphanChain_call| |done].
  intros chain s2 Hs2 (Hm & _ & _ & _ & Hall & _).
  eapply (call_fold _ _ _ (fun _ acc s' => place_post s from simSlot acc s')); [done| |].
  - destruct Hpost as ((?&?&Hi&?&?)&?&?), Hm as (Himp & _ & _ & ? & ?).
    unfold place_post, imported. split_and!; try done.
    + by rewrite Himp.
    + by rewrite Himp.
    + by eapply sees_more_trans.
    + set_solver.
  - intros done info left acc' s3 Hl Hs3 Hp3. rewrite Forall_forall in Hall.
    eapply place_info_spec; [done|done|]. apply Hall. rewrite Hl. set_solver.
Qed.

Lemma orphanImportsForSources_spec s from to simSlot evalSlot sources pending :
  plan_ok s -> pending_ok from pending ->
  call (orphanImportsForSources cfg sources simSlot evalSlot from to pending s)
    (fun r s' => (exists l, r.1 = orphan_imports l /\ imported s from simSlot l s') /\ pending_ok from r.2)
    (fun _ => True).
Proof.
  intros Hs Hp. unfold orphanImportsForSources. destruct (negb _).
  { apply call_ret; [done|]. split; [|done]. exists []. split; [done|by apply imported_nil]. }
  eapply call_bind;
    [eapply (call_fold _ _ _ (fun _ _ s' => lookup_marks s s') (fun _ => True)); [done|by split_and!|]| |done].
  { intros done source left roots s1 _ Hs1 Hm. unfold collect_source.
    eapply call_bind; [by apply sourceBlockInfosBySlot_spec| |done].
    intros infos s2 Hs2 (Hm2 & _). destruct infos as [|i infos]; [by split|]. st_step.
    apply call_ret; [done|]. by eapply lookup_marks_trans. }
  intros roots s1 Hs1 (Hi & _ & Hms & _ & _ & Hsees).
  eapply call_bind; [eapply (call_fold _ _ _ (fun _ acc s' => place_post s from simSlot acc s') (fun _ => True))| |done].
  - done.
  - split_and!; [|done|done]. apply imported_nil; [by rewrite Hi|done].
  - intros done root left acc s2 _ Hs2 Hp2. by apply place_root_spec.
  - intros [l pending'] s2 Hs2 ((Hnd & Hall & Hin & Hsub & Hse) & Hp2 & _). apply call_ret; [done|].
    split; [|done]. exists (sortBlockInfos l). split; [done|].
    pose proof (sort_by_perm blockInfo_less l) as Hperm. unfold sortBlockInfos in *. cbn in *.
    split_and!; [by rewrite Hperm..|done|done].
Qed.

(** *** A slot of the plan *)

(** The entry of [simSlot], its orphans being [l]. *)
Definition entry_ok s (blockExists : gmap N bool) (simSlot : N) (e : PlanEntry) (l : list blockInfo) : Prop :=
  pe_SimSlot e = simSlot /\ pe_EvalSlot e = saturatingAdd simSlot 1
  /\ planSourcesForSlot blockExists simSlot (Mode cfg) (LookaheadCap cfg) (saturatingAdd simSlot 1)
      = Ok (AttestationSources e)
  /\ pe_SourceBlockSlot e = s_Slot <$> head (AttestationSources e)
  /\ pe_ImportBlocks e = ((fun info => blockImport info true) <$> option_list (sees s simSlot))
                          ++ orphan_imports l
  /\ Forall (fun info => Slot info <= simSlot) l.

Lemma imported_imports_post s from simSlot imports s' :
  imports_post cfg content s from simSlot imports s' ->
  exists l, imports = orphan_imports l /\ imported s from simSlot l s'.
Proof.
  intros (l & -> & Hnd & Hall & Hi & _ & Hm & _). exists l. split; [done|]. split_and!; try done.
  - apply Forall_forall. intros info Hin. rewrite Hi, elem_of_union, elem_of_list_to_set.
    right. apply list_elem_of_fmap. eauto.
  - rewrite Hi. set_solver.
Qed.

Lemma plan_slot_spec s blockExists from to simSlot pending :
  plan_ok s -> pending_ok from pending -> from <= simSlot -> 16 * LookaheadCap cfg <= maxAlloc ->
  call (plan_slot cfg blockExists from to simSlot pending s)
    (fun r s' => exists l, entry_ok s blockExists simSlot r.1 l /\ imported s from simSlot l s'
       /\ pending_ok from r.2)
    (fun _ => True).
Proof.
  intros Hs Hp Hle Ha. unfold plan_slot.
  destruct (planSourcesForSlot_Ok blockExists simSlot (Mode cfg) (LookaheadCap cfg)
    (saturatingAdd simSlot 1) Ha) as [sources Hsrc]. rewrite Hsrc.
  eapply (call_bind _ _ _ _ _ (fun a s' => a = sources /\ s' = s) _ (fun _ => True)); [by split| |done].
  intros ? ? _ [-> ->].
  pose proof (canonical_import_spec cfg content simSlot s Hs) as Hcan.
  unfold mbind at 1, stateM_bind at 1, st_bind at 1.
  destruct (canonical_import simSlot s) as [o s1]. destruct Hcan as (-> & Hs1 & Hm1 & Hi1 & _).
  assert (Himp0 : imported s from simSlot [] s1) by (apply imported_nil; [set_solver|done]).
  eapply call_bind; [by apply archiveOrphanImportsForSlot_spec| |done].
  intros imports s2 Hs2 (l1 & -> & Himp1)%imported_imports_post.
  eapply call_bind; [apply (pending_import_spec s2 from simSlot); [done|]| |done].
  { intros info Hin. rewrite (elem_of_sort_by blockInfo_less) in Hin.
    destruct (pending_ok_default _ _ _ _ Hp Hin) as (?&?&?&?&?). by split_and!. }
  intros imports s3 Hs3 (l2 & -> & Himp2).
  eapply call_bind; [apply orphanImportsForSources_spec; [done|]| |done].
  { intros t infos info. destruct (decide (t = simSlot)) as [->|];
      [by rewrite lookup_delete_eq|rewrite lookup_delete_ne by done; apply Hp]. }
  intros [imports pending'] s4 Hs4 ((l3 & Hl3 & Himp3) & Hp'). cbn [fst snd] in *. subst imports.
  apply call_ret; [done|]. exists (l1 ++ l2 ++ l3).
  assert (Himp : imported s from simSlot (l1 ++ l2 ++ l3) s4).
  { change (l1 ++ l2 ++ l3) with ([] ++ l1 ++ l2 ++ l3).
    eapply imported_app; [exact Himp0|]. eapply imported_app; [exact Himp1|].
    by eapply imported_app. }
  split; [|by split]. unfold entry_ok. cbn [fst pe_SimSlot pe_EvalSlot pe_ImportBlocks
    AttestationSources pe_SourceBlockSlot]. split_and!; try done.
  - unfold orphan_imports. by rewrite !fmap_app.
  - destruct Himp as (_ & Hall & _). eapply Forall_impl; [exact Hall|].
    intros info (_&_&?&_). lia.
Qed.

(** All slots from [simSlot] on. *)
Lemma plan_slots_spec fuel s blockExists from to simSlot pending out :
  plan_ok s -> pending_ok from pending -> from <= simSlot -> simSlot <= to -> u64 to ->
  16 * LookaheadCap cfg <= maxAlloc -> (N.to_nat (to - simSlot) <= fuel)%nat ->
  call (plan_slots cfg fuel blockExists from to simSlot pending out s)
    (fun out' s' => exists entries orphans, out' = out ++ entries
       /\ length entries = N.to_nat (to - simSlot) /\ length orphans = N.to_nat (to - simSlot)
       /\ (forall k e l, entries !! k = Some e -> orphans !! k = Some l ->
            exists sk, plan_ok sk /\ sees_more s sk
              /\ entry_ok sk blockExists (simSlot + N.of_nat k) e l)
       /\ imported s from to (concat orphans) s')
    (fun _ => True).
Proof.
  revert s simSlot pending out. induction fuel as [|fuel IH];
    intros s simSlot pending out Hs Hp Hf Hle Hu Ha Hfuel; cbn [plan_slots];
    destruct (N.ltb_spec simSlot to) as [Hlt|Hge]; [lia| | |].
  1,3: apply call_ret; [done|]; exists [], []; rewrite app_nil_r; split_and!; try done; cbn;
    [lia|lia|by apply imported_nil].
  eapply call_bind; [by apply plan_slot_spec| |done].
  intros [e pending'] s1 Hs1 (l & He & Himp & Hp'). cbn [fst snd] in *.
  rewrite u64_add_small by u64_lia.
  eapply call_impl; [apply (IH s1 (simSlot + 1)); try done; lia| |done].
  intros out' s' (entries & orphans & -> & Hle1 & Hle2 & Hall & Himp').
  exists (e :: entries), (l :: orphans). rewrite <- app_assoc. split_and!; cbn [length]; try done; try lia.
  - intros [|k] e' l' Hk Hl'.
    + injection Hk as <-. injection Hl' as <-. exists s. rewrite N.add_0_r.
      split; [exact Hs|]. by split.
    + destruct (Hall k e' l' Hk Hl') as (sk & ? & ? & Hek). exists sk.
      split; [done|]. split; [eapply sees_more_trans; [apply Himp|done]|].
      assert (simSlot + N.of_nat (S k) = simSlot + 1 + N.of_nat k) as -> by lia. exact Hek.
  - cbn [concat]. eapply imported_app; [|exact Himp']. eapply imported_weaken; [| |exact Himp]; lia.
Qed.
End plan.

(** *** From the backend to the plan *)

Section backend.
Context {E2 : Eth2} {R : Type} {BS : BlockSource R}.
Context {CS : Type} {LS : Lru N blockInfo CS} {CR : Type} {LR : Lru bytes blockInfo CR}.
Context {A : Type} {AR : Archive A} {F : Type}.
Context (cfg : RealBackendConfig) (content : N -> outcome era_error (option bytes)).

Abbreviation backend_state := (realBackend R CS CR A F).
Abbreviation state := (planBuildState backend_state canonicalBlockMap).
Abbreviation at_slot := (at_slot (SlotFork cfg) content).

Lemma exact_maps_sound from to maps :
  exact_maps (SlotFork cfg) content from to maps ->
  sound_blocks (SlotFork cfg) content (fun slot => maps.1 !! slot) (map_rootKnown (mkCMap maps.1 maps.2)).
Proof.
  intros (H1 & H2 & H3 & H4).
  assert (Hs : forall slot info, maps.1 !! slot = Some info ->
    canonical_at (SlotFork cfg) content slot = Ok (Some info)).
  { intros slot info. rewrite H1. case_decide as Hd; [|done]. intros <-. by apply H2. }
  split; [exact Hs|]. intros root Hr. unfold map_rootKnown in Hr. cbn in Hr.
  apply bool_decide_eq_true in Hr as [info Hr]. destruct (H4 _ _ Hr) as [? Hi]. eauto.
Qed.

Lemma plan_guard_Ok from to (b : backend_state) :
  plan_guard cfg from to b = Ok tt ->
  from <= to /\ (Mode cfg = ModeFirstSeenGossip -> is_Some (FirstSeenSource b)).
Proof.
  unfold plan_guard. destruct (era (ix b)); [|done]. destruct (N.ltb_spec to from); [done|].
  destruct (_ && _); [done|]. destruct (negb _); [done|]. destruct (_ && _) eqn:Hfs; [done|].
  intros _. split; [done|]. intros Hm. rewrite Hm, Z.eqb_refl in Hfs.
  cbn [andb] in Hfs. apply bool_decide_eq_false in Hfs. destruct (FirstSeenSource b); [eauto|by destruct Hfs].
Qed.

Lemma sees_at_slot (s sk : state) x info :
  plan_ok cfg content s -> plan_ok cfg content sk -> sees_more s sk -> sees s x = at_slot x ->
  fine (SlotFork cfg) content x -> sees sk x = info -> info = at_slot x.
Proof.
  intros Hs Hsk Hm Hx Hf <-. destruct (sees sk x) as [i|] eqn:Hi.
  - pose proof (sees_sound cfg content sk x i Hsk Hi) as Hc. unfold fine in Hf. congruence.
  - destruct (at_slot x) as [j|] eqn:Hj; [|done].
    by rewrite (sees_stable cfg content s sk x j Hs Hsk Hm Hx) in Hi.
Qed.
(** The state [BuildPlan] starts planning with, and what it sees. *)
Definition first_state (b : backend_state) (maps : gmap N blockInfo * gmap bytes blockInfo) (from : N) : state :=
  let state := newPlanState cfg b (mkCMap maps.1 maps.2) in
  if 0 <? from then
    match maps.1 !! u64_sub from 1 with Some info => mark_imported (Root info) state | None => state end
  else state.

Lemma first_state_ok (b : backend_state) maps from lo hi :
  quiet (SlotFork cfg) content (ix b) -> (Mode cfg = ModeFirstSeenGossip -> is_Some (FirstSeenSource b)) ->
  exact_maps (SlotFork cfg) content lo hi maps ->
  plan_ok cfg content (first_state b maps from)
  /\ (forall x, lo <= x <= hi -> sees (first_state b maps from) x = at_slot x)
  /\ dom (CheckpointBlocksByRoot cfg) ⊆ importedRoots (first_state b maps from).
Proof.
  intros Hq Hfs Hm.
  assert (Hok : plan_ok cfg content (newPlanState cfg b (mkCMap maps.1 maps.2))).
  { split_and!; [done|by eapply exact_maps_sound| |done|done]. intros r info. cbn. by rewrite lookup_empty. }
  assert (Hsees : forall x, lo <= x <= hi -> maps.1 !! x = at_slot x).
  { intros x Hx. destruct Hm as (H1 & _). by rewrite H1, decide_True. }
  unfold first_state. destruct (0 <? from); [|by split_and!].
  destruct (maps.1 !! u64_sub from 1) as [info|]; [|by split_and!].
  split; [by apply (plan_ok_frame cfg content (newPlanState cfg b (mkCMap maps.1 maps.2)))|].
  split; [done|]. cbn. set_solver.
Qed.

Lemma BuildPlan_call from to (b : backend_state) :
  quiet (SlotFork cfg) content (ix b) -> u64 to -> u64 (LookaheadCap cfg) ->
  16 * LookaheadCap cfg <= maxAlloc -> 72 * (to - from) <= maxAlloc ->
  let '(o, b') := BuildPlan cfg from to b in
  quiet (SlotFork cfg) content (ix b')
  /\ match o with
     | Ok entries => exists maps b1 s',
         plan_ok cfg content (first_state b1 maps from)
         /\ (forall x, from <= x <= N.min (to + LookaheadCap cfg) MaxUint64 ->
             sees (first_state b1 maps from) x = at_slot x /\ maps.1 !! x = at_slot x
             /\ fine (SlotFork cfg) content x)
         /\ dom (CheckpointBlocksByRoot cfg) ⊆ importedRoots (first_state b1 maps from)
         /\ from <= to
         /\ plan_slots cfg (N.to_nat (to - from)) ((fun _ => true) <$> maps.1) from to from ∅ []
              (first_state b1 maps from) = (Ok entries, s')
     | Err _ => True
     | Panic => False
     end.
Proof.
  intros Hq Hut Huc Ha Hsz. unfold BuildPlan.
  destruct (plan_guard cfg from to b) as [[]|e|] eqn:Hg; [|done|].
  2:{ unfold plan_guard in Hg. repeat case_match; discriminate. }
  apply plan_guard_Ok in Hg as [Hle Hfs].
  set (lo := if 0 <? from then _ else _).
  assert (Hlo : lo <= from) by (unfold lo; destruct (N.ltb_spec 0 from); u64_lia).
  rewrite saturatingAdd_spec by done.
  pose proof (loadCanonicalBlockInfos_spec (SlotFork cfg) content lo (N.min (to + LookaheadCap cfg) MaxUint64)
    (ix b) Hq ltac:(u64_lia)) as Hl.
  destruct (loadCanonicalBlockInfos _ _ _ _) as [[[slots roots]|e|] i]; destruct Hl as [Hq' Hm];
    [|by split|done].
  rewrite u64_sub_small by u64_lia. unfold makeslice_panics.
  destruct (N.ltb_spec maxAlloc (72 * (to - from))); [lia|].
  set (b1 := mkBackend i _ _).
  destruct (first_state_ok b1 (slots, roots) from _ _ Hq' Hfs Hm) as (Hs & Hsees & Hdom).
  change (if 0 <? from then _ else _) with (first_state b1 (slots, roots) from).
  pose proof (plan_slots_spec cfg content (N.to_nat (to - from)) (first_state b1 (slots, roots) from)
    ((fun _ => true) <$> slots) from to from ∅ [] Hs) as Hcall.
  destruct (plan_slots _ _ _ _ _ _ _ _ _) as [o s'] eqn:Hrun.
  assert (call cfg content (o, s') (fun _ _ => True) (fun _ => True)) as Hc.
  { eapply call_impl; [apply Hcall; auto using pending_ok_empty; lia|done|done]. }
  unfold call in Hc. destruct o as [entries|e|]; [|split; [apply Hc|done]|done].
  split; [apply Hc|]. exists (slots, roots), b1, s'. split_and!; try done.
  intros x Hx. destruct Hm as (Hm1 & Hm2 & _). split_and!.
  - apply Hsees. lia.
  - cbn in Hm1 |- *. by rewrite Hm1, decide_True by lia.
  - apply Hm2. lia.
Qed.
End backend.

(** ** Theorems *)

(** What the plan says about slot [simSlot], its orphans being [l]. *)
Definition plan_entry_spec {E2 : Eth2} (cfg : RealBackendConfig)
    (content : N -> outcome era_error (option bytes)) (from simSlot : N)
    (blockExists : gmap N bool) (e : PlanEntry) (l : list blockInfo) : Prop :=
  pe_SimSlot e = simSlot /\ pe_EvalSlot e = simSlot + 1
  /\ planSourcesForSlot blockExists simSlot (Mode cfg) (LookaheadCap cfg) (simSlot + 1)
     = Ok (AttestationSources e)
  /\ pe_SourceBlockSlot e = s_Slot <$> head (AttestationSources e)
  /\ pe_ImportBlocks e = ((fun info => blockImport info true)
        <$> option_list (at_slot (SlotFork cfg) content simSlot)) ++ orphan_imports l
  /\ Forall (fun info => parsed cfg info /\ ~ is_canonical cfg content info
       /\ from <= Slot info <= simSlot /\ Root info ≠ zero_root
       /\ CheckpointBlocksByRoot cfg !! Root info = None) l.

(** C24: a plan that is built has exactly one entry per simulated slot, in order;
    each has the sources of the planner's rule over the existing canonical blocks,
    their first slot as legacy source, and imports the canonical block of its slot
    first and then orphans: decoded, not canonical, of a slot of the plan not
    after the simulated slot, never zero or a checkpoint.  Over the whole plan no
    orphan is imported twice, although some are scheduled several slots ahead.
    The call never panics and always leaves the shared index sound. *)
Theorem BuildPlan_entries {E2 : Eth2} {R} {BS : BlockSource R} {CS} {LS : Lru N blockInfo CS}
    {CR} {LR : Lru bytes blockInfo CR} {A} {AR : Archive A} {F}
    (cfg : RealBackendConfig) (content : N -> outcome era_error (option bytes))
    (from to : N) (b : realBackend R CS CR A F) :
  quiet (SlotFork cfg) content (ix b) -> u64 to -> u64 (LookaheadCap cfg) ->
  16 * LookaheadCap cfg <= maxAlloc -> 72 * (to - from) <= maxAlloc ->
  let '(o, b') := BuildPlan cfg from to b in
  quiet (SlotFork cfg) content (ix b')
  /\ match o with
     | Ok entries =>
         length entries = N.to_nat (to - from)
         /\ exists blockExists orphans, length orphans = length entries
           /\ (forall t, from <= t <= N.min (to + LookaheadCap cfg) MaxUint64 ->
               exists_at blockExists t = true <-> is_Some (at_slot (SlotFork cfg) content t))
           /\ (forall k e l, entries !! k = Some e -> orphans !! k = Some l ->
               plan_entry_spec cfg content from (from + N.of_nat k) blockExists e l)
           /\ NoDup (Root <$> concat orphans)
     | Err _ => True
     | Panic => False
     end.
Proof.
  intros Hq Hut Huc Ha Hsz. pose proof (BuildPlan_call cfg content from to b Hq Hut Huc Ha Hsz) as H.
  destruct (BuildPlan cfg from to b) as [[entries|e|] b']; [|done|done].
  destruct H as (Hq' & maps & b1 & s' & Hs & Hsees & Hdom & Hle & Hrun). split; [done|].
  pose proof (plan_slots_spec cfg content (N.to_nat (to - from)) (first_state cfg b1 maps from)
    ((fun _ => true) <$> maps.1) from to from ∅ [] Hs
    (pending_ok_empty cfg content from) ltac:(lia) Hle Hut Ha ltac:(lia)) as Hc.
  rewrite Hrun in Hc. destruct Hc as (_ & entries' & orphans & Heq & Hl1 & Hl2 & Hall & Hnd & Himp & _).
  cbn in Heq. subst entries'. split; [done|].
  exists ((fun _ => true) <$> maps.1), orphans. split; [lia|]. split.
  { intros t Ht. destruct (Hsees t Ht) as (_ & Hm & _). rewrite <- Hm. unfold exists_at.
    rewrite lookup_fmap. by destruct (maps.1 !! t); cbn; [|split; [|intros [? ?]]]. }
  split; [|done]. intros k e l Hk Hl.
  destruct (Hall k e l Hk Hl) as (sk & Hsk & Hmore & H1 & H2 & H3 & H4 & H5 & H6).
  assert (Hkl : (k < N.to_nat (to - from))%nat) by (rewrite <- Hl1; by eapply lookup_lt_Some).
  rewrite saturatingAdd_spec in H2, H3 by u64_lia.
  replace (N.min (from + N.of_nat k + 1) MaxUint64) with (from + N.of_nat k + 1) in H2, H3 by u64_lia.
  destruct (Hsees (from + N.of_nat k)) as (Hat & _ & Hfine); [u64_lia|].
  split_and!; try done.
  - rewrite H5. do 3 f_equal. by eapply (sees_at_slot cfg content (first_state cfg b1 maps from) sk).
  - rewrite Forall_forall in Himp, H6 |- *. intros info Hin.
    assert (info ∈ concat orphans) as Hcat.
    { apply list_elem_of_In, in_concat. exists l. rewrite <- !list_elem_of_In.
      split; [by eapply list_elem_of_lookup_2|done]. }
    destruct (Himp info Hcat) as (?&?&[? ?]&?&Hni).
    specialize (H6 info Hin). split_and!; try done.
    apply not_elem_of_dom. set_solver.
Qed.

Lemma BuildPlan_entries_witness :
  match fst (BuildPlan (toy_config 2%Z 2) 101 104 toy_backend) with
  | Ok entries =>
      (pe_ImportBlocks <$> entries)
        = [[mkImport 101 (formatRoot (toy_root Byte.x11)) true];
           [mkImport 102 (formatRoot (toy_root Byte.x99)) false];
           [mkImport 103 (formatRoot (toy_root Byte.x13)) true]]
      /\ length entries = 3%nat
  | _ => False
  end.
Proof.
  pose proof (BuildPlan_entries (toy_config 2%Z 2) (era_block plain toy_dir) 101 104 toy_backend
    toy_quiet ltac:(u64_lia) ltac:(cbn; u64_lia) ltac:(cbn; lia) ltac:(lia)) as H.
  assert (match fst (BuildPlan (toy_config 2%Z 2) 101 104 toy_backend) with
          | Ok entries => (pe_ImportBlocks <$> entries)
              = [[mkImport 101 (formatRoot (toy_root Byte.x11)) true];
                 [mkImport 102 (formatRoot (toy_root Byte.x99)) false];
                 [mkImport 103 (formatRoot (toy_root Byte.x13)) true]]
          | _ => False end) as Hv by (vm_compute; reflexivity).
  destruct (BuildPlan (toy_config 2%Z 2) 101 104 toy_backend) as [[entries| |] b'];
    [|destruct Hv..].
  destruct H as (_ & H & _). split; [exact Hv|exact H].
Defined.
