(* ===== verification/ArchiveWarm.v ===== *)
(** * Warming the archive cache ([pkg/beaconapi/realbackend.go], [WarmBlockArchiveCache])

    Before serving starts, this pass lists and resolves the orphan blocks the
    workers may ask for and records, per slot, the orphan roots serving may use.
    Go iterates over maps in an unspecified order: [iterate] is that order, any
    enumeration of the keys. *)

From S2P Require Import Prelude Bytes Lru EraFormat EraReader Sources SlotRanges BlockInfo Samples.
From S2P Require Import AttPlan CanonicalIndex PlanSources PlanState PlanSamples Orphans BuildSlot BuildPlan.

(** ** Definitions *)

Abbreviation archiveSlotRangeBatchSize := 1024%N.

Definition addSlotRangeQuery (a : archiveWarmAccumulator) : archiveWarmAccumulator :=
  upd_stats (fun s => mkStats (WorkerRanges s) (SlotRangeQueries s + 1) (OrphanRootsDiscovered s)
    (HighOrphanFanoutSlots s) (RootsResolvedCached s) (RootsArchiveMissing s)
    (TransientFailuresRetried s) (ChainsTruncated s) (ChainsPreWarmupParent s)) a.

(** [acc.stats.WorkerRanges++] *)
Definition addWorkerRange (a : archiveWarmAccumulator) : archiveWarmAccumulator :=
  upd_stats (fun s => mkStats (WorkerRanges s + 1) (SlotRangeQueries s) (OrphanRootsDiscovered s)
    (HighOrphanFanoutSlots s) (RootsResolvedCached s) (RootsArchiveMissing s)
    (TransientFailuresRetried s) (ChainsTruncated s) (ChainsPreWarmupParent s)) a.

(** At most one count per chain. *)
Definition observeChain (chain : list blockInfo) (minSlot : N) (a : archiveWarmAccumulator)
    : archiveWarmAccumulator :=
  if existsb (fun info => Slot info <? minSlot) chain then
    upd_stats (fun s => mkStats (WorkerRanges s) (SlotRangeQueries s) (OrphanRootsDiscovered s)
      (HighOrphanFanoutSlots s) (RootsResolvedCached s) (RootsArchiveMissing s)
      (TransientFailuresRetried s) (ChainsTruncated s) (ChainsPreWarmupParent s + 1)) a
  else a.

Record ArchiveWarmResult := mkWarmResult {
  Stats : ArchiveWarmStats;
  OrphanRootsBySlot : gmap N (list bytes)
}.

Definition warm_result (a : archiveWarmAccumulator) : ArchiveWarmResult :=
  mkWarmResult (stats a) (cloneOrphanRootsBySlot (acc_orphanRootsBySlot a)).

(** The end of the batch that starts at [batchFrom]. *)
Definition batch_end (batchFrom to : N) : N :=
  match checkedAdd batchFrom (archiveSlotRangeBatchSize - 1) with
  | Some maxBatchTo => if maxBatchTo <? to then maxBatchTo else to
  | None => to
  end.

Section warm.
Context {E2 : Eth2} {R : Type} {BS : BlockSource R}.
Context {CS : Type} {LS : Lru N blockInfo CS} {CR : Type} {LR : Lru bytes blockInfo CR}.
Context {A : Type} {AR : Archive A} {F : Type} {FS : FirstSeen F}.
Context (iterate : gset N -> list N) (cfg : RealBackendConfig).

Abbreviation backend_state := (realBackend R CS CR A F).
Abbreviation P := (stateM (planBuildState backend_state canonicalBlockMap) beacon_error).

(** A call of a client method through [b.cfg.BlockArchive]; on a nil client the
    methods return [ErrNotFound]. *)
Definition on_archive {T} (m : A -> archive_result T * N * A) : P (archive_result T * N) := fun s =>
  match BlockArchive (backend s) with
  | None => (Ok (ANotFound, 0), s)
  | Some a =>
      let '(res, retried, a) := m a in
      (Ok (res, retried), set_backend (mkBackend (ix (backend s)) (Some a) (FirstSeenSource (backend s))) s)
  end.

(** An orphan found through the slot-range index. *)
Definition warm_fetched (slot : N) (root data : bytes) : P unit :=
  info ← st_wrap (EParseArchive root) (on_index (decodeBlockInfoByRoot (SlotFork cfg) root data));
  if negb (Slot info =? slot) then st_fail (ESlotMismatch root slot (Slot info))
  else
    canonical ← isCanonicalBlockInfo cfg info;
    if canonical : bool then mret tt
    else
      _ ← st_modify (store_fetched root info);
      _ ← st_modify (on_warm (addResolved root));
      rememberArchiveOrphanInfo info.

(** The body of the loop over the index entries. *)
Definition warm_entry (u : unit) (entry : N * option bytes) : P unit :=
  match entry.2 with
  | None => st_fail (EIndexRoot entry.1)
  | Some root =>
      s ← st_get;
      if isZeroRoot root || rootKnown_in s root then mret tt
      else
        match fetchedByRoot s !! root with
        | Some info =>
            if Slot info =? entry.1 then
              canonical ← isCanonicalBlockInfo cfg info;
              if canonical : bool then mret tt else rememberArchiveOrphanInfo info
            else mret tt
        | None =>
            fetched ← on_archive (FetchBlockSSZBySlotAndRootWithStats entry.1 root);
            _ ← st_modify (on_warm (addTransientRetries fetched.2));
            match fetched.1 with
            | ANotFound => st_modify (on_warm (addMissing root))
            | AError => st_fail EArchive
            | AOk data => warm_fetched entry.1 root data
            end
        end
  end.

(** One batch of the slot-range index. *)
Definition warm_batch (batchFrom batchTo : N) : P unit :=
  _ ← st_modify (on_warm addSlotRangeQuery);
  listed ← on_archive (ListIndexBySlotRangeWithStats batchFrom batchTo
             (u64_add (u64_sub batchTo batchFrom) 1));
  _ ← st_modify (on_warm (addTransientRetries listed.2));
  match listed.1 with
  | ANotFound => mret tt
  | AError => st_fail EArchive
  | AOk entries => st_fold warm_entry tt entries
  end.

(** [for batchFrom := from; ; { ...; batchFrom = batchTo + 1 }] *)
Fixpoint warm_batches (fuel : nat) (batchFrom to : N) : P unit :=
  let batchTo := batch_end batchFrom to in
  _ ← warm_batch batchFrom batchTo;
  if (batchTo =? to) || (batchTo =? MaxUint64) then mret tt
  else match fuel with
       | O => st_lift Panic
       | S fuel' => warm_batches fuel' (u64_add batchTo 1) to
       end.

Definition warmSlotRangeOrphans (from to : N) : P unit :=
  s ← st_get;
  if bool_decide (BlockArchive (backend s) = None) || (to <? from) then mret tt
  else warm_batches (N.to_nat ((to - from) / archiveSlotRangeBatchSize)) from to.

(** Collecting the voted roots of one slot. *)
Definition collect_infos (roots : gset bytes) (infos : list blockInfo) : P (gset bytes) :=
  s ← st_get;
  mret (foldl (fun roots info => unknown_roots s (Attestations info) roots) roots infos).

Definition collect_first_seen (roots : gset bytes) (simSlot : N) : P (gset bytes) :=
  attestations ← first_seen cfg simSlot;
  s ← st_get;
  mret (unknown_roots s attestations roots).

Definition collect_orphans (roots : gset bytes) (slot : N) : P (gset bytes) :=
  infos ← archiveOrphanInfosBySlot cfg slot;
  collect_infos roots infos.

Definition warm_roots (from to : N) : P (gset bytes) :=
  s ← st_get;
  if (Mode cfg =? ModeFirstSeenGossip)%Z then
    if bool_decide (FirstSeenSource (backend s) = None) then st_fail EFirstSeenNotConfigured
    else st_fold collect_first_seen ∅ (slots from to)
  else
    let canonicalBySlot := m_bySlot (canonical s) in
    roots ← collect_infos ∅ (omap (fun slot => canonicalBySlot !! slot) (iterate (dom canonicalBySlot)));
    s ← st_get;
    st_fold collect_orphans roots (iterate (dom (orphanRootsBySlot s))).

Definition warm_chain (from loadEnd : N) (u : unit) (root : bytes) : P unit :=
  chain ← resolveOrphanChain cfg root loadEnd;
  st_modify (on_warm (observeChain chain from)).

(** [warmArchiveCache] once the canonical blocks are loaded. *)
Definition warm_plan (from to loadEnd : N) : P unit :=
  _ ← (if (Mode cfg =? ModeGreedyLookahead)%Z then warmSlotRangeOrphans from loadEnd else mret tt);
  roots ← warm_roots from to;
  st_fold (warm_chain from loadEnd) tt (sortedRootKeys roots).

(** The backend and the accumulator are what lives across ranges. *)
Definition warmArchiveCache (from to : N)
    : stateM (backend_state * archiveWarmAccumulator) beacon_error unit := fun st =>
  let '(b, acc) := st in
  if bool_decide (BlockArchive b = None) then (Ok tt, st)
  else
    match era (ix b) with
    | None => (Err EEraReaderNotConfigured, st)
    | Some _ =>
        if to <=? from then (Ok tt, st)
        else
          let acc := addWorkerRange acc in
          let loadEnd := saturatingAdd to (LookaheadCap cfg) in
          let '(loaded, i) := loadCanonicalBlockInfos (SlotFork cfg) from loadEnd (ix b) in
          let b := mkBackend i (BlockArchive b) (FirstSeenSource b) in
          match loaded with
          | Err e => (Err e, (b, acc))
          | Panic => (Panic, (b, acc))
          | Ok (canonicalBySlot, canonicalByRoot) =>
              let state := mkPlan b (mkCMap canonicalBySlot canonicalByRoot)
                             (dom (CheckpointBlocksByRoot cfg)) ∅ ∅ ∅ ∅ ∅ (Some acc) in
              let '(o, s) := warm_plan from to loadEnd state in
              (o, (backend s, default acc (warm s)))
          end
    end.

(** The loop of [WarmBlockArchiveCache]. *)
Definition warm_ranges (ranges : list (N * N))
    : stateM (backend_state * archiveWarmAccumulator) beacon_error unit :=
  st_fold (fun _ r => warmArchiveCache r.1 r.2) tt ranges.
End warm.

(** [cfg.ArchiveCacheOnly = false] *)
Definition warm_config (cfg : RealBackendConfig) : RealBackendConfig :=
  mkConfig (Mode cfg) (LookaheadCap cfg) (CheckpointBlocksByRoot cfg) false
    (ArchiveOrphanRootsBySlot cfg) (SlotFork cfg).

(** A fresh backend over the given sources; the result is returned on an error too. *)
Definition WarmBlockArchiveCache {E2 : Eth2} {R} {BS : BlockSource R} {CS} {LS : Lru N blockInfo CS}
    {CR} {LR : Lru bytes blockInfo CR} {A} {AR : Archive A} {F} {FS : FirstSeen F}
    (iterate : gset N -> list N) (cfg : RealBackendConfig) (cacheSize : Z)
    (reader : option R) (archive : option A) (firstSeen : option F) (ranges : list (N * N))
    : outcome beacon_error unit * ArchiveWarmResult * realBackend R CS CR A F :=
  let '(o, (b, acc)) := warm_ranges iterate (warm_config cfg) ranges
    (mkBackend (newState reader cacheSize) archive firstSeen, newArchiveWarmAccumulator) in
  (o, warm_result acc, b).

(** ** Lemmas *)

Section warm_lemmas.
Context {E2 : Eth2} {R : Type} {BS : BlockSource R}.
Context {CS : Type} {LS : Lru N blockInfo CS} {CR : Type} {LR : Lru bytes blockInfo CR}.
Context {A : Type} {AR : Archive A} {F : Type} {FS : FirstSeen F}.
Context (iterate : gset N -> list N) (cfg : RealBackendConfig).
Context (content : N -> outcome era_error (option bytes)).

Abbreviation state := (planBuildState (realBackend R CS CR A F) canonicalBlockMap).
Abbreviation plan_ok := (plan_ok (Can := canonicalBlockMap) (A := A) (F := F) cfg content).
Abbreviation call := (call cfg content).
Abbreviation any := (fun _ => True).
Implicit Types s : state.

Lemma keeps_addSlotRangeQuery : keeps_notes addSlotRangeQuery.
Proof. done. Qed.

Lemma keeps_observeChain chain minSlot : keeps_notes (observeChain chain minSlot).
Proof. intros a. unfold observeChain. by destruct (existsb _ _). Qed.

#[local] Hint Resolve keeps_addSlotRangeQuery keeps_observeChain : warm.

(** Calls whose result does not matter here: they keep the invariant. *)
Definition safe {T} (m : stateM state beacon_error T) : Prop :=
  forall s, plan_ok s -> call (m s) (fun _ _ => True) any.

Lemma safe_ret {T} (a : T) : safe (mret a).
Proof. intros s Hs. by apply call_ret. Qed.

Lemma safe_fail {T} e : safe (st_fail e : stateM state beacon_error T).
Proof. intros s Hs. by split. Qed.

Lemma safe_bind {T U} (m : stateM state beacon_error T) (f : T -> stateM state beacon_error U) :
  safe m -> (forall a, safe (f a)) -> safe (m ≫= f).
Proof.
  intros Hm Hf s Hs. eapply call_bind; [by apply Hm| |done]. intros a s' Hs' _. by apply Hf.
Qed.

Lemma safe_get {U} (f : state -> stateM state beacon_error U) : (forall s, safe (f s)) -> safe (st_get ≫= f).
Proof. intros Hf s Hs. st_step. by apply Hf. Qed.

Lemma safe_on_warm f : keeps_notes f -> safe (st_modify (on_warm f)).
Proof. intros Hf s Hs. apply call_modify; [by apply plan_ok_on_warm|done]. Qed.

Lemma safe_fold {T B} (body : B -> T -> stateM state beacon_error B) l acc :
  (forall acc x, safe (body acc x)) -> safe (st_fold body acc l).
Proof.
  intros Hb s Hs. eapply call_impl; [apply (call_fold _ _ body (fun _ _ _ => True) any)| |]; try done.
  intros. by apply Hb.
Qed.

Lemma safe_call {T} (m : stateM state beacon_error T) Q X :
  (forall s, plan_ok s -> call (m s) (Q s) (X s)) -> safe m.
Proof. intros Hm s Hs. eapply call_impl; [by apply Hm|done|done]. Qed.

Lemma safe_on_archive {T} (m : A -> archive_result T * N * A) : safe (on_archive m).
Proof.
  intros s Hs. unfold on_archive. destruct (BlockArchive (backend s)) as [a|]; [|by split].
  destruct (m a) as [[res n] a']. split; [|done]. by eapply plan_ok_frame.
Qed.

(** An orphan of a batch. *)
Lemma safe_isCanonical_then info (k : bool -> stateM state beacon_error unit) :
  parsed cfg info -> safe (k true) -> (~ is_canonical cfg content info -> safe (k false)) ->
  safe (isCanonicalBlockInfo cfg info ≫= k).
Proof.
  intros Hp Ht Hf s Hs. eapply call_bind; [by apply isCanonicalBlockInfo_spec| |done].
  intros [] s' Hs' [_ Hb]; [by apply Ht|]. apply Hf; [|done]. rewrite <- Hb. done.
Qed.

Lemma safe_remember info :
  parsed cfg info -> ~ is_canonical cfg content info -> safe (rememberArchiveOrphanInfo info).
Proof.
  intros Hp Hn. apply (safe_call _ (fun s _ => walk_marks s) walk_marks).
  intros s Hs. by apply rememberArchiveOrphanInfo_spec.
Qed.

Lemma safe_warm_fetched slot root data : safe (warm_fetched cfg slot root data).
Proof.
  intros s Hs. unfold warm_fetched.
  eapply (call_bind _ _ _ _ _ (fun info _ => Root info = root /\ parsed cfg info) _ any); [| |done].
  { unfold st_wrap. pose proof (on_index_spec cfg content (decodeBlockInfoByRoot (SlotFork cfg) root data) s
      (fun info _ => Root info = root /\ parsed cfg info) Hs) as H.
    pose proof (decodeBlockInfoByRoot_spec cfg content root data (ix (backend s)) (proj1 Hs)) as Hd.
    destruct (decodeBlockInfoByRoot _ _ _ _) as [o i']. specialize (H Hd).
    unfold PlanState.call in *. destruct (on_index _ _) as [[info|e|] s3]; naive_solver. }
  intros info s1 Hs1 [Hroot Hp]. destruct (negb _); [by split|].
  revert s1 Hs1. apply safe_isCanonical_then; [done|apply safe_ret|]. intros Hn s2 Hs2. st_step.
  apply safe_remember; [done|done|]. apply plan_ok_on_warm; [auto with warm|].
  destruct Hs2 as (? & ? & Hf & ? & ?). split_and!; [done|done| |done|done]. intros r i. cbn.
  destruct (decide (root = r)) as [<-|?];
    [rewrite lookup_insert_eq; by intros [= <-]|rewrite lookup_insert_ne by done; apply Hf].
Qed.

Lemma safe_warm_entry u entry : safe (warm_entry cfg u entry).
Proof.
  unfold warm_entry. destruct entry as [slot [root|]]; [|apply safe_fail]. cbn [fst snd].
  intros s Hs. st_step. destruct (isZeroRoot root || _); [by apply safe_ret|].
  destruct (fetchedByRoot s !! root) as [info|] eqn:Hf.
  - destruct (Slot info =? slot); [|by apply safe_ret].
    destruct Hs as (? & ? & Hfetched & ? & ?). destruct (Hfetched _ _ Hf) as [_ Hp].
    apply safe_isCanonical_then; [done|apply safe_ret|intros; by apply safe_remember|by split_and!].
  - revert s Hs Hf. cut (safe (fetched ← on_archive (FetchBlockSSZBySlotAndRootWithStats slot root);
      _ ← st_modify (on_warm (addTransientRetries fetched.2));
      match fetched.1 with
      | ANotFound => st_modify (on_warm (addMissing root))
      | AError => st_fail EArchive
      | AOk data => warm_fetched cfg slot root data
      end)); [auto|].
    apply safe_bind; [apply safe_on_archive|]. intros [res n].
    apply safe_bind; [apply safe_on_warm; auto with warm|]. intros [].
    destruct res; [apply safe_warm_fetched|apply safe_on_warm; auto with warm|apply safe_fail].
Qed.

Lemma safe_warm_batch batchFrom batchTo : safe (warm_batch cfg batchFrom batchTo).
Proof.
  unfold warm_batch. apply safe_bind; [apply safe_on_warm; auto with warm|]. intros [].
  apply safe_bind; [apply safe_on_archive|]. intros [res n].
  apply safe_bind; [apply safe_on_warm; auto with warm|]. intros [].
  destruct res; [apply safe_fold; apply safe_warm_entry|apply safe_ret|apply safe_fail].
Qed.

Lemma batch_end_spec batchFrom to :
  batchFrom <= to -> u64 to -> batch_end batchFrom to = N.min to (batchFrom + 1023).
Proof.
  intros. unfold batch_end. rewrite checkedAdd_spec by u64_lia. case_ifs; bool_to_prop; u64_lia.
Qed.

Lemma safe_warm_batches fuel batchFrom to :
  batchFrom <= to -> u64 to -> (to - batchFrom) / archiveSlotRangeBatchSize <= N.of_nat fuel ->
  safe (warm_batches cfg fuel batchFrom to).
Proof.
  revert batchFrom. induction fuel as [|fuel IH]; intros batchFrom Hle Hu Hf; cbn [warm_batches];
    rewrite batch_end_spec by done; (apply safe_bind; [apply safe_warm_batch|]); intros [].
  - replace (N.min to (batchFrom + 1023)) with to by lia. rewrite N.eqb_refl. apply safe_ret.
  - destruct (N.eqb_spec (N.min to (batchFrom + 1023)) to) as [|Hne]; [apply safe_ret|]. cbn [orb].
    assert (batchFrom + 1023 < to) by lia.
    replace (N.min to (batchFrom + 1023)) with (batchFrom + 1023) by lia.
    destruct (N.eqb_spec (batchFrom + 1023) MaxUint64); [u64_lia|].
    rewrite u64_add_small by u64_lia. apply IH; [lia|done|lia].
Qed.

Lemma safe_warmSlotRangeOrphans from to : u64 to -> safe (warmSlotRangeOrphans cfg from to).
Proof.
  intros Hu. unfold warmSlotRangeOrphans. apply safe_get. intros s0.
  destruct (bool_decide _); [apply safe_ret|]. destruct (N.ltb_spec to from); [apply safe_ret|].
  apply safe_warm_batches; [done|done|lia].
Qed.

Lemma safe_collect_infos roots infos : safe (collect_infos roots infos).
Proof. unfold collect_infos. apply safe_get. intros s. apply safe_ret. Qed.

Lemma safe_collect_orphans roots slot : safe (collect_orphans cfg roots slot).
Proof.
  unfold collect_orphans. apply safe_bind; [|intros; apply safe_collect_infos].
  eapply safe_call. intros s Hs. by apply archiveOrphanInfosBySlot_spec.
Qed.

Lemma safe_warm_roots from to : safe (warm_roots iterate cfg from to).
Proof.
  intros s Hs. unfold warm_roots. st_step.
  destruct (Z.eqb_spec (Mode cfg) ModeFirstSeenGossip) as [Hmode|_].
  - case_bool_decide; [by split|].
    eapply call_impl; [apply (call_fold _ _ _ (fun _ _ _ => True) any)| |]; try done.
    intros done slot left acc s1 _ Hs1 _. unfold collect_first_seen.
    eapply call_bind; [apply first_seen_spec; [done|]| |done]; [by apply Hs1|].
    intros atts s2 Hs2 _. st_step. by apply call_ret.
  - revert s Hs. cut (forall m, safe (roots ← collect_infos ∅ m;
      s0 ← st_get; st_fold (collect_orphans cfg) roots (iterate (dom (orphanRootsBySlot s0)))));
      [intros H s Hs; by apply H|].
    intros m. apply safe_bind; [apply safe_collect_infos|]. intros roots. apply safe_get. intros s.
    apply safe_fold. apply safe_collect_orphans.
Qed.

Lemma safe_warm_plan from to loadEnd : u64 loadEnd -> safe (warm_plan iterate cfg from to loadEnd).
Proof.
  intros Hu. unfold warm_plan. apply safe_bind.
  - destruct (_ =? _)%Z; [by apply safe_warmSlotRangeOrphans|apply safe_ret].
  - intros []. apply safe_bind; [apply safe_warm_roots|]. intros roots. apply safe_fold.
    intros u root. unfold warm_chain. apply safe_bind.
    + eapply safe_call. intros s Hs. by apply resolveOrphanChain_call.
    + intros chain. apply safe_on_warm. auto with warm.
Qed.

(** The state between two ranges. *)
Definition between (st : realBackend R CS CR A F * archiveWarmAccumulator) : Prop :=
  quiet (SlotFork cfg) content (ix st.1) /\ noted_ok cfg content (acc_orphanRootsBySlot st.2).

Lemma warmArchiveCache_spec from to st :
  u64 to -> between st ->
  let '(o, st') := warmArchiveCache iterate cfg from to st in o ≠ Panic /\ between st'.
Proof.
  intros Hu Hst. destruct st as [b acc]. destruct Hst as [Hq Hn]. cbn in Hq, Hn. unfold warmArchiveCache.
  case_bool_decide; [by split_and!|]. destruct (era (ix b)); [|by split_and!].
  destruct (to <=? from); [by split_and!|].
  rewrite saturatingAdd_spec by done. set (loadEnd := N.min _ _).
  assert (Hul : u64 loadEnd) by (unfold loadEnd; u64_lia).
  pose proof (loadCanonicalBlockInfos_spec (SlotFork cfg) content from loadEnd (ix b) Hq Hul) as Hl.
  destruct (loadCanonicalBlockInfos _ _ _ _) as [[[sl rt]|e|] i]; destruct Hl as [Hq' Hm];
    [|by split_and!|done].
  set (b1 := mkBackend i _ _). set (s := mkPlan b1 _ _ _ _ _ _ _ _).
  destruct (decide (Mode cfg = ModeFirstSeenGossip /\ FirstSeenSource b = None)) as [[Hmode Hfs]|Hsome].
  - assert (warm_plan iterate cfg from to loadEnd s = (Err EFirstSeenNotConfigured, s)) as ->.
    { unfold warm_plan. rewrite Hmode. cbn. unfold mbind, stateM_bind, st_bind. cbn.
      unfold warm_roots. st_step. rewrite Hmode. cbn. by rewrite Hfs. }
    by split_and!.
  - assert (Hs : plan_ok s).
    { split_and!; [done|by apply (exact_maps_sound cfg content from loadEnd (sl, rt))| | |].
      - intros root info. cbn. by rewrite lookup_empty.
      - intros Hmode. cbn. destruct (FirstSeenSource b); [eauto|]. by destruct Hsome.
      - intros acc' [= <-]. exact Hn. }
    pose proof (safe_warm_plan from to loadEnd Hul s Hs) as Hc.
    destruct (warm_plan _ _ _ _ _ _) as [o s']. unfold PlanState.call in Hc.
    destruct o as [[]|e|]; [| |done]; destruct Hc as [(Hq2 & _ & _ & _ & Hw) _];
      (split; [done|]); (split; [exact Hq2|]); cbn;
      (destruct (warm s') as [a|] eqn:Ha; cbn; [by apply Hw|exact Hn]).
Qed.

Lemma warm_ranges_spec ranges st :
  Forall (fun r => u64 r.2) ranges -> between st ->
  let '(o, st') := warm_ranges iterate cfg ranges st in o ≠ Panic /\ between st'.
Proof.
  unfold warm_ranges. revert st. induction ranges as [|[from to] ranges IH]; intros st Hr Hst; cbn.
  { by split. }
  apply Forall_cons in Hr as [Hu Hr]. unfold st_bind.
  pose proof (warmArchiveCache_spec from to st Hu Hst) as H.
  destruct (warmArchiveCache _ _ _ _ _) as [[[]|e|] st']; destruct H as [? Hst']; [|by split..].
  by apply IH.
Qed.

Lemma cloneOrphanRoots_ok m :
  noted_ok cfg content m -> noted_ok cfg content (cloneOrphanRootsBySlot m)
  /\ forall slot roots, cloneOrphanRootsBySlot m !! slot = Some roots ->
       roots ≠ [] /\ StronglySorted (not_less bytes_less) roots.
Proof.
  intros Hm. assert (H : forall slot roots, cloneOrphanRootsBySlot m !! slot = Some roots ->
    exists roots0, m !! slot = Some roots0 /\ roots0 ≠ [] /\ roots = sort_by bytes_less roots0).
  { intros slot roots. unfold cloneOrphanRootsBySlot. rewrite lookup_fmap, map_lookup_filter.
    destruct (m !! slot) as [r|]; cbn; [|done]. case_guard; cbn; [|done]. intros [= <-]. eauto. }
  split; intros slot roots Hs; destruct (H _ _ Hs) as (r & Hr & Hne & ->);
    pose proof (sort_by_perm bytes_less r) as Hp.
  - destruct (Hm _ _ Hr) as (? & ? & ?). by rewrite length_sort_by, Hp.
  - split.
    + intros Hnil. rewrite Hnil in Hp. apply Permutation_nil_l in Hp. by subst.
    + apply sort_by_sorted; eauto with bytes.
Qed.
End warm_lemmas.

(** ** Theorems *)

(** C25: the warm-up pass never panics and terminates on every list of ranges, in
    whatever order maps are iterated and whatever the archive answers, an error
    included; and the orphan roots it hands to the serving backends are right: per
    slot a non-empty sorted list of at most eight distinct non-zero roots, each of
    a block that decoded, is at that slot and is not the canonical block there. *)
Theorem WarmBlockArchiveCache_sound {E2 : Eth2} {R} {BS : BlockSource R} {CS} {LS : Lru N blockInfo CS}
    {CR} {LR : Lru bytes blockInfo CR} {A} {AR : Archive A} {F} {FS : FirstSeen F}
    (iterate : gset N -> list N) (cfg : RealBackendConfig) (cacheSize : Z) (r : R)
    (archive : option A) (firstSeen : option F) (ranges : list (N * N)) :
  source_ok r -> Forall (fun range => u64 range.2) ranges ->
  let '(o, result, b) := WarmBlockArchiveCache (CS := CS) (CR := CR) iterate cfg cacheSize (Some r)
                           archive firstSeen ranges in
  o ≠ Panic /\ quiet (SlotFork cfg) (Sources.source_block r) (ix b)
  /\ forall slot roots, OrphanRootsBySlot result !! slot = Some roots ->
      (1 <= length roots <= maxArchiveOrphansPerSlot)%nat /\ NoDup roots
      /\ StronglySorted (not_less bytes_less) roots
      /\ Forall (fun root => root ≠ zero_root /\ exists info, parsed cfg info /\ Slot info = slot
                   /\ Root info = root /\ ~ is_canonical cfg (Sources.source_block r) info) roots.
Proof.
  intros Hr Hu. unfold WarmBlockArchiveCache.
  pose proof (warm_ranges_spec iterate (warm_config cfg) (Sources.source_block r) ranges
    (mkBackend (newState (Some r) cacheSize) archive firstSeen, newArchiveWarmAccumulator) Hu) as H.
  destruct (warm_ranges _ _ _ _) as [o [b acc]].
  destruct H as [Hp [Hq Hn]]; [split; [by apply newState_quiet|apply noted_ok_empty]|].
  split; [done|]. split; [done|]. intros slot roots Hs. cbn in Hs.
  destruct (cloneOrphanRoots_ok (warm_config cfg) (Sources.source_block r) _ Hn) as [Hn' Hs'].
  destruct (Hn' _ _ Hs) as (? & ? & ?), (Hs' _ _ Hs) as [Hne ?]. split_and!; try done.
  destruct roots; cbn; [done|lia].
Qed.

Lemma WarmBlockArchiveCache_sound_witness :
  let '(o, result, _) := WarmBlockArchiveCache (CS := list (N * blockInfo)) (CR := list (bytes * blockInfo))
    elements (toy_config ModeGreedyLookahead 1) 16 (Some toy_reader) (Some toy_orphans) (Some tt) [(101, 103)] in
  (is_Ok o, OrphanRootsBySlot result !! 102) = (true, Some [toy_root Byte.x99])
  /\ [toy_root Byte.x99] ≠ []
  /\ exists info, Slot info = 102 /\ ~ is_canonical (toy_config ModeGreedyLookahead 1) (Sources.source_block toy_reader) info.
Proof.
  pose proof (WarmBlockArchiveCache_sound (CS := list (N * blockInfo)) (CR := list (bytes * blockInfo))
    elements (toy_config ModeGreedyLookahead 1) 16 toy_reader (Some toy_orphans) (Some tt) [(101, 103)]
    toy_reader_ok ltac:(repeat constructor; vm_compute; done)) as H.
  assert (Hrun : let '(o, result, _) := WarmBlockArchiveCache (CS := list (N * blockInfo)) (CR := list (bytes * blockInfo))
    elements (toy_config ModeGreedyLookahead 1) 16 (Some toy_reader) (Some toy_orphans) (Some tt) [(101, 103)] in
    (is_Ok o, OrphanRootsBySlot result !! 102) = (true, Some [toy_root Byte.x99])) by (vm_compute; reflexivity).
  destruct (WarmBlockArchiveCache _ _ _ _ _ _ _) as [[o result] b].
  split; [exact Hrun|]. split; [discriminate|]. injection Hrun as _ Hl.
  destruct H as (_ & _ & H). destruct (H _ _ Hl) as (_ & _ & _ & Hf).
  apply Forall_cons in Hf as [(_ & info & _ & Hs & _ & Hn) _]. by exists info.
Defined.
