(* ===== verification/Json.v ===== *)
(** * The parts of Go's [unicode/utf8], [strings] and [encoding/json] the tools use

    [encoding/json] is modelled as it is implemented: the scanner is a push-down
    automaton that reads one byte at a time (so it is total without fuel) and
    string literals are unquoted when they end.  A value keeps the members of an
    object in order, with duplicates, and the text of a number, which is what the
    decoders look at. *)

From S2P Require Import Prelude Bytes.
From Stdlib Require Import Strings.Byte.

(** ** Runes ([utf8.DecodeRune], [utf8.AppendRune]) *)

Abbreviation RuneError := 65533%N (only parsing).

(** [b] is a byte of the inclusive range. *)
Definition byte_in (lo hi : N) (b : byte) : bool := (lo <=? byte_val b) && (byte_val b <=? hi).

Definition cont (b : byte) : bool := byte_in 128 191 b.

(** The first rune and its width; an invalid byte is [(RuneError, 1)]. *)
Definition decode_rune (s : bytes) : N * nat :=
  match s with
  | [] => (RuneError, 0%nat)
  | b0 :: s1 =>
      let v0 := byte_val b0 in
      if v0 <? 128 then (v0, 1%nat)
      else match s1 with
      | [] => (RuneError, 1%nat)
      | b1 :: s2 =>
          let v1 := byte_val b1 in
          if byte_in 194 223 b0 && cont b1 then (64 * (v0 - 192) + (v1 - 128), 2%nat)
          else match s2 with
          | [] => (RuneError, 1%nat)
          | b2 :: s3 =>
              let v2 := byte_val b2 in
              let lo := if v0 =? 224 then 160 else 128 in
              let hi := if v0 =? 237 then 159 else 191 in
              if byte_in 224 239 b0 && byte_in lo hi b1 && cont b2
              then (4096 * (v0 - 224) + 64 * (v1 - 128) + (v2 - 128), 3%nat)
              else match s3 with
              | [] => (RuneError, 1%nat)
              | b3 :: _ =>
                  let lo := if v0 =? 240 then 144 else 128 in
                  let hi := if v0 =? 244 then 143 else 191 in
                  if byte_in 240 244 b0 && byte_in lo hi b1 && cont b2 && cont b3
                  then (262144 * (v0 - 240) + 4096 * (v1 - 128) + 64 * (v2 - 128)
                        + (byte_val b3 - 128), 4%nat)
                  else (RuneError, 1%nat)
              end
          end
      end
  end.

Definition encode_rune (r : N) : bytes :=
  let r := if ((55296 <=? r) && (r <=? 57343)) || (1114111 <? r) then RuneError else r in
  if r <? 128 then [to_byte r]
  else if r <? 2048 then [to_byte (192 + r / 64); to_byte (128 + r mod 64)]
  else if r <? 65536 then
    [to_byte (224 + r / 4096); to_byte (128 + r / 64 mod 64); to_byte (128 + r mod 64)]
  else [to_byte (240 + r / 262144); to_byte (128 + r / 4096 mod 64);
        to_byte (128 + r / 64 mod 64); to_byte (128 + r mod 64)].

(** The string cut into runes; every step takes at least a byte. *)
Fixpoint runes_fuel (fuel : nat) (s : bytes) : list bytes :=
  match fuel, s with
  | S fuel', _ :: _ =>
      let n := (decode_rune s).2 in take n s :: runes_fuel fuel' (drop n s)
  | _, _ => []
  end.

Definition runes (s : bytes) : list bytes := runes_fuel (length s) s.

(** A byte that is not part of a valid encoding. *)
Definition bad_rune (r : bytes) : bool :=
  match r with [b] => 128 <=? byte_val b | _ => false end.

(** [utf8.ValidString] *)
Definition valid_utf8 (s : bytes) : bool := forallb (fun r => negb (bad_rune r)) (runes s).

(** ** [strings.TrimSpace] and [strings.EqualFold] *)

(** [unicode.IsSpace] *)
Definition is_space (r : N) : bool :=
  ((9 <=? r) && (r <=? 13)) || (r =? 32) || (r =? 133) || (r =? 160) || (r =? 5760)
  || ((8192 <=? r) && (r <=? 8202)) || (r =? 8232) || (r =? 8233) || (r =? 8239)
  || (r =? 8287) || (r =? 12288).

Definition space_rune (r : bytes) : bool := negb (bad_rune r) && is_space (decode_rune r).1.

Fixpoint drop_spaces (l : list bytes) : list bytes :=
  match l with r :: l' => if space_rune r then drop_spaces l' else l | [] => [] end.

Definition TrimSpace (s : bytes) : bytes :=
  concat (reverse (drop_spaces (reverse (drop_spaces (runes s))))).

(** ASCII upper case; the two other runes that fold to an ASCII letter are U+017F
    (long s) and U+212A (Kelvin sign). *)
Definition fold_rune (r : bytes) : bytes :=
  match r with
  | [b] => if byte_in 97 122 b then [to_byte (byte_val b - 32)] else r
  | [b0; b1] => if decide (r = [xc5; xbf]) then str "S" else r
  | [b0; b1; b2] => if decide (r = [xe2; x84; xaa]) then str "K" else r
  | _ => r
  end.

(** Equal folds; exact for [strings.EqualFold] when one side is ASCII. *)
Definition fold_name (s : bytes) : bytes := concat (fold_rune <$> runes s).

Definition EqualFold (a b : bytes) : bool := bool_decide (fold_name a = fold_name b).

(** ** Values *)

Inductive jvalue :=
| JNull
| JBool (b : bool)
| JNumber (text : bytes)
| JString (s : bytes)
| JArray (l : list jvalue)
| JObject (members : list (bytes * jvalue)).

(** ** String literals *)

(** [getu4]: the number of a leading [\uXXXX], and what follows it. *)
Definition getu4 (s : bytes) : option (N * bytes) :=
  match s with
  | e :: u :: digits =>
      if bool_decide (e = x5c /\ u = x75) then
        match digits with
        | a :: b :: c :: d :: s' =>
            v3 ← hex_value a; v2 ← hex_value b; v1 ← hex_value c; v0 ← hex_value d;
            Some (4096 * v3 + 256 * v2 + 16 * v1 + v0, s')
        | _ => None
        end
      else None
  | _ => None
  end.

(** [utf16.IsSurrogate], [utf16.DecodeRune]; [None] is the replacement character. *)
Definition is_surrogate (r : N) : bool := (55296 <=? r) && (r <? 57344).

Definition surrogate_pair (r1 r2 : N) : option N :=
  if (55296 <=? r1) && (r1 <? 56320) && (56320 <=? r2) && (r2 <? 57344)
  then Some (65536 + 1024 * (r1 - 55296) + (r2 - 56320)) else None.

Definition unescape (c : byte) : option bytes :=
  if bool_decide (c ∈ [x22; x5c; x2f; x27]) then Some [c]
  else if decide (c = x62) then Some [x08]
  else if decide (c = x66) then Some [x0c]
  else if decide (c = x6e) then Some [x0a]
  else if decide (c = x72) then Some [x0d]
  else if decide (c = x74) then Some [x09]
  else None.

(** What the next character of a literal stands for, and what follows it; [None] is
    a failure of [unquote]. *)
Definition unquote_step (s : bytes) : option (bytes * bytes) :=
  match s with
  | [] => None
  | c :: s' =>
      if decide (c = x5c) then
        match getu4 s with
        | Some (r, rest) =>
            if is_surrogate r then
              match getu4 rest with
              | Some (r2, rest2) =>
                  match surrogate_pair r r2 with
                  | Some dec => Some (encode_rune dec, rest2)
                  | None => Some (encode_rune RuneError, rest)
                  end
              | None => Some (encode_rune RuneError, rest)
              end
            else Some (encode_rune r, rest)
        | None => match s' with e :: rest => b ← unescape e; Some (b, rest) | [] => None end
        end
      else if bool_decide (c = x22) || (byte_val c <? 32) then None
      else
        let r := take (decode_rune s).2 s in
        if bad_rune r then Some (encode_rune RuneError, s')
        else Some (r, drop (length r) s)
  end.

(** [unquote], on the bytes between the quotes; every step takes at least a byte. *)
Fixpoint unquote_fuel (fuel : nat) (s : bytes) : option bytes :=
  match s with
  | [] => Some []
  | _ => match fuel with
         | O => None
         | S fuel' => '(b, rest) ← unquote_step s; app b <$> unquote_fuel fuel' rest
         end
  end.

Definition unquote (s : bytes) : option bytes := unquote_fuel (length s) s.

(** [appendString] of one rune, without HTML escaping. *)
Definition quote_rune (r : bytes) : bytes :=
  match r with
  | [b] =>
      if 128 <=? byte_val b then str "\ufffd"
      else if bool_decide (b ∈ [x22; x5c]) then [x5c; b]
      else if decide (b = x08) then str "\b"
      else if decide (b = x0c) then str "\f"
      else if decide (b = x0a) then str "\n"
      else if decide (b = x0d) then str "\r"
      else if decide (b = x09) then str "\t"
      else if byte_val b <? 32 then str "\u00" ++ hex_encode [b]
      else [b]
  | _ =>
      if decide (r = [xe2; x80; xa8]) then str "\u2028"
      else if decide (r = [xe2; x80; xa9]) then str "\u2029"
      else r
  end.

Definition quote (s : bytes) : bytes := x22 :: concat (quote_rune <$> runes s) ++ [x22].

(** ** The scanner *)

(** What is open around the value being read. *)
Inductive frame :=
| FKey (members : list (bytes * jvalue))
| FValue (members : list (bytes * jvalue)) (key : bytes)
| FArray (items : list jvalue).

Inductive jstep :=
| SBeginValue
| SBeginValueOrEmpty
| SBeginString
| SBeginStringOrEmpty
| SEndValue (v : jvalue)
| SEndTop (v : jvalue)
| SInString (acc : bytes)
| SEsc (acc : bytes)
| SEscU (more : nat) (acc : bytes)
| SNeg (acc : bytes)
| SNum1 (acc : bytes)
| SNum0 (acc : bytes)
| SDot (acc : bytes)
| SDot0 (acc : bytes)
| SE (acc : bytes)
| SESign (acc : bytes)
| SE0 (acc : bytes)
| SLit (rest : bytes) (v : jvalue).

Abbreviation maxNestingDepth := 10000%nat (only parsing).

Definition json_space (c : byte) : bool := bool_decide (c ∈ [x20; x09; x0d; x0a]).
Definition digit (c : byte) : bool := byte_in 48 57 c.
Definition exp_mark (c : byte) : bool := bool_decide (c ∈ [x65; x45]).

Definition jstate : Type := jstep * list frame.

(** [popParseState] after the value [v]. *)
Definition pop_state (v : jvalue) (stk : list frame) : jstate :=
  match stk with [] => (SEndTop v, []) | _ => (SEndValue v, stk) end.

Definition push_state (f : frame) (s : jstep) (stk : list frame) : option jstate :=
  if decide (length stk < maxNestingDepth)%nat then Some (s, f :: stk) else None.

(** [stateEndValue]: the byte [c] after the value [v]. *)
Definition end_value (v : jvalue) (stk : list frame) (c : byte) : option jstate :=
  match stk with
  | [] => if json_space c then Some (SEndTop v, []) else None
  | f :: stk' =>
      if json_space c then Some (SEndValue v, stk)
      else match f with
      | FKey ms =>
          match v with
          | JString k => if decide (c = x3a) then Some (SBeginValue, FValue ms k :: stk') else None
          | _ => None
          end
      | FValue ms k =>
          if decide (c = x2c) then Some (SBeginString, FKey (ms ++ [(k, v)]) :: stk')
          else if decide (c = x7d) then Some (pop_state (JObject (ms ++ [(k, v)])) stk')
          else None
      | FArray items =>
          if decide (c = x2c) then Some (SBeginValue, FArray (items ++ [v]) :: stk')
          else if decide (c = x5d) then Some (pop_state (JArray (items ++ [v])) stk')
          else None
      end
  end.

Definition begin_string (stk : list frame) (c : byte) : option jstate :=
  if json_space c then Some (SBeginString, stk)
  else if decide (c = x22) then Some (SInString [], stk) else None.

Definition begin_value (stk : list frame) (c : byte) : option jstate :=
  if json_space c then Some (SBeginValue, stk)
  else if decide (c = x7b) then push_state (FKey []) SBeginStringOrEmpty stk
  else if decide (c = x5b) then push_state (FArray []) SBeginValueOrEmpty stk
  else if decide (c = x22) then Some (SInString [], stk)
  else if decide (c = x2d) then Some (SNeg [c], stk)
  else if decide (c = x30) then Some (SNum0 [c], stk)
  else if decide (c = x74) then Some (SLit (str "rue") (JBool true), stk)
  else if decide (c = x66) then Some (SLit (str "alse") (JBool false), stk)
  else if decide (c = x6e) then Some (SLit (str "ull") JNull, stk)
  else if digit c then Some (SNum1 [c], stk)
  else None.

(** A number may go on with a fraction or an exponent. *)
Definition state_0 (acc : bytes) (stk : list frame) (c : byte) : option jstate :=
  if decide (c = x2e) then Some (SDot (acc ++ [c]), stk)
  else if exp_mark c then Some (SE (acc ++ [c]), stk)
  else end_value (JNumber acc) stk c.

Definition state_esign (acc : bytes) (stk : list frame) (c : byte) : option jstate :=
  if digit c then Some (SE0 (acc ++ [c]), stk) else None.

Definition scan_step (st : jstate) (c : byte) : option jstate :=
  let '(s, stk) := st in
  match s with
  | SBeginValue => begin_value stk c
  | SBeginValueOrEmpty =>
      if json_space c then Some st
      else if decide (c = x5d) then
        match stk with _ :: stk' => Some (pop_state (JArray []) stk') | [] => None end
      else begin_value stk c
  | SBeginString => begin_string stk c
  | SBeginStringOrEmpty =>
      if json_space c then Some st
      else if decide (c = x7d) then
        match stk with _ :: stk' => Some (pop_state (JObject []) stk') | [] => None end
      else begin_string stk c
  | SEndValue v => end_value v stk c
  | SEndTop v => if json_space c then Some st else None
  | SInString acc =>
      if decide (c = x22) then v ← unquote acc; Some (SEndValue (JString v), stk)
      else if decide (c = x5c) then Some (SEsc (acc ++ [c]), stk)
      else if byte_val c <? 32 then None
      else Some (SInString (acc ++ [c]), stk)
  | SEsc acc =>
      if bool_decide (c ∈ [x62; x66; x6e; x72; x74; x5c; x2f; x22]) then Some (SInString (acc ++ [c]), stk)
      else if decide (c = x75) then Some (SEscU 3 (acc ++ [c]), stk)
      else None
  | SEscU more acc =>
      match hex_value c with
      | Some _ => Some (match more with O => SInString (acc ++ [c]) | S k => SEscU k (acc ++ [c]) end, stk)
      | None => None
      end
  | SNeg acc =>
      if decide (c = x30) then Some (SNum0 (acc ++ [c]), stk)
      else if digit c then Some (SNum1 (acc ++ [c]), stk) else None
  | SNum1 acc => if digit c then Some (SNum1 (acc ++ [c]), stk) else state_0 acc stk c
  | SNum0 acc => state_0 acc stk c
  | SDot acc => if digit c then Some (SDot0 (acc ++ [c]), stk) else None
  | SDot0 acc =>
      if digit c then Some (SDot0 (acc ++ [c]), stk)
      else if exp_mark c then Some (SE (acc ++ [c]), stk)
      else end_value (JNumber acc) stk c
  | SE acc =>
      if bool_decide (c ∈ [x2b; x2d]) then Some (SESign (acc ++ [c]), stk) else state_esign acc stk c
  | SESign acc => state_esign acc stk c
  | SE0 acc => if digit c then Some (SE0 (acc ++ [c]), stk) else end_value (JNumber acc) stk c
  | SLit rest v =>
      match rest with
      | c' :: rest' =>
          if decide (c = c') then Some (match rest' with [] => SEndValue v | _ => SLit rest' v end, stk)
          else None
      | [] => None
      end
  end.

Fixpoint scan (st : jstate) (s : bytes) : option jstate :=
  match s with [] => Some st | c :: s' => st' ← scan_step st c; scan st' s' end.

(** The value a JSON text denotes ([checkValid] and [decodeState.value]); the end of
    the input acts as a space. *)
Definition parse_json (s : bytes) : option jvalue :=
  match scan (SBeginValue, []) (s ++ [x20]) with
  | Some (SEndTop v, _) => Some v
  | _ => None
  end.

(** ** Decoding into a Go value ([literalStore]) *)

(** [strconv.ParseInt(s, 10, 64)], of a JSON number. *)
Definition parse_int (s : bytes) : option Z :=
  if has_prefix s [x2d] then
    n ← parse_uint (drop 1 s);
    if n <=? 9223372036854775808 then Some (- Z.of_N n)%Z else None
  else
    n ← parse_uint s;
    if n <=? 9223372036854775807 then Some (Z.of_N n) else None.

(** Storing into a variable that holds [old]; [None] is an [UnmarshalTypeError]. *)
Definition store_uint (v : jvalue) (old : N) : option N :=
  match v with JNull => Some old | JNumber t => parse_uint t | _ => None end.
Definition store_int (v : jvalue) (old : Z) : option Z :=
  match v with JNull => Some old | JNumber t => parse_int t | _ => None end.
Definition store_bool (v : jvalue) (old : bool) : option bool :=
  match v with JNull => Some old | JBool b => Some b | _ => None end.
Definition store_string (v : jvalue) (old : bytes) : option bytes :=
  match v with JNull => Some old | JString s => Some s | _ => None end.
Definition store_ptr {A} (store : jvalue -> A -> option A) (zero : A) (v : jvalue) (old : option A)
    : option (option A) :=
  match v with JNull => Some None | _ => Some <$> store v (default zero old) end.

(** Into a slice: an element is decoded over the one already at its index. *)
Fixpoint store_items {A} (store : jvalue -> A -> option A) (zero : A) (items : list jvalue) (old : list A)
    : option (list A) :=
  match items with
  | [] => Some []
  | v :: items' =>
      a ← store v (default zero (head old));
      rest ← store_items store zero items' (tail old);
      Some (a :: rest)
  end.
Definition store_slice {A} (store : jvalue -> A -> option A) (zero : A) (v : jvalue) (old : list A)
    : option (list A) :=
  match v with JNull => Some [] | JArray items => store_items store zero items old | _ => None end.

(** The last value of a key in a map decoded from the object. *)
Definition map_get (members : list (bytes * jvalue)) (key : bytes) : option jvalue :=
  snd <$> last (filter (fun m => m.1 = key) members).

(** The members of an object that match a field of the struct (keys match up to
    letter case) are stored in turn; [None] is a type error in one of them. *)
Definition decode_field {T} (members : list (bytes * jvalue)) (name : bytes)
    (store : jvalue -> T -> option T) (zero : T) : option T :=
  foldl (fun acc m => if EqualFold m.1 name then acc ≫= store m.2 else acc) (Some zero) members.

(** ** Encoding of scalars and of a flat object *)

Definition format_bool (b : bool) : bytes := if b then str "true" else str "false".

Definition format_int (z : Z) : bytes :=
  if (z <? 0)%Z then x2d :: format_uint (Z.to_N (- z)) else format_uint (Z.to_N z).

(** Values of Go's integer types and pointers. *)
Definition jnum (n : N) : jvalue := JNumber (format_uint n).
Definition jint (z : Z) : jvalue := JNumber (format_int z).
Definition jopt {A} (f : A -> jvalue) (o : option A) : jvalue := match o with Some a => f a | None => JNull end.

Definition write_scalar (v : jvalue) : bytes :=
  match v with
  | JNull => str "null"
  | JBool b => format_bool b
  | JNumber t => t
  | JString s => quote s
  | _ => []
  end.

Fixpoint write_members (l : list (bytes * jvalue)) : bytes :=
  match l with
  | [] => [x7d]
  | (k, v) :: l' => quote k ++ x3a :: write_scalar v ++ (match l' with [] => [] | _ => [x2c] end) ++ write_members l'
  end.

Definition write_object (l : list (bytes * jvalue)) : bytes := x7b :: write_members l.

(** ** Lemmas: runes *)

Lemma decode_rune_width s : s ≠ [] -> (1 <= (decode_rune s).2 <= length s)%nat.
Proof. intros Hs. destruct s as [|b0 [|b1 [|b2 [|b3 s]]]]; [done|..]; cbn; case_ifs; cbn; lia. Qed.

(** A rune that is not an error is decoded from its own bytes alone. *)
Lemma decode_rune_app s t :
  s ≠ [] -> bad_rune (take (decode_rune s).2 s) = false ->
  decode_rune (take (decode_rune s).2 s ++ t) = decode_rune s.
Proof.
  intros Hs. unfold decode_rune. destruct s as [|b0 s]; [done|]. cbn zeta.
  destruct (byte_val b0 <? 128) eqn:H0; [cbn; by rewrite H0|].
  assert (Hbad : forall P : Prop, bad_rune (take 1 (b0 :: s)) = false -> P)
    by (intros P; cbn; rewrite (proj2 (N.leb_le _ _)) by (bool_to_prop; done); done).
  destruct s as [|b1 s]; [apply Hbad|].
  destruct (byte_in 194 223 b0 && cont b1) eqn:H1; [cbn; by rewrite H0, H1|].
  destruct s as [|b2 s]; [apply Hbad|].
  match goal with |- context [if ?c then _ else _] => destruct c eqn:H2 end;
    [cbn; by rewrite H0, H1, H2|].
  destruct s as [|b3 s]; [apply Hbad|].
  match goal with |- context [if ?c then _ else _] => destruct c eqn:H3 end;
    [cbn; by rewrite H0, H1, H2, H3|apply Hbad].
Qed.

Lemma runes_fuel_concat fuel s : (length s <= fuel)%nat -> concat (runes_fuel fuel s) = s.
Proof.
  revert s. induction fuel as [|fuel IH]; intros s Hs; [by destruct s; [|cbn in Hs; lia]|].
  destruct s as [|b s]; [done|]. cbn [runes_fuel concat].
  pose proof (decode_rune_width (b :: s) ltac:(done)).
  rewrite IH; [apply take_drop|]. rewrite length_drop. lia.
Qed.

Lemma runes_concat s : concat (runes s) = s.
Proof. by apply runes_fuel_concat. Qed.

(** The bytes of one valid rune. *)
Definition good_rune (r : bytes) : Prop :=
  r ≠ [] /\ bad_rune r = false /\ forall t, (decode_rune (r ++ t)).2 = length r.

Lemma runes_fuel_good fuel s :
  forallb (fun r => negb (bad_rune r)) (runes_fuel fuel s) = true ->
  Forall good_rune (runes_fuel fuel s).
Proof.
  revert s. induction fuel as [|fuel IH]; intros s Hv; [constructor|].
  destruct s as [|b s]; [constructor|]. cbn [runes_fuel] in *. cbn [forallb] in Hv. bool_to_prop.
  constructor; [|by apply IH]. pose proof (decode_rune_width (b :: s) ltac:(done)).
  split_and!; [|done|].
  - intros Hn%(f_equal length). rewrite length_take in Hn. cbn [length] in *. lia.
  - intros t. rewrite decode_rune_app by done. rewrite length_take. lia.
Qed.

Lemma runes_good s : valid_utf8 s = true -> Forall good_rune (runes s).
Proof. apply runes_fuel_good. Qed.

(** Bytes below 128 are runes of their own; the others are at least 128. *)
Lemma good_rune_cases r :
  good_rune r -> (exists b, r = [b] /\ byte_val b < 128)
  \/ ((2 <= length r)%nat /\ Forall (fun b => 128 <= byte_val b) r).
Proof.
  intros (Hne & Hb & Hw). specialize (Hw []). rewrite app_nil_r in Hw.
  destruct r as [|b0 [|b1 r]]; [done| |].
  - left. exists b0. cbn in Hb. split; [done|]. lia.
  - right. split; [cbn; lia|]. unfold decode_rune, byte_in, cont in Hw.
    destruct (byte_val b0 <? 128) eqn:H0; [done|]. unfold byte_in in Hw.
    destruct r as [|b2 r].
    { destruct (_ && _) eqn:H1 in Hw; [|done]. bool_to_prop. rewrite !Forall_cons. split_and!; (apply Forall_nil_2 || lia). }
    destruct (_ && _) eqn:H1 in Hw; [done|].
    destruct r as [|b3 r].
    { destruct (_ && _) eqn:H2 in Hw; [|done]. bool_to_prop. rewrite !Forall_cons. split_and!; (apply Forall_nil_2 || (repeat case_match; lia)). }
    destruct (_ && _) eqn:H2 in Hw; [done|].
    destruct (_ && _) eqn:H3 in Hw; [|done]. destruct r; [|done].
    bool_to_prop. rewrite !Forall_cons. split_and!; (apply Forall_nil_2 || (repeat case_match; lia)).
Qed.

(** ** Lemmas: string literals *)

(** Bytes scanned inside a literal. *)
Lemma scan_plain b acc stk t :
  b ≠ x22 -> b ≠ x5c -> 32 <= byte_val b ->
  scan (SInString acc, stk) (b :: t) = scan (SInString (acc ++ [b]), stk) t.
Proof.
  intros. cbn. rewrite !decide_False by done. by destruct (N.ltb_spec (byte_val b) 32); [lia|].
Qed.

Lemma scan_esc c acc stk t :
  c ∈ [x62; x66; x6e; x72; x74; x5c; x2f; x22] ->
  scan (SInString acc, stk) (x5c :: c :: t) = scan (SInString (acc ++ [x5c; c]), stk) t.
Proof.
  intros Hc. assert (Hs : scan_step (SEsc (acc ++ [x5c]), stk) c = Some (SInString ((acc ++ [x5c]) ++ [c]), stk))
    by (unfold scan_step; by rewrite bool_decide_eq_true_2 by done).
  transitivity (scan (SEsc (acc ++ [x5c]), stk) (c :: t)); [done|]. cbn [scan]. rewrite Hs.
  by rewrite <- app_assoc.
Qed.

Lemma scan_hex k c acc stk t :
  is_Some (hex_value c) ->
  scan (SEscU (S k) acc, stk) (c :: t) = scan (SEscU k (acc ++ [c]), stk) t
  /\ scan (SEscU 0 acc, stk) (c :: t) = scan (SInString (acc ++ [c]), stk) t.
Proof. intros [? Hc]. cbn [scan]. unfold scan_step. by rewrite Hc. Qed.

Lemma scan_escu a b c d acc stk t :
  Forall (fun x => is_Some (hex_value x)) [a; b; c; d] ->
  scan (SInString acc, stk) (x5c :: x75 :: a :: b :: c :: d :: t)
  = scan (SInString (acc ++ [x5c; x75; a; b; c; d]), stk) t.
Proof.
  rewrite !Forall_cons. intros (Ha & Hb & Hc & Hd & _).
  transitivity (scan (SEscU 3 ((acc ++ [x5c]) ++ [x75]), stk) (a :: b :: c :: d :: t)); [done|].
  rewrite (proj1 (scan_hex 2 _ _ _ _ Ha)), (proj1 (scan_hex 1 _ _ _ _ Hb)),
    (proj1 (scan_hex 0 _ _ _ _ Hc)), (proj2 (scan_hex 0 _ _ _ _ Hd)). by rewrite <- !app_assoc.
Qed.

(** An escaped ASCII character is read back, and is scanned inside a literal. *)
Lemma quote_ascii_unquote b t :
  byte_val b < 128 -> quote_rune [b] ≠ [] /\ unquote_step (quote_rune [b] ++ t) = Some ([b], t).
Proof.
  intros Hb. assert (exists s, quote_rune [b] = s /\ s ≠ []
    /\ unquote_step (s ++ t) = Some ([b], t)) as (s & -> & ?); [|naive_solver].
  destruct b; try (exfalso; apply N.ltb_lt in Hb; vm_compute in Hb; discriminate);
    (eexists; split; [vm_compute; reflexivity|]; split; [discriminate|]; reflexivity).
Qed.

Lemma quote_ascii_scan b acc stk t :
  byte_val b < 128 ->
  scan (SInString acc, stk) (quote_rune [b] ++ t) = scan (SInString (acc ++ quote_rune [b]), stk) t.
Proof.
  intros Hb. assert (exists s, quote_rune [b] = s
    /\ scan (SInString acc, stk) (s ++ t) = scan (SInString (acc ++ s), stk) t) as (s & -> & ->); [|done].
  destruct b; try (exfalso; apply N.ltb_lt in Hb; vm_compute in Hb; discriminate);
    (eexists; split; [vm_compute; reflexivity|];
     first [ apply scan_plain; [discriminate|discriminate|vm_compute; discriminate]
           | apply scan_esc; rewrite <- (bool_decide_spec _); reflexivity
           | apply scan_escu; repeat constructor; eexists; reflexivity]).
Qed.

Lemma quote_rune_wide r :
  (2 <= length r)%nat ->
  quote_rune r = r
  \/ (r = [xe2; x80; xa8] /\ quote_rune r = str "\u2028") \/ (r = [xe2; x80; xa9] /\ quote_rune r = str "\u2029").
Proof.
  destruct r as [|b0 [|b1 r]]; cbn [length]; [lia|lia|]. intros _. unfold quote_rune.
  destruct (decide _) as [->|]; [by auto|]. destruct (decide _) as [->|]; by auto.
Qed.

Lemma scan_high r acc stk t :
  Forall (fun b => 128 <= byte_val b) r ->
  scan (SInString acc, stk) (r ++ t) = scan (SInString (acc ++ r), stk) t.
Proof.
  intros Hr. revert acc. induction Hr as [|b r Hb Hr IH]; intros acc; [by rewrite app_nil_r|].
  cbn [app]. rewrite scan_plain, IH, <- app_assoc; [done| | |lia]; intros ->; vm_compute in Hb; by apply Hb.
Qed.

(** A valid rune is read back from its escaped form. *)
Lemma quote_rune_unquote r t :
  good_rune r -> quote_rune r ≠ [] /\ unquote_step (quote_rune r ++ t) = Some (r, t).
Proof.
  intros Hg. destruct (good_rune_cases r Hg) as [(b & -> & Hb)|[Hl Hh]]; [by apply quote_ascii_unquote|].
  destruct (quote_rune_wide r Hl) as [->|[[-> ->]|[-> ->]]]; [|by split..].
  destruct Hg as (Hne & Hbad & Hw). split; [done|]. destruct r as [|b r]; [done|].
  apply Forall_cons in Hh as [Hb _]. cbn [app]. unfold unquote_step. change (b :: r ++ t) with ((b :: r) ++ t).
  rewrite Hw, take_app_length, drop_app_length, Hbad.
  rewrite decide_False by (intros ->; vm_compute in Hb; by apply Hb).
  rewrite bool_decide_eq_false_2 by (intros ->; vm_compute in Hb; by apply Hb).
  by destruct (N.ltb_spec (byte_val b) 32); [lia|].
Qed.

Lemma quote_rune_scan r acc stk t :
  good_rune r ->
  scan (SInString acc, stk) (quote_rune r ++ t) = scan (SInString (acc ++ quote_rune r), stk) t.
Proof.
  intros Hg. destruct (good_rune_cases r Hg) as [(b & -> & Hb)|[Hl Hh]]; [by apply quote_ascii_scan|].
  destruct (quote_rune_wide r Hl) as [->|[[_ ->]|[_ ->]]]; [by apply scan_high| |];
    apply scan_escu; repeat constructor; eexists; reflexivity.
Qed.

Lemma unquote_quoted l fuel :
  Forall good_rune l -> (length (concat (quote_rune <$> l)) <= fuel)%nat ->
  unquote_fuel fuel (concat (quote_rune <$> l)) = Some (concat l).
Proof.
  intros Hl. revert fuel. induction Hl as [|r l Hr Hl IH]; intros fuel Hf; [by destruct fuel|].
  cbn [fmap list_fmap concat] in *.
  destruct (quote_rune_unquote r (concat (quote_rune <$> l)) Hr) as [Hne Hs].
  rewrite length_app in Hf. destruct (quote_rune r) as [|q0 q]; [done|]. cbn [length] in Hf.
  destruct fuel as [|fuel]; [lia|]. cbn [app unquote_fuel] in *. rewrite Hs. cbn [mbind option_bind].
  change (list_fmap _ _ quote_rune l) with (quote_rune <$> l). rewrite IH by lia. done.
Qed.

Lemma scan_quoted l acc stk t :
  Forall good_rune l ->
  scan (SInString acc, stk) (concat (quote_rune <$> l) ++ t)
  = scan (SInString (acc ++ concat (quote_rune <$> l)), stk) t.
Proof.
  intros Hl. revert acc. induction Hl as [|r l Hr Hl IH]; intros acc; cbn; [by rewrite app_nil_r|].
  rewrite <- app_assoc, quote_rune_scan, IH by done. by rewrite <- app_assoc.
Qed.

(** A quoted valid string, as a key and as a value. *)
Lemma scan_quote_in s stk t :
  valid_utf8 s = true ->
  scan (SInString [], stk) (concat (quote_rune <$> runes s) ++ x22 :: t)
  = scan (SEndValue (JString s), stk) t.
Proof.
  intros Hs. rewrite scan_quoted by (by apply runes_good). cbn [app scan].
  assert (scan_step (SInString (concat (quote_rune <$> runes s)), stk) x22
          = Some (SEndValue (JString s), stk)) as ->; [|done].
  unfold scan_step. rewrite decide_True by done. unfold unquote.
  rewrite unquote_quoted by (by try apply runes_good). by rewrite runes_concat.
Qed.

Lemma scan_quote_value s stk t :
  valid_utf8 s = true ->
  scan (SBeginValue, stk) (quote s ++ t) = scan (SEndValue (JString s), stk) t.
Proof. intros. unfold quote. rewrite <- app_comm_cons, <- app_assoc. by rewrite <- scan_quote_in. Qed.

Lemma scan_quote_key s stk t :
  valid_utf8 s = true ->
  scan (SBeginString, stk) (quote s ++ t) = scan (SEndValue (JString s), stk) t
  /\ scan (SBeginStringOrEmpty, stk) (quote s ++ t) = scan (SEndValue (JString s), stk) t.
Proof. intros. unfold quote. rewrite <- app_comm_cons, <- app_assoc. by rewrite <- !scan_quote_in. Qed.

(** ** Lemmas: numbers *)

Lemma digit_of v : v < 10 -> byte_val (to_byte (48 + v)) = 48 + v.
Proof. intros. rewrite byte_val_to_byte. apply N.mod_small. lia. Qed.

Lemma parse_digits_spec s acc n :
  parse_digits s acc = Some n -> u64 acc -> Forall (fun c => digit c = true) s /\ u64 n.
Proof.
  revert acc. induction s as [|c s IH]; intros acc; cbn [parse_digits]; [by intros [= <-]|].
  destruct (_ && _) eqn:Hc; [|done]. destruct (N.ltb_spec MaxUint64 (10 * acc + (byte_val c - 48))); [done|].
  intros H' Ha. destruct (IH _ H') as [? ?]; [done|]. split; [|done]. constructor; [exact Hc|done].
Qed.

Lemma parse_uint_u64 s n : parse_uint s = Some n -> u64 n.
Proof. unfold parse_uint. destruct s; [done|]. intros [_ ?]%parse_digits_spec; [done|u64_lia]. Qed.

Lemma parse_digits_format fuel n acc :
  n < 10 ^ N.of_nat (S fuel) -> u64 n ->
  parse_digits (format_uint_aux (S fuel) n acc) 0 = parse_digits acc n.
Proof.
  revert n acc. induction fuel as [|fuel IH]; intros n acc Hn Hu; cbn [format_uint_aux].
  - change (10 ^ N.of_nat 1) with 10 in Hn. destruct (N.ltb_spec n 10); [|lia].
    cbn [parse_digits]. rewrite digit_of by lia. rewrite N.mod_small by lia.
    case_ifs; bool_to_prop; [u64_lia| |lia]. f_equal. lia.
  - set (d := to_byte _). assert (Hd : forall m, 10 * m + n mod 10 <= MaxUint64 ->
      parse_digits (d :: acc) m = parse_digits acc (10 * m + n mod 10)).
    { intros m Hm. cbn [parse_digits]. unfold d. rewrite digit_of by lia.
      replace (48 + n mod 10 - 48) with (n mod 10) by lia.
      case_ifs; bool_to_prop; [lia|done|lia]. }
    destruct (N.ltb_spec n 10).
    + rewrite Hd by u64_lia. f_equal. lia.
    + change (if n / 10 <? 10 then _ else _) with (format_uint_aux (S fuel) (n / 10) (d :: acc)).
      rewrite IH; [| |u64_lia].
      * rewrite Hd by u64_lia. f_equal. lia.
      * rewrite Nat2N.inj_succ, N.pow_succ_r' in Hn. apply N.Div0.div_lt_upper_bound. lia.
Qed.

Lemma lt_size n : n < 10 ^ N.of_nat (S (N.size_nat n)).
Proof.
  assert (n < 2 ^ N.of_nat (N.size_nat n)) as H.
  { destruct n as [|p]; [done|]. cbn [N.size_nat]. induction p as [p IH|p IH|]; [| |done];
      cbn [Pos.size_nat]; rewrite Nat2N.inj_succ, N.pow_succ_r'; lia. }
  assert (2 ^ N.of_nat (N.size_nat n) <= 10 ^ N.of_nat (N.size_nat n)) by (apply N.pow_le_mono_l; lia).
  rewrite Nat2N.inj_succ, N.pow_succ_r'. lia.
Qed.

(** The digits of a number; no leading zero, except for 0 itself. *)
Lemma format_uint_shape fuel n acc :
  n ≠ 0 -> n < 10 ^ N.of_nat fuel -> Forall (fun c => digit c = true) acc ->
  exists c s, format_uint_aux fuel n acc = c :: s /\ digit c = true /\ c ≠ x30
    /\ Forall (fun c => digit c = true) s.
Proof.
  revert n acc. induction fuel as [|fuel IH]; intros n acc Hn Hf Hacc; [cbn in Hf; lia|].
  assert (Hd : forall v, v < 10 -> digit (to_byte (48 + v)) = true).
  { intros v Hv. unfold digit, byte_in. rewrite digit_of by done.
    apply andb_true_iff. split; apply N.leb_le; lia. }
  cbn [format_uint_aux]. destruct (N.ltb_spec n 10).
  - do 2 eexists. split; [done|]. split_and!; [apply Hd; lia| |done].
    intros He%(f_equal byte_val). rewrite digit_of in He by lia. change (byte_val x30) with 48 in He. lia.
  - apply IH; [lia| |].
    + rewrite Nat2N.inj_succ, N.pow_succ_r' in Hf. apply N.Div0.div_lt_upper_bound. lia.
    + constructor; [|done]. apply Hd. lia.
Qed.

Lemma format_uint_ne n : format_uint n ≠ [].
Proof.
  unfold format_uint. destruct (decide (n = 0)) as [->|Hn]; [done|].
  destruct (format_uint_shape _ n [] Hn (lt_size n) ltac:(constructor)) as (c & s & -> & _). done.
Qed.

Lemma parse_format_uint n : u64 n -> parse_uint (format_uint n) = Some n.
Proof.
  intros Hu. unfold parse_uint. destruct (format_uint n) eqn:E; [by destruct (format_uint_ne n)|].
  rewrite <- E. unfold format_uint. by rewrite parse_digits_format by (try apply lt_size; done).
Qed.

Lemma format_uint_inj a b : u64 a -> u64 b -> format_uint a = format_uint b -> a = b.
Proof. intros Ha Hb H. apply parse_format_uint in Ha, Hb. congruence. Qed.

Lemma format_uint_all_digits n : u64 n -> Forall (fun c => digit c = true) (format_uint n).
Proof.
  intros Hn. pose proof (parse_format_uint n Hn) as H. unfold parse_uint in H.
  destruct (format_uint n) eqn:E; [done|]. apply parse_digits_spec in H; [apply H|u64_lia].
Qed.

(** A number ends at the byte after it. *)
Definition ends_number (c : byte) : bool := bool_decide (c ∈ [x2c; x7d; x5d; x20; x0a]).

Lemma scan_digits s acc stk t :
  Forall (fun c => digit c = true) s ->
  scan (SNum1 acc, stk) (s ++ t) = scan (SNum1 (acc ++ s), stk) t.
Proof.
  intros Hs. revert acc. induction Hs as [|c s Hc Hs IH]; intros acc; [by rewrite app_nil_r|].
  cbn [app scan]. assert (scan_step (SNum1 acc, stk) c = Some (SNum1 (acc ++ [c]), stk)) as ->
    by (unfold scan_step; by rewrite Hc).
  cbn [mbind option_bind]. by rewrite IH, <- app_assoc.
Qed.

Lemma scan_number n stk c t :
  ends_number c = true ->
  scan (SBeginValue, stk) (format_uint n ++ c :: t) = scan (SEndValue (JNumber (format_uint n)), stk) (c :: t).
Proof.
  intros Hc. assert (He : forall acc, scan (SNum0 acc, stk) (c :: t) = scan (SEndValue (JNumber acc), stk) (c :: t)
    /\ scan (SNum1 acc, stk) (c :: t) = scan (SEndValue (JNumber acc), stk) (c :: t)).
  { intros acc. unfold ends_number in Hc. apply bool_decide_eq_true in Hc.
    repeat (apply elem_of_cons in Hc as [->|Hc]; [by split|]). by apply elem_of_nil in Hc. }
  destruct (decide (n = 0)) as [->|Hn]; [by apply (He (str "0"))|].
  destruct (format_uint_shape _ n [] Hn (lt_size n) ltac:(constructor)) as (c0 & s & E & Hd & Hz & Hs).
  unfold format_uint. rewrite E. cbn [app scan].
  assert (scan_step (SBeginValue, stk) c0 = Some (SNum1 [c0], stk)) as ->.
  { clear -Hd Hz. destruct c0; try (vm_compute in Hd; discriminate); done. }
  cbn [mbind option_bind]. rewrite scan_digits by done. apply He.
Qed.

(** ** Lemmas: a written object is read back *)

Definition scalar_ok (v : jvalue) : Prop :=
  match v with
  | JNull | JBool _ => True
  | JNumber t => exists n, t = format_uint n
  | JString s => valid_utf8 s = true
  | _ => False
  end.

Lemma scan_scalar v stk c t :
  scalar_ok v -> ends_number c = true ->
  scan (SBeginValue, stk) (write_scalar v ++ c :: t) = scan (SEndValue v, stk) (c :: t).
Proof.
  intros Hv Hc. destruct v as [|[]|text|s|l|l]; try done.
  - destruct Hv as [n ->]. by apply scan_number.
  - by apply scan_quote_value.
Qed.

Lemma scan_member k v stk c t s0 :
  valid_utf8 k = true -> scalar_ok v -> ends_number c = true -> s0 ∈ [SBeginString; SBeginStringOrEmpty] ->
  forall ms, scan (s0, FKey ms :: stk) (quote k ++ x3a :: write_scalar v ++ c :: t)
  = scan (SEndValue v, FValue ms k :: stk) (c :: t).
Proof.
  intros Hk Hv Hc Hs0 ms. destruct (scan_quote_key k (FKey ms :: stk) (x3a :: write_scalar v ++ c :: t) Hk).
  rewrite <- (scan_scalar v _ c t Hv Hc).
  apply elem_of_cons in Hs0 as [->|Hs0]; [by etransitivity; [eassumption|]|].
  apply list_elem_of_singleton in Hs0 as ->. by etransitivity; [eassumption|].
Qed.

Lemma scan_members l ms stk t s0 :
  Forall (fun m => valid_utf8 m.1 = true /\ scalar_ok m.2) l ->
  (l = [] -> s0 = SBeginStringOrEmpty /\ ms = []) -> s0 ∈ [SBeginString; SBeginStringOrEmpty] ->
  scan (s0, FKey ms :: stk) (write_members l ++ t) = scan (pop_state (JObject (ms ++ l)) stk) t.
Proof.
  intros Hl. revert ms s0. induction Hl as [|[k v] l [Hk Hv] Hl IH]; intros ms s0 Hnil Hs0.
  { destruct (Hnil eq_refl) as [-> ->]. done. }
  cbn [write_members fst snd] in *. destruct l as [|m l].
  - replace ((_ ++ _) ++ t) with (quote k ++ x3a :: write_scalar v ++ x7d :: t)
      by (rewrite <- app_assoc; f_equal; cbn [app]; by rewrite <- app_assoc).
    by rewrite scan_member.
  - replace ((_ ++ _) ++ t) with (quote k ++ x3a :: write_scalar v ++ x2c :: (write_members (m :: l) ++ t))
      by (rewrite <- app_assoc; f_equal; cbn [app]; by rewrite <- !app_assoc).
    rewrite scan_member by done.
    transitivity (scan (SBeginString, FKey (ms ++ [(k, v)]) :: stk) (write_members (m :: l) ++ t)); [done|].
    rewrite IH; [by rewrite <- app_assoc|done|constructor].
Qed.

Lemma parse_write_object l :
  Forall (fun m => valid_utf8 m.1 = true /\ scalar_ok m.2) l ->
  parse_json (write_object l) = Some (JObject l).
Proof.
  intros Hl. unfold parse_json, write_object.
  transitivity (match scan (SBeginStringOrEmpty, [FKey []]) (write_members l ++ [x20]) with
    | Some (SEndTop v, _) => Some v | _ => None end); [done|].
  rewrite scan_members; [done|done|done|repeat constructor].
Qed.
