(* ===== verification/GoStrings.v ===== *)
(** * Package [strings] and [path/filepath]

    The string functions used by the downloader, the server and the command line.
    [TrimSpace] and [EqualFold] are in [Json]. *)

From S2P Require Import Prelude Bytes Json.
From Stdlib Require Import Strings.Byte.

(** [strings.TrimRight], of slashes *)
Definition trim_slashes (s : bytes) : bytes :=
  reverse ((fix go (l : bytes) := match l with
                                  | c :: l' => if decide (c = x2f) then go l' else l
                                  | [] => [] end) (reverse s)).

(** [strings.Contains] *)
Fixpoint contains (s sub : bytes) : bool :=
  has_prefix s sub || match s with [] => false | _ :: s' => contains s' sub end.

(** [strings.Index]; [None] is -1. *)
Fixpoint index_of (s sub : bytes) : option nat :=
  if has_prefix s sub then Some O
  else match s with [] => None | _ :: s' => S <$> index_of s' sub end.

(** [strings.Split] at a separator of one byte. *)
Fixpoint split_on (c : byte) (s : bytes) : list bytes :=
  match s with
  | [] => [[]]
  | d :: s' =>
      if decide (d = c) then [] :: split_on c s'
      else match split_on c s' with
           | [] => [[d]]
           | word :: words => (d :: word) :: words
           end
  end.

(** [strings.Cut] at a separator of one byte: what is before and after its first
    occurrence. *)
Fixpoint cut (c : byte) (s : bytes) : option (bytes * bytes) :=
  match s with
  | [] => None
  | d :: s' => if decide (d = c) then Some ([], s') else (fun p => (d :: p.1, p.2)) <$> cut c s'
  end.

(** [strings.ToLower], for comparison with ASCII text: the runes whose lower case is an
    ASCII letter are the capitals, U+0130 and U+212A. *)
Definition lower_rune (r : bytes) : bytes :=
  match r with
  | [b] => if byte_in 65 90 b then [to_byte (byte_val b + 32)] else r
  | [b0; b1] => if decide (r = [xc4; xb0]) then str "i" else r
  | [b0; b1; b2] => if decide (r = [xe2; x84; xaa]) then str "k" else r
  | _ => r
  end.
Definition ToLower (s : bytes) : bytes := concat (lower_rune <$> runes s).

(** [filepath.Ext]: from the last dot of the last element on. *)
Fixpoint ext_rev (s acc : bytes) : bytes :=
  match s with
  | [] => []
  | c :: s' =>
      if decide (c = x2f) then [] else if decide (c = x2e) then c :: acc else ext_rev s' (c :: acc)
  end.
Definition Ext (path : bytes) : bytes := ext_rev (reverse path) [].

(** [strings.TrimSuffix] *)
Definition trim_suffix (s p : bytes) : bytes :=
  if has_suffix s p then take (length s - length p) s else s.

(** [path.Base]: the last element, without trailing slashes. *)
Definition Base (s : bytes) : bytes :=
  if decide (s = []) then str "."
  else let s := trim_slashes s in
       if decide (s = []) then str "/" else default [] (last (split_on x2f s)).

(** [strings.Join] *)
Fixpoint join (sep : bytes) (parts : list bytes) : bytes :=
  match parts with [] => [] | [p] => p | p :: parts' => p ++ sep ++ join sep parts' end.

(** [filepath.Clean]: the elements kept so far, the last one first. *)
Definition clean_step (rooted : bool) (stack : list bytes) (element : bytes) : list bytes :=
  if bool_decide (element = []) || bool_decide (element = str ".") then stack
  else if decide (element = str "..") then
    match stack with
    | top :: rest => if decide (top = str "..") then element :: stack else rest
    | [] => if rooted then [] else [element]
    end
  else element :: stack.

Definition Clean (path : bytes) : bytes :=
  if decide (path = []) then str "."
  else
    let rooted := has_prefix path (str "/") in
    let cleaned := join (str "/") (reverse (foldl (clean_step rooted) [] (split_on x2f path))) in
    if rooted then x2f :: cleaned else if decide (cleaned = []) then str "." else cleaned.

(** [filepath.Join] *)
Definition Join (elements : list bytes) : bytes :=
  match filter (fun e => e ≠ []) elements with [] => [] | es => Clean (join (str "/") es) end.

Example Clean_samples :
  Clean <$> [str "a//b/../c/."; str "/../x"; str "../../y"; str "a/.."; str "/"; str "./results/fcr-teku"]
  = [str "a/c"; str "/x"; str "../../y"; str "."; str "/"; str "results/fcr-teku"].
Proof. vm_compute. reflexivity. Qed.

(** ** Lemmas: texts without spaces *)

(** Printable ASCII other than the space. *)
Definition plain_text (s : bytes) : Prop := Forall (fun b => 32 < byte_val b < 128) s.

Lemma runes_fuel_ascii fuel s :
  Forall (fun b => byte_val b < 128) s -> (length s <= fuel)%nat ->
  runes_fuel fuel s = (fun b => [b]) <$> s.
Proof.
  intros Hs. revert fuel. induction Hs as [|b s Hb Hs IH]; intros fuel Hf; [by destruct fuel|].
  destruct fuel as [|fuel]; [cbn in Hf; lia|]. cbn [runes_fuel]. unfold decode_rune.
  destruct (N.ltb_spec (byte_val b) 128); [|lia]. cbn [snd take drop fmap list_fmap].
  f_equal. apply IH. cbn in Hf. lia.
Qed.

Lemma plain_ascii s : plain_text s -> Forall (fun b => byte_val b < 128) s.
Proof. intros H. eapply Forall_impl; [exact H|]. cbn. lia. Qed.

Lemma runes_plain s : plain_text s -> runes s = (fun b => [b]) <$> s.
Proof. intros H. apply runes_fuel_ascii; [by apply plain_ascii|done]. Qed.

Lemma space_rune_plain b : 32 < byte_val b < 128 -> space_rune [b] = false.
Proof.
  intros Hb. unfold space_rune, decode_rune. destruct (N.ltb_spec (byte_val b) 128); [|lia]. cbn [fst].
  apply andb_false_iff. right. unfold is_space. lia.
Qed.

Lemma drop_spaces_plain l : Forall (fun r => space_rune r = false) l -> drop_spaces l = l.
Proof. destruct 1 as [|r l Hr]; [done|]. cbn. by rewrite Hr. Qed.

Lemma TrimSpace_plain s : plain_text s -> TrimSpace s = s.
Proof.
  intros Hs. unfold TrimSpace. rewrite runes_plain by done.
  assert (Hf : Forall (fun r => space_rune r = false) ((fun b => [b]) <$> s)).
  { apply Forall_fmap. eapply Forall_impl; [exact Hs|]. apply space_rune_plain. }
  rewrite (drop_spaces_plain _ Hf), drop_spaces_plain, reverse_involutive; [|by rewrite reverse_Permutation].
  clear. induction s as [|b s IH]; cbn; [done|]. by f_equal.
Qed.
Lemma decode_rune_take s k : s ≠ [] -> ((decode_rune s).2 <= k)%nat -> decode_rune (take k s) = decode_rune s.
Proof.
  intros Hne. pose proof (decode_rune_width s Hne) as Hw. intros Hk.
  destruct s as [|b0 s1]; [done|]. destruct k as [|k]; [lia|]. clear Hw. revert Hk.
  cbn [take]. unfold decode_rune. destruct (_ <? 128); [done|].
  destruct s1 as [|b1 s2]; [by rewrite take_nil|]. destruct k as [|k]; cbn [take].
  { intros Hk. destruct (_ && _); [cbn in Hk; lia|]. destruct s2 as [|b2 s3]; [done|].
    destruct (_ && _); [cbn in Hk; lia|]. destruct s3 as [|b3 s4]; [done|]. destruct (_ && _); [cbn in Hk; lia|done]. }
  destruct (_ && _); [done|].
  destruct s2 as [|b2 s3]; [by rewrite take_nil|]. destruct k as [|k]; cbn [take].
  { intros Hk. destruct (_ && _); [cbn in Hk; lia|]. destruct s3 as [|b3 s4]; [done|]. destruct (_ && _); [cbn in Hk; lia|done]. }
  destruct (_ && _); [done|].
  destruct s3 as [|b3 s4]; [by rewrite take_nil|]. destruct k as [|k]; cbn [take]; [|done].
  intros Hk. destruct (_ && _); [cbn in Hk; lia|done].
Qed.

(** *** [TrimSpace] twice is [TrimSpace] once *)

Lemma runes_fuel_enough fuel s : (length s <= fuel)%nat -> runes_fuel fuel s = runes s.
Proof.
  unfold runes. assert (H : forall f1 f2 s, (length s <= f1)%nat -> (length s <= f2)%nat -> runes_fuel f1 s = runes_fuel f2 s).
  { clear. induction f1 as [|f1 IH]; intros f2 s H1 H2; [destruct s; [by destruct f2|cbn in H1; lia]|].
    destruct s as [|b s]; [by destruct f2|]. destruct f2 as [|f2]; [cbn in H2; lia|]. cbn [runes_fuel]. f_equal.
    pose proof (decode_rune_width (b :: s) ltac:(done)). apply IH; rewrite length_drop; lia. }
  intros. by apply H.
Qed.

Lemma runes_cons s : s ≠ [] -> runes s = take (decode_rune s).2 s :: runes (drop (decode_rune s).2 s).
Proof.
  intros Hs. pose proof (decode_rune_width s Hs). unfold runes at 1. destruct s as [|b s]; [done|].
  cbn [length runes_fuel]. f_equal. apply runes_fuel_enough. rewrite length_drop. cbn [length] in *. lia.
Qed.

(** Decoding the text of the first runes of a text gives these runes. *)
Lemma runes_prefix l l2 s : runes s = l ++ l2 -> runes (concat l) = l.
Proof.
  revert s. induction l as [|r l IH]; intros s Hs; [done|]. cbn [app] in Hs.
  assert (Hne : s ≠ []) by (intros ->; discriminate Hs). pose proof (decode_rune_width s Hne) as Hw.
  pose proof (runes_concat s) as Hc. rewrite Hs in Hc. rewrite runes_cons in Hs by done. injection Hs as Hr Hl.
  pose proof (IH _ Hl) as IHl.
  assert (Ht : concat (r :: l) = take (length (concat (r :: l))) s).
  { rewrite <- Hc. change (r :: l ++ l2) with ((r :: l) ++ l2). rewrite concat_app. by rewrite take_app_length. }
  assert (Hlr : length r = (decode_rune s).2) by (rewrite <- Hr, length_take; lia).
  assert (Hd : decode_rune (concat (r :: l)) = decode_rune s).
  { rewrite Ht. apply decode_rune_take; [done|]. cbn [concat]. rewrite length_app. lia. }
  rewrite runes_cons, Hd, <- Hlr.
  - cbn [concat]. by rewrite take_app_length, drop_app_length, IHl.
  - cbn [concat]. intros Hn. apply (f_equal length) in Hn. rewrite length_app in Hn. cbn [length] in Hn. lia.
Qed.

Lemma runes_suffix l1 l s : runes s = l1 ++ l -> runes (concat l) = l.
Proof.
  revert s. induction l1 as [|r l1 IH]; intros s Hs; cbn [app] in Hs.
  - apply (runes_prefix l [] s). by rewrite app_nil_r.
  - assert (Hne : s ≠ []) by (intros ->; discriminate Hs). rewrite runes_cons in Hs by done.
    injection Hs as _ Hs. by apply IH in Hs.
Qed.

Lemma drop_spaces_suffix l : exists p, l = p ++ drop_spaces l.
Proof.
  induction l as [|r l [p IH]]; [by exists []|]. cbn. destruct (space_rune r); [|by exists []].
  exists (r :: p). cbn. by f_equal.
Qed.

Lemma drop_spaces_idem l : drop_spaces (drop_spaces l) = drop_spaces l.
Proof. induction l as [|r l IH]; [done|]. cbn. destruct (space_rune r) eqn:E; [done|]. cbn. by rewrite E. Qed.

Lemma drop_spaces_prefix m t : drop_spaces (m ++ t) = m ++ t -> drop_spaces m = m.
Proof.
  destruct m as [|r m]; [done|]. cbn. destruct (space_rune r); [|done]. intros H. exfalso.
  destruct (drop_spaces_suffix (m ++ t)) as [p Hp]. apply (f_equal length) in H, Hp. rewrite (length_app p) in Hp.
  cbn [length] in H. lia.
Qed.

Lemma TrimSpace_idem s : TrimSpace (TrimSpace s) = TrimSpace s.
Proof.
  unfold TrimSpace at 2 3. set (l := drop_spaces (runes s)). set (m := reverse (drop_spaces (reverse l))).
  destruct (drop_spaces_suffix (runes s)) as [p Hp]. fold l in Hp.
  destruct (drop_spaces_suffix (reverse l)) as [q Hq]. apply (f_equal reverse) in Hq.
  rewrite reverse_involutive, reverse_app in Hq. fold m in Hq.
  assert (Hm : runes (concat m) = m).
  { apply (runes_prefix m (reverse q) (concat l)). rewrite <- Hq. by apply (runes_suffix p l s). }
  unfold TrimSpace. rewrite Hm, (drop_spaces_prefix m (reverse q)) by (rewrite <- Hq; apply drop_spaces_idem).
  unfold m at 1. rewrite reverse_involutive, drop_spaces_idem. done.
Qed.

(** ** Lemmas: paths *)

(** A file name: one element of a path. *)
Definition file_name (name : bytes) : Prop :=
  name ≠ [] /\ name ≠ str "." /\ name ≠ str ".." /\ Forall (fun c => c ≠ x2f) name.

Lemma split_on_ne c s : split_on c s ≠ [].
Proof. destruct s as [|d s]; cbn; [done|]. case_decide; [done|]. by destruct (split_on c s). Qed.

Lemma split_on_app c p q : split_on c (p ++ c :: q) = split_on c p ++ split_on c q.
Proof.
  induction p as [|d p IH]; cbn [app split_on]; [by rewrite decide_True|].
  case_decide; [by rewrite IH|]. rewrite IH. pose proof (split_on_ne c p). by destruct (split_on c p).
Qed.

Lemma split_on_name c name : Forall (fun d => d ≠ c) name -> split_on c name = [name].
Proof. induction 1 as [|d name Hd Hn IH]; cbn; [done|]. by rewrite decide_False, IH. Qed.

Lemma join_snoc sep l x : join sep (l ++ [x]) = (if decide (l = []) then [] else join sep l ++ sep) ++ x.
Proof.
  induction l as [|y l IH]; [done|]. rewrite decide_False by done. cbn [app].
  destruct l as [|z l]; [cbn; by rewrite app_assoc|].
  change (y ++ sep ++ join sep ((z :: l) ++ [x]) = (join sep (y :: z :: l) ++ sep) ++ x).
  rewrite IH, decide_False by done. change (join sep (y :: z :: l)) with (y ++ sep ++ join sep (z :: l)).
  by rewrite !app_assoc.
Qed.

Lemma clean_step_name rooted stack name : file_name name -> clean_step rooted stack name = name :: stack.
Proof.
  intros (? & ? & ? & _). unfold clean_step. rewrite !bool_decide_eq_false_2 by done. cbn. by rewrite decide_False.
Qed.

(** The directory a path joined from [es] and a file name starts with. *)
Definition join_dir (es : list bytes) : bytes :=
  match filter (fun e => e ≠ []) es with
  | [] => []
  | es =>
      let p := join (str "/") es in
      let stack := foldl (clean_step (has_prefix p (str "/"))) [] (split_on x2f p) in
      (if has_prefix p (str "/") then str "/" else [])
      ++ (if decide (reverse stack = []) then [] else join (str "/") (reverse stack) ++ str "/")
  end.

(** [filepath.Join] keeps a file name at its end as it is. *)
Lemma Join_file_name es name : file_name name -> Join (es ++ [name]) = join_dir es ++ name.
Proof.
  intros Hn. pose proof Hn as (Hne & _ & _ & Hs).
  assert (Hnp : has_prefix name (str "/") = false).
  { destruct Hs as [|c name Hc Hs]; [done|]. cbn. by rewrite decide_False by congruence. }
  unfold Join, join_dir. rewrite filter_app. cbn [filter list_filter]. rewrite decide_True by done.
  assert (Hall : Forall (fun e => e ≠ []) (filter (fun e : bytes => e ≠ []) es)).
  { apply Forall_forall. by intros e [? _]%list_elem_of_filter. }
  set (l := filter _ es) in *. destruct l as [|e l]; cbn [app].
  - unfold Clean. cbn [join]. rewrite decide_False, Hnp, split_on_name by done. cbn [foldl].
    rewrite clean_step_name by done. change (reverse [name]) with [name]. cbn [join]. by rewrite decide_False.
  - change (match e :: l ++ [name] with [] => [] | es => Clean (join (str "/") es) end) with
      (Clean (join (str "/") (e :: l ++ [name]))).
    pose proof (join_snoc (str "/") (e :: l) name) as Hj. rewrite decide_False in Hj by done. cbn [app] in Hj.
    rewrite Hj. clear Hj. set (p := join (str "/") (e :: l)).
    assert (Hp : p ≠ []).
    { unfold p. apply Forall_cons in Hall as [He _]. destruct l as [|e2 l]; [done|].
      change (e ++ str "/" ++ join (str "/") (e2 :: l) ≠ []). by destruct e. }
    assert (Hroot : forall t, has_prefix (p ++ t) (str "/") = has_prefix p (str "/")) by (intros t; destruct p as [|c p]; [done|]; cbn; case_decide; [by destruct p, t|done]).
    unfold Clean. rewrite decide_False by (intros [? _]%app_nil; by destruct p).
    rewrite <- app_assoc, Hroot. change (str "/" ++ name) with (x2f :: name).
    rewrite split_on_app, (split_on_name _ name), foldl_app by done. cbn [foldl].
    rewrite clean_step_name, reverse_cons, join_snoc by done. set (d := if decide _ then _ else _).
    destruct (has_prefix p (str "/")); [done|]. rewrite decide_False; [done|]. intros [_ ?]%app_nil. done.
Qed.
