(* ===== verification/JsonIndent.v ===== *)
(** * Indented JSON ([json.Encoder] with [SetIndent("", "  ")] and no HTML escaping)

    The writer of nested values, and the proof that [Json.parse_json] reads back what it
    writes. *)

From S2P Require Import Prelude Bytes Json GoStrings.
From Stdlib Require Import Strings.Byte.

(** ** Definitions *)

(** [appendNewline] *)
Definition newline (depth : nat) : bytes := x0a :: concat (replicate depth (str "  ")).

(** [appendIndent] of the compact form; empty arrays and objects stay on their line. *)
Fixpoint write_indented (depth : nat) (v : jvalue) : bytes :=
  match v with
  | JArray [] => str "[]"
  | JObject [] => str "{}"
  | JArray items =>
      x5b :: join [x2c] ((fun item => newline (S depth) ++ write_indented (S depth) item) <$> items)
      ++ newline depth ++ [x5d]
  | JObject members =>
      x7b :: join [x2c] ((fun m => newline (S depth) ++ quote m.1 ++ str ": " ++ write_indented (S depth) m.2) <$> members)
      ++ newline depth ++ [x7d]
  | _ => write_scalar v
  end.

(** [Encode] ends the text with a newline. *)
Definition encode_indented (v : jvalue) : bytes := write_indented 0 v ++ [x0a].

Example encode_indented_sample :
  encode_indented (JObject [(str "a", JArray [jnum 1; JNull]); (str "b", JArray []); (str "c", jint (-2))])
  = str "{" ++ [x0a] ++ str "  " ++ quote (str "a") ++ str ": [" ++ [x0a] ++ str "    1," ++ [x0a] ++ str "    null" ++ [x0a]
    ++ str "  ]," ++ [x0a] ++ str "  " ++ quote (str "b") ++ str ": []," ++ [x0a] ++ str "  " ++ quote (str "c") ++ str ": -2"
    ++ [x0a] ++ str "}" ++ [x0a].
Proof. vm_compute. reflexivity. Qed.

(** Values Go can hold: valid strings, printed integers, nesting of at most [room]. *)
Fixpoint json_ok (room : nat) (v : jvalue) : Prop :=
  match v with
  | JNull | JBool _ => True
  | JNumber t => exists z, t = format_int z
  | JString s => valid_utf8 s = true
  | JArray items => match room with O => False | S room' => Forall (json_ok room') items end
  | JObject members =>
      match room with O => False | S room' => Forall (fun m => valid_utf8 m.1 = true /\ json_ok room' m.2) members end
  end.

(** ** Lemmas: white space *)

(** States that skip white space. *)
Definition skips (st : jstate) : Prop := forall c, json_space c = true -> scan_step st c = Some st.

Lemma newline_space depth : Forall (fun c => json_space c = true) (newline depth).
Proof.
  constructor; [done|]. induction depth as [|depth IH]; cbn [replicate concat]; [constructor|].
  by repeat constructor.
Qed.

Lemma scan_newline st depth t : skips st -> scan st (newline depth ++ t) = scan st t.
Proof.
  intros Hs. induction (newline_space depth) as [|c l Hc Hl IH]; [done|]. cbn [app scan]. by rewrite Hs.
Qed.

Lemma skips_begin stk :
  skips (SBeginValue, stk) /\ skips (SBeginValueOrEmpty, stk) /\ skips (SBeginString, stk) /\ skips (SBeginStringOrEmpty, stk).
Proof. repeat split; intros c Hc; unfold scan_step, begin_value, begin_string; by rewrite Hc. Qed.

Lemma skips_end v f stk : skips (SEndValue v, f :: stk).
Proof. intros c Hc. unfold scan_step, end_value. by rewrite Hc. Qed.

(** ** Lemmas: numbers *)

Lemma scan_int z stk c t :
  ends_number c = true ->
  scan (SBeginValue, stk) (format_int z ++ c :: t) = scan (SEndValue (JNumber (format_int z)), stk) (c :: t).
Proof.
  intros Hc. unfold format_int. destruct (Z.ltb_spec z 0); [|by apply scan_number].
  assert (Hn : Z.to_N (- z) ≠ 0) by lia. set (n := Z.to_N (- z)) in *. clearbody n.
  assert (He : forall acc, scan (SNum1 acc, stk) (c :: t) = scan (SEndValue (JNumber acc), stk) (c :: t)).
  { intros acc. unfold ends_number in Hc. apply bool_decide_eq_true in Hc.
    repeat (apply elem_of_cons in Hc as [->|Hc]; [done|]). by apply elem_of_nil in Hc. }
  destruct (format_uint_shape _ n [] Hn (lt_size n) ltac:(constructor)) as (c0 & s & E & Hd & Hz & Hs).
  unfold format_uint. rewrite E. cbn [app scan].
  change (scan_step (SBeginValue, stk) x2d) with (Some (SNeg [x2d], stk)). cbn [mbind option_bind].
  assert (scan_step (SNeg [x2d], stk) c0 = Some (SNum1 [x2d; c0], stk)) as ->
    by (unfold scan_step; rewrite decide_False by done; by rewrite Hd).
  cbn [mbind option_bind]. rewrite scan_digits by done. apply He.
Qed.

Lemma format_int_head z : exists c s, format_int z = c :: s /\ (c = x2d \/ digit c = true).
Proof.
  unfold format_int. destruct (z <? 0)%Z; [by eauto|].
  destruct (decide (Z.to_N z = 0)) as [->|Hn]; [eexists _, _; split; [reflexivity|by right]|].
  destruct (format_uint_shape _ (Z.to_N z) [] Hn (lt_size _) ltac:(constructor)) as (c & s & E & Hd & _ & _).
  unfold format_uint. rewrite E. by eauto.
Qed.

(** ** Lemmas: a written value is read back *)

(** The state once the value has been read. *)
Definition after (v : jvalue) (stk : list frame) : jstate :=
  match v with JArray _ | JObject _ => pop_state v stk | _ => (SEndValue v, stk) end.

Lemma after_cons v f stk : after v (f :: stk) = (SEndValue v, f :: stk).
Proof. by destruct v. Qed.

(** A written value does not start with white space or a closing bracket. *)
Lemma write_indented_head depth room v :
  json_ok room v -> exists c s, write_indented depth v = c :: s /\ json_space c = false /\ c ≠ x5d.
Proof.
  assert (Hd : forall c, c = x2d \/ digit c = true -> json_space c = false /\ c ≠ x5d).
  { intros c [->|Hc]; [done|]. destruct c; try (vm_compute in Hc; discriminate); done. }
  destruct v as [|[]|text|s|[|]|[|]]; cbn [write_indented write_scalar]; intros Hok; try (eexists _, _; by split).
  assert (exists z, text = format_int z) as [z ->] by (by destruct room).
  destruct (format_int_head z) as (c & s & -> & Hc). eauto.
Qed.

Lemma scan_or_empty stk depth room v t :
  json_ok room v ->
  scan (SBeginValueOrEmpty, stk) (write_indented depth v ++ t) = scan (SBeginValue, stk) (write_indented depth v ++ t).
Proof.
  intros Hok. destruct (write_indented_head depth room v Hok) as (c & s & -> & Hs & Hc). cbn [app scan].
  unfold scan_step. by rewrite Hs, decide_False.
Qed.

(** What reading one written value does, in the room it needs. *)
Definition reads (room : nat) : Prop := forall v depth stk c t,
  json_ok room v -> (length stk + room <= maxNestingDepth)%nat -> ends_number c = true ->
  scan (SBeginValue, stk) (write_indented depth v ++ c :: t) = scan (after v stk) (c :: t).

Lemma ends_newline depth t : exists c s, newline depth ++ t = c :: s /\ ends_number c = true.
Proof. by eexists _, _. Qed.

Section containers.
Context (room : nat) (Hreads : reads room).

Lemma scan_items items acc stk depth s t :
  Forall (json_ok room) items -> items ≠ [] -> (S (length stk) + room <= maxNestingDepth)%nat ->
  s = SBeginValue \/ s = SBeginValueOrEmpty ->
  scan (s, FArray acc :: stk)
    (join [x2c] ((fun item => newline (S depth) ++ write_indented (S depth) item) <$> items) ++ newline depth ++ x5d :: t)
  = scan (pop_state (JArray (acc ++ items)) stk) t.
Proof.
  intros Hall. revert acc s. induction Hall as [|v items Hv Hall IH]; intros acc s Hne Hroom Hs; [done|].
  assert (Hone : forall c t, ends_number c = true ->
    scan (s, FArray acc :: stk) ((newline (S depth) ++ write_indented (S depth) v) ++ c :: t)
    = scan (SEndValue v, FArray acc :: stk) (c :: t)).
  { intros c t' Hc. rewrite <- app_assoc, scan_newline by (destruct (skips_begin (FArray acc :: stk)) as (? & ? & _); by destruct Hs as [-> | ->]).
    transitivity (scan (SBeginValue, FArray acc :: stk) (write_indented (S depth) v ++ c :: t'));
      [destruct Hs as [-> | ->]; [done|by eapply scan_or_empty]|].
    rewrite Hreads by done. by rewrite after_cons. }
  destruct items as [|w items]; cbn [fmap list_fmap join].
  - destruct (ends_newline depth (x5d :: t)) as (c & s' & E & Hc). rewrite E, Hone by done. rewrite <- E.
    by rewrite scan_newline by apply skips_end.
  - rewrite <- app_assoc. cbn [app]. rewrite Hone by done.
    transitivity (scan (SBeginValue, FArray (acc ++ [v]) :: stk)
      (join [x2c] ((fun item => newline (S depth) ++ write_indented (S depth) item) <$> w :: items) ++ newline depth ++ x5d :: t));
      [done|].
    rewrite IH by (by auto). by rewrite <- app_assoc.
Qed.

Lemma scan_pairs members acc stk depth s t :
  Forall (fun m => valid_utf8 m.1 = true /\ json_ok room m.2) members -> members ≠ [] ->
  (S (length stk) + room <= maxNestingDepth)%nat -> s = SBeginString \/ s = SBeginStringOrEmpty ->
  scan (s, FKey acc :: stk)
    (join [x2c] ((fun m => newline (S depth) ++ quote m.1 ++ str ": " ++ write_indented (S depth) m.2) <$> members)
     ++ newline depth ++ x7d :: t)
  = scan (pop_state (JObject (acc ++ members)) stk) t.
Proof.
  intros Hall. revert acc s. induction Hall as [|[k v] members [Hk Hv] Hall IH]; intros acc s Hne Hroom Hs; [done|].
  cbn [fst snd] in *.
  assert (Hone : forall c t, ends_number c = true ->
    scan (s, FKey acc :: stk) ((newline (S depth) ++ quote k ++ str ": " ++ write_indented (S depth) v) ++ c :: t)
    = scan (SEndValue v, FValue acc k :: stk) (c :: t)).
  { intros c t' Hc. rewrite <- app_assoc, scan_newline by (destruct (skips_begin (FKey acc :: stk)) as (_ & _ & ? & ?); by destruct Hs as [-> | ->]).
    rewrite <- !app_assoc.
    destruct (scan_quote_key k (FKey acc :: stk) (str ": " ++ write_indented (S depth) v ++ c :: t') Hk) as [H1 H2].
    transitivity (scan (SEndValue (JString k), FKey acc :: stk) (str ": " ++ write_indented (S depth) v ++ c :: t'));
      [by destruct Hs as [-> | ->]|].
    transitivity (scan (SBeginValue, FValue acc k :: stk) (write_indented (S depth) v ++ c :: t')); [done|].
    rewrite Hreads by done. by rewrite after_cons. }
  destruct members as [|w members]; cbn [fmap list_fmap join fst snd].
  - destruct (ends_newline depth (x7d :: t)) as (c & s' & E & Hc). rewrite E, Hone by done. rewrite <- E.
    by rewrite scan_newline by apply skips_end.
  - rewrite <- (app_assoc _ _ (newline depth ++ _)). cbn [app]. rewrite Hone by done.
    transitivity (scan (SBeginString, FKey (acc ++ [(k, v)]) :: stk)
      (join [x2c] ((fun m => newline (S depth) ++ quote m.1 ++ str ": " ++ write_indented (S depth) m.2) <$> w :: members)
       ++ newline depth ++ x7d :: t)); [done|].
    rewrite IH by (by auto). by rewrite <- app_assoc.
Qed.
End containers.

Lemma push_room f s stk room :
  (length stk + S room <= maxNestingDepth)%nat -> push_state f s stk = Some (s, f :: stk).
Proof. intros. unfold push_state. by rewrite decide_True by lia. Qed.

(** Opening a bracket. *)
Lemma scan_open stk room t :
  (length stk + S room <= maxNestingDepth)%nat ->
  scan (SBeginValue, stk) (x5b :: t) = scan (SBeginValueOrEmpty, FArray [] :: stk) t
  /\ scan (SBeginValue, stk) (x7b :: t) = scan (SBeginStringOrEmpty, FKey [] :: stk) t.
Proof.
  intros Hr. cbn [scan].
  change (scan_step (SBeginValue, stk) x5b) with (push_state (FArray []) SBeginValueOrEmpty stk).
  change (scan_step (SBeginValue, stk) x7b) with (push_state (FKey []) SBeginStringOrEmpty stk).
  by rewrite !(push_room _ _ _ room Hr).
Qed.

Lemma reads_all room : reads room.
Proof.
  induction room as [|room IH]; intros v depth stk c t Hok Hroom Hc.
  - destruct v as [|[]|text|s|l|l]; cbn in Hok; try done; cbn [write_indented write_scalar after].
    + destruct Hok as [z ->]. by apply scan_int.
    + by apply scan_quote_value.
  - destruct v as [|[]|text|s|items|members]; cbn [json_ok] in Hok; try done; cbn [write_scalar after].
    + destruct Hok as [z ->]. by apply scan_int.
    + by apply scan_quote_value.
    + destruct (scan_open stk room) with (t := x5d :: c :: t) as [He _]; [done|].
      destruct items as [|v items]; [cbn [write_indented]; by etransitivity; [apply He|]|].
      cbn [write_indented]. rewrite <- app_comm_cons, <- !app_assoc. cbn [app].
      destruct (scan_open stk room (join [x2c] ((fun item => newline (S depth) ++ write_indented (S depth) item) <$> v :: items)
        ++ newline depth ++ x5d :: c :: t)) as [-> _]; [done|].
      rewrite (scan_items room IH); [done|done|done|lia|by right].
    + destruct (scan_open stk room) with (t := x7d :: c :: t) as [_ He]; [done|].
      destruct members as [|m members]; [cbn [write_indented]; by etransitivity; [apply He|]|].
      cbn [write_indented]. rewrite <- app_comm_cons, <- !app_assoc. cbn [app].
      destruct (scan_open stk room (join [x2c] ((fun m => newline (S depth) ++ quote m.1 ++ str ": " ++ write_indented (S depth) m.2) <$> m :: members)
        ++ newline depth ++ x7d :: c :: t)) as [_ ->]; [done|].
      rewrite (scan_pairs room IH); [done|done|done|lia|by right].
Qed.

(** The text of an object is parsed back to it. *)
Lemma parse_encode_indented members room :
  json_ok room (JObject members) -> (room <= maxNestingDepth)%nat ->
  parse_json (encode_indented (JObject members)) = Some (JObject members).
Proof.
  intros Hok Hroom. unfold parse_json, encode_indented. rewrite <- app_assoc. cbn [app].
  by rewrite (reads_all room) by done.
Qed.
