(* ===== verification/Files.v ===== *)
(** * The file system and HTTP

    A map from paths to contents, and the operations that fail.  Directories are
    implicit; two paths are the same file when they are the same string.  What an HTTP
    client gets back from a server is a value of [http_answer]. *)

From S2P Require Import Prelude Bytes.

(** The file system: contents by path, and what goes wrong. *)
Inductive write_step := FMkdirAll | FCreateTemp | FWrite (n : nat) | FSync | FClose | FRename.

Record io_env := mkEnv {
  open_fails : bytes -> bool;
  read_fails : bytes -> option nat;   (** after that many bytes *)
  close_fails : bytes -> bool;
  write_fails : bytes -> option write_step;
  remove_fails : bytes -> bool;
  temp_name : bytes -> bytes
}.

Abbreviation world := (gmap bytes bytes).

(** [os.ReadFile]: the data, a missing file ([os.ErrNotExist]), another error. *)
Inductive read_result := RData (data : bytes) | RMissing | RFailed.

Definition ReadFile (env : io_env) (path : bytes) (w : world) : read_result :=
  match w !! path with
  | None => RMissing
  | Some data =>
      if open_fails env path || bool_decide (is_Some (read_fails env path)) then RFailed else RData data
  end.

(** [os.Remove] of a file that exists. *)
Definition remove_file (env : io_env) (path : bytes) (w : world) : world :=
  if remove_fails env path then w else delete path w.

(** The write through a temporary file that the packages share: create it, write,
    sync and close it, rename it to [path]; on a failure it is removed. *)
Definition atomic_write (env : io_env) (path data : bytes) (w : world) : bool * world :=
  let temp := temp_name env path in
  match write_fails env path with
  | Some FMkdirAll | Some FCreateTemp => (false, w)
  | Some (FWrite n) => (false, remove_file env temp (<[temp := take n data]> w))
  | Some _ => (false, remove_file env temp (<[temp := data]> w))
  | None => (true, <[path := data]> (delete temp (<[temp := data]> w)))
  end.

(** [client.Do] fails, reading the body fails, or there is a response. *)
Inductive http_answer :=
| HttpError
| HttpBodyError
| HttpResponse (status : Z) (body : bytes).

(** ** Lemmas *)

Lemma ReadFile_data env path w data : ReadFile env path w = RData data -> w !! path = Some data.
Proof. unfold ReadFile. destruct (w !! path); [|done]. by case_ifs; intros [= <-]. Qed.

Lemma ReadFile_missing env path w : ReadFile env path w = RMissing -> w !! path = None.
Proof. unfold ReadFile. destruct (w !! path); [|done]. by case_ifs. Qed.

(** A path that is no temporary file holds the new data or what it held; only the
    target changes. *)
Lemma atomic_write_spec env path data w other :
  other ≠ temp_name env path ->
  let '(ok, w') := atomic_write env path data w in
  w' !! other = if ok && bool_decide (other = path) then Some data else w !! other.
Proof.
  intros Ht. assert (Hrm : forall d, remove_file env (temp_name env path) (<[temp_name env path := d]> w) !! other = w !! other).
  { intros d. unfold remove_file. destruct (remove_fails _ _); rewrite ?lookup_delete_ne, lookup_insert_ne; done. }
  unfold atomic_write. destruct (write_fails env path) as [[]|]; cbn [andb]; try done.
  case_bool_decide as He; [subst; by rewrite lookup_insert_eq|].
  rewrite lookup_insert_ne, lookup_delete_ne, lookup_insert_ne; done.
Qed.
