(* ===== verification/Flags.v ===== *)
(** * Package [flag] and the number syntax of [strconv] at base 0

    What a [flag.FlagSet] makes of an argument list: the flags that were set with their
    values, in order, and the positional arguments.  A later value of a flag replaces an
    earlier one. *)

From S2P Require Import Prelude Bytes Json GoStrings.
From Stdlib Require Import Strings.Byte.

(** ** [strconv.ParseUint(s, 0, 64)], [strconv.ParseInt(s, 0, 64)], [strconv.ParseBool] *)

Definition lower_byte (b : byte) : byte := if byte_in 65 90 b then to_byte (byte_val b + 32) else b.

Definition digit_value (b : byte) : option N :=
  let v := byte_val b in let l := byte_val (lower_byte b) in
  if (48 <=? v) && (v <=? 57) then Some (v - 48)
  else if (97 <=? l) && (l <=? 122) then Some (l - 87) else None.

(** The digits, underscores being skipped; [None] is a syntax or range error. *)
Fixpoint base_digits (base : N) (s : bytes) (acc : N) : option N :=
  match s with
  | [] => Some acc
  | b :: s' =>
      if decide (b = x5f) then base_digits base s' acc
      else match digit_value b with
           | Some d =>
               if base <=? d then None
               else let acc := acc * base + d in if MaxUint64 <? acc then None else base_digits base s' acc
           | None => None
           end
  end.

(** The base prefix of a text and what follows it. *)
Definition base_prefix (s : bytes) : N * bytes :=
  match s with
  | x30 :: rest =>
      match rest with
      | c :: ((_ :: _) as digits) =>
          let c := lower_byte c in
          if decide (c = x62) then (2, digits) else if decide (c = x6f) then (8, digits)
          else if decide (c = x78) then (16, digits) else (8, rest)
      | _ => (8, rest)
      end
  | _ => (10, s)
  end.

(** [underscoreOK]: what was seen last. *)
Inductive seen_char := SStart | SDigit | SUnderscore | SOther.
Fixpoint underscores (hex : bool) (i : seen_char) (s : bytes) : bool :=
  match s with
  | [] => match i with SUnderscore => false | _ => true end
  | c :: s' =>
      if byte_in 48 57 c || (hex && byte_in 97 102 (lower_byte c)) then underscores hex SDigit s'
      else if decide (c = x5f) then match i with SDigit => underscores hex SUnderscore s' | _ => false end
      else match i with SUnderscore => false | _ => underscores hex SOther s' end
  end.
Definition underscoreOK (s : bytes) : bool :=
  let s := match s with c :: s' => if bool_decide (c = x2d) || bool_decide (c = x2b) then s' else s | [] => s end in
  match s with
  | x30 :: c :: s' =>
      if bool_decide (lower_byte c ∈ [x62; x6f; x78]) then underscores (bool_decide (lower_byte c = x78)) SDigit s'
      else underscores false SStart s
  | _ => underscores false SStart s
  end.

Definition ParseUint0 (s : bytes) : option N :=
  if decide (s = []) then None
  else
    let '(base, digits) := base_prefix s in
    n ← base_digits base digits 0;
    if bool_decide (x5f ∈ digits) && negb (underscoreOK s) then None else Some n.

Definition ParseInt0 (s : bytes) : option Z :=
  match s with
  | [] => None
  | c :: s' =>
      let neg := bool_decide (c = x2d) in
      let s := if neg || bool_decide (c = x2b) then s' else s in
      un ← ParseUint0 s;
      if neg then if 2 ^ 63 <? un then None else Some (- Z.of_N un)%Z
      else if 2 ^ 63 <=? un then None else Some (Z.of_N un)
  end.

Definition ParseBool (s : bytes) : option bool :=
  if bool_decide (s ∈ [str "1"; str "t"; str "T"; str "true"; str "TRUE"; str "True"]) then Some true
  else if bool_decide (s ∈ [str "0"; str "f"; str "F"; str "false"; str "FALSE"; str "False"]) then Some false
  else None.

(** ** Flag sets *)

(** The [Value]s in use; [KEpoch] is the program's own [requiredUint64Flag]. *)
Inductive flag_kind := KString | KUint64 | KInt | KBool | KEpoch.
Inductive flag_value := VString (s : bytes) | VUint (n : N) | VInt (z : Z) | VBool (b : bool).

(** [Value.Set]; [None] is an error. *)
Definition flag_set (kind : flag_kind) (value : bytes) : option flag_value :=
  match kind with
  | KString => Some (VString value)
  | KUint64 => VUint <$> ParseUint0 value
  | KInt => VInt <$> ParseInt0 value
  | KBool => VBool <$> ParseBool value
  | KEpoch => VUint <$> parse_uint value
  end.

Inductive flag_error := ErrHelp | EFlag (name : bytes).

Section flags.
Context (kind_of : bytes -> option flag_kind).

(** An argument as a flag: its name and the value after [=]; [inl true]: no flag but a
    positional argument, [inl false]: the terminator [--]. *)
Definition split_flag (s : bytes) : bool + bytes * option bytes :=
  match s with
  | x2d :: s1 =>
      match s1 with
      | [] => inl true
      | c :: s2 =>
          if decide (c = x2d) then
            match s2 with
            | [] => inl false
            | _ => inr (match cut x3d s2 with Some (name, value) => (name, Some value) | None => (s2, None) end)
            end
          else inr (match cut x3d s1 with Some (name, value) => (name, Some value) | None => (s1, None) end)
      end
  | _ => inl true
  end.

Definition bad_flag_name (name : bytes) : bool :=
  match name with [] => true | c :: _ => bool_decide (c = x2d) end.

(** [FlagSet.Parse] with [ContinueOnError]. *)
Fixpoint parse_flags (args : list bytes) : flag_error + list (bytes * flag_value) * list bytes :=
  match args with
  | [] => inr ([], [])
  | s :: args' =>
      match split_flag s with
      | inl true => inr ([], args)
      | inl false => inr ([], args')
      | inr (name, value) =>
          if bad_flag_name name then inl (EFlag s)
          else match kind_of name with
               | None => inl (if bool_decide (name = str "help") || bool_decide (name = str "h") then ErrHelp else EFlag name)
               | Some kind =>
                   let set text rest :=
                     match flag_set kind text with
                     | None => inl (EFlag name)
                     | Some v => match rest with
                                 | inl e => inl e
                                 | inr (flags, positional) => inr ((name, v) :: flags, positional)
                                 end
                     end in
                   match kind, value, args' with
                   | _, Some text, _ => set text (parse_flags args')
                   | KBool, None, _ => set (str "true") (parse_flags args')
                   | _, None, text :: args'' => set text (parse_flags args'')
                   | _, None, [] => inl (EFlag name)
                   end
               end
      end
  end.
End flags.

(** The value a flag ends with. *)
Fixpoint flag_get (name : bytes) (flags : list (bytes * flag_value)) : option flag_value :=
  match flags with
  | [] => None
  | (n, v) :: flags' =>
      match flag_get name flags' with
      | Some v => Some v
      | None => if decide (n = name) then Some v else None
      end
  end.

Definition flag_was_set (name : bytes) flags : bool := bool_decide (is_Some (flag_get name flags)).
Definition flag_string name (default : bytes) flags := match flag_get name flags with Some (VString s) => s | _ => default end.
Definition flag_uint name (default : N) flags := match flag_get name flags with Some (VUint n) => n | _ => default end.
Definition flag_int name (default : Z) flags := match flag_get name flags with Some (VInt z) => z | _ => default end.
Definition flag_bool name (default : bool) flags := match flag_get name flags with Some (VBool b) => b | _ => default end.

(** ** Lemmas *)

Example ParseUint0_samples :
  ParseUint0 <$> [str "0"; str "12"; str "0x1F"; str "1_000"; str "0_8"; str "1__0"; str "010"; str "_1"; str "18446744073709551616"; str "0x"]
  = [Some 0; Some 12; Some 31; Some 1000; None; None; Some 8; None; None; None].
Proof. vm_compute. reflexivity. Qed.
