(* ===== verification/Sha256.v ===== *)
(** * Package [crypto/sha256] (FIPS 180-4)

    The digest the first-seen source and the manifest take, executable: 32-bit words are
    [N] below 2^32, additions wrap around. *)

From S2P Require Import Prelude Bytes.
From Stdlib Require Import Strings.Byte.

Definition w32 (x : N) : N := x mod 4294967296.
Definition rotr (x n : N) : N := N.lor (N.shiftr x n) (w32 (N.shiftl x (32 - n))).
Definition big_sigma0 (x : N) : N := N.lxor (N.lxor (rotr x 2) (rotr x 13)) (rotr x 22).
Definition big_sigma1 (x : N) : N := N.lxor (N.lxor (rotr x 6) (rotr x 11)) (rotr x 25).
Definition small_sigma0 (x : N) : N := N.lxor (N.lxor (rotr x 7) (rotr x 18)) (N.shiftr x 3).
Definition small_sigma1 (x : N) : N := N.lxor (N.lxor (rotr x 17) (rotr x 19)) (N.shiftr x 10).
Definition ch (x y z : N) : N := N.lxor (N.land x y) (N.land (N.lxor x 4294967295) z).
Definition maj (x y z : N) : N := N.lxor (N.lxor (N.land x y) (N.land x z)) (N.land y z).

(** The constants, by their definition in the standard: the first 32 bits of the fractional
    parts of the cube roots of the first 64 primes, and of the square roots of the first 8. *)
Definition sha_primes : list N :=
  List.filter (fun p => forallb (fun d => negb (p mod d =? 0)) (N.of_nat <$> seq 2 (N.to_nat p - 2))) (N.of_nat <$> seq 2 310).

(** The largest [r] below [2^bits * (acc + 1)] whose cube is at most [n], bit by bit. *)
Fixpoint cbrt_bits (bits : nat) (n acc : N) : N :=
  match bits with
  | O => acc
  | S bits' =>
      let r := acc + 2 ^ N.of_nat bits' in
      cbrt_bits bits' n (if r * r * r <=? n then r else acc)
  end.

Definition sha256_k : list N :=
  Eval vm_compute in (fun p => w32 (cbrt_bits 36 (p * 2 ^ 96) 0)) <$> sha_primes.

Record sha_state := mkSha { sa : N; sb : N; sc : N; sd : N; se : N; sf : N; sg : N; sh : N }.
Definition sha256_init : sha_state :=
  Eval vm_compute in
  let root k := w32 (N.sqrt (default 0 (sha_primes !! k) * 2 ^ 64)) in
  mkSha (root 0%nat) (root 1%nat) (root 2%nat) (root 3%nat)
    (root 4%nat) (root 5%nat) (root 6%nat) (root 7%nat).

(** Big-endian bytes. *)
Fixpoint be_bytes (n : nat) (x : N) : bytes :=
  match n with O => [] | S n' => to_byte (N.shiftr x (8 * N.of_nat n')) :: be_bytes n' x end.
Definition be_value (bs : bytes) : N := foldl (fun acc b => 256 * acc + byte_val b) 0 bs.

(** [n] pieces of [size] bytes. *)
Fixpoint pieces (n size : nat) (bs : bytes) : list bytes :=
  match n with O => [] | S n' => take size bs :: pieces n' size (drop size bs) end.

Definition sha256_pad (message : bytes) : bytes :=
  let len := length message in
  message ++ x80 :: replicate ((119 - len mod 64) mod 64) x00 ++ be_bytes 8 (8 * N.of_nat len).

(** The message schedule; the list holds the words so far, the last one first. *)
Fixpoint schedule (n : nat) (ws : list N) : list N :=
  match n with
  | O => ws
  | S n' =>
      let at_ k := default 0 (ws !! k) in
      schedule n' (w32 (small_sigma1 (at_ 1%nat) + at_ 6%nat + small_sigma0 (at_ 14%nat) + at_ 15%nat) :: ws)
  end.

Definition sha_round (s : sha_state) (kw : N * N) : sha_state :=
  let t1 := w32 (sh s + big_sigma1 (se s) + ch (se s) (sf s) (sg s) + kw.1 + kw.2) in
  let t2 := w32 (big_sigma0 (sa s) + maj (sa s) (sb s) (sc s)) in
  mkSha (w32 (t1 + t2)) (sa s) (sb s) (sc s) (w32 (sd s + t1)) (se s) (sf s) (sg s).

Definition sha_block (s : sha_state) (block : bytes) : sha_state :=
  let ws := reverse (schedule 48 (reverse (be_value <$> pieces 16 4 block))) in
  let r := foldl sha_round s (zip sha256_k ws) in
  mkSha (w32 (sa s + sa r)) (w32 (sb s + sb r)) (w32 (sc s + sc r)) (w32 (sd s + sd r))
    (w32 (se s + se r)) (w32 (sf s + sf r)) (w32 (sg s + sg r)) (w32 (sh s + sh r)).

(** [sha256.Sum256] *)
Definition sha256 (message : bytes) : bytes :=
  let padded := sha256_pad message in
  let s := foldl sha_block sha256_init (pieces (length padded / 64)%nat 64 padded) in
  be_bytes 4 (sa s) ++ be_bytes 4 (sb s) ++ be_bytes 4 (sc s) ++ be_bytes 4 (sd s)
  ++ be_bytes 4 (se s) ++ be_bytes 4 (sf s) ++ be_bytes 4 (sg s) ++ be_bytes 4 (sh s).

(** The two vectors of the standard, and the empty message. *)
Example sha256_empty : hex_encode (sha256 []) = str "e3b0c44298fc1c149afbf4c8996fb92427ae41e4649b934ca495991b7852b855".
Proof. vm_compute. reflexivity. Qed.
Example sha256_abc :
  hex_encode (sha256 (str "abc")) = str "ba7816bf8f01cfea414140de5dae2223b00361a396177a9cb410ff61f20015ad".
Proof. vm_compute. reflexivity. Qed.
Example sha256_two_blocks :
  hex_encode (sha256 (str "abcdbcdecdefdefgefghfghighijhijkijkljklmklmnlmnomnopnopq"))
  = str "248d6a61d20638b8e5c026930c3e6039a33ce45964ff2167f6ecedd419db06c1".
Proof. vm_compute. reflexivity. Qed.

Lemma length_sha256 message : length (sha256 message) = 32%nat.
Proof. unfold sha256. by rewrite !length_app. Qed.
