(* ===== verification/S3Cache.v ===== *)
(** * The object store ([pkg/s3cache/s3cache.go])

    minio-go is a parameter: the record [minio] of its calls on the state of the store.
    The interface [Store] through which the fetcher and the ERA downloader use the
    package is a class, of which [Client] is an instance; [StoreSpec] is what those
    clients rely on, proved for [Client] from what minio-go documents ([minio_ok]). *)

From S2P Require Import Prelude Bytes Json GoStrings Files.
From Stdlib Require Import Strings.Byte.

(** ** Data *)

Record Object := mkObject { Key : bytes; Size : Z }.

Inductive store_error :=
| SEndpoint | SBucket | SCredentials | SNewClient
| SGet (key : bytes) | SMkdir | SCreateTemp | SCloseTemp | SDownload (key : bytes) | SRename (path : bytes)
| SPut (key : bytes) | SUploadFile (path key : bytes) | SStat (key : bytes) | SList (prefix : bytes).

(** An error of minio-go: its [ErrorResponse], or one that is not. *)
Inductive minio_error := ErrorResponse (Code : bytes) (StatusCode : Z) | OtherError.

(** The calls of minio-go in use.  [GetObject] includes reading the object to its end,
    [FGetObject] and [FPutObject] are given and return the contents of the file. *)
Record minio (W : Type) := mkMinio {
  StatObject : bytes -> bytes -> W -> (minio_error + unit) * W;
  GetObject : bytes -> bytes -> W -> (minio_error + bytes) * W;
  FGetObject : bytes -> bytes -> W -> (minio_error + bytes) * W;
  PutObject : bytes -> bytes -> bytes -> W -> (minio_error + unit) * W;
  FPutObject : bytes -> bytes -> bytes -> W -> (minio_error + unit) * W;
  MinioList : bytes -> bytes -> W -> list (minio_error + Object) * W
}.
Arguments StatObject {W}.
Arguments GetObject {W}.
Arguments FGetObject {W}.
Arguments PutObject {W}.
Arguments FPutObject {W}.
Arguments MinioList {W}.

(** ** The interface *)

Class Store (T : Type) := {
  S3Download : bytes -> T -> outcome store_error (option bytes) * T;
  S3DownloadFile : bytes -> bytes -> T * world -> outcome store_error bool * (T * world);
  S3Upload : bytes -> bytes -> T -> outcome store_error unit * T;
  S3UploadFile : bytes -> bytes -> T * world -> outcome store_error unit * (T * world);
  S3ObjectExists : bytes -> T -> outcome store_error bool * T;
  S3ListObjects : bytes -> T -> outcome store_error (list Object) * T
}.

(** ** Endpoints *)

(** What [url.Parse] returns; the function itself is a parameter. *)
Record URL := mkURL { Scheme : bytes; Host : bytes; Path : bytes; RawQuery : bytes; Fragment : bytes }.

Definition normalizeEndpoint (url_parse : bytes -> option URL) (raw : bytes) : outcome store_error (bytes * bool) :=
  let raw := TrimSpace raw in
  if decide (raw = []) then Err SEndpoint
  else
    let raw := if contains raw (str "://") then raw else str "http://" ++ raw in
    match url_parse raw with
    | None => Err SEndpoint
    | Some parsed =>
        if negb (bool_decide (Scheme parsed = str "http") || bool_decide (Scheme parsed = str "https")) then Err SEndpoint
        else if decide (Host parsed = []) then Err SEndpoint
        else if negb (bool_decide (Path parsed = []) || bool_decide (Path parsed = str "/")) then Err SEndpoint
        else if negb (bool_decide (RawQuery parsed = []) && bool_decide (Fragment parsed = [])) then Err SEndpoint
        else Ok (Host parsed, bool_decide (Scheme parsed = str "https"))
    end.

Record Config := mkConfig { Endpoint : bytes; Bucket : bytes; AccessKeyID : bytes; SecretAccessKey : bytes; PathStyle : bool }.

(** The client is its bucket; [minio_new] is whether [minio.New] accepts the endpoint. *)
Definition New (url_parse : bytes -> option URL) (minio_new : bytes -> bool -> bool -> bool) (cfg : Config)
    : outcome store_error bytes :=
  match normalizeEndpoint url_parse (Endpoint cfg) with
  | Err e => Err e
  | Panic => Panic
  | Ok (endpoint, secure) =>
      let bucket := TrimSpace (Bucket cfg) in
      if decide (bucket = []) then Err SBucket
      else if decide (TrimSpace (AccessKeyID cfg) = []) then Err SCredentials
      else if decide (TrimSpace (SecretAccessKey cfg) = []) then Err SCredentials
      else if minio_new endpoint secure (PathStyle cfg) then Ok bucket else Err SNewClient
  end.

(** ** The client *)

Definition isObjectNotFound (e : minio_error) : bool :=
  match e with
  | ErrorResponse code status =>
      bool_decide (code = str "NoSuchKey") || bool_decide (code = str "NotFound")
      || ((status =? 404)%Z && bool_decide (code = []))
  | OtherError => false
  end.

Section client.
Context {W : Type} (m : minio W) (env : io_env) (bucket : bytes).

Definition ObjectExists (key : bytes) (w : W) : outcome store_error bool * W :=
  match StatObject m bucket key w with
  | (inr _, w) => (Ok true, w)
  | (inl e, w) => (if isObjectNotFound e then Ok false else Err (SStat key), w)
  end.

Definition Download (key : bytes) (w : W) : outcome store_error (option bytes) * W :=
  match ObjectExists key w with
  | (Err e, w) => (Err e, w)
  | (Panic, w) => (Panic, w)
  | (Ok false, w) => (Ok None, w)
  | (Ok true, w) =>
      match GetObject m bucket key w with
      | (inr data, w) => (Ok (Some data), w)
      | (inl _, w) => (Err (SGet key), w)
      end
  end.

(** The temporary file is removed unless it has been renamed to [path]. *)
Definition DownloadFile (key path : bytes) (s : W * world) : outcome store_error bool * (W * world) :=
  let '(w, files) := s in
  match ObjectExists key w with
  | (Err e, w) => (Err e, (w, files))
  | (Panic, w) => (Panic, (w, files))
  | (Ok false, w) => (Ok false, (w, files))
  | (Ok true, w) =>
      let temp := temp_name env path in
      match write_fails env path with
      | Some FMkdirAll => (Err SMkdir, (w, files))
      | Some FCreateTemp => (Err SCreateTemp, (w, files))
      | Some FClose => (Err SCloseTemp, (w, remove_file env temp (<[temp := []]> files)))
      | fails =>
          match FGetObject m bucket key w with
          | (inl e, w) =>
              (if isObjectNotFound e then Ok false else Err (SDownload key),
               (w, remove_file env temp (<[temp := []]> files)))
          | (inr data, w) =>
              let files := <[temp := data]> files in
              match fails with
              | Some FRename => (Err (SRename path), (w, remove_file env temp files))
              | _ => (Ok true, (w, <[path := data]> (delete temp files)))
              end
          end
      end
  end.

Definition Upload (key data : bytes) (w : W) : outcome store_error unit * W :=
  match PutObject m bucket key data w with
  | (inr _, w) => (Ok tt, w)
  | (inl _, w) => (Err (SPut key), w)
  end.

(** [FPutObject] opens the file first. *)
Definition UploadFile (key path : bytes) (s : W * world) : outcome store_error unit * (W * world) :=
  let '(w, files) := s in
  match ReadFile env path files with
  | RData data =>
      match FPutObject m bucket key data w with
      | (inr _, w) => (Ok tt, (w, files))
      | (inl _, w) => (Err (SUploadFile path key), (w, files))
      end
  | _ => (Err (SUploadFile path key), (w, files))
  end.

(** The first error of the listing ends it. *)
Fixpoint take_objects (items : list (minio_error + Object)) : option (list Object) :=
  match items with
  | [] => Some []
  | inl _ :: _ => None
  | inr object :: items' => (object ::.) <$> take_objects items'
  end.

Definition ListObjects (prefix : bytes) (w : W) : outcome store_error (list Object) * W :=
  let '(items, w) := MinioList m bucket prefix w in
  (match take_objects items with
   | Some objects => Ok (sort_by (fun a b => bytes_less (Key a) (Key b)) objects)
   | None => Err (SList prefix)
   end, w).

#[export] Instance client_store : Store W := {|
  S3Download := Download;
  S3DownloadFile := DownloadFile;
  S3Upload := Upload;
  S3UploadFile := UploadFile;
  S3ObjectExists := ObjectExists;
  S3ListObjects := ListObjects
|}.
End client.

(** ** What the clients of the interface rely on *)

(** [objects]: the objects of the bucket.  A read answers from them and leaves them;
    a write that succeeds stores the object, one that fails stores it or nothing. *)
Class StoreSpec (T : Type) {ST : Store T} (env : io_env) (objects : T -> gmap bytes bytes) := {
  S3Download_spec key s :
    let '(o, s') := S3Download key s in
    o ≠ Panic /\ objects s' = objects s /\ forall r, o = Ok r -> r = objects s !! key;
  S3Upload_spec key data s :
    let '(o, s') := S3Upload key data s in
    o ≠ Panic /\ (objects s' = objects s /\ o ≠ Ok tt \/ objects s' = <[key := data]> (objects s));
  S3ObjectExists_spec key s :
    let '(o, s') := S3ObjectExists key s in
    o ≠ Panic /\ objects s' = objects s /\ forall b, o = Ok b -> b = bool_decide (is_Some (objects s !! key));
  S3ListObjects_spec prefix s :
    let '(o, s') := S3ListObjects prefix s in o ≠ Panic /\ objects s' = objects s;
  S3DownloadFile_spec key path s files :
    let '(o, (s', files')) := S3DownloadFile key path (s, files) in
    o ≠ Panic /\ objects s' = objects s
    /\ (o = Ok true -> exists data, objects s !! key = Some data /\ files' !! path = Some data)
    /\ forall other, other ≠ temp_name env path -> (other ≠ path \/ o ≠ Ok true) -> files' !! other = files !! other;
  S3UploadFile_spec key path s files :
    let '(o, (s', files')) := S3UploadFile key path (s, files) in
    o ≠ Panic /\ files' = files
    /\ (objects s' = objects s /\ o ≠ Ok tt
        \/ exists data, files !! path = Some data /\ objects s' = <[key := data]> (objects s))
}.

(** What minio-go documents of its calls on one bucket nobody else writes to. *)
Record minio_ok {W} (m : minio W) (bucket : bytes) (objects : W -> gmap bytes bytes) : Prop := {
  stat_ok key w : let '(r, w') := StatObject m bucket key w in
    objects w' = objects w /\ match r with inr _ => is_Some (objects w !! key)
                                         | inl e => isObjectNotFound e = true -> objects w !! key = None end;
  get_ok key w : let '(r, w') := GetObject m bucket key w in
    objects w' = objects w /\ forall data, r = inr data -> objects w !! key = Some data;
  fget_ok key w : let '(r, w') := FGetObject m bucket key w in
    objects w' = objects w /\ forall data, r = inr data -> objects w !! key = Some data;
  list_ok prefix w : let '(_, w') := MinioList m bucket prefix w in objects w' = objects w;
  put_ok key data w : let '(r, w') := PutObject m bucket key data w in
    objects w' = objects w /\ r ≠ inr tt \/ objects w' = <[key := data]> (objects w);
  fput_ok key data w : let '(r, w') := FPutObject m bucket key data w in
    objects w' = objects w /\ r ≠ inr tt \/ objects w' = <[key := data]> (objects w)
}.

Section client_lemmas.
Context {W : Type} (m : minio W) (env : io_env) (bucket : bytes) (objects : W -> gmap bytes bytes).
Hypothesis Hm : minio_ok m bucket objects.

Lemma ObjectExists_ok key w :
  let '(o, w') := ObjectExists m bucket key w in
  o ≠ Panic /\ objects w' = objects w /\ forall b, o = Ok b -> b = bool_decide (is_Some (objects w !! key)).
Proof.
  unfold ObjectExists. pose proof (stat_ok _ _ _ Hm key w) as H. destruct (StatObject _ _ _ _) as [[e|[]] w'].
  - destruct H as [Ho He]. destruct (isObjectNotFound e); (split; [done|]); (split; [done|]); [|done].
    intros b [= <-]. rewrite (He eq_refl). symmetry. apply bool_decide_eq_false. by intros [? ?].
  - destruct H as [Ho He]. split; [done|]. split; [done|]. intros b [= <-]. by rewrite bool_decide_eq_true_2.
Qed.

Lemma Download_ok key w :
  let '(o, w') := Download m bucket key w in
  o ≠ Panic /\ objects w' = objects w /\ forall r, o = Ok r -> r = objects w !! key.
Proof.
  unfold Download. pose proof (ObjectExists_ok key w) as H. destruct (ObjectExists _ _ _ _) as [[[]|e|] w1];
    destruct H as (Hp & Ho & Hb); [| |by split|done].
  - pose proof (get_ok _ _ _ Hm key w1) as Hg. destruct (GetObject _ _ _ _) as [[e|data] w2];
      destruct Hg as [Ho2 Hd]; (split; [done|]); (split; [by rewrite Ho2|]); [done|].
    intros r [= <-]. by rewrite <- Ho, (Hd data).
  - split; [done|]. split; [done|]. intros r [= <-]. specialize (Hb false eq_refl).
    symmetry in Hb. apply bool_decide_eq_false in Hb. destruct (objects w !! key); [|done]. destruct Hb. by eexists.
Qed.

Lemma ListObjects_ok prefix w :
  let '(o, w') := ListObjects m bucket prefix w in o ≠ Panic /\ objects w' = objects w.
Proof.
  unfold ListObjects. pose proof (list_ok _ _ _ Hm prefix w) as H. destruct (MinioList _ _ _ _) as [items w'].
  by destruct (take_objects items).
Qed.

Lemma removed_temp (temp d : bytes) (files : world) other :
  other ≠ temp -> remove_file env temp (<[temp := d]> files) !! other = files !! other.
Proof.
  intros. unfold remove_file. destruct (remove_fails _ _); rewrite ?lookup_delete_ne, lookup_insert_ne by done; done.
Qed.

Lemma DownloadFile_ok key path w files :
  let '(o, (w', files')) := DownloadFile m env bucket key path (w, files) in
  o ≠ Panic /\ objects w' = objects w
  /\ (o = Ok true -> exists data, objects w !! key = Some data /\ files' !! path = Some data)
  /\ forall other, other ≠ temp_name env path -> (other ≠ path \/ o ≠ Ok true) -> files' !! other = files !! other.
Proof.
  unfold DownloadFile. pose proof (ObjectExists_ok key w) as H. destruct (ObjectExists _ _ _ _) as [[[]|e|] w1];
    destruct H as (Hp & Ho & _); [|by split_and!|by split_and!|done].
  pose proof (fget_ok _ _ _ Hm key w1) as Hg. destruct (FGetObject _ _ _ _) as [[e|data] w2];
    destruct Hg as [Ho2 Hd]; rewrite Ho in *.
  - destruct (write_fails env path) as [[]|]; try destruct (isObjectNotFound e);
      (split; [done|]); (split; [done|]); (split; [done|]); intros; rewrite ?removed_temp; done.
  - specialize (Hd data eq_refl).
    assert (Hok : (exists d, objects w !! key = Some d /\ <[path := data]> (delete (temp_name env path)
        (<[temp_name env path := data]> files)) !! path = Some d)
      /\ forall other, other ≠ temp_name env path -> other ≠ path ->
         <[path := data]> (delete (temp_name env path) (<[temp_name env path := data]> files)) !! other = files !! other).
    { split; [exists data; by rewrite lookup_insert_eq|]. intros.
      rewrite lookup_insert_ne, lookup_delete_ne, lookup_insert_ne by done. done. }
    destruct (write_fails env path) as [[]|]; (split; [done|]); (split; [done|]);
      (split; [try done; intros _; apply Hok|]); intros other Ht Hn; rewrite ?removed_temp by done; try done;
      (destruct Hn as [Hn|[]]; [by apply Hok|done]).
Qed.

Lemma Upload_ok key data w :
  let '(o, w') := Upload m bucket key data w in
  o ≠ Panic /\ (objects w' = objects w /\ o ≠ Ok tt \/ objects w' = <[key := data]> (objects w)).
Proof.
  unfold Upload. pose proof (put_ok _ _ _ Hm key data w) as H. destruct (PutObject _ _ _ _ _) as [[e|[]] w'];
    (split; [done|]); [destruct H as [[]|]; [by left|by right]|destruct H as [[_ []]|]; [done|by right]].
Qed.

Lemma UploadFile_ok key path w files :
  let '(o, (w', files')) := UploadFile m env bucket key path (w, files) in
  o ≠ Panic /\ files' = files
  /\ (objects w' = objects w /\ o ≠ Ok tt
      \/ exists data, files !! path = Some data /\ objects w' = <[key := data]> (objects w)).
Proof.
  unfold UploadFile. destruct (ReadFile env path files) as [data| |] eqn:Hr;
    [|split_and!; try done; by left|split_and!; try done; by left].
  apply ReadFile_data in Hr. pose proof (fput_ok _ _ _ Hm key data w) as H.
  destruct (FPutObject _ _ _ _ _) as [[e|[]] w']; (split; [done|]); (split; [done|]).
  - destruct H as [[]|]; [by left|right; eauto].
  - destruct H as [[_ []]|]; [done|right; eauto].
Qed.

(** The client implements the interface. *)
Lemma client_spec : @StoreSpec W (client_store m env bucket) env objects.
Proof.
  exact (@Build_StoreSpec W (client_store m env bucket) env objects
    Download_ok Upload_ok ObjectExists_ok ListObjects_ok DownloadFile_ok UploadFile_ok).
Qed.
End client_lemmas.

(** ** A sample store: the objects of one bucket in a map *)

Definition map_minio : minio (gmap bytes bytes) := mkMinio _
  (fun _ key w => (match w !! key with Some _ => inr tt | None => inl (ErrorResponse (str "NoSuchKey") 404) end, w))
  (fun _ key w => (match w !! key with Some d => inr d | None => inl OtherError end, w))
  (fun _ key w => (match w !! key with Some d => inr d | None => inl OtherError end, w))
  (fun _ key d w => (inr tt, <[key := d]> w))
  (fun _ key d w => (inr tt, <[key := d]> w))
  (fun _ prefix w => ((fun kv => inr (mkObject kv.1 (Z.of_nat (length kv.2)))) <$>
                      filter (fun kv => has_prefix kv.1 prefix = true) (map_to_list w), w)).

Lemma map_minio_ok bucket : minio_ok map_minio bucket (fun w => w).
Proof.
  split; cbn.
  - intros key w. split; [done|]. destruct (w !! key) eqn:E; cbn; eauto.
  - intros key w. split; [done|]. destruct (w !! key) eqn:E; congruence.
  - intros key w. split; [done|]. destruct (w !! key) eqn:E; congruence.
  - done.
  - intros key data w. by right.
  - intros key data w. by right.
Qed.
