(* ===== verification/Config.v ===== *)
(** * The command line ([cmd/fcr-orchestrator/main.go]: [parseConfig], [parseEraMirrorConfig])

    From the arguments and the environment to a configuration.  [url.Parse] is a
    parameter; [getenv] is [os.Getenv], empty for a variable that is not set.  Texts that
    are only shown to the user (usage, messages) are left out: an error names its flag. *)

From S2P Require Import Prelude Bytes Json GoStrings Flags AttPlan S3Cache.
From Stdlib Require Import Strings.Byte.

(** ** Data *)

Definition defaultWarmupEpochs : N := 10.
Definition defaultParallel : Z := 1.
Definition defaultEraURL : bytes := str "https://mainnet.era.nimbus.team".
Definition defaultCacheDir : bytes := str "~/.cache/fcr-simulator".
Definition defaultOutput : bytes := str "results.csv".
Definition defaultOutputFormat : bytes := str "both".
Definition defaultByzantineThreshold : N := 25.
Definition defaultAttestationSourceMode : bytes := str "next-non-missed".
Definition defaultFirstSeenDeadlineMS : N := 12000.
Definition defaultLookaheadCap : N := 4.
Definition defaultHTTPListen : bytes := str "127.0.0.1:0".
Definition defaultDecodedBlockCacheSize : Z := 4096.

(** [supportedEngines]: the engines and their required build flags. *)
Definition supportedEngines : list (bytes * list bytes) :=
  (fun name => (name, [str "fake_crypto"])) <$>
    [str "lighthouse"; str "teku"; str "lodestar"; str "nimbus"; str "prysm"; str "grandine"].
Definition RequiredBuildFlags (engine : bytes) : option (list bytes) :=
  snd <$> find (fun e => bool_decide (e.1 = engine)) supportedEngines.

Inductive engineBinarySource := engineBinarySourceDefault | engineBinarySourceEnv | engineBinarySourceFlag.

Record config := mkCfg {
  cfg_Engine : bytes; cfg_EngineBinary : bytes; cfg_engineBinarySource : engineBinarySource;
  cfg_Network : bytes; cfg_StartEpoch : N; cfg_EndEpoch : N; cfg_WarmupEpochs : N; cfg_Parallel : Z;
  cfg_BeaconNodeURL : bytes; cfg_EraURL : bytes; cfg_CacheDir : bytes; cfg_Output : bytes; cfg_OutputFormat : bytes;
  cfg_ByzantineThreshold : N; cfg_AttestationSourceMode : bytes; cfg_FirstSeenBasePath : bytes;
  cfg_FirstSeenDeadlineMS : N; cfg_LookaheadCap : N; cfg_HTTPListen : bytes; cfg_BlockArchiveURL : bytes;
  cfg_DecodedBlockCacheSize : Z; cfg_S3Endpoint : bytes; cfg_S3Bucket : bytes; cfg_S3PathStyle : bool;
  cfg_KeepCache : bool; cfg_PrepOnly : bool
}.

Record eraMirrorConfig := mkMirrorCfg {
  em_Network : bytes; em_StartEpoch : N; em_EndEpoch : N; em_WarmupEpochs : N; em_Parallel : Z;
  em_EraURL : bytes; em_CacheDir : bytes; em_S3Endpoint : bytes; em_S3Bucket : bytes; em_S3PathStyle : bool
}.

(** [CHelp] is [flag.ErrHelp]; [CInvalid] a value that is not accepted for a flag or an
    environment variable. *)
Inductive config_error := CHelp | CFlag (name : bytes) | CPositional | CInvalid (name : bytes) | CHome.

Definition ensure (b : bool) (name : bytes) : outcome config_error unit := if b then Ok tt else Err (CInvalid name).

(** [parseAttplanMode] *)
Definition parseAttplanMode (mode : bytes) : option Mode :=
  if decide (mode = str "next-non-missed") then Some ModeNextNonMissed
  else if decide (mode = str "strict-source-block-k-minus-1") then Some ModeStrictKMinus1
  else if decide (mode = str "greedy-lookahead") then Some ModeGreedyLookahead
  else if decide (mode = str "xatu-first-seen-singles") then Some ModeFirstSeenGossip
  else None.

Definition blank (s : bytes) : bool := bool_decide (TrimSpace s = []).
(** [strings.TrimRight(strings.TrimSpace(s), "/")] *)
Definition trim_url (s : bytes) : bytes := trim_slashes (TrimSpace s).
Definition isS3URI (value : bytes) : bool := has_prefix (TrimSpace value) (str "s3://").

Definition defaultEngineBinaryPath (engine : bytes) : bytes := str "./" ++ Join [str "results"; str "fcr-" ++ engine].
Definition defaultEngineBuildScript (engine : bytes) : bytes := Join [str "engines"; engine; str "build.sh"].

Section config.
Context (url_parse : bytes -> option URL) (getenv : bytes -> bytes).

(** [os.UserHomeDir] is [$HOME], an error when empty. *)
Definition expandPath (path : bytes) : outcome config_error bytes :=
  if bool_decide (path = str "~") || has_prefix path (str "~/") then
    let home := getenv (str "HOME") in
    if decide (home = []) then Err CHome
    else if decide (path = str "~") then Ok home else Ok (Join [home; trim_prefix path (str "~/")])
  else Ok path.

(** ** Validation *)

Definition is_http (scheme : bytes) : bool := bool_decide (scheme = str "http") || bool_decide (scheme = str "https").

Definition validateHTTPURL (value name : bytes) : outcome config_error unit :=
  match url_parse (TrimSpace value) with
  | None => Err (CInvalid name)
  | Some parsed =>
      _ ← ensure (is_http (Scheme parsed)) name;
      ensure (negb (bool_decide (Host parsed = []))) name
  end.

Definition validateS3Endpoint (value : bytes) : outcome config_error unit :=
  let name := str "s3-endpoint" in
  let value := TrimSpace value in
  let value := if contains value (str "://") then value else str "http://" ++ value in
  match url_parse value with
  | None => Err (CInvalid name)
  | Some parsed =>
      _ ← ensure (is_http (Scheme parsed)) name;
      _ ← ensure (negb (bool_decide (Host parsed = []))) name;
      _ ← ensure (bool_decide (Path parsed = []) || bool_decide (Path parsed = str "/")) name;
      ensure (bool_decide (RawQuery parsed = []) && bool_decide (Fragment parsed = [])) name
  end.

(** The two credentials both validators ask for. *)
Definition validate_credentials : outcome config_error unit :=
  _ ← ensure (negb (blank (getenv (str "AWS_ACCESS_KEY_ID")))) (str "AWS_ACCESS_KEY_ID");
  ensure (negb (blank (getenv (str "AWS_SECRET_ACCESS_KEY")))) (str "AWS_SECRET_ACCESS_KEY").

Definition validateS3Settings (endpoint bucket : bytes) (required : bool) : outcome config_error unit :=
  let endpoint := TrimSpace endpoint in
  let bucket := TrimSpace bucket in
  if negb required && bool_decide (endpoint = []) && bool_decide (bucket = []) then Ok tt
  else
    _ ← ensure (negb (bool_decide (endpoint = []))) (str "s3-endpoint");
    _ ← ensure (negb (bool_decide (bucket = []))) (str "s3-bucket");
    _ ← validate_credentials;
    validateS3Endpoint endpoint.

Definition validateOptionalCacheS3Settings (endpoint bucket : bytes) (endpointMayBeFirstSeenOnly : bool)
    : outcome config_error unit :=
  let endpoint := TrimSpace endpoint in
  let bucket := TrimSpace bucket in
  if endpointMayBeFirstSeenOnly && negb (bool_decide (endpoint = [])) && bool_decide (bucket = []) then Ok tt
  else validateS3Settings endpoint bucket false.

Definition validateFirstSeenS3Settings (endpoint : bytes) : outcome config_error unit :=
  let endpoint := TrimSpace endpoint in
  _ ← ensure (negb (bool_decide (endpoint = []))) (str "s3-endpoint");
  _ ← validate_credentials;
  validateS3Endpoint endpoint.

(** [switch cfg.AttestationSourceMode] *)
Definition validate_mode (cfg : config) : outcome config_error unit :=
  let mode := cfg_AttestationSourceMode cfg in
  if bool_decide (mode = str "next-non-missed") || bool_decide (mode = str "greedy-lookahead") then
    ensure (negb (cfg_LookaheadCap cfg =? 0)) (str "lookahead-cap")
  else if decide (mode = str "strict-source-block-k-minus-1") then Ok tt
  else if decide (mode = str "xatu-first-seen-singles") then
    _ ← ensure (negb (blank (cfg_FirstSeenBasePath cfg))) (str "attestation-first-seen-base");
    if isS3URI (cfg_FirstSeenBasePath cfg) then validateFirstSeenS3Settings (cfg_S3Endpoint cfg) else Ok tt
  else Err (CInvalid (str "attestation-source-mode")).

Definition validateConfig (cfg : config) (startSet endSet : bool) : outcome config_error unit :=
  _ ← ensure (negb (bool_decide (cfg_Engine cfg = []))) (str "engine");
  _ ← ensure (bool_decide (is_Some (RequiredBuildFlags (cfg_Engine cfg)))) (str "engine");
  _ ← ensure (negb (bool_decide (cfg_Network cfg = []))) (str "network");
  _ ← ensure (bool_decide (cfg_Network cfg = str "mainnet")) (str "network");
  _ ← ensure startSet (str "start-epoch");
  _ ← ensure endSet (str "end-epoch");
  _ ← ensure (cfg_StartEpoch cfg <? cfg_EndEpoch cfg) (str "start-epoch");
  _ ← ensure (0 <? cfg_Parallel cfg)%Z (str "parallel");
  _ ← ensure (negb (blank (cfg_BeaconNodeURL cfg))) (str "beacon-node-url");
  _ ← validateHTTPURL (cfg_BeaconNodeURL cfg) (str "beacon-node-url");
  _ ← ensure (negb (blank (cfg_EraURL cfg))) (str "era-url");
  _ ← validateHTTPURL (cfg_EraURL cfg) (str "era-url");
  _ ← (if blank (cfg_BlockArchiveURL cfg) then Ok tt
       else validateHTTPURL (cfg_BlockArchiveURL cfg) (str "block-archive-url"));
  _ ← ensure (negb (blank (cfg_CacheDir cfg))) (str "cache-dir");
  _ ← ensure (negb (blank (cfg_Output cfg))) (str "output");
  _ ← ensure (bool_decide (ToLower (TrimSpace (cfg_OutputFormat cfg)) ∈ [str "csv"; str "jsonl"; str "both"]))
        (str "output-format");
  _ ← validate_mode cfg;
  _ ← ensure (negb (blank (cfg_HTTPListen cfg))) (str "http-listen");
  _ ← ensure (0 <=? cfg_DecodedBlockCacheSize cfg)%Z (str "decoded-block-cache-size");
  validateOptionalCacheS3Settings (cfg_S3Endpoint cfg) (cfg_S3Bucket cfg) (isS3URI (cfg_FirstSeenBasePath cfg)).

Definition validateEraMirrorConfig (cfg : eraMirrorConfig) (startSet endSet : bool) : outcome config_error unit :=
  _ ← ensure (negb (blank (em_Network cfg))) (str "network");
  _ ← ensure (bool_decide (TrimSpace (em_Network cfg) = str "mainnet")) (str "network");
  _ ← ensure startSet (str "start-epoch");
  _ ← ensure endSet (str "end-epoch");
  _ ← ensure (em_StartEpoch cfg <? em_EndEpoch cfg) (str "start-epoch");
  _ ← ensure (0 <? em_Parallel cfg)%Z (str "parallel");
  _ ← ensure (negb (blank (em_EraURL cfg))) (str "era-url");
  _ ← validateHTTPURL (em_EraURL cfg) (str "era-url");
  _ ← ensure (negb (blank (em_CacheDir cfg))) (str "cache-dir");
  validateS3Settings (em_S3Endpoint cfg) (em_S3Bucket cfg) true.

(** ** Parsing *)

Definition kind_in (table : list (flag_kind * list bytes)) (name : bytes) : option flag_kind :=
  fst <$> find (fun row => bool_decide (name ∈ row.2)) table.

(** The flags of the main command. *)
Definition main_flags : list (flag_kind * list bytes) :=
  [(KString, [str "engine"; str "engine-binary"; str "network"; str "beacon-node-url"; str "era-url"; str "cache-dir";
              str "output"; str "output-format"; str "attestation-source-mode"; str "attestation-first-seen-base";
              str "http-listen"; str "block-archive-url"; str "s3-endpoint"; str "s3-bucket"]);
   (KEpoch, [str "start-epoch"; str "end-epoch"]);
   (KUint64, [str "warmup-epochs"; str "byzantine-threshold"; str "attestation-first-seen-deadline-ms"; str "lookahead-cap"]);
   (KInt, [str "parallel"; str "decoded-block-cache-size"]);
   (KBool, [str "s3-path-style"; str "keep-cache"; str "prep-only"; str "version"])].

Definition era_mirror_flags : list (flag_kind * list bytes) :=
  [(KString, [str "network"; str "era-url"; str "cache-dir"; str "s3-endpoint"; str "s3-bucket"]);
   (KEpoch, [str "start-epoch"; str "end-epoch"]); (KUint64, [str "warmup-epochs"]); (KInt, [str "parallel"]);
   (KBool, [str "s3-path-style"])].

(** [cfg] once [fs.Parse] has returned; the engine binary is its flag's. *)
Definition flag_config (flags : list (bytes * flag_value)) : config :=
  {| cfg_Engine := flag_string (str "engine") [] flags;
     cfg_EngineBinary := flag_string (str "engine-binary") [] flags;
     cfg_engineBinarySource := engineBinarySourceDefault;
     cfg_Network := flag_string (str "network") [] flags;
     cfg_StartEpoch := flag_uint (str "start-epoch") 0 flags;
     cfg_EndEpoch := flag_uint (str "end-epoch") 0 flags;
     cfg_WarmupEpochs := flag_uint (str "warmup-epochs") defaultWarmupEpochs flags;
     cfg_Parallel := flag_int (str "parallel") defaultParallel flags;
     cfg_BeaconNodeURL := flag_string (str "beacon-node-url") (getenv (str "BN_URL")) flags;
     cfg_EraURL := flag_string (str "era-url") defaultEraURL flags;
     cfg_CacheDir := flag_string (str "cache-dir") defaultCacheDir flags;
     cfg_Output := flag_string (str "output") defaultOutput flags;
     cfg_OutputFormat := flag_string (str "output-format") defaultOutputFormat flags;
     cfg_ByzantineThreshold := flag_uint (str "byzantine-threshold") defaultByzantineThreshold flags;
     cfg_AttestationSourceMode := flag_string (str "attestation-source-mode") defaultAttestationSourceMode flags;
     cfg_FirstSeenBasePath := flag_string (str "attestation-first-seen-base") [] flags;
     cfg_FirstSeenDeadlineMS := flag_uint (str "attestation-first-seen-deadline-ms") defaultFirstSeenDeadlineMS flags;
     cfg_LookaheadCap := flag_uint (str "lookahead-cap") defaultLookaheadCap flags;
     cfg_HTTPListen := flag_string (str "http-listen") defaultHTTPListen flags;
     cfg_BlockArchiveURL := flag_string (str "block-archive-url") [] flags;
     cfg_DecodedBlockCacheSize := flag_int (str "decoded-block-cache-size") defaultDecodedBlockCacheSize flags;
     cfg_S3Endpoint := flag_string (str "s3-endpoint") (getenv (str "S3_ENDPOINT")) flags;
     cfg_S3Bucket := flag_string (str "s3-bucket") (getenv (str "S3_BUCKET")) flags;
     cfg_S3PathStyle := flag_bool (str "s3-path-style") true flags;
     cfg_KeepCache := flag_bool (str "keep-cache") false flags;
     cfg_PrepOnly := flag_bool (str "prep-only") false flags |}.

Definition set_binary (binary : bytes) (source : engineBinarySource) (cfg : config) : config :=
  mkCfg (cfg_Engine cfg) binary source (cfg_Network cfg) (cfg_StartEpoch cfg) (cfg_EndEpoch cfg) (cfg_WarmupEpochs cfg)
    (cfg_Parallel cfg) (cfg_BeaconNodeURL cfg) (cfg_EraURL cfg) (cfg_CacheDir cfg) (cfg_Output cfg) (cfg_OutputFormat cfg)
    (cfg_ByzantineThreshold cfg) (cfg_AttestationSourceMode cfg) (cfg_FirstSeenBasePath cfg) (cfg_FirstSeenDeadlineMS cfg)
    (cfg_LookaheadCap cfg) (cfg_HTTPListen cfg) (cfg_BlockArchiveURL cfg) (cfg_DecodedBlockCacheSize cfg)
    (cfg_S3Endpoint cfg) (cfg_S3Bucket cfg) (cfg_S3PathStyle cfg) (cfg_KeepCache cfg) (cfg_PrepOnly cfg).

(** [switch { case engineBinaryFlagSet: ... }] *)
Definition choose_binary (flags : list (bytes * flag_value)) (cfg : config) : outcome config_error config :=
  let from_env := getenv (str "FCR_ENGINE_BINARY") in
  if flag_was_set (str "engine-binary") flags then
    if decide (cfg_EngineBinary cfg = []) then Err (CInvalid (str "engine-binary"))
    else Ok (set_binary (cfg_EngineBinary cfg) engineBinarySourceFlag cfg)
  else if decide (from_env = []) then Ok (set_binary (cfg_EngineBinary cfg) engineBinarySourceDefault cfg)
  else Ok (set_binary from_env engineBinarySourceEnv cfg).

(** What follows validation: paths expanded, texts trimmed, the cap cleared. *)
Definition normalise (cfg : config) : outcome config_error config :=
  let binary := match cfg_engineBinarySource cfg with
                | engineBinarySourceDefault => defaultEngineBinaryPath (cfg_Engine cfg)
                | _ => cfg_EngineBinary cfg end in
  cacheDir ← expandPath (cfg_CacheDir cfg);
  let mode := TrimSpace (cfg_AttestationSourceMode cfg) in
  let base := TrimSpace (cfg_FirstSeenBasePath cfg) in
  base ← (if negb (bool_decide (base = [])) && negb (isS3URI base) then expandPath base else Ok base);
  let cap := if bool_decide (mode = str "strict-source-block-k-minus-1") || bool_decide (mode = str "xatu-first-seen-singles")
             then 0 else cfg_LookaheadCap cfg in
  Ok (mkCfg (cfg_Engine cfg) binary (cfg_engineBinarySource cfg) (cfg_Network cfg) (cfg_StartEpoch cfg) (cfg_EndEpoch cfg)
    (cfg_WarmupEpochs cfg) (cfg_Parallel cfg) (trim_url (cfg_BeaconNodeURL cfg)) (trim_url (cfg_EraURL cfg)) cacheDir
    (cfg_Output cfg) (ToLower (TrimSpace (cfg_OutputFormat cfg))) (cfg_ByzantineThreshold cfg) mode base
    (cfg_FirstSeenDeadlineMS cfg) cap (cfg_HTTPListen cfg) (trim_url (cfg_BlockArchiveURL cfg)) (cfg_DecodedBlockCacheSize cfg)
    (trim_url (cfg_S3Endpoint cfg)) (TrimSpace (cfg_S3Bucket cfg)) (cfg_S3PathStyle cfg) (cfg_KeepCache cfg) (cfg_PrepOnly cfg)).

Definition run_flags (table : list (flag_kind * list bytes)) (args : list bytes)
    : outcome config_error (list (bytes * flag_value) * list bytes) :=
  match parse_flags (kind_in table) args with
  | inl ErrHelp => Err CHelp
  | inl (EFlag name) => Err (CFlag name)
  | inr r => Ok r
  end.

(** [None]: the version is asked for. *)
Definition parseConfig (args : list bytes) : outcome config_error (option config) :=
  parsed ← run_flags main_flags args;
  let flags := parsed.1 in
  if flag_bool (str "version") false flags then Ok None
  else if negb (bool_decide (parsed.2 = [])) then Err CPositional
  else
    cfg ← choose_binary flags (flag_config flags);
    _ ← validateConfig cfg (flag_was_set (str "start-epoch") flags) (flag_was_set (str "end-epoch") flags);
    cfg ← normalise cfg;
    Ok (Some cfg).

Definition parseEraMirrorConfig (args : list bytes) : outcome config_error eraMirrorConfig :=
  parsed ← run_flags era_mirror_flags args;
  let flags := parsed.1 in
  if negb (bool_decide (parsed.2 = [])) then Err CPositional
  else
    let cfg := mkMirrorCfg (flag_string (str "network") (str "mainnet") flags)
      (flag_uint (str "start-epoch") 0 flags) (flag_uint (str "end-epoch") 0 flags)
      (flag_uint (str "warmup-epochs") defaultWarmupEpochs flags) (flag_int (str "parallel") defaultParallel flags)
      (flag_string (str "era-url") defaultEraURL flags) (flag_string (str "cache-dir") defaultCacheDir flags)
      (flag_string (str "s3-endpoint") (getenv (str "S3_ENDPOINT")) flags)
      (flag_string (str "s3-bucket") (getenv (str "S3_BUCKET")) flags) (flag_bool (str "s3-path-style") true flags) in
    _ ← validateEraMirrorConfig cfg (flag_was_set (str "start-epoch") flags) (flag_was_set (str "end-epoch") flags);
    cacheDir ← expandPath (em_CacheDir cfg);
    Ok (mkMirrorCfg (TrimSpace (em_Network cfg)) (em_StartEpoch cfg) (em_EndEpoch cfg) (em_WarmupEpochs cfg) (em_Parallel cfg)
      (trim_url (em_EraURL cfg)) cacheDir (trim_url (em_S3Endpoint cfg)) (TrimSpace (em_S3Bucket cfg)) (em_S3PathStyle cfg)).

(** ** The object stores of a configuration *)

Section stores.
Context (minio_new : bytes -> bool -> bool -> bool).

Definition env_credentials (endpoint bucket : bytes) (pathStyle : bool) : S3Cache.Config :=
  S3Cache.mkConfig endpoint bucket (getenv (str "AWS_ACCESS_KEY_ID")) (getenv (str "AWS_SECRET_ACCESS_KEY")) pathStyle.

(** [None]: no store. *)
Definition newS3Store (endpoint bucket : bytes) (pathStyle : bool) : outcome store_error (option bytes) :=
  if blank endpoint && blank bucket then Ok None
  else if blank bucket then Ok None
  else bucket ← New url_parse minio_new (env_credentials endpoint bucket pathStyle); Ok (Some bucket).

Definition s3BucketFromURI (value : bytes) : option bytes :=
  match url_parse (TrimSpace value) with
  | None => None
  | Some parsed =>
      if negb (bool_decide (Scheme parsed = str "s3")) then None
      else if decide (Host parsed = []) then None
      else if negb (bool_decide (RawQuery parsed = []) && bool_decide (Fragment parsed = [])) then None
      else Some (Host parsed)
  end.

Definition newFirstSeenS3Store (cfg : config) : outcome store_error (option bytes) :=
  if negb (isS3URI (cfg_FirstSeenBasePath cfg)) then Ok None
  else match s3BucketFromURI (cfg_FirstSeenBasePath cfg) with
       | None => Err SBucket
       | Some bucket =>
           bucket ← New url_parse minio_new (env_credentials (cfg_S3Endpoint cfg) bucket (cfg_S3PathStyle cfg)); Ok (Some bucket)
       end.
End stores.
End config.

(** ** Specification: what an accepted configuration guarantees *)

(** What a slash-only text means to [url.Parse]: a path, or no host. *)
Record url_parse_ok (url_parse : bytes -> option URL) : Prop := {
  slashes_no_host v u : Forall (eq x2f) v -> url_parse v = Some u -> Host u = [];
  http_slashes_no_host v u : Forall (eq x2f) v -> url_parse (str "http://" ++ v) = Some u -> Host u = []
}.

Definition int64 (z : Z) : Prop := (- 2 ^ 63 <= z < 2 ^ 63)%Z.

(** A text that is there and has no trailing slash. *)
Definition base_url (s : bytes) : Prop := s ≠ [] /\ last s ≠ Some x2f.

(** The look-ahead cap is what the mode asks for. *)
Definition cap_fits (m : Mode) (cap : N) : Prop :=
  if bool_decide (m = ModeNextNonMissed \/ m = ModeGreedyLookahead) then 1 <= cap else cap = 0.

Record well_formed (getenv : bytes -> bytes) (cfg : config) : Prop := {
  wf_engine : is_Some (RequiredBuildFlags (cfg_Engine cfg));
  wf_binary : cfg_EngineBinary cfg ≠ [];
  wf_network : cfg_Network cfg = str "mainnet";
  wf_epochs : cfg_StartEpoch cfg < cfg_EndEpoch cfg /\ u64 (cfg_EndEpoch cfg) /\ u64 (cfg_WarmupEpochs cfg);
  wf_parallel : (1 <= cfg_Parallel cfg)%Z /\ int64 (cfg_Parallel cfg);
  wf_urls : base_url (cfg_BeaconNodeURL cfg) /\ base_url (cfg_EraURL cfg);
  wf_paths : cfg_CacheDir cfg ≠ [] /\ blank (cfg_Output cfg) = false /\ blank (cfg_HTTPListen cfg) = false;
  wf_format : cfg_OutputFormat cfg ∈ [str "csv"; str "jsonl"; str "both"];
  wf_mode : exists m, parseAttplanMode (cfg_AttestationSourceMode cfg) = Some m /\ cap_fits m (cfg_LookaheadCap cfg)
    /\ (m = ModeFirstSeenGossip -> cfg_FirstSeenBasePath cfg ≠ []);
  wf_caps : u64 (cfg_LookaheadCap cfg) /\ u64 (cfg_ByzantineThreshold cfg) /\ u64 (cfg_FirstSeenDeadlineMS cfg);
  wf_cache_size : (0 <= cfg_DecodedBlockCacheSize cfg)%Z /\ int64 (cfg_DecodedBlockCacheSize cfg);
  wf_store : cfg_S3Bucket cfg ≠ [] -> base_url (cfg_S3Endpoint cfg)
    /\ blank (getenv (str "AWS_ACCESS_KEY_ID")) = false /\ blank (getenv (str "AWS_SECRET_ACCESS_KEY")) = false
}.

Record mirror_well_formed (getenv : bytes -> bytes) (cfg : eraMirrorConfig) : Prop := {
  mf_network : em_Network cfg = str "mainnet";
  mf_epochs : em_StartEpoch cfg < em_EndEpoch cfg /\ u64 (em_EndEpoch cfg) /\ u64 (em_WarmupEpochs cfg);
  mf_parallel : (1 <= em_Parallel cfg)%Z /\ int64 (em_Parallel cfg);
  mf_paths : base_url (em_EraURL cfg) /\ em_CacheDir cfg ≠ [];
  mf_store : em_S3Bucket cfg ≠ [] /\ base_url (em_S3Endpoint cfg)
    /\ blank (getenv (str "AWS_ACCESS_KEY_ID")) = false /\ blank (getenv (str "AWS_SECRET_ACCESS_KEY")) = false
}.

(** ** Lemmas: flags *)

(** Values are in the range of their Go type. *)
Definition value_ok (v : flag_value) : Prop :=
  match v with VUint n => u64 n | VInt z => int64 z | _ => True end.

Lemma base_digits_u64 base s acc n : base_digits base s acc = Some n -> u64 acc -> u64 n.
Proof.
  revert acc. induction s as [|b s IH]; intros acc; cbn [base_digits]; [by intros [= <-]|].
  case_decide; [apply IH|]. destruct (digit_value b) as [d|]; [|done]. destruct (base <=? d); [done|].
  destruct (N.ltb_spec MaxUint64 (acc * base + d)); [done|]. intros H' _. by apply (IH _ H').
Qed.

Lemma ParseUint0_u64 s n : ParseUint0 s = Some n -> u64 n.
Proof.
  unfold ParseUint0. case_decide; [done|]. destruct (base_prefix s) as [base digits].
  destruct (base_digits base digits 0) as [m|] eqn:E; cbn; [|done]. destruct (_ && _); [done|].
  intros [= <-]. by eapply base_digits_u64.
Qed.

Lemma ParseInt0_int64 s z : ParseInt0 s = Some z -> int64 z.
Proof.
  unfold ParseInt0. destruct s as [|c s']; [done|]. destruct (ParseUint0 _) as [un|]; cbn [mbind option_bind]; [|done].
  unfold int64. destruct (bool_decide (c = x2d)).
  - destruct (N.ltb_spec (2 ^ 63) un); [done|]. intros [= <-]. lia.
  - destruct (N.leb_spec (2 ^ 63) un); [done|]. intros [= <-]. lia.
Qed.

Lemma flag_set_ok kind s v : flag_set kind s = Some v -> value_ok v.
Proof.
  destruct kind; cbn; try (intros H; apply fmap_Some in H as (x & Hx & ->)); cbn.
  - by intros [= <-].
  - by eapply ParseUint0_u64.
  - by eapply ParseInt0_int64.
  - done.
  - by eapply parse_uint_u64.
Qed.

Lemma parse_flags_ok kind_of args flags positional :
  parse_flags kind_of args = inr (flags, positional) -> Forall (fun nv => value_ok nv.2) flags.
Proof.
  revert flags positional. induction args as [args IH] using (induction_ltof1 _ (@length bytes)).
  unfold ltof in IH. destruct args as [|s args]; intros flags positional; cbn [parse_flags]; [by intros [= <- <-]|].
  destruct (split_flag s) as [[]|[name value]]; [by intros [= <- <-]..|]. destruct (bad_flag_name name); [done|].
  destruct (kind_of name) as [kind|]; [|done].
  assert (Hset : forall text rest, (length rest < length (s :: args))%nat ->
    match flag_set kind text with
    | None => inl (EFlag name)
    | Some v => match parse_flags kind_of rest with
                | inl e => inl e
                | inr (flags, positional) => inr ((name, v) :: flags, positional)
                end
    end = inr (flags, positional) -> Forall (fun nv => value_ok nv.2) flags).
  { intros text rest Hlt. destruct (flag_set kind text) as [v|] eqn:Hv; [|done].
    destruct (parse_flags kind_of rest) as [|[flags' positional']] eqn:E; [done|]. intros [= <- <-].
    constructor; [by eapply flag_set_ok|by eapply IH]. }
  destruct value as [text|]; [destruct kind; apply Hset; cbn; lia|].
  destruct kind; try (apply Hset; cbn; lia); (destruct args as [|text args]; [done|]; apply Hset; cbn; lia).
Qed.

Lemma flag_get_ok name flags v : Forall (fun nv => value_ok nv.2) flags -> flag_get name flags = Some v -> value_ok v.
Proof.
  induction 1 as [|[n w] flags Hw Hf IH]; cbn; [done|]. destruct (flag_get name flags); [auto|].
  case_decide; [|done]. by intros [= <-].
Qed.

Lemma flag_uint_u64 name d flags : u64 d -> Forall (fun nv => value_ok nv.2) flags -> u64 (flag_uint name d flags).
Proof.
  intros Hd Hf. unfold flag_uint. destruct (flag_get name flags) as [v|] eqn:E; [|done].
  apply flag_get_ok in E; [|done]. by destruct v.
Qed.

Lemma flag_int_int64 name d flags : int64 d -> Forall (fun nv => value_ok nv.2) flags -> int64 (flag_int name d flags).
Proof.
  intros Hd Hf. unfold flag_int. destruct (flag_get name flags) as [v|] eqn:E; [|done].
  apply flag_get_ok in E; [|done]. by destruct v.
Qed.

(** ** Lemmas: validation *)

Lemma ensure_Ok b name u : ensure b name = Ok u -> b = true.
Proof. by destruct b. Qed.

Lemma blank_false s : blank s = false -> TrimSpace s ≠ [].
Proof. unfold blank. by intros ?%bool_decide_eq_false. Qed.

Lemma last_drop_slashes l :
  Forall (eq x2f) l \/ exists c l', c ≠ x2f
    /\ (fix go (l : bytes) := match l with c :: l' => if decide (c = x2f) then go l' else l | [] => [] end) l = c :: l'.
Proof.
  induction l as [|c l IH]; [by left|]. case_decide as Hc; [|right; by exists c, l].
  destruct IH as [IH|IH]; [left; by constructor|by right].
Qed.

(** Trimming slashes off a text leaves a base URL, unless it is nothing but slashes. *)
Lemma trim_slashes_base s : Forall (eq x2f) s \/ base_url (trim_slashes s).
Proof.
  destruct (last_drop_slashes (reverse s)) as [H|(c & l & Hc & H)].
  - left. by rewrite Forall_reverse in H.
  - right. unfold trim_slashes. rewrite H. rewrite reverse_cons. split; [by destruct (reverse l)|].
    rewrite last_snoc. by intros [= ->].
Qed.

Lemma slashes_plain s : Forall (eq x2f) s -> plain_text s.
Proof. intros H. eapply Forall_impl; [exact H|]. intros b <-. by split; vm_compute. Qed.

Section validated.
Context (url_parse : bytes -> option URL) (getenv : bytes -> bytes).
Context (Hurl : url_parse_ok url_parse).

Lemma validateHTTPURL_base value name u : validateHTTPURL url_parse value name = Ok u -> base_url (trim_url value).
Proof.
  unfold validateHTTPURL, trim_url. destruct (url_parse (TrimSpace value)) as [parsed|] eqn:Hp; [|done].
  intros H. outcome_inv. apply ensure_Ok in H. apply negb_true_iff, bool_decide_eq_false in H.
  destruct (trim_slashes_base (TrimSpace value)) as [Hs|]; [|done].
  by apply (slashes_no_host _ Hurl) in Hp.
Qed.

Lemma validateS3Endpoint_base value u : validateS3Endpoint url_parse value = Ok u -> base_url (trim_url value).
Proof.
  unfold validateS3Endpoint, trim_url. intros H.
  destruct (trim_slashes_base (TrimSpace value)) as [Hs|]; [|done]. exfalso.
  destruct (url_parse _) as [parsed|] eqn:Hp; [|done]. outcome_inv.
  match goal with H : ensure (negb (bool_decide (Host _ = []))) _ = _ |- _ =>
    apply ensure_Ok, negb_true_iff, bool_decide_eq_false in H; apply H end.
  destruct (contains _ _); [by eapply slashes_no_host|by eapply http_slashes_no_host].
Qed.

Definition store_settings_ok (endpoint : bytes) : Prop :=
  base_url (trim_url endpoint)
  /\ blank (getenv (str "AWS_ACCESS_KEY_ID")) = false /\ blank (getenv (str "AWS_SECRET_ACCESS_KEY")) = false.

Lemma validate_credentials_ok u : validate_credentials getenv = Ok u ->
  blank (getenv (str "AWS_ACCESS_KEY_ID")) = false /\ blank (getenv (str "AWS_SECRET_ACCESS_KEY")) = false.
Proof. unfold validate_credentials. intros H. outcome_inv. by split; eapply negb_true_iff, ensure_Ok. Qed.

Lemma validateS3Settings_ok endpoint bucket required u :
  validateS3Settings url_parse getenv endpoint bucket required = Ok u -> required = true \/ TrimSpace bucket ≠ [] ->
  TrimSpace bucket ≠ [] /\ store_settings_ok endpoint.
Proof.
  unfold validateS3Settings. intros H Hr. destruct (_ && _) eqn:Hb.
  { apply andb_true_iff in Hb as [Hb Hb2%bool_decide_eq_true]. apply andb_true_iff in Hb as [Hb _].
    destruct required; [done|]. by destruct Hr. }
  outcome_inv.
  repeat match goal with H : ensure (negb _) _ = Ok _ |- _ => apply ensure_Ok, negb_true_iff, bool_decide_eq_false in H end.
  split; [done|]. split; [|by eapply validate_credentials_ok].
  apply validateS3Endpoint_base in H. unfold trim_url in *. by rewrite TrimSpace_idem in H.
Qed.

Lemma validateOptional_ok endpoint bucket b u :
  validateOptionalCacheS3Settings url_parse getenv endpoint bucket b = Ok u -> TrimSpace bucket ≠ [] ->
  store_settings_ok endpoint.
Proof.
  unfold validateOptionalCacheS3Settings. intros H Hb. rewrite (bool_decide_eq_false_2 (TrimSpace bucket = [])) in H by done.
  rewrite andb_false_r in H. apply validateS3Settings_ok in H as [_ [He Hc]]; [|right; by rewrite TrimSpace_idem].
  split; [|done]. unfold trim_url in *. by rewrite TrimSpace_idem in He.
Qed.

Lemma validate_mode_ok cfg u :
  validate_mode url_parse getenv cfg = Ok u ->
  let mode := TrimSpace (cfg_AttestationSourceMode cfg) in
  let cap := if bool_decide (mode = str "strict-source-block-k-minus-1") || bool_decide (mode = str "xatu-first-seen-singles")
             then 0 else cfg_LookaheadCap cfg in
  exists m, parseAttplanMode mode = Some m /\ cap_fits m cap
    /\ (m = ModeFirstSeenGossip -> TrimSpace (cfg_FirstSeenBasePath cfg) ≠ []).
Proof.
  unfold validate_mode. intros H.
  destruct (_ || _) eqn:Hm.
  - apply ensure_Ok in H. bool_to_prop.
    assert (Hcap : forall m b, m = ModeNextNonMissed \/ m = ModeGreedyLookahead -> b = false ->
      cap_fits m (if b : bool then 0 else cfg_LookaheadCap cfg)).
    { intros m b Hm' ->. unfold cap_fits. rewrite bool_decide_eq_true_2 by done. lia. }
    apply orb_true_iff in Hm as [->%bool_decide_eq_true| ->%bool_decide_eq_true].
    + exists ModeNextNonMissed. split; [vm_compute; reflexivity|]. split; [apply Hcap; [by left|vm_compute; reflexivity]|discriminate].
    + exists ModeGreedyLookahead. split; [vm_compute; reflexivity|]. split; [apply Hcap; [by right|vm_compute; reflexivity]|discriminate].
  - case_decide as Hs.
    { rewrite Hs. exists ModeStrictKMinus1. split; [vm_compute; reflexivity|]. split; [vm_compute; reflexivity|discriminate]. }
    case_decide as Hf; [|discriminate H]. rewrite Hf. exists ModeFirstSeenGossip.
    split; [vm_compute; reflexivity|]. split; [vm_compute; reflexivity|]. intros _.
    outcome_inv.
    match goal with H : ensure _ _ = Ok _ |- _ => apply ensure_Ok, negb_true_iff in H; by apply blank_false end.
Qed.

Lemma expandPath_ne path expanded : path ≠ [] -> expandPath getenv path = Ok expanded -> expanded ≠ [].
Proof.
  intros Hp. unfold expandPath. destruct (_ || _); [|by intros [= <-]].
  case_decide as Hh; [done|]. case_decide; intros [= <-]; [done|]. unfold Join. cbn [filter list_filter].
  rewrite decide_True by done. set (es := getenv (str "HOME") :: _). change (Clean (join (str "/") es) ≠ []).
  unfold Clean. case_decide; [done|]. destruct (has_prefix _ _); [done|]. by case_decide.
Qed.

Lemma blank_ne s : blank s = false -> s ≠ [].
Proof. by intros H ->. Qed.

Lemma normalise_ok cfg cfg' startSet endSet u :
  validateConfig url_parse getenv cfg startSet endSet = Ok u ->
  (cfg_engineBinarySource cfg ≠ engineBinarySourceDefault -> cfg_EngineBinary cfg ≠ []) ->
  u64 (cfg_EndEpoch cfg) -> u64 (cfg_WarmupEpochs cfg) -> int64 (cfg_Parallel cfg) -> u64 (cfg_LookaheadCap cfg) ->
  u64 (cfg_ByzantineThreshold cfg) -> u64 (cfg_FirstSeenDeadlineMS cfg) -> int64 (cfg_DecodedBlockCacheSize cfg) ->
  normalise getenv cfg = Ok cfg' -> well_formed getenv cfg'.
Proof.
  unfold validateConfig, normalise. intros Hv Hbin ? ? ? ? ? ? ? Hn. outcome_inv.
  repeat match goal with H : ensure _ _ = Ok _ |- _ => apply ensure_Ok in H end. bool_to_prop.
  repeat match goal with
         | H : bool_decide _ = false |- _ => apply bool_decide_eq_false in H
         | H : bool_decide _ = true |- _ => apply bool_decide_eq_true in H end.
  repeat match goal with H : validateHTTPURL _ _ _ = Ok _ |- _ => apply validateHTTPURL_base in H end.
  match goal with H : validate_mode _ _ _ = Ok _ |- _ => apply validate_mode_ok in H end.
  match goal with H : validateOptionalCacheS3Settings _ _ _ _ _ = Ok _ |- _ => pose proof (validateOptional_ok _ _ _ _ H) end.
  injection Hn as <-. constructor; cbn [cfg_Engine cfg_EngineBinary cfg_Network cfg_StartEpoch cfg_EndEpoch cfg_WarmupEpochs
    cfg_Parallel cfg_BeaconNodeURL cfg_EraURL cfg_CacheDir cfg_Output cfg_OutputFormat cfg_ByzantineThreshold
    cfg_AttestationSourceMode cfg_FirstSeenBasePath cfg_FirstSeenDeadlineMS cfg_LookaheadCap cfg_HTTPListen
    cfg_DecodedBlockCacheSize cfg_S3Endpoint cfg_S3Bucket]; try done.
  - destruct (cfg_engineBinarySource cfg); [done|by apply Hbin..].
  - split; [lia|done].
  - split; [|by split]. eapply expandPath_ne; [|done]. by apply blank_ne.
  - match goal with H : exists m, _ |- _ => destruct H as (m & Hm & Hc & Hb) end.
    exists m. split; [done|]. split; [done|]. intros Hf. specialize (Hb Hf).
    match goal with H : (if _ then expandPath _ _ else _) = Ok ?b |- _ ≠ _ => destruct (_ && _) in H;
      [by eapply expandPath_ne|injection H as <-; done] end.
  - split; [|done]. by case_ifs; [u64_lia|].
Qed.

Lemma run_flags_ok table args flags positional :
  run_flags table args = Ok (flags, positional) -> Forall (fun nv => value_ok nv.2) flags.
Proof.
  unfold run_flags. destruct (parse_flags _ args) as [[]|[flags' positional']] eqn:E; [done..|].
  intros [= <- <-]. by eapply parse_flags_ok.
Qed.

Lemma parseConfig_well_formed args cfg :
  parseConfig url_parse getenv args = Ok (Some cfg) -> well_formed getenv cfg.
Proof.
  unfold parseConfig. intros H. outcome_inv. destruct x as [flags positional]. cbn [fst snd] in H.
  match goal with H : run_flags _ _ = _ |- _ => apply run_flags_ok in H as Hf end.
  destruct (flag_bool _ _ _); [done|]. destruct (negb _); [done|]. outcome_inv. injection H as ->.
  match goal with H : choose_binary _ _ _ = Ok ?c |- _ => rename c into cfg0; unfold choose_binary in H; rename H into Hb end.
  match goal with H : validateConfig _ _ _ _ _ = Ok _, H' : normalise _ _ = Ok _ |- _ =>
    apply (normalise_ok _ _ _ _ _ H); [..|exact H'] end.
  { destruct (flag_was_set _ _); case_decide; [done|..]; injection Hb as <-; cbn; by intros. }
  all: destruct (flag_was_set (str "engine-binary") flags); case_decide; [done|..]; injection Hb as <-; cbn;
    (apply flag_uint_u64 || apply flag_int_int64); try done; vm_compute; done.
Qed.

Lemma parseEraMirrorConfig_well_formed args cfg :
  parseEraMirrorConfig url_parse getenv args = Ok cfg -> mirror_well_formed getenv cfg.
Proof.
  unfold parseEraMirrorConfig. intros H. outcome_inv. destruct x as [flags positional]. cbn [fst snd] in H.
  match goal with H : run_flags _ _ = _ |- _ => apply run_flags_ok in H as Hf end.
  destruct (negb _); [done|]. outcome_inv. injection H as <-.
  match goal with H : validateEraMirrorConfig _ _ _ _ _ = Ok _ |- _ => rename H into Hv; unfold validateEraMirrorConfig in Hv end.
  outcome_inv. apply validateS3Settings_ok in Hv as [Hb [He Hc]]; [|by left].
  repeat match goal with H : ensure _ _ = Ok _ |- _ => apply ensure_Ok in H end. bool_to_prop.
  repeat match goal with H : validateHTTPURL _ _ _ = Ok _ |- _ => apply validateHTTPURL_base in H end.
  constructor; cbn [em_Network em_StartEpoch em_EndEpoch em_WarmupEpochs em_Parallel em_EraURL em_CacheDir
    em_S3Endpoint em_S3Bucket] in *.
  - by eapply bool_decide_eq_true.
  - split; [done|]. split; apply flag_uint_u64; try done; vm_compute; done.
  - split; [lia|]. apply flag_int_int64; [vm_compute; done|done].
  - split; [done|]. eapply expandPath_ne; [|done]. by apply blank_ne.
  - by split.
Qed.
End validated.

(** ** A sample command line *)

(** [url.Parse] on [scheme://host/path]. *)
Definition sample_url_parse (s : bytes) : option URL :=
  match index_of s (str "://") with
  | None => None
  | Some n =>
      let rest := drop (n + 3) s in
      match cut x2f rest with
      | Some (host, path) => Some (mkURL (take n s) host (x2f :: path) [] [])
      | None => Some (mkURL (take n s) rest [] [] [])
      end
  end.

Lemma sample_url_parse_ok : url_parse_ok sample_url_parse.
Proof.
  assert (Hs : forall v, Forall (eq x2f) v -> index_of v (str "://") = None).
  { induction 1 as [|c v <- Hv IH]; [done|]. cbn [index_of].
    replace (has_prefix (x2f :: v) (str "://")) with false by reflexivity. by rewrite IH. }
  split; intros v u Hv; unfold sample_url_parse.
  - by rewrite Hs.
  - cbn. destruct Hv as [|c v <- Hv]; cbn; by intros [= <-].
Qed.

Definition sample_args : list bytes :=
  [str "--engine"; str "teku"; str "-network=mainnet"; str "--start-epoch"; str "10"; str "--end-epoch=20";
   str "--beacon-node-url"; str " http://localhost:5052/ "; str "--parallel=0x4"; str "--output-format"; str "CSV";
   str "--attestation-source-mode=strict-source-block-k-minus-1"; str "--keep-cache"; str "--parallel"; str "3"].
Definition sample_getenv (name : bytes) : bytes := if decide (name = str "HOME") then str "/root" else [].
Definition sample_config := parseConfig sample_url_parse sample_getenv sample_args.

Example parseConfig_sample :
  match sample_config with
  | Ok (Some cfg) => (cfg_Parallel cfg, cfg_LookaheadCap cfg, cfg_BeaconNodeURL cfg, cfg_CacheDir cfg, cfg_OutputFormat cfg,
                      cfg_EngineBinary cfg, cfg_KeepCache cfg)
      = (3%Z, 0, str "http://localhost:5052", str "/root/.cache/fcr-simulator", str "csv", str "./results/fcr-teku", true)
  | _ => False
  end.
Proof. vm_compute. reflexivity. Qed.
Example parseConfig_bad_epochs :
  parseConfig sample_url_parse sample_getenv (sample_args ++ [str "--end-epoch"; str "10"]) = Err (CInvalid (str "start-epoch")).
Proof. vm_compute. reflexivity. Qed.
Example parseConfig_help : parseConfig sample_url_parse sample_getenv [str "-h"] = Err CHelp.
Proof. vm_compute. reflexivity. Qed.

(** ** Theorems *)

(** C38: the type of an accepted command line.  Whatever the arguments and the
    environment, a configuration that [parseConfig] accepts is well formed: a supported
    engine with a binary to run, mainnet, a non-empty epoch range, between 1 and 2^63-1
    workers, base URLs without trailing slash, non-empty paths, an output format and a
    source mode the later stages know, with the look-ahead cap this mode needs (at least
    one for the look-ahead modes, none otherwise) and, for first-seen mode, a base path;
    numbers in the range of their Go types; and credentials and an endpoint whenever a
    bucket is configured.  The same for the configuration of [era-mirror], where the
    bucket is mandatory. *)
Theorem parseConfig_type url_parse getenv args :
  url_parse_ok url_parse ->
  (forall cfg, parseConfig url_parse getenv args = Ok (Some cfg) -> well_formed getenv cfg)
  /\ (forall cfg, parseEraMirrorConfig url_parse getenv args = Ok cfg -> mirror_well_formed getenv cfg).
Proof.
  intros Hurl. split; [intros cfg; by apply parseConfig_well_formed|intros cfg; by apply parseEraMirrorConfig_well_formed].
Qed.

Lemma parseConfig_type_witness : exists cfg, sample_config = Ok (Some cfg) /\ well_formed sample_getenv cfg.
Proof.
  destruct sample_config as [[cfg|]|e|] eqn:E; [|vm_compute in E; discriminate E..].
  exists cfg. split; [reflexivity|].
  exact (proj1 (parseConfig_type sample_url_parse sample_getenv sample_args sample_url_parse_ok) cfg E).
Defined.
