(* ===== verification/Fetch.v ===== *)
(** * The beacon node fetcher ([pkg/beaconfetch/fetcher.go])

    Beacon node and object store are parameters: a server with a state of its own, and
    an instance of [Store].  The fetcher's state is the cache directory, which is part
    of the file system ([cacheDir] in the form [filepath.Join] returns), and the two. *)

From S2P Require Import Prelude Bytes Json GoStrings Files S3Cache.
From Stdlib Require Import Strings.Byte.

(** ** Constants and errors *)

Abbreviation slotsPerEpoch := 32%N.
Abbreviation checkpointFallbackEpochs := 4%N.
Abbreviation beaconFetchMaxAttempts := 8%N.
(** Durations in milliseconds. *)
Abbreviation beaconFetchJitterMax := 1000%N.
Abbreviation beaconFetchBackoffStep := 5000%N.
Abbreviation beaconFetchBackoffMax := 30000%N.

Inductive committee_error := CSlot (i : nat) | CIndex (i : nat) | CNoValidators (i : nat) | CValidator (i j : nat) | CJson.

Inductive fetch_error :=
| FErrNotFound
| FRequest (url : bytes)                (** [http.NewRequest] *)
| FTransport (url : bytes)              (** [client.Do] or the body *)
| FStatus (statusCode : Z) (url : bytes)
| FExhausted (url : bytes) (lastErr : fetch_error)
| FReadCache (path : bytes) | FWriteCache (path : bytes)
| FStore (e : store_error)
| FDecodeHeader | FHeaderRoot
| FHeaderAt (slot : N) (e : fetch_error) | FStateAt (slot : N) (e : fetch_error)
| FNoCheckpoint (warmupSlot : N)
| FCommittees (epoch : N) (e : committee_error).

(** [errors.Is(err, ErrNotFound)], through the wrapped errors. *)
Fixpoint is_fetch_not_found (e : fetch_error) : bool :=
  match e with
  | FErrNotFound | FNoCheckpoint _ => true
  | FExhausted _ e | FHeaderAt _ e | FStateAt _ e => is_fetch_not_found e
  | _ => false
  end.

Record Fetcher := mkFetcher { beaconNodeURL : bytes; fetchDir : bytes; fetchNetwork : bytes }.

(** [NewWithS3]; [mkdir_ok] is whether the three directories can be created. *)
Definition NewWithS3 (mkdir_ok : bytes -> bool) (beaconNodeURL cacheDir network : bytes) (has_store : bool)
    : option Fetcher :=
  let beaconNodeURL := trim_slashes (TrimSpace beaconNodeURL) in
  let network := TrimSpace network in
  if bool_decide (beaconNodeURL = []) || bool_decide (cacheDir = []) then None
  else if has_store && bool_decide (network = []) then None
  else if mkdir_ok (cacheDir ++ str "/states") && mkdir_ok (cacheDir ++ str "/blocks")
          && mkdir_ok (cacheDir ++ str "/committees")
  then Some (mkFetcher beaconNodeURL cacheDir network) else None.

(** ** Roots and names *)

Definition rootHex (root : bytes) : bytes := str "0x" ++ hex_encode root.

Definition parseRoot (value : bytes) : option bytes :=
  if decide (value = []) then None
  else
    let value := trim_prefix (trim_prefix value (str "0x")) (str "0X") in
    match hex_decode value with
    | Some decoded => if (length decoded =? 32)%nat then Some decoded else None
    | None => None
    end.

Definition checkpointStateObjectKey (network : bytes) (slot : N) : bytes :=
  str "checkpoint-state/" ++ network ++ str "/" ++ format_uint slot ++ str ".ssz".
Definition checkpointGenesisStateObjectKey (network : bytes) : bytes :=
  str "checkpoint-state/" ++ network ++ str "/genesis.ssz".
Definition beaconCommitteesObjectKey (network : bytes) (epoch : N) : bytes :=
  str "beacon-committees/" ++ network ++ str "/epoch-" ++ format_uint epoch ++ str ".json".

Definition acceptSSZ : bytes := str "application/octet-stream".
Definition acceptJSON : bytes := str "application/json".

(** ** Responses *)

Definition isRetryableBeaconFetchStatus (statusCode : Z) : bool :=
  (statusCode =? 429)%Z || ((500 <=? statusCode)%Z && (statusCode <=? 599)%Z).

(** [json.Unmarshal] into [struct { Data struct { Root string } }]. *)
Definition store_header_data (v : jvalue) (old : bytes) : option bytes :=
  match v with JNull => Some old | JObject ms => decode_field ms (str "root") store_string old | _ => None end.
Definition decode_header (body : bytes) : option bytes :=
  match parse_json body with
  | Some (JObject ms) => decode_field ms (str "data") store_header_data []
  | Some JNull => Some []
  | _ => None
  end.

Record BeaconCommittee := mkCommittee { c_Slot : N; c_Index : N; Validators : list N }.

(** An element of [response.Data]: its three texts. *)
Definition store_committee (v : jvalue) (old : bytes * bytes * list bytes) : option (bytes * bytes * list bytes) :=
  match v with
  | JNull => Some old
  | JObject ms =>
      slot ← decode_field ms (str "slot") store_string old.1.1;
      index ← decode_field ms (str "index") store_string old.1.2;
      validators ← decode_field ms (str "validators") (store_slice store_string []) old.2;
      Some (slot, index, validators)
  | _ => None
  end.
Definition decode_committees (data : bytes) : option (list (bytes * bytes * list bytes)) :=
  match parse_json data with
  | Some (JObject ms) => decode_field ms (str "data") (store_slice store_committee ([], [], [])) []
  | Some JNull => Some []
  | _ => None
  end.

Fixpoint parse_validators (i j : nat) (values : list bytes) : outcome committee_error (list N) :=
  match values with
  | [] => Ok []
  | value :: values' =>
      match parse_uint value with
      | None => Err (CValidator i j)
      | Some validator => validators ← parse_validators i (S j) values'; Ok (validator :: validators)
      end
  end.

Definition parse_committee (i : nat) (item : bytes * bytes * list bytes) : outcome committee_error BeaconCommittee :=
  let '(slot_text, index_text, values) := item in
  match parse_uint slot_text with
  | None => Err (CSlot i)
  | Some slot =>
      match parse_uint index_text with
      | None => Err (CIndex i)
      | Some index =>
          if decide (values = []) then Err (CNoValidators i)
          else validators ← parse_validators i 0 values; Ok (mkCommittee slot index validators)
      end
  end.

Fixpoint parse_committees (i : nat) (items : list (bytes * bytes * list bytes)) : outcome committee_error (list BeaconCommittee) :=
  match items with
  | [] => Ok []
  | item :: items' =>
      committee ← parse_committee i item; committees ← parse_committees (S i) items'; Ok (committee :: committees)
  end.

Definition parseBeaconCommittees (data : bytes) : outcome committee_error (list BeaconCommittee) :=
  match decode_committees data with None => Err CJson | Some items => parse_committees 0 items end.

(** [for i := 1; i < attempt; i++ { backoff *= 2; ... }]; [n] iterations are left. *)
Fixpoint backoff_loop (n : nat) (backoff : N) : N :=
  match n with
  | O => backoff
  | S n' => let backoff := backoff * 2 in
            if beaconFetchBackoffMax <=? backoff then beaconFetchBackoffMax else backoff_loop n' backoff
  end.

Definition beaconFetchRetryDelay (jitter attempt : N) : N :=
  let backoff := backoff_loop (N.to_nat (attempt - 1)) beaconFetchBackoffStep in
  let backoff := if beaconFetchBackoffMax <? backoff then beaconFetchBackoffMax else backoff in
  let delay := backoff + jitter in
  if beaconFetchBackoffMax <? delay then beaconFetchBackoffMax else delay.

(** ** Calls *)

Section fetcher.
Context {W : Type} (http : bytes -> bytes -> W -> http_answer * W) (url_ok : bytes -> bool).
Context {T : Type} {ST : Store T}.
Context (env : io_env) (jitter : nat -> N).

(** The server, the files, the object store ([None] is a nil [s3Store]) and the delays
    slept so far; [jitter k] is the random delay added to the [k]-th of them. *)
Record fetch_state := mkFS { f_server : W; f_files : world; f_store : option T; f_slept : list N }.

Abbreviation M := (stateM fetch_state fetch_error).

Context (f : Fetcher).

(** [tryFetch]: the body, or whether to retry and the error. *)
Definition tryFetch (url accept : bytes) (s : fetch_state) : (bytes + bool * fetch_error) * fetch_state :=
  if negb (url_ok url) then (inr (false, FRequest url), s)
  else
    let '(answer, w) := http url accept (f_server s) in
    (match answer with
     | HttpError => inr (true, FTransport url)
     | HttpBodyError => inr (true, FTransport url)
     | HttpResponse status body =>
         if (status =? 404)%Z then inr (false, FErrNotFound)
         else if (status <? 200)%Z || (300 <=? status)%Z
         then inr (isRetryableBeaconFetchStatus status, FStatus status url)
         else inl body
     end, mkFS w (f_files s) (f_store s) (f_slept s)).

Definition beaconFetchRetrySleep (attempt : N) (s : fetch_state) : fetch_state :=
  mkFS (f_server s) (f_files s) (f_store s)
    (f_slept s ++ [beaconFetchRetryDelay (jitter (length (f_slept s))) attempt]).

(** [for attempt := 1; attempt <= beaconFetchMaxAttempts; attempt++]; [left] attempts
    after this one. *)
Fixpoint fetch_loop (left : nat) (attempt : N) (url accept : bytes) : M bytes := fun s =>
  match tryFetch url accept s with
  | (inl body, s) => (Ok body, s)
  | (inr (false, e), s) => (Err e, s)
  | (inr (true, e), s) =>
      match left with
      | O => (Err (FExhausted url e), s)
      | S left' => fetch_loop left' (attempt + 1) url accept (beaconFetchRetrySleep attempt s)
      end
  end.

Definition fetch (url accept : bytes) : M bytes :=
  fetch_loop (N.to_nat (beaconFetchMaxAttempts - 1)) 1 url accept.

Definition writeFileAtomic (path data : bytes) : M unit := fun s =>
  let '(ok, files) := atomic_write env path data (f_files s) in
  (if ok then Ok tt else Err (FWriteCache path), mkFS (f_server s) files (f_store s) (f_slept s)).

Definition read_cache (path : bytes) : M (option bytes) := fun s =>
  (match ReadFile env path (f_files s) with
   | RData data => Ok (Some data)
   | RMissing => Ok None
   | RFailed => Err (FReadCache path)
   end, s).

(** The fetch and the write of a cache file both cached calls end with. *)
Definition fetch_and_cache (cachePath url accept : bytes) : M bytes :=
  data ← fetch url accept;
  _ ← writeFileAtomic cachePath data;
  mret data.

Definition cachedOrFetch (cachePath url accept : bytes) : M bytes :=
  cached ← read_cache cachePath;
  match cached with Some data => mret data | None => fetch_and_cache cachePath url accept end.

(** A call on the object store; with a nil store (where the code does not call) it fails. *)
Definition on_store {A} (call : T -> outcome store_error A * T) : M A := fun s =>
  match f_store s with
  | None => (Panic, s)
  | Some t =>
      let '(o, t) := call t in
      (match o with Ok a => Ok a | Err e => Err (FStore e) | Panic => Panic end,
       mkFS (f_server s) (f_files s) (Some t) (f_slept s))
  end.

Definition cachedOrS3OrFetch (cachePath objectKey url accept : bytes) : M bytes :=
  downloaded ← on_store (S3Download objectKey);
  match downloaded with
  | Some data => _ ← writeFileAtomic cachePath data; mret data
  | None =>
      cached ← read_cache cachePath;
      data ← match cached with Some data => mret data | None => fetch_and_cache cachePath url accept end;
      _ ← on_store (S3Upload objectKey data);
      mret data
  end.

(** [if f.s3Store != nil] *)
Definition cached (cachePath objectKey url accept : bytes) : M bytes := fun s =>
  match f_store s with
  | Some _ => cachedOrS3OrFetch cachePath objectKey url accept s
  | None => cachedOrFetch cachePath url accept s
  end.

Definition state_path (name : bytes) : bytes := fetchDir f ++ str "/states/state-" ++ name ++ str ".ssz".
Definition state_url (name : bytes) : bytes := beaconNodeURL f ++ str "/eth/v2/debug/beacon/states/" ++ name.

Definition FetchStateSSZAtSlot (slot : N) : M bytes :=
  cached (state_path (format_uint slot)) (checkpointStateObjectKey (fetchNetwork f) slot)
    (state_url (format_uint slot)) acceptSSZ.

Definition FetchGenesisStateSSZ : M bytes :=
  cached (state_path (str "genesis")) (checkpointGenesisStateObjectKey (fetchNetwork f))
    (state_url (str "genesis")) acceptSSZ.

Definition block_path (root : bytes) : bytes := fetchDir f ++ str "/blocks/block-" ++ rootHex root ++ str ".ssz".
Definition block_url (root : bytes) : bytes := beaconNodeURL f ++ str "/eth/v2/beacon/blocks/" ++ rootHex root.

Definition FetchBlockSSZByRoot (root : bytes) : M bytes :=
  cachedOrFetch (block_path root) (block_url root) acceptSSZ.

Definition header_url (slot : N) : bytes := beaconNodeURL f ++ str "/eth/v1/beacon/headers/" ++ format_uint slot.

Definition CheckpointBlockRootAtSlot (slot : N) : M bytes :=
  body ← fetch (header_url slot) acceptJSON;
  match decode_header body with
  | None => st_lift (Err FDecodeHeader)
  | Some text =>
      match parseRoot text with Some root => mret root | None => st_lift (Err FHeaderRoot) end
  end.

(** [for epochOffset := 0; epochOffset <= checkpointFallbackEpochs; epochOffset++];
    [left] iterations after this one. *)
Fixpoint checkpoint_loop (left : nat) (epochOffset warmupSlot : N) : M (N * bytes) := fun s =>
  let step := u64_mul epochOffset slotsPerEpoch in
  if warmupSlot <? step then (Err (FNoCheckpoint warmupSlot), s)
  else
    let slot := u64_sub warmupSlot step in
    match CheckpointBlockRootAtSlot slot s with
    | (Err e, s) =>
        if is_fetch_not_found e then
          match left with
          | O => (Err (FNoCheckpoint warmupSlot), s)
          | S left' => checkpoint_loop left' (epochOffset + 1) warmupSlot s
          end
        else (Err (FHeaderAt slot e), s)
    | (Panic, s) => (Panic, s)
    | (Ok _, s) =>
        match FetchStateSSZAtSlot slot s with
        | (Ok stateSSZ, s) => (Ok (slot, stateSSZ), s)
        | (Err e, s) => (Err (FStateAt slot e), s)
        | (Panic, s) => (Panic, s)
        end
    end.

Definition FetchCheckpointAtWarmupSlot (warmupSlot : N) : M (N * bytes) :=
  checkpoint_loop (N.to_nat checkpointFallbackEpochs) 0 warmupSlot.

Definition committees_path (epoch : N) : bytes :=
  fetchDir f ++ str "/committees/committees-epoch-" ++ format_uint epoch ++ str ".json".
Definition committees_url (epoch : N) : bytes :=
  beaconNodeURL f ++ str "/eth/v1/beacon/states/" ++ format_uint (u64_mul epoch slotsPerEpoch)
  ++ str "/committees?epoch=" ++ format_uint epoch.

Definition FetchBeaconCommittees (epoch : N) : M (list BeaconCommittee) :=
  data ← cached (committees_path epoch) (beaconCommitteesObjectKey (fetchNetwork f) epoch)
           (committees_url epoch) acceptJSON;
  match parseBeaconCommittees data with
  | Ok committees => mret committees
  | Err e => st_lift (Err (FCommittees epoch e))
  | Panic => st_lift Panic
  end.
End fetcher.

(** ** Specification: what is cached, and where *)

Inductive resource := RState (slot : N) | RGenesis | RBlock (root : bytes) | RCommittees (epoch : N).

Definition resource_ok (r : resource) : Prop :=
  match r with RState n | RCommittees n => u64 n | _ => True end.

Section resources.
Context (f : Fetcher).

Definition resource_path (r : resource) : bytes :=
  match r with
  | RState slot => state_path f (format_uint slot)
  | RGenesis => state_path f (str "genesis")
  | RBlock root => block_path f root
  | RCommittees epoch => committees_path f epoch
  end.

Definition resource_url (r : resource) : bytes :=
  match r with
  | RState slot => state_url f (format_uint slot)
  | RGenesis => state_url f (str "genesis")
  | RBlock root => block_url f root
  | RCommittees epoch => committees_url f epoch
  end.

Definition resource_key (r : resource) : option bytes :=
  match r with
  | RState slot => Some (checkpointStateObjectKey (fetchNetwork f) slot)
  | RGenesis => Some (checkpointGenesisStateObjectKey (fetchNetwork f))
  | RBlock _ => None
  | RCommittees epoch => Some (beaconCommitteesObjectKey (fetchNetwork f) epoch)
  end.
End resources.

(** ** Lemmas: names *)

Lemma format_uint_digits n : u64 n -> format_uint n ≠ str "genesis".
Proof. intros Hn H. apply parse_format_uint in Hn. by rewrite H in Hn. Qed.

Lemma rootHex_inj a b : rootHex a = rootHex b -> a = b.
Proof. unfold rootHex. by intros H%app_inv_head%hex_encode_inj. Qed.

Lemma append_genesis n : u64 n -> format_uint n ++ str ".ssz" = str "genesis.ssz" -> False.
Proof.
  intros Hn H. change (str "genesis.ssz") with (str "genesis" ++ str ".ssz") in H.
  apply app_inv_tail in H. by apply format_uint_digits in H.
Qed.

(** Strip the common parts of two equal names. *)
Ltac strip_names H :=
  repeat first [ apply app_inv_head in H | apply app_inv_tail in H
               | apply format_uint_inj in H; [|assumption|assumption] | apply hex_encode_inj in H ].

#[local] Opaque format_uint hex_encode.

(** Two resources in one file, or under one key, are the same. *)
Lemma resource_path_inj f a b :
  resource_ok a -> resource_ok b -> resource_path f a = resource_path f b -> a = b.
Proof.
  unfold resource_path, state_path, block_path, committees_path, rootHex, resource_ok.
  destruct a, b; intros Ha Hb H; try reflexivity.
  all: apply app_inv_head in H.
  all: try (cbn in H; discriminate H).
  - apply app_inv_head in H. strip_names H. by subst.
  - apply app_inv_head in H. destruct (append_genesis _ Ha H).
  - apply app_inv_head in H. symmetry in H. destruct (append_genesis _ Hb H).
  - rewrite <- !app_assoc in H. strip_names H. by subst.
  - strip_names H. by subst.
Qed.

Lemma resource_key_inj f a b k :
  resource_ok a -> resource_ok b -> resource_key f a = Some k -> resource_key f b = Some k -> a = b.
Proof.
  unfold resource_key, checkpointStateObjectKey, checkpointGenesisStateObjectKey, beaconCommitteesObjectKey, resource_ok.
  destruct a, b; intros Ha Hb Hk H; try discriminate Hk; rewrite <- Hk in H; clear Hk; try reflexivity; try discriminate H.
  all: apply (inj Some) in H.
  all: try (cbn in H; discriminate H).
  - strip_names H. by subst.
  - change (str "/genesis.ssz") with (str "/" ++ str "genesis.ssz") in H. strip_names H.
    by destruct (append_genesis _ Ha (eq_sym H)).
  - change (str "/genesis.ssz") with (str "/" ++ str "genesis.ssz") in H. strip_names H.
    by destruct (append_genesis _ Hb H).
  - strip_names H. by subst.
Qed.

#[local] Transparent format_uint hex_encode.

(** ** Lemmas: requests *)

Lemma backoff_loop_le n b : b <= beaconFetchBackoffMax -> backoff_loop n b <= beaconFetchBackoffMax.
Proof.
  revert b. induction n as [|n IH]; intros b Hb; cbn [backoff_loop]; [done|].
  case_ifs; bool_to_prop; [lia|]. apply IH. lia.
Qed.

Lemma beaconFetchRetryDelay_le j attempt : beaconFetchRetryDelay j attempt <= beaconFetchBackoffMax.
Proof. unfold beaconFetchRetryDelay. case_ifs; bool_to_prop; lia. Qed.

Section waits.
Context {W T : Type}.
Abbreviation state := (fetch_state (W := W) (T := T)).
Implicit Types s : state.

(** At most [k] waits, of at most half a minute. *)
Definition waited (k : nat) s s' : Prop :=
  exists ws, f_slept s' = f_slept s ++ ws /\ (length ws <= k)%nat /\ Forall (fun w => w <= beaconFetchBackoffMax) ws.

Lemma waited_0 k s s' : f_slept s' = f_slept s -> waited k s s'.
Proof. intros H. exists []. rewrite H, app_nil_r. split_and!; [done|cbn; lia|done]. Qed.

Lemma waited_trans j k s1 s2 s3 : waited j s1 s2 -> waited k s2 s3 -> waited (j + k) s1 s3.
Proof.
  intros (w1 & H1 & Hl1 & Hf1) (w2 & H2 & Hl2 & Hf2). exists (w1 ++ w2). split_and!.
  - by rewrite H2, H1, app_assoc.
  - rewrite length_app. lia.
  - by apply Forall_app.
Qed.

End waits.

Section fetch_lemmas.
Context {W : Type} (http : bytes -> bytes -> W -> http_answer * W) (url_ok : bytes -> bool).
Context {T : Type} {ST : Store T}.
Context (env : io_env) (jitter : nat -> N) (f : Fetcher).
Abbreviation state := (fetch_state (W := W) (T := T)).
Implicit Types s : state.

(** Where a body comes from. *)
Definition answered (url accept body : bytes) : Prop :=
  exists w w' status, http url accept w = (HttpResponse status body, w') /\ (200 <= status < 300)%Z.

Lemma tryFetch_spec url accept s :
  let '(r, s') := tryFetch http url_ok url accept s in
  f_files s' = f_files s /\ f_store s' = f_store s /\ f_slept s' = f_slept s
  /\ forall body, r = inl body -> answered url accept body.
Proof.
  unfold tryFetch. destruct (url_ok url); cbn [negb]; [|by split_and!].
  destruct (http url accept (f_server s)) as [answer w'] eqn:Hh. do 3 (split; [done|]).
  intros body. destruct answer as [| |status b]; [done..|]. case_ifs; [done|done|].
  intros [= <-]. bool_to_prop. exists (f_server s), w', status. split; [done|lia].
Qed.

Lemma fetch_loop_spec left attempt url accept s :
  let '(o, s') := fetch_loop http url_ok jitter left attempt url accept s in
  o ≠ Panic /\ f_files s' = f_files s /\ f_store s' = f_store s /\ waited left s s'
  /\ forall body, o = Ok body -> answered url accept body.
Proof.
  revert attempt s. induction left as [|left IH]; intros attempt s; cbn [fetch_loop];
    pose proof (tryFetch_spec url accept s) as H; destruct (tryFetch _ _ _ _ s) as [[body|[[] e]] s1];
    destruct H as (Hf & Ht & Hs & Hb);
    try (split; [done|]; split; [done|]; split; [done|]; split; [by apply waited_0|]; try done; intros b [= <-]; by apply Hb).
  specialize (IH (attempt + 1) (beaconFetchRetrySleep jitter attempt s1)).
  destruct (fetch_loop _ _ _ _ _ _ _ _) as [o s']. destruct IH as (Hp & Hf' & Ht' & Hw & Hb').
  split; [done|]. split; [by rewrite Hf'|]. split; [by rewrite Ht'|]. split; [|done].
  apply (waited_trans 1 left s (beaconFetchRetrySleep jitter attempt s1)); [|done].
  eexists [_]. cbn. rewrite Hs. split_and!; [done|lia|]. apply Forall_singleton, beaconFetchRetryDelay_le.
Qed.

Lemma fetch_spec url accept s :
  let '(o, s') := fetch http url_ok jitter url accept s in
  o ≠ Panic /\ f_files s' = f_files s /\ f_store s' = f_store s /\ waited 7 s s'
  /\ forall body, o = Ok body -> answered url accept body.
Proof. apply (fetch_loop_spec 7). Qed.
End fetch_lemmas.

(** ** Lemmas: the caches *)

Section cache_lemmas.
Context {W : Type} (http : bytes -> bytes -> W -> http_answer * W) (url_ok : bytes -> bool).
Context {T : Type} {ST : Store T} (objects : T -> gmap bytes bytes).
Context (env : io_env) {SS : StoreSpec T env objects} (jitter : nat -> N) (f : Fetcher) (content : bytes -> bytes).
Abbreviation state := (fetch_state (W := W) (T := T)).
Implicit Types s : state.

(** The beacon node answers a URL with the same body at every time: it serves
    finalized states, blocks and committees. *)
Definition node_stable : Prop := forall url accept body, answered http url accept body -> body = content url.
Definition temps_apart : Prop := forall p r, temp_name env p ≠ resource_path f r.

(** Every cache file and every object of the store is what the node answers. *)
Definition coherent s : Prop := forall r, resource_ok r ->
  (forall d, f_files s !! resource_path f r = Some d -> d = content (resource_url f r))
  /\ (forall t k d, f_store s = Some t -> resource_key f r = Some k -> objects t !! k = Some d -> d = content (resource_url f r)).

Context (Hnode : node_stable) (Htemps : temps_apart).

Lemma coherent_same s s' : f_files s' = f_files s -> f_store s' = f_store s -> coherent s -> coherent s'.
Proof. intros Hf Ht Hc r Hr. rewrite Hf, Ht. by apply Hc. Qed.

Lemma writeFileAtomic_ok r s :
  resource_ok r -> coherent s ->
  let '(o, s') := writeFileAtomic env (resource_path f r) (content (resource_url f r)) s in
  o ≠ Panic /\ coherent s' /\ f_store s' = f_store s /\ f_slept s' = f_slept s
  /\ (o = Ok tt -> f_files s' !! resource_path f r = Some (content (resource_url f r))).
Proof.
  intros Hr Hc. unfold writeFileAtomic.
  pose proof (fun r' => atomic_write_spec env (resource_path f r) (content (resource_url f r)) (f_files s)
    (resource_path f r') (fun H => Htemps _ _ (eq_sym H))) as Hw.
  destruct (atomic_write _ _ _ _) as [ok files] eqn:E. split; [by destruct ok|]. split; [|split; [done|split; [done|]]].
  - intros r' Hr'. cbn. split; [|apply Hc, Hr']. intros d Hd. rewrite Hw in Hd. destruct (ok && _) eqn:Hb.
    + apply andb_true_iff in Hb as [_ Hb%bool_decide_eq_true]. apply resource_path_inj in Hb as ->; congruence.
    + by apply (Hc r' Hr').
  - cbn. intros Ho. rewrite Hw. destruct ok; [|done]. by rewrite bool_decide_eq_true_2.
Qed.

(** What a cached call promises of its outcome, for a resource. *)
Definition cached_file r s (o : outcome fetch_error bytes) s' : Prop :=
  o ≠ Panic /\ coherent s' /\ f_store s' = f_store s /\ waited 7 s s'
  /\ forall d, o = Ok d -> d = content (resource_url f r) /\ f_files s' !! resource_path f r = Some d.

Lemma fetch_and_cache_ok r accept s :
  resource_ok r -> coherent s ->
  let '(o, s') := fetch_and_cache http url_ok env jitter (resource_path f r) (resource_url f r) accept s in
  cached_file r s o s'.
Proof.
  intros Hr Hc. unfold fetch_and_cache, mbind, stateM_bind, st_bind.
  pose proof (fetch_spec http url_ok jitter (resource_url f r) accept s) as H.
  destruct (fetch _ _ _ _ _ s) as [[body|e|] s1]; destruct H as (Hp & Hf & Ht & Hw & Hb); [| |done].
  2: { split; [done|]. split; [by eapply coherent_same|]. by split_and!. }
  rewrite (Hnode _ _ _ (Hb body eq_refl)).
  pose proof (writeFileAtomic_ok r s1 Hr (coherent_same _ _ Hf Ht Hc)) as Hwr.
  destruct (writeFileAtomic _ _ _ s1) as [[[]|e|] s2]; destruct Hwr as (Hp2 & Hc2 & Ht2 & Hs2 & Hok); [| |done];
    (split; [done|]; split; [done|]; split; [by rewrite Ht2|]; split; [apply (waited_trans 7 0 s s1 s2 Hw), waited_0, Hs2|]).
  - intros d [= <-]. split; [done|by apply Hok].
  - done.
Qed.

Lemma read_cache_ok r s :
  resource_ok r -> coherent s ->
  let '(o, s') := read_cache env (resource_path f r) s in
  s' = s /\ o ≠ Panic
  /\ forall d, o = Ok (Some d) -> d = content (resource_url f r) /\ f_files s !! resource_path f r = Some d.
Proof.
  intros Hr Hc. unfold read_cache. destruct (ReadFile _ _ _) as [d| |] eqn:E; (split; [done|]; split; [done|]); try done.
  intros d' [= <-]. apply ReadFile_data in E. split; [by apply (Hc r Hr)|done].
Qed.

Lemma cachedOrFetch_ok r accept s :
  resource_ok r -> coherent s ->
  let '(o, s') := cachedOrFetch http url_ok env jitter (resource_path f r) (resource_url f r) accept s in
  cached_file r s o s'.
Proof.
  intros Hr Hc. unfold cachedOrFetch, mbind, stateM_bind, st_bind. pose proof (read_cache_ok r s Hr Hc) as H.
  destruct (read_cache _ _ s) as [[[d|]|e|] s1]; destruct H as (-> & Hp & Hd); [|by apply fetch_and_cache_ok| |done].
  - split; [done|]. split; [done|]. split; [done|]. split; [by apply waited_0|]. intros d' [= <-]. by apply Hd.
  - split; [done|]. split; [done|]. split; [done|]. split; [by apply waited_0|]. done.
Qed.

(** The same with the object store, under [key]. *)
Definition cached_object r key s (o : outcome fetch_error bytes) s' : Prop :=
  o ≠ Panic /\ coherent s' /\ is_Some (f_store s') /\ waited 7 s s'
  /\ forall d, o = Ok d -> d = content (resource_url f r) /\ f_files s' !! resource_path f r = Some d
       /\ forall t, f_store s' = Some t -> objects t !! key = Some d.

Lemma upload_ok r key s t data :
  resource_ok r -> resource_key f r = Some key -> coherent s -> f_store s = Some t -> data = content (resource_url f r) ->
  let '(o, s') := on_store (S3Upload key data) s in
  o ≠ Panic /\ coherent s' /\ f_files s' = f_files s /\ f_slept s' = f_slept s /\ is_Some (f_store s')
  /\ (o = Ok tt -> forall t', f_store s' = Some t' -> objects t' !! key = Some data).
Proof.
  intros Hr Hk Hc Ht Hd. unfold on_store. rewrite Ht. pose proof (S3Upload_spec key data t) as H.
  destruct (S3Upload key data t) as [o t']. destruct H as (Hp & Hu). split; [by destruct o|].
  split; [|split; [done|split; [done|split; [by eexists|]]]].
  - intros r' Hr'. cbn. split; [apply Hc, Hr'|]. intros t0 k d [= <-] Hk' Hl.
    destruct Hu as [[Hu _]|Hu]; rewrite Hu in Hl; [by apply (proj2 (Hc r' Hr') t k d Ht)|].
    apply lookup_insert_Some in Hl as [[-> <-]|[_ Hl]]; [|by apply (proj2 (Hc r' Hr') t k d Ht)].
    by rewrite Hd, (resource_key_inj f r r' k).
  - intros Ho t0 [= <-]. destruct Hu as [[_ Hu]|Hu]; [destruct o as [[]| |]; done|]. by rewrite Hu, lookup_insert_eq.
Qed.

Lemma cachedOrS3OrFetch_ok r key accept s :
  resource_ok r -> resource_key f r = Some key -> coherent s -> is_Some (f_store s) ->
  let '(o, s') := cachedOrS3OrFetch http url_ok env jitter (resource_path f r) key (resource_url f r) accept s in
  cached_object r key s o s'.
Proof.
  intros Hr Hk Hc [t Ht]. unfold cachedOrS3OrFetch, mbind, stateM_bind, st_bind. unfold on_store at 1. rewrite Ht.
  pose proof (S3Download_spec key t) as H. destruct (S3Download key t) as [o t1]. destruct H as (Hp & Ho & Hd).
  set (s1 := mkFS _ _ (Some t1) _).
  assert (Hc1 : coherent s1).
  { intros r' Hr'. cbn. split; [apply Hc, Hr'|]. intros t0 k d [= <-]. rewrite Ho. by apply (proj2 (Hc r' Hr') t k d Ht). }
  destruct o as [[data|]|e|]; [| | |done].
  - specialize (Hd _ eq_refl). symmetry in Hd. assert (data = content (resource_url f r)) as ->
      by by apply (proj2 (Hc r Hr) t key data Ht).
    pose proof (writeFileAtomic_ok r s1 Hr Hc1) as Hwr. destruct (writeFileAtomic _ _ _ s1) as [[[]|e|] s2];
      destruct Hwr as (Hp2 & Hc2 & Ht2 & Hs2 & Hok); [| |done];
      (split; [done|]; split; [done|]; split; [rewrite Ht2; by eexists|]; split; [by apply waited_0|]); [|done].
    intros d [= <-]. split; [done|]. split; [by apply Hok|]. rewrite Ht2. intros t0 [= <-]. by rewrite Ho.
  - pose proof (cachedOrFetch_ok r accept s1 Hr Hc1) as H. unfold cachedOrFetch, mbind, stateM_bind, st_bind in H.
    destruct (read_cache _ _ s1) as [[x|e|] s2]; [| |by destruct H].
    2: { destruct H as (? & Hc2 & Ht2 & Hw2 & _). split; [done|]. split; [done|]. split; [rewrite Ht2; by eexists|].
         split; [|done]. by apply (waited_trans 0 7 s s1 s2); [apply waited_0|]. }
    set (rest := match x with Some data => mret data | None => _ end) in *.
    replace (match x with Some data => _ | None => _ end s2) with (rest s2) in H by (by destruct x).
    destruct (rest s2) as [[d|e|] s3]; destruct H as (? & Hc3 & Ht3 & Hw3 & Hv); [| |done].
    2: { split; [done|]. split; [done|]. split; [rewrite Ht3; by eexists|]. split; [|done].
         by apply (waited_trans 0 7 s s1 s3); [apply waited_0|]. }
    destruct (Hv d eq_refl) as [-> Hfile].
    pose proof (upload_ok r key s3 t1 _ Hr Hk Hc3 Ht3 eq_refl) as Hu.
    destruct (on_store _ s3) as [[[]|e|] s4]; destruct Hu as (? & Hc4 & Hf4 & Hs4 & Ht4 & Hobj); [| |done];
      (split; [done|]; split; [done|]; split; [done|]; split;
       [apply (waited_trans 0 7 s s1 s4); [by apply waited_0|];
        apply (waited_trans 7 0 s1 s3 s4); [done|by apply waited_0]|]); [|done].
    intros d [= <-]. split; [done|]. split; [by rewrite Hf4|by apply Hobj].
  - split; [done|]. split; [done|]. split; [by eexists|]. split; [by apply waited_0|done].
Qed.
End cache_lemmas.

(** ** Lemmas: the checkpoint *)

(** The slots tried: the warm-up slot and up to four epochs before it. *)
Definition checkpoint_slots_from (epochOffset : N) (n : nat) (warmupSlot : N) : list N :=
  (fun k => warmupSlot - 32 * k) <$> filter (fun k => 32 * k <= warmupSlot) (seqN epochOffset n).
Definition checkpoint_slots (warmupSlot : N) : list N := checkpoint_slots_from 0 5 warmupSlot.

Lemma checkpoint_slots_from_cons off n warmup :
  checkpoint_slots_from off (S n) warmup
  = if warmup <? 32 * off then [] else (warmup - 32 * off) :: checkpoint_slots_from (off + 1) n warmup.
Proof.
  unfold checkpoint_slots_from. cbn [seqN]. rewrite filter_cons. destruct (N.ltb_spec warmup (32 * off)).
  - rewrite decide_False by lia. assert (Hnil : forall n off', warmup < 32 * off' ->
      filter (fun k => 32 * k <= warmup) (seqN off' n) = []).
    { clear. induction n as [|n IH]; intros off' Ho; [done|]. cbn [seqN].
      rewrite filter_cons, decide_False by lia. apply IH. lia. }
    by rewrite Hnil by lia.
  - by rewrite decide_True by lia.
Qed.

Lemma checkpoint_slots_spec warmup slot :
  slot ∈ checkpoint_slots warmup -> slot <= warmup <= slot + 128 /\ slot mod 32 = warmup mod 32.
Proof.
  unfold checkpoint_slots, checkpoint_slots_from. intros (k & -> & [Hk Hin]%list_elem_of_filter)%list_elem_of_fmap.
  assert (k <= 4) by (cbn in Hin; set_solver by lia). split; [lia|].
  replace (warmup - 32 * k) with (warmup - 32 * k) by done.
  rewrite <- (N.Div0.mod_add (warmup - 32 * k) k 32). f_equal. lia.
Qed.

Section checkpoint_lemmas.
Context {W : Type} (http : bytes -> bytes -> W -> http_answer * W) (url_ok : bytes -> bool).
Context {T : Type} {ST : Store T} (env : io_env) (jitter : nat -> N) (f : Fetcher).
Abbreviation state := (fetch_state (W := W) (T := T)).
Implicit Types s : state.

(** A server that gives a final answer within [k] retries: a body, or status 404. *)
Fixpoint node_answers (k : nat) (url accept : bytes) (final : option bytes -> W -> Prop) (w : W) : Prop :=
  let '(answer, w') := http url accept w in
  let again := match k with O => False | S k' => node_answers k' url accept final w' end in
  match answer with
  | HttpError | HttpBodyError => again
  | HttpResponse status body =>
      if (status =? 404)%Z then final None w'
      else if (status <? 200)%Z || (300 <=? status)%Z
      then if isRetryableBeaconFetchStatus status then again else False
      else final (Some body) w'
  end.

Lemma fetch_loop_answers k attempt url accept final s :
  url_ok url = true -> node_answers k url accept final (f_server s) ->
  exists r s', fetch_loop http url_ok jitter k attempt url accept s
      = (match r with Some body => Ok body | None => Err FErrNotFound end, s')
    /\ final r (f_server s') /\ f_files s' = f_files s /\ f_store s' = f_store s.
Proof.
  intros Hu. revert attempt s. induction k as [|k IH]; intros attempt s; cbn [fetch_loop node_answers];
    unfold tryFetch; rewrite Hu; cbn [negb]; destruct (http url accept (f_server s)) as [answer w'].
  all: assert (Hfin : forall r, final r w' -> exists r0 s', (match r with Some body => Ok body | None => Err FErrNotFound end,
      mkFS w' (f_files s) (f_store s) (f_slept s)) = (match r0 with Some body => Ok body | None => Err FErrNotFound end : outcome fetch_error bytes, s')
      /\ final r0 (f_server s') /\ f_files s' = f_files s /\ f_store s' = f_store s)
    by (intros r Hf; by exists r, (mkFS w' (f_files s) (f_store s) (f_slept s))).
  - destruct answer as [| |status body]; [done..|]. case_ifs; intros Hf; try done; [by apply (Hfin None)|by apply (Hfin (Some body))].
  - set (s1 := mkFS w' (f_files s) (f_store s) (f_slept s)) in *.
    specialize (IH (attempt + 1) (beaconFetchRetrySleep jitter attempt s1)).
    destruct answer as [| |status body]; [exact IH..|].
    case_ifs; intros Hf; try done; [by apply (Hfin None)|by apply IH|by apply (Hfin (Some body))].
Qed.

(** A node that knows the headers: the root of the block at a slot, or that it was missed. *)
Definition serves_headers (header : N -> option bytes) (inv : W -> Prop) : Prop :=
  forall slot w, u64 slot -> inv w -> url_ok (header_url f slot) = true
    /\ node_answers 7 (header_url f slot) acceptJSON (fun r w' => inv w' /\
         match header slot, r with
         | Some root, Some body => decode_header body ≫= parseRoot = Some root
         | None, None => True
         | _, _ => False
         end) w.

Lemma CheckpointBlockRootAtSlot_served header inv slot s :
  serves_headers header inv -> u64 slot -> inv (f_server s) ->
  exists s', CheckpointBlockRootAtSlot http url_ok jitter f slot s
      = (match header slot with Some root => Ok root | None => Err FErrNotFound end, s')
    /\ inv (f_server s') /\ f_files s' = f_files s /\ f_store s' = f_store s.
Proof.
  intros Hs Hsl Hi. destruct (Hs slot (f_server s) Hsl Hi) as [Hu Ha].
  destruct (fetch_loop_answers 7 1 _ _ _ s Hu Ha) as (r & s' & Hr & [Hi' Hh] & Hf).
  exists s'. split; [|done]. unfold CheckpointBlockRootAtSlot, mbind, stateM_bind, st_bind.
  unfold fetch. change (N.to_nat (8 - 1)) with 7%nat. rewrite Hr.
  destruct r as [body|], (header slot) as [root|]; try done.
  destruct (decode_header body) as [text|]; [|done]. cbn in Hh. by rewrite Hh.
Qed.

(** What the loop does once it has found the slot. *)
Definition state_at (slot : N) s : outcome fetch_error (N * bytes) * state :=
  match FetchStateSSZAtSlot http url_ok env jitter f slot s with
  | (Ok stateSSZ, s') => (Ok (slot, stateSSZ), s')
  | (Err e, s') => (Err (FStateAt slot e), s')
  | (Panic, s') => (Panic, s')
  end.

Lemma checkpoint_loop_served header inv left off warmup s :
  serves_headers header inv -> inv (f_server s) -> u64 warmup -> off + N.of_nat left <= 4 ->
  exists s1, inv (f_server s1) /\ f_files s1 = f_files s /\ f_store s1 = f_store s
    /\ checkpoint_loop http url_ok env jitter f left off warmup s
       = match find (fun slot => bool_decide (is_Some (header slot))) (checkpoint_slots_from off (S left) warmup) with
         | Some slot => state_at slot s1
         | None => (Err (FNoCheckpoint warmup), s1)
         end.
Proof.
  intros Hs. revert off s. induction left as [|left IH]; intros off s Hi Hu Hle;
    rewrite checkpoint_slots_from_cons; cbn [checkpoint_loop];
    (replace (u64_mul off 32) with (32 * off) by u64_lia); (destruct (N.ltb_spec warmup (32 * off)); [by exists s|]);
    (rewrite (u64_sub_small warmup (32 * off)) by u64_lia);
    destruct (CheckpointBlockRootAtSlot_served header inv (warmup - 32 * off) s Hs ltac:(u64_lia) Hi) as (s1 & -> & Hi1 & Hf1 & Ht1);
    cbn [find]; destruct (header (warmup - 32 * off)) as [root|]; cbn [is_fetch_not_found].
  - exists s1. rewrite bool_decide_eq_true_2 by (by eexists). by split_and!.
  - exists s1. rewrite bool_decide_eq_false_2 by (by intros [? ?]). by split_and!.
  - exists s1. rewrite bool_decide_eq_true_2 by (by eexists). by split_and!.
  - rewrite bool_decide_eq_false_2 by (by intros [? ?]).
    destruct (IH (off + 1) s1 Hi1 Hu ltac:(lia)) as (s2 & Hi2 & Hf2 & Ht2 & ->).
    exists s2. rewrite Hf2, Ht2. by split_and!.
Qed.

(** Whatever the server answers, a slot that is returned is one of those tried. *)
Lemma checkpoint_loop_slots left off warmup s slot st s' :
  u64 warmup -> off + N.of_nat left <= 4 ->
  checkpoint_loop http url_ok env jitter f left off warmup s = (Ok (slot, st), s') ->
  slot ∈ checkpoint_slots_from off (S left) warmup.
Proof.
  intros Hu. revert off s. induction left as [|left IH]; intros off s Hle; rewrite checkpoint_slots_from_cons;
    cbn [checkpoint_loop]; (replace (u64_mul off 32) with (32 * off) by u64_lia);
    (destruct (N.ltb_spec warmup (32 * off)); [done|]); (rewrite (u64_sub_small warmup (32 * off)) by u64_lia);
    destruct (CheckpointBlockRootAtSlot _ _ _ _ _ s) as [[root|e|] s1]; try done.
  - destruct (FetchStateSSZAtSlot _ _ _ _ _ _ s1) as [[]]; try done. intros [= <- _ _]. apply list_elem_of_here.
  - by destruct (is_fetch_not_found e).
  - destruct (FetchStateSSZAtSlot _ _ _ _ _ _ s1) as [[]]; try done. intros [= <- _ _]. apply list_elem_of_here.
  - destruct (is_fetch_not_found e); [|done]. intros H'%IH; [|lia]. by apply list_elem_of_further.
Qed.

Lemma FetchCheckpointAtWarmupSlot_slots warmup s slot st s' :
  u64 warmup -> FetchCheckpointAtWarmupSlot http url_ok env jitter f warmup s = (Ok (slot, st), s') ->
  slot ∈ checkpoint_slots warmup.
Proof. intros Hu. apply checkpoint_loop_slots; [done|cbn; lia]. Qed.
End checkpoint_lemmas.

(** ** The calls on a resource *)

Section resource_calls.
Context {W : Type} (http : bytes -> bytes -> W -> http_answer * W) (url_ok : bytes -> bool).
Context {T : Type} {ST : Store T} (env : io_env) (jitter : nat -> N) (f : Fetcher).

Definition fetch_resource (r : resource) : stateM (fetch_state (W := W) (T := T)) fetch_error (bytes + list BeaconCommittee) :=
  match r with
  | RState slot => d ← FetchStateSSZAtSlot http url_ok env jitter f slot; mret (inl d)
  | RGenesis => d ← FetchGenesisStateSSZ http url_ok env jitter f; mret (inl d)
  | RBlock root => d ← FetchBlockSSZByRoot http url_ok env jitter f root; mret (inl d)
  | RCommittees epoch => l ← FetchBeaconCommittees http url_ok env jitter f epoch; mret (inr l)
  end.
End resource_calls.

(** The value a resource has, from the body the node answers. *)
Definition resource_value (r : resource) (body : bytes) (v : bytes + list BeaconCommittee) : Prop :=
  match r, v with
  | RCommittees _, inr l => parseBeaconCommittees body = Ok l
  | RCommittees _, inl _ => False
  | _, inl d => d = body
  | _, inr _ => False
  end.

Lemma parseBeaconCommittees_no_Panic data : parseBeaconCommittees data ≠ Panic.
Proof.
  assert (Hv : forall values i j, parse_validators i j values ≠ Panic).
  { induction values as [|v values IH]; intros i j; cbn; [done|]. destruct (parse_uint v); [|done].
    specialize (IH i (S j)). by destruct (parse_validators i (S j) values). }
  unfold parseBeaconCommittees. destruct (decode_committees data) as [items|]; [|done]. generalize 0%nat.
  induction items as [|[[slot index] values] items IH]; intros i; cbn; [done|].
  apply outcome_bind_no_Panic; [|intros c _; specialize (IH (S i)); by destruct (parse_committees (S i) items)].
  destruct (parse_uint slot), (parse_uint index); try done. case_decide; [done|].
  specialize (Hv values i 0%nat). by destruct (parse_validators i 0 values).
Qed.

Section resource_lemmas.
Context {W : Type} (http : bytes -> bytes -> W -> http_answer * W) (url_ok : bytes -> bool).
Context {T : Type} {ST : Store T} (objects : T -> gmap bytes bytes).
Context (env : io_env) {SS : StoreSpec T env objects} (jitter : nat -> N) (f : Fetcher) (content : bytes -> bytes).
Context (Hnode : node_stable http content) (Htemps : temps_apart env f).
Abbreviation state := (fetch_state (W := W) (T := T)).
Implicit Types s : state.

(** A cached call: [cached_file] and [cached_object] in one, and the answer from the cache. *)
Definition resource_cached (r : resource) s (o : outcome fetch_error bytes) s' : Prop :=
  o ≠ Panic /\ coherent objects f content s' /\ waited 7 s s'
  /\ (forall d, o = Ok d -> d = content (resource_url f r) /\ f_files s' !! resource_path f r = Some d
      /\ forall t k, f_store s' = Some t -> resource_key f r = Some k -> objects t !! k = Some d)
  /\ forall d, f_store s = None -> ReadFile env (resource_path f r) (f_files s) = RData d -> s' = s.

Lemma cachedOrFetch_resource r accept s :
  resource_ok r -> coherent objects f content s -> resource_key f r = None \/ f_store s = None ->
  let '(o, s') := cachedOrFetch http url_ok env jitter (resource_path f r) (resource_url f r) accept s in
  resource_cached r s o s'.
Proof.
  intros Hr Hc Hk.
  assert (Hhit : forall d, ReadFile env (resource_path f r) (f_files s) = RData d ->
    cachedOrFetch http url_ok env jitter (resource_path f r) (resource_url f r) accept s = (Ok d, s)).
  { intros d Hd. unfold cachedOrFetch, read_cache, mbind, stateM_bind, st_bind. by rewrite Hd. }
  pose proof (cachedOrFetch_ok http url_ok objects env jitter f content Hnode Htemps r accept s Hr Hc) as H.
  destruct (cachedOrFetch _ _ _ _ _ _ _ s) as [o s']. destruct H as (Hp & Hc' & Hs' & Hw & Hd).
  split; [done|]. split; [done|]. split; [done|]. split.
  - intros d Ho. destruct (Hd d Ho). split; [done|]. split; [done|]. intros t k Ht Hk'.
    destruct Hk as [Hk|Hk]; congruence.
  - intros d _ Hf. by specialize (Hhit d Hf) as [= _ ->].
Qed.

Lemma cached_resource r key accept s :
  resource_ok r -> coherent objects f content s -> resource_key f r = Some key ->
  let '(o, s') := cached http url_ok env jitter (resource_path f r) key (resource_url f r) accept s in
  resource_cached r s o s'.
Proof.
  intros Hr Hc Hk. unfold cached. destruct (f_store s) as [t|] eqn:Es; [|apply cachedOrFetch_resource; auto].
  pose proof (cachedOrS3OrFetch_ok http url_ok objects env jitter f content Hnode Htemps r key accept s
    Hr Hk Hc ltac:(by eexists)) as H.
  destruct (cachedOrS3OrFetch _ _ _ _ _ _ _ _ s) as [o s']. destruct H as (Hp & Hc' & _ & Hw & Hd).
  split; [done|]. split; [done|]. split; [done|]. split; [|intros d Hn; congruence].
  intros d Ho. destruct (Hd d Ho) as (? & ? & Hobj). split; [done|]. split; [done|].
  intros t0 k Ht Hk'. rewrite Hk in Hk'. injection Hk' as <-. by apply Hobj.
Qed.

(** A parsed result in place of the bytes. *)
Lemma resource_cached_map r s {A} (m : stateM state fetch_error bytes) (k : bytes -> stateM state fetch_error A)
    (g : bytes -> outcome fetch_error A) (V : A -> Prop) :
  (forall v, g (content (resource_url f r)) = Ok v -> V v) ->
  (let '(o, s') := m s in resource_cached r s o s') -> (forall d s, k d s = (g d, s)) -> (forall d, g d ≠ Panic) ->
  let '(o, s') := (m ≫= k) s in
  o ≠ Panic /\ coherent objects f content s' /\ waited 7 s s'
  /\ (forall v, o = Ok v -> V v
      /\ f_files s' !! resource_path f r = Some (content (resource_url f r))
      /\ forall t key, f_store s' = Some t -> resource_key f r = Some key ->
         objects t !! key = Some (content (resource_url f r)))
  /\ forall d, f_store s = None -> ReadFile env (resource_path f r) (f_files s) = RData d -> s' = s.
Proof.
  intros HV Hm Hk Hg. unfold mbind, stateM_bind, st_bind. destruct (m s) as [[d|e|] s']; destruct Hm as (Hp & Hc & Hw & Hd & Hh);
    [rewrite Hk| |done].
  - split; [apply Hg|]. split; [done|]. split; [done|]. split; [|done]. intros v Hv.
    destruct (Hd d eq_refl) as (-> & ? & ?). split; [by apply HV|by split].
  - split; [done|]. split; [done|]. split; [done|]. by split.
Qed.
End resource_lemmas.

(** ** A sample node: it answers every other request with status 503 *)

Definition sample_fetcher : Fetcher := mkFetcher (str "http://node") (str "/cache") (str "mainnet").
Definition sample_header : bytes := repeat x2a 32.
(** [{"data":{"root":"0x2a2a..."}}] *)
Definition sample_header_body : bytes :=
  x7b :: quote (str "data") ++ str ":" ++ write_object [(str "root", JString (rootHex sample_header))] ++ str "}".
Definition sample_content (url : bytes) : bytes :=
  if decide (url = header_url sample_fetcher 288) then sample_header_body else url.
Definition sample_node (url accept : bytes) (n : N) : http_answer * N :=
  (if n mod 2 =? 0 then HttpResponse 503 []
   else if decide (url = header_url sample_fetcher 288) then HttpResponse 200 (sample_content url)
   else if has_prefix url (str "http://node/eth/v1/beacon/headers") then HttpResponse 404 []
   else HttpResponse 200 (sample_content url), n + 1).
Definition sample_env : io_env :=
  mkEnv (fun _ => false) (fun _ => None) (fun _ => false) (fun _ => None) (fun _ => false) (fun _ => str "tmp").
Definition sample_headers (slot : N) : option bytes := if slot =? 288 then Some sample_header else None.
#[local] Instance sample_store : Store (gmap bytes bytes) := client_store map_minio sample_env (str "bucket").
Definition sample_fetch_state : fetch_state := mkFS 0 ∅ (Some (∅ : gmap bytes bytes)) [].

Lemma sample_store_spec : StoreSpec (gmap bytes bytes) sample_env (fun w => w).
Proof. apply client_spec, map_minio_ok. Qed.

Lemma sample_node_stable : node_stable sample_node sample_content.
Proof.
  intros url accept body (w & w' & status & H & Hs). unfold sample_node in H. injection H as H _.
  destruct (w mod 2 =? 0); [injection H as <- _; lia|]. destruct (decide _); [by injection H|].
  destruct (has_prefix _ _); [injection H as <- _; lia|by injection H].
Qed.

Lemma sample_temps : temps_apart sample_env sample_fetcher.
Proof. intros p r. by destruct r. Qed.

(** ** Theorems *)

(** C32: the caches never lie.  From a state where every cache file and every object of
    the store is what the beacon node answers for its URL, any of the four cached calls
    (state, genesis, block, committees), with or without an object store, whatever
    fails, ends without a panic after at most seven waits of half a minute in a state
    where this is so again; a result is the node's answer (for committees, its parsed
    form), and is then in the cache file and, with a store, in the object, so that a
    later call finds it.  Without a store, a resource in the cache is answered without
    a request. *)
Theorem fetch_keeps_caches_coherent {W} (http : bytes -> bytes -> W -> http_answer * W) (url_ok : bytes -> bool)
    {T} {ST : Store T} (objects : T -> gmap bytes bytes) (env : io_env) {SS : StoreSpec T env objects}
    (jitter : nat -> N) (f : Fetcher) (content : bytes -> bytes) (r : resource) (s : fetch_state) :
  node_stable http content -> temps_apart env f -> resource_ok r -> coherent objects f content s ->
  let '(o, s') := fetch_resource http url_ok env jitter f r s in
  o ≠ Panic /\ coherent objects f content s' /\ waited 7 s s'
  /\ (forall v, o = Ok v -> resource_value r (content (resource_url f r)) v
      /\ f_files s' !! resource_path f r = Some (content (resource_url f r))
      /\ forall t key, f_store s' = Some t -> resource_key f r = Some key ->
         objects t !! key = Some (content (resource_url f r)))
  /\ forall d, f_store s = None -> ReadFile env (resource_path f r) (f_files s) = RData d -> s' = s.
Proof.
  intros Hn Ht Hr Hc.
  pose proof (fun A m k g V => resource_cached_map objects env f content r s (A := A) m k g V) as Hmap.
  pose proof (cached_resource http url_ok objects env jitter f content Hn Ht r) as Hcall.
  destruct r as [slot| |root|epoch]; cbn [fetch_resource].
  - apply (Hmap _ _ _ (fun d => Ok (inl d)) _); [by intros v [= <-]|by apply Hcall|done|done].
  - apply (Hmap _ _ _ (fun d => Ok (inl d)) _); [by intros v [= <-]|by apply Hcall|done|done].
  - apply (Hmap _ _ _ (fun d => Ok (inl d)) _); [by intros v [= <-]| |done|done].
    apply (cachedOrFetch_resource http url_ok objects env jitter f content Hn Ht (RBlock root)); auto.
  - set (g := fun d : bytes => match parseBeaconCommittees d with Ok l => Ok (inr l) | Err e => Err (FCommittees epoch e) | Panic => Panic end :
      outcome fetch_error (bytes + list BeaconCommittee)).
    set (m := cached http url_ok env jitter (committees_path f epoch)
      (beaconCommitteesObjectKey (fetchNetwork f) epoch) (committees_url f epoch) acceptJSON).
    set (k := (fun d s => (g d, s)) : bytes -> stateM (fetch_state (W := W) (T := T)) fetch_error _).
    assert (Heq : (l ← FetchBeaconCommittees http url_ok env jitter f epoch; mret (inr l)) s = (m ≫= k) s).
    { unfold FetchBeaconCommittees, mbind, stateM_bind, st_bind, k, g. fold m. destruct (m s) as [[d|e|] s']; [|done..].
      by destruct (parseBeaconCommittees d). }
    rewrite Heq.
    apply (Hmap _ m _ g _); [|by apply Hcall|done|].
    + intros v. unfold g, resource_value. destruct (parseBeaconCommittees _); [|done..]. by intros [= <-].
    + intros d. unfold g. pose proof (parseBeaconCommittees_no_Panic d). by destruct (parseBeaconCommittees d).
Qed.

Lemma fetch_keeps_caches_coherent_witness :
  let '(o, s') := fetch_resource sample_node (fun _ => true) sample_env (fun _ => 7) sample_fetcher (RState 288) sample_fetch_state in
  o = Ok (inl (str "http://node/eth/v2/debug/beacon/states/288"))
  /\ f_files s' !! str "/cache/states/state-288.ssz" = Some (str "http://node/eth/v2/debug/beacon/states/288").
Proof.
  pose proof (fetch_keeps_caches_coherent sample_node (fun _ => true) (fun w => w) sample_env (SS := sample_store_spec)
    (fun _ => 7) sample_fetcher sample_content (RState 288) sample_fetch_state sample_node_stable sample_temps
    ltac:(cbn; u64_lia)) as H.
  assert (Hok : is_Ok (fst (fetch_resource sample_node (fun _ => true) sample_env (fun _ => 7) sample_fetcher (RState 288)
    sample_fetch_state)) = true) by (vm_compute; reflexivity).
  destruct (fetch_resource _ _ _ _ _ _ _) as [o s']. destruct H as (_ & _ & _ & H & _).
  { intros r _. split; [by intros d|]. intros t k d [= <-] _. by rewrite lookup_empty. }
  cbn in Hok. destruct o as [v| |]; [|done..]. destruct (H v eq_refl) as (Hv & Hf & _). split; [|exact Hf].
  destruct v; [|destruct Hv]. cbn in Hv. by rewrite Hv.
Defined.

(** C33: finding the checkpoint.  Against a node that knows the headers, within the
    retries the fetcher allows itself, [FetchCheckpointAtWarmupSlot] takes the first of
    the warm-up slot and the slots one to four epochs before it (none before genesis)
    whose block was not missed, and its outcome is that of fetching the state there;
    when all were missed it fails with [ErrNotFound].  Whatever the server answers, a
    slot that is returned lies at most four epochs before the warm-up slot, at the
    same place in its epoch. *)
Theorem FetchCheckpointAtWarmupSlot_spec {W} (http : bytes -> bytes -> W -> http_answer * W) (url_ok : bytes -> bool)
    {T} {ST : Store T} (env : io_env) (jitter : nat -> N) (f : Fetcher) (warmup : N) (s : fetch_state) :
  u64 warmup ->
  (forall slot st s', FetchCheckpointAtWarmupSlot http url_ok env jitter f warmup s = (Ok (slot, st), s') ->
     slot <= warmup <= slot + 128 /\ slot mod 32 = warmup mod 32)
  /\ forall header inv, serves_headers http url_ok f header inv -> inv (f_server s) ->
     exists s1, inv (f_server s1) /\ f_files s1 = f_files s /\ f_store s1 = f_store s
     /\ match find (fun slot => bool_decide (is_Some (header slot))) (checkpoint_slots warmup) with
        | None => exists e, FetchCheckpointAtWarmupSlot http url_ok env jitter f warmup s = (Err e, s1)
                            /\ is_fetch_not_found e = true
        | Some slot => FetchCheckpointAtWarmupSlot http url_ok env jitter f warmup s
            = match FetchStateSSZAtSlot http url_ok env jitter f slot s1 with
              | (Ok stateSSZ, s') => (Ok (slot, stateSSZ), s')
              | (Err e, s') => (Err (FStateAt slot e), s')
              | (Panic, s') => (Panic, s')
              end
        end.
Proof.
  intros Hu. split.
  - intros slot st s' H. by eapply checkpoint_slots_spec, FetchCheckpointAtWarmupSlot_slots.
  - intros header inv Hh Hi.
    destruct (checkpoint_loop_served http url_ok env jitter f header inv 4 0 warmup s Hh Hi Hu ltac:(cbn; lia))
      as (s1 & Hi1 & Hf1 & Ht1 & Heq).
    exists s1. split; [done|]. split; [done|]. split; [done|].
    unfold FetchCheckpointAtWarmupSlot, checkpoint_slots. change (N.to_nat checkpointFallbackEpochs) with 4%nat.
    rewrite Heq. destruct (find _ _) as [slot|]; [done|]. by exists (FNoCheckpoint warmup).
Qed.

Lemma sample_serves_headers :
  serves_headers sample_node (fun _ => true) sample_fetcher sample_headers (fun _ => True).
Proof.
  intros slot w Hu _. split; [done|].
  set (final := fun (r : option bytes) (w' : N) => True /\ match sample_headers slot, r with
         | Some root, Some body => decode_header body ≫= parseRoot = Some root
         | None, None => True
         | _, _ => False
         end).
  assert (Hodd : forall k w, w mod 2 =? 0 = false -> node_answers sample_node k (header_url sample_fetcher slot) acceptJSON final w).
  { intros k w' Hw. unfold final, sample_headers. destruct (N.eqb_spec slot 288) as [->|Hne].
    - destruct k; cbn [node_answers]; unfold sample_node; rewrite Hw, decide_True by done;
        (split; [done|]); by vm_compute.
    - assert (Hurl : header_url sample_fetcher slot ≠ header_url sample_fetcher 288).
      { unfold header_url. intros H. do 2 apply app_inv_head in H. apply format_uint_inj in H; [done|done|u64_lia]. }
      assert (Hpre : has_prefix (header_url sample_fetcher slot) (str "http://node/eth/v1/beacon/headers") = true).
      { apply (has_prefix_app (str "http://node/eth/v1/beacon/headers") (x2f :: format_uint slot)). }
      destruct k; cbn [node_answers]; unfold sample_node; rewrite Hw, decide_False, Hpre by done; done. }
  change (node_answers sample_node 7 (header_url sample_fetcher slot) acceptJSON final w).
  destruct (w mod 2 =? 0) eqn:E; [|by apply Hodd].
  cbn [node_answers]. unfold sample_node at 1. rewrite E. cbn [Z.eqb Z.ltb Z.leb].
  change (node_answers sample_node 6 (header_url sample_fetcher slot) acceptJSON final (w + 1)).
  apply Hodd. bool_to_prop. lia.
Qed.

Lemma FetchCheckpointAtWarmupSlot_spec_witness :
  exists st s', FetchCheckpointAtWarmupSlot sample_node (fun _ => true) sample_env (fun _ => 7) sample_fetcher 320 sample_fetch_state
    = (Ok (288, st), s').
Proof.
  destruct (FetchCheckpointAtWarmupSlot_spec sample_node (fun _ => true) sample_env (fun _ => 7) sample_fetcher 320
    sample_fetch_state ltac:(u64_lia)) as [_ H].
  destruct (H sample_headers (fun _ => True) sample_serves_headers I) as (s1 & _ & _ & _ & Heq). clear H.
  assert (Hok : is_Ok (fst (FetchCheckpointAtWarmupSlot sample_node (fun _ => true) sample_env (fun _ => 7) sample_fetcher 320
    sample_fetch_state)) = true) by (vm_compute; reflexivity).
  change (find _ (checkpoint_slots 320)) with (Some 288) in Heq. cbn iota in Heq. rewrite Heq in Hok |- *.
  destruct (FetchStateSSZAtSlot _ _ _ _ _ _ s1) as [[st|e|] s']; [|done..]. by exists st, s'.
Defined.
