(* ===== verification/Downloader.v ===== *)
(** * The ERA downloader ([pkg/era/downloader.go])

    The file system of this component is the ERA cache directory: the map from file
    names to contents that the reader ([EraReader.directory]) sees.  Web server and
    object store are parameters.  A cancelled context shows as failing requests.
    [MirrorToS3], which runs many goroutines, is in [Mirror]. *)

From S2P Require Import Prelude Bytes Lru EraFormat EraReader Json GoStrings Files S3Cache.
From Stdlib Require Import Strings.Byte.

(** ** Data *)

Abbreviation defaultMaxRetries := 10%N.
Abbreviation PreDownloadLookaheadSlots := 32%N.
Abbreviation retryBackoffStepSec := 5%N.
Abbreviation retryBackoffMaxSec := 30%N.

Record eraFilename := mkEraFilename { ef_era : N; ef_filename : bytes }.

Inductive download_error :=
| DNilDownloader | DSlotRange (startSlot endSlot : N)
| DIndex | DIndexBody | DNotInIndex (eraNumber : N)
| DMaxRetries | DRequest (url : bytes) | DTransport (url : bytes) | DStatus (status : Z) (url : bytes)
| DBody | DWrite (filename : bytes) | DStore (e : store_error)
| DExhausted (eraNumber : N) (lastErr : download_error)
| DStat (filename : bytes) | DRemove (filename : bytes).

Record Downloader := mkDownloader { dl_baseURL : bytes; dl_network : bytes }.

(** [NewDownloaderWithS3]; [mkdir_ok] is whether the cache directory can be created. *)
Definition NewDownloaderWithS3 (mkdir_ok : bool) (baseURL network : bytes) (has_store : bool) : option Downloader :=
  if negb mkdir_ok then None
  else
    let network := TrimSpace network in
    if has_store && bool_decide (network = []) then None
    else Some (mkDownloader (trim_slashes baseURL) network).

(** ** Names *)

Definition saturatingAddSlot (value delta : N) : N :=
  if MaxUint64 - value <? delta then MaxUint64 else u64_add value delta.

(** One line of the index: the ERA file it names, if any. *)
Definition parse_index_line (line : bytes) : option eraFilename :=
  start ← index_of line (str "mainnet-");
  let rest := drop start line in
  stop ← index_of rest (str ".era");
  let filename := take (stop + 4) rest in
  let numStr := trim_prefix filename (str "mainnet-") in
  let numStr := match index_of numStr (str "-") with Some dash => take dash numStr | None => numStr end in
  eraNumber ← parse_uint numStr;
  Some (mkEraFilename eraNumber filename).

(** [sort.Slice] leaves the order of equal eras open; here they keep their order. *)
Definition parseEraFilenames (body : bytes) : list eraFilename :=
  sort_by (fun a b => ef_era a <? ef_era b) (omap parse_index_line (split_on x0a body)).

Definition eraObjectPrefix (network : bytes) (eraNumber : N) : bytes :=
  str "era/" ++ network ++ str "/" ++ eraFilePrefix eraNumber.
Definition eraObjectKey (network filename : bytes) : bytes := str "era/" ++ network ++ str "/" ++ filename.

(** ** Calls *)

Section downloader.
Context {W : Type} (http : bytes -> W -> http_answer * W) (url_ok : bytes -> bool).
Context {T : Type} {ST : Store T} (env : io_env).

(** The server, the files of the cache directory, the object store, the index once it
    is loaded, and the seconds slept so far. *)
Record dl_state := mkDL {
  d_server : W;
  d_files : world;
  d_store : option T;
  d_index : option (list eraFilename);
  d_slept : list N
}.

Abbreviation M := (stateM dl_state download_error).

Context (d : Downloader).

Definition d_get (url : bytes) (s : dl_state) : http_answer * dl_state :=
  let '(answer, w) := http url (d_server s) in
  (answer, mkDL w (d_files s) (d_store s) (d_index s) (d_slept s)).

Definition set_files (files : world) (s : dl_state) : dl_state :=
  mkDL (d_server s) files (d_store s) (d_index s) (d_slept s).

(** The status of the index response is not looked at. *)
Definition fetchIndex : M unit := fun s =>
  match d_index s with
  | Some _ => (Ok tt, s)
  | None =>
      if negb (url_ok (dl_baseURL d)) then (Err DIndex, s)
      else
        let '(answer, s) := d_get (dl_baseURL d) s in
        match answer with
        | HttpError => (Err DIndex, s)
        | HttpBodyError => (Err DIndexBody, s)
        | HttpResponse _ body =>
            (Ok tt, mkDL (d_server s) (d_files s) (d_store s) (Some (parseEraFilenames body)) (d_slept s))
        end
  end.

Definition filenameForEra (eraNumber : N) : M bytes :=
  _ ← fetchIndex;
  eraFilenames ← st_gets (fun s => default [] (d_index s));
  match find (fun candidate => ef_era candidate =? eraNumber) eraFilenames with
  | Some candidate => mret (ef_filename candidate)
  | None => st_lift (Err (DNotInIndex eraNumber))
  end.

(** [os.WriteFile] is not atomic: what was written before an error stays. *)
Definition WriteFile (filename data : bytes) : M unit := fun s =>
  match write_fails env filename with
  | Some FMkdirAll | Some FCreateTemp => (Err (DWrite filename), s)
  | Some (FWrite n) => (Err (DWrite filename), set_files (<[filename := take n data]> (d_files s)) s)
  | Some FClose => (Err (DWrite filename), set_files (<[filename := data]> (d_files s)) s)
  | _ => (Ok tt, set_files (<[filename := data]> (d_files s)) s)
  end.

(** A call on the object store that may also touch the files. *)
Definition on_files_store {A} (call : T * world -> outcome store_error A * (T * world)) : M A := fun s =>
  match d_store s with
  | None => (Panic, s)
  | Some t =>
      let '(o, (t, files)) := call (t, d_files s) in
      (match o with Ok a => Ok a | Err e => Err (DStore e) | Panic => Panic end,
       mkDL (d_server s) files (Some t) (d_index s) (d_slept s))
  end.

Definition on_store {A} (call : T -> outcome store_error A * T) : M A :=
  on_files_store (fun s => let '(o, t) := call s.1 in (o, (t, s.2))).

Definition tryDownloadHTTP (url filename : bytes) (uploadToS3 : bool) : M unit := fun s =>
  if negb (url_ok url) then (Err (DRequest url), s)
  else
    let '(answer, s) := d_get url s in
    match answer with
    | HttpError => (Err (DTransport url), s)
    | HttpBodyError => (Err DBody, s)
    | HttpResponse status data =>
        if (status <? 200)%Z || (300 <=? status)%Z then (Err (DStatus status url), s)
        else
          (_ ← WriteFile filename data;
           if uploadToS3 then on_files_store (S3UploadFile (eraObjectKey (dl_network d) filename) filename)
           else mret tt) s
    end.

Definition file_url (filename : bytes) : bytes := dl_baseURL d ++ x2f :: filename.

Definition downloaderRetrySleep (attempt : N) (s : dl_state) : dl_state :=
  mkDL (d_server s) (d_files s) (d_store s) (d_index s)
    (d_slept s ++ [N.min (retryBackoffStepSec * attempt) retryBackoffMaxSec]).

(** [for attempt := 1; attempt <= maxRetries; attempt++]; [left] attempts after this one. *)
Fixpoint download_attempts (left : nat) (attempt : N) (eraNumber : N) (url filename : bytes) (uploadToS3 : bool) : M unit := fun s =>
  match tryDownloadHTTP url filename uploadToS3 s with
  | (Err e, s) =>
      match left with
      | O => (Err (DExhausted eraNumber e), s)
      | S left' => download_attempts left' (attempt + 1) eraNumber url filename uploadToS3 (downloaderRetrySleep attempt s)
      end
  | r => r
  end.

Definition downloadEraFromHTTPWithRetries (eraNumber maxRetries : N) (uploadToS3 : bool) : M unit :=
  filename ← filenameForEra eraNumber;
  download_attempts (N.to_nat (maxRetries - 1)) 1 eraNumber (file_url filename) filename uploadToS3.

Definition era_object_name (eraNumber : N) (object : Object) : option bytes :=
  let filename := Base (Key object) in
  if has_prefix filename (eraFilePrefix eraNumber) && has_suffix filename (str ".era") then Some filename else None.

Definition s3FilenameForEra (eraNumber : N) : M (option bytes) :=
  objects ← on_store (S3ListObjects (eraObjectPrefix (dl_network d) eraNumber));
  mret (head (omap (era_object_name eraNumber) objects)).

Definition tryDownloadEraFromS3 (eraNumber : N) : M bool := fun s =>
  match d_store s with
  | None => (Ok false, s)
  | Some _ =>
      (filename ← s3FilenameForEra eraNumber;
       match filename with
       | None => mret false
       | Some filename => on_files_store (S3DownloadFile (eraObjectKey (dl_network d) filename) filename)
       end) s
  end.

Definition downloadEraWithRetries (eraNumber maxRetries : N) : M unit :=
  if maxRetries =? 0 then st_lift (Err DMaxRetries)
  else
    ok ← tryDownloadEraFromS3 eraNumber;
    if (ok : bool) then mret tt
    else
      has_store ← st_gets (fun s => bool_decide (is_Some (d_store s)));
      downloadEraFromHTTPWithRetries eraNumber maxRetries has_store.

(** [for eraNumber := startEra; ; eraNumber++ { ...; if eraNumber == endEra break }] *)
Fixpoint needed_loop (fuel : nat) (eraNumber endEra : N) (needed : list N) (files : world) : outcome download_error (list N) :=
  let needed := match findCachedFile (Some files) (eraFilePrefix eraNumber) with
                | Some _ => needed | None => needed ++ [eraNumber] end in
  if eraNumber =? endEra then Ok needed
  else match fuel with
       | O => Panic
       | S fuel' => needed_loop fuel' (u64_add eraNumber 1) endEra needed files
       end.

Definition preDownloadSlotRangeContext (startSlot endSlot : N) : M unit :=
  if endSlot <? startSlot then st_lift (Err (DSlotRange startSlot endSlot))
  else
    let startEra := EraNumberForSlot startSlot in
    let endEra := EraNumberForSlot endSlot in
    files ← st_gets d_files;
    needed ← st_lift (needed_loop (N.to_nat (endEra - startEra)) startEra endEra [] files);
    st_fold (fun _ eraNumber => downloadEraWithRetries eraNumber defaultMaxRetries) tt needed.

Definition PreDownloadSlotRangeContext (startSlot endSlot : N) : M unit := preDownloadSlotRangeContext startSlot endSlot.

Definition PreDownloadContext (startSlot endSlot : N) : M unit :=
  if endSlot <? startSlot then st_lift (Err (DSlotRange startSlot endSlot))
  else preDownloadSlotRangeContext startSlot (saturatingAddSlot endSlot PreDownloadLookaheadSlots).

Definition PreDownload (startSlot endSlot : N) : M unit := PreDownloadContext startSlot endSlot.
End downloader.

(** ** Lemmas: file names *)

(** The names [findCachedFile] looks for. *)
Definition era_file (n : N) (name : bytes) : bool := has_prefix name (eraFilePrefix n) && has_suffix name (str ".era").

Lemma parse_digits_chars s acc n : parse_digits s acc = Some n -> Forall (fun c => c ≠ x2d) s.
Proof.
  revert acc. induction s as [|c s IH]; intros acc; cbn [parse_digits]; [done|].
  destruct (_ && _) eqn:Hc; [|done]. case_ifs; [done|]. intros H. constructor; [|by eapply IH].
  intros ->. by vm_compute in Hc.
Qed.

Lemma parse_digits_zeros k s : parse_digits (replicate k (to_byte 48) ++ s) 0 = parse_digits s 0.
Proof. induction k as [|k IH]; [done|]. exact IH. Qed.

(** The digits of a prefix, padded to five. *)
Definition era_digits (n : N) : bytes := replicate (5 - length (format_uint n)) (to_byte 48) ++ format_uint n.

Lemma era_digits_parse n : u64 n -> parse_digits (era_digits n) 0 = Some n.
Proof.
  intros Hn. apply parse_format_uint in Hn. unfold era_digits. rewrite parse_digits_zeros.
  unfold parse_uint in Hn. by destruct (format_uint n).
Qed.

Lemma delimited_prefix (c : byte) (a b : bytes) :
  Forall (fun x => x ≠ c) a -> Forall (fun x => x ≠ c) b -> (a ++ [c]) `prefix_of` (b ++ [c]) -> a = b.
Proof.
  intros Ha. revert b. induction Ha as [|x a Hx Ha IH]; intros [|y b] Hb Hp.
  - done.
  - apply prefix_cons_inv_1 in Hp as <-. by inversion Hb.
  - apply prefix_cons_inv_1 in Hp. done.
  - inversion Hb as [|?? Hy Hb']; subst. pose proof (prefix_cons_inv_1 _ _ _ _ Hp) as <-. apply prefix_cons_inv_2 in Hp. f_equal. by apply IH.
Qed.

Lemma eraFilePrefix_inj name n m :
  u64 n -> u64 m -> eraFilePrefix n `prefix_of` name -> eraFilePrefix m `prefix_of` name -> n = m.
Proof.
  assert (Hd : forall n m, u64 n -> u64 m -> eraFilePrefix n `prefix_of` eraFilePrefix m -> n = m).
  { clear. intros n m Hn Hm H. unfold eraFilePrefix in H. rewrite !(assoc_L (++)) in H.
    rewrite <- !(assoc_L (++)) in H. apply prefix_app_inv in H. rewrite !(assoc_L (++)) in H.
    apply era_digits_parse in Hn, Hm. apply (delimited_prefix x2d (era_digits n) (era_digits m)) in H;
      [congruence| |]; by eapply parse_digits_chars. }
  intros Hn Hm H1 H2. destruct (prefix_weak_total _ _ _ H1 H2); [by apply Hd|symmetry; by apply Hd].
Qed.

Lemma era_file_inj name n m : u64 n -> u64 m -> era_file n name = true -> era_file m name = true -> n = m.
Proof.
  unfold era_file. rewrite !andb_true_iff, !has_prefix_spec. intros Hn Hm [H1 _] [H2 _]. by eapply eraFilePrefix_inj.
Qed.

Lemma era_file_any n : era_file n (eraFilePrefix n ++ str ".era") = true.
Proof. unfold era_file. by rewrite has_prefix_app, has_suffix_app. Qed.

Lemma findCachedFile_spec files n path :
  findCachedFile (Some files) (eraFilePrefix n) = Some path -> era_file n path = true /\ is_Some (files !! path).
Proof.
  unfold findCachedFile. intros H. destruct (sort_by _ _) as [|x l] eqn:Es; [done|]. injection H as ->.
  assert (Hin : path ∈ sort_by bytes_less (filter (fun name => has_prefix name (eraFilePrefix n) && has_suffix name (str ".era"))
    (fst <$> map_to_list files))) by (rewrite Es; apply list_elem_of_here).
  apply elem_of_sort_by, list_elem_of_filter in Hin as [Hp ((k & v) & -> & Hkv)%list_elem_of_fmap].
  apply elem_of_map_to_list in Hkv. split; [by apply Is_true_true|by eexists].
Qed.

Lemma findCachedFile_None files n name :
  findCachedFile (Some files) (eraFilePrefix n) = None -> era_file n name = true -> files !! name = None.
Proof.
  unfold findCachedFile. intros H Hn. destruct (files !! name) as [data|] eqn:E; [|done]. exfalso.
  assert (Hin : name ∈ sort_by bytes_less (filter (fun name => has_prefix name (eraFilePrefix n) && has_suffix name (str ".era"))
    (fst <$> map_to_list files))).
  { apply elem_of_sort_by, list_elem_of_filter. split; [by apply Is_true_true|].
    apply list_elem_of_fmap. exists (name, data). split; [done|by apply elem_of_map_to_list]. }
  destruct (sort_by _ _); [by apply not_elem_of_nil in Hin|done].
Qed.

(** ** Lemmas: one era *)

Section download_lemmas.
Context {W : Type} (http : bytes -> W -> http_answer * W) (url_ok : bytes -> bool).
Context {T : Type} {ST : Store T} (objects : T -> gmap bytes bytes).
Context (env : io_env) {SS : StoreSpec T env objects} (d : Downloader).
Abbreviation state := (dl_state (W := W) (T := T)).
Implicit Types s : state.

Definition not_temp (name : bytes) : Prop := forall p, name ≠ temp_name env p.

(** An index names the files as the downloader and the reader expect them. *)
Definition well_named (e : eraFilename) : Prop := u64 (ef_era e) /\ era_file (ef_era e) (ef_filename e) = true.
Definition index_ok s : Prop := forall l, d_index s = Some l -> Forall well_named l.

(** The index page of the web server is well named, whenever it is asked for. *)
Definition server_index_ok : Prop := forall w status body w',
  http (dl_baseURL d) w = (HttpResponse status body, w') -> Forall well_named (parseEraFilenames body).

(** Where the contents of a downloaded file come from. *)
Definition from_web (name data : bytes) : Prop :=
  exists w status w', http (file_url d name) w = (HttpResponse status data, w') /\ (200 <= status < 300)%Z.
Definition from_store (name data : bytes) : Prop :=
  exists t, objects t !! eraObjectKey (dl_network d) name = Some data.

(** Only [name] and temporary files change. *)
Definition only (name : bytes) (files files' : world) : Prop :=
  forall other, other ≠ name -> not_temp other -> files' !! other = files !! other.

(** A call that may change one file: what it keeps, and what its success means. *)
Definition one_file (name : bytes) s (o : outcome download_error unit) s' : Prop :=
  o ≠ Panic /\ d_index s' = d_index s /\ (is_Some (d_store s') <-> is_Some (d_store s))
  /\ only name (d_files s) (d_files s')
  /\ (o = Ok tt -> exists data, d_files s' !! name = Some data /\ (from_web name data \/ from_store name data)).

Lemma only_insert name data files : only name files (<[name := data]> files).
Proof. intros other Hn _. by rewrite lookup_insert_ne. Qed.

Lemma WriteFile_spec name data s :
  let '(o, s') := WriteFile env name data s in
  o ≠ Panic /\ d_index s' = d_index s /\ d_store s' = d_store s /\ only name (d_files s) (d_files s')
  /\ (o = Ok tt -> d_files s' !! name = Some data).
Proof.
  unfold WriteFile. destruct (write_fails env name) as [[]|]; cbn; split_and!; try done;
    try (intros; apply only_insert); intros _; by rewrite lookup_insert_eq.
Qed.

Lemma d_get_spec url s :
  let '(answer, s') := d_get http url s in
  d_index s' = d_index s /\ d_store s' = d_store s /\ d_files s' = d_files s
  /\ exists w', http url (d_server s) = (answer, w').
Proof. unfold d_get. destruct (http url (d_server s)) as [answer w']. by split_and!; [..|exists w']. Qed.

Lemma tryDownloadHTTP_spec name upload s :
  (upload = true -> is_Some (d_store s)) ->
  let '(o, s') := tryDownloadHTTP http url_ok env d (file_url d name) name upload s in one_file name s o s'.
Proof.
  intros Hup. unfold tryDownloadHTTP. destruct (url_ok _); cbn [negb]; [|by split_and!].
  pose proof (d_get_spec (file_url d name) s) as H. destruct (d_get http _ s) as [answer s1].
  destruct H as (Hi & Ht & Hf & w' & Hh).
  assert (Hfail : forall e, one_file name s (Err e) s1).
  { intros e. split; [done|]. split; [done|]. split; [by rewrite Ht|]. split; [|done]. by rewrite Hf. }
  destruct answer as [| |status data]; [apply Hfail..|].
  destruct (_ || _) eqn:Hst; [apply Hfail|]. bool_to_prop.
  pose proof (WriteFile_spec name data s1) as Hw. unfold mbind, stateM_bind, st_bind.
  destruct (WriteFile env name data s1) as [[[]|e|] s2]; destruct Hw as (? & Hi2 & Ht2 & Ho2 & Hd2);
    rewrite Hi in Hi2; rewrite Ht in Ht2; rewrite Hf in Ho2; [| |done].
  2: { split; [done|]. split; [done|]. split; [by rewrite Ht2|]. split; [|done]. done. }
  assert (Hok : one_file name s (Ok tt) s2).
  { split; [done|]. split; [done|]. split; [by rewrite Ht2|]. split; [done|].
    intros _. exists data. split; [by apply Hd2|]. left. exists (d_server s), status, w'. split; [done|lia]. }
  destruct upload; [|exact Hok]. destruct Hup as [t Ht0]; [done|]. rewrite Ht0 in Ht2.
  unfold on_files_store. rewrite Ht2. destruct Hok as (_ & _ & _ & _ & Hok).
  pose proof (S3UploadFile_spec (eraObjectKey (dl_network d) name) name t (d_files s2)) as Hu.
  destruct (S3UploadFile _ _ _) as [o [t' files']]. destruct Hu as (Hp & -> & _).
  split; [by destruct o|]. split; [done|]. split; [rewrite Ht0; done|]. split; [done|]. intros Ho. by apply Hok.
Qed.

Lemma one_file_trans name s s1 o s2 e :
  one_file name s (Err e) s1 -> one_file name s1 o s2 -> one_file name s o s2.
Proof.
  intros (_ & Hi & Ht & Ho & _) (Hp & Hi2 & Ht2 & Ho2 & Hd). split; [done|]. split; [congruence|].
  split; [by rewrite Ht2|]. split; [|done]. intros other Hn Htmp. by rewrite Ho2, Ho.
Qed.

Lemma download_attempts_spec left attempt n name upload s :
  (upload = true -> is_Some (d_store s)) ->
  let '(o, s') := download_attempts http url_ok env d left attempt n (file_url d name) name upload s in one_file name s o s'.
Proof.
  revert attempt s. induction left as [|left IH]; intros attempt s Hup; cbn [download_attempts];
    pose proof (tryDownloadHTTP_spec name upload s Hup) as H; destruct (tryDownloadHTTP _ _ _ _ _ _ _ s) as [[[]|e|] s1];
    try done.
  - destruct H as (_ & Hi & Ht & Ho & _). do 4 (split; [done|]). done.
  - specialize (IH (attempt + 1) (downloaderRetrySleep attempt s1)).
    destruct (download_attempts _ _ _ _ _ _ _ _ _ _ _) as [o s']. eapply one_file_trans; [exact H|]. apply IH.
    intros Hu. cbn. destruct H as (_ & _ & -> & _). by apply Hup.
Qed.

Lemma fetchIndex_spec s :
  index_ok s -> server_index_ok ->
  let '(o, s') := fetchIndex http url_ok d s in
  o ≠ Panic /\ index_ok s' /\ d_store s' = d_store s /\ d_files s' = d_files s.
Proof.
  intros Hok Hs. unfold fetchIndex. destruct (d_index s) eqn:Ei; [by split_and!|].
  destruct (url_ok _); cbn [negb]; [|by split_and!].
  pose proof (d_get_spec (dl_baseURL d) s) as H. destruct (d_get _ _ s) as [answer s1].
  destruct H as (Hi & Ht & Hf & w' & Hh).
  assert (Hok1 : index_ok s1) by (intros l; rewrite Hi; apply Hok).
  destruct answer; (split; [done|]); (split; [|done]); try done. intros l [= <-]. by eapply Hs.
Qed.

Lemma filenameForEra_spec n s :
  index_ok s -> server_index_ok ->
  let '(o, s') := filenameForEra http url_ok d n s in
  o ≠ Panic /\ index_ok s' /\ d_store s' = d_store s /\ d_files s' = d_files s
  /\ forall name, o = Ok name -> era_file n name = true.
Proof.
  intros Hok Hs. unfold filenameForEra, mbind, stateM_bind, st_bind. pose proof (fetchIndex_spec s Hok Hs) as H.
  destruct (fetchIndex _ _ _ s) as [[[]|e|] s1]; destruct H as (Hp & Hok1 & Ht & Hf); [|by split_and!|done].
  unfold st_gets. destruct (find _ _) as [c|] eqn:Hfind; [|by split_and!].
  do 4 (split; [done|]). intros name [= <-]. apply find_some in Hfind as [Hin%list_elem_of_In Hn%N.eqb_eq].
  destruct (d_index s1) as [l|] eqn:El; [|by apply not_elem_of_nil in Hin].
  pose proof (proj1 (Forall_forall _ _) (Hok1 l El) c Hin) as [_ Hw]. by rewrite <- Hn.
Qed.

(** Downloading an era changes one of its files; on success it is there, with contents
    the web server or the store gave for its name. *)
Definition one_era (n : N) s (o : outcome download_error unit) s' : Prop :=
  o ≠ Panic /\ index_ok s' /\ (is_Some (d_store s') <-> is_Some (d_store s))
  /\ exists name, era_file n name = true /\ only name (d_files s) (d_files s')
     /\ (o = Ok tt -> exists data, d_files s' !! name = Some data /\ (from_web name data \/ from_store name data)).

Lemma downloadEraFromHTTPWithRetries_spec n retries s :
  index_ok s -> server_index_ok ->
  let '(o, s') := downloadEraFromHTTPWithRetries http url_ok env d n retries (bool_decide (is_Some (d_store s))) s in
  one_era n s o s'.
Proof.
  intros Hok Hs. unfold downloadEraFromHTTPWithRetries. set (upload := bool_decide _).
  unfold mbind, stateM_bind, st_bind. pose proof (filenameForEra_spec n s Hok Hs) as H.
  destruct (filenameForEra _ _ _ _ s) as [[name|e|] s1]; destruct H as (Hp & Hok1 & Ht & Hf & Hn); [| |done].
  - pose proof (download_attempts_spec (N.to_nat (retries - 1)) 1 n name upload s1) as H.
    destruct (download_attempts _ _ _ _ _ _ _ _ _ _ _) as [o s2]. destruct H as (? & Hi2 & Ht2 & Ho2 & Hd2).
    { intros Hu. rewrite Ht. by apply bool_decide_eq_true in Hu. }
    split; [done|]. split; [intros l; rewrite Hi2; apply Hok1|]. split; [by rewrite Ht2, Ht|].
    exists name. split; [by apply Hn|]. rewrite <- Hf. by split.
  - split; [done|]. split; [done|]. split; [by rewrite Ht|]. exists (eraFilePrefix n ++ str ".era").
    split; [apply era_file_any|]. split; [|done]. by rewrite Hf.
Qed.

Lemma tryDownloadEraFromS3_spec n s :
  index_ok s ->
  let '(o, s') := tryDownloadEraFromS3 d n s in
  o ≠ Panic /\ index_ok s' /\ (is_Some (d_store s') <-> is_Some (d_store s))
  /\ exists name, era_file n name = true /\ only name (d_files s) (d_files s')
     /\ (o ≠ Ok true -> forall other, not_temp other -> d_files s' !! other = d_files s !! other)
     /\ (o = Ok true -> exists data, d_files s' !! name = Some data /\ from_store name data).
Proof.
  intros Hok. unfold tryDownloadEraFromS3. destruct (d_store s) as [t|] eqn:Et.
  2: { split; [done|]. split; [done|]. split; [by rewrite Et|]. exists (eraFilePrefix n ++ str ".era"). split; [apply era_file_any|by split_and!]. }
  unfold s3FilenameForEra, mbind, stateM_bind, st_bind, on_store. unfold on_files_store at 1. rewrite Et. cbn.
  pose proof (S3ListObjects_spec (eraObjectPrefix (dl_network d) n) t) as Hl.
  destruct (S3ListObjects _ t) as [[os|e|] t1]; cbn; [| |by destruct Hl].
  2: { split; [done|]. split; [done|]. split; [done|]. exists (eraFilePrefix n ++ str ".era"). split; [apply era_file_any|by split_and!]. }
  destruct (head _) as [name|] eqn:Eh.
  2: { split; [done|]. split; [done|]. split; [done|]. exists (eraFilePrefix n ++ str ".era"). split; [apply era_file_any|by split_and!]. }
  assert (Hname : era_file n name = true).
  { apply head_Some_elem_of, list_elem_of_omap in Eh as (object & _ & Hob). unfold era_object_name in Hob.
    destruct (_ && _) eqn:Hb in Hob; [|done]. by injection Hob as <-. }
  unfold on_files_store. cbn. pose proof (S3DownloadFile_spec (eraObjectKey (dl_network d) name) name t1 (d_files s)) as H.
  destruct (S3DownloadFile _ _ _) as [o [t2 files2]]. destruct H as (Hp & _ & Hd & Hframe).
  split; [by destruct o|]. split; [done|]. split; [done|]. exists name. split; [done|]. cbn.
  assert (Ho : forall b, match o with Ok a => Ok a | Err e => Err (DStore e) | Panic => Panic end = Ok b <-> o = Ok b)
    by (intros b; destruct o; naive_solver).
  split; [|split].
  - intros other Hn Htmp. apply Hframe; [apply Htmp|by left].
  - rewrite Ho. intros Hno other Htmp. apply Hframe; [apply Htmp|by right].
  - rewrite Ho. intros Hyes. destruct (Hd Hyes) as (data & Hobj & Hf). exists data. split; [done|]. by exists t1.
Qed.

Lemma downloadEraWithRetries_spec n retries s :
  retries ≠ 0 -> index_ok s -> server_index_ok ->
  let '(o, s') := downloadEraWithRetries http url_ok env d n retries s in one_era n s o s'.
Proof.
  intros Hr Hok Hs. unfold downloadEraWithRetries. destruct (N.eqb_spec retries 0); [done|].
  unfold mbind, stateM_bind, st_bind. pose proof (tryDownloadEraFromS3_spec n s Hok) as H.
  destruct (tryDownloadEraFromS3 _ _ s) as [[[]|e|] s1];
    destruct H as (Hp & Hok1 & Ht & name & Hname & Ho & Hno & Hyes); [| | |done].
  - split; [done|]. split; [done|]. split; [done|]. exists name. split; [done|]. split; [done|].
    intros _. destruct (Hyes eq_refl) as (data & ? & ?). exists data. auto.
  - unfold st_gets. pose proof (downloadEraFromHTTPWithRetries_spec n retries s1 Hok1 Hs) as H.
    destruct (downloadEraFromHTTPWithRetries _ _ _ _ _ _ _ s1) as [o s2].
    destruct H as (? & Hok2 & Ht2 & name2 & Hname2 & Ho2 & Hd2). split; [done|]. split; [done|].
    split; [by rewrite Ht2, Ht|]. exists name2. split; [done|]. split; [|done].
    intros other Hn Htmp. rewrite Ho2 by done. by apply Hno.
  - split; [done|]. split; [done|]. split; [done|]. exists name. split; [done|]. by split.
Qed.
End download_lemmas.

(** ** Lemmas: a range of eras *)

Lemma needed_loop_spec fuel n endEra needed files :
  n <= endEra -> u64 endEra -> fuel = N.to_nat (endEra - n) ->
  needed_loop fuel n endEra needed files
  = Ok (needed ++ filter (fun n => findCachedFile (Some files) (eraFilePrefix n) = None) (slots n (endEra + 1))).
Proof.
  revert n needed. induction fuel as [|fuel IH]; intros n needed Hle Hu Hf; rewrite slots_cons by lia; cbn [needed_loop].
  - assert (n = endEra) as -> by lia. rewrite N.eqb_refl, slots_empty by lia. rewrite filter_cons, filter_nil.
    by destruct (findCachedFile _ _); [rewrite decide_False, app_nil_r by done|rewrite decide_True by done].
  - replace (n =? endEra) with false by lia. rewrite u64_add_small by u64_lia. rewrite IH by (done || lia).
    rewrite filter_cons. destruct (findCachedFile _ _); [by rewrite decide_False by done|].
    rewrite decide_True by done. by rewrite <- app_assoc.
Qed.

Lemma saturatingAddSlot_spec value delta : u64 value -> saturatingAddSlot value delta = N.min (value + delta) MaxUint64.
Proof. intros. unfold saturatingAddSlot. case_ifs; bool_to_prop; u64_lia. Qed.

Lemma EraNumberForSlot_mono a b : u64 b -> a <= b -> EraNumberForSlot a <= EraNumberForSlot b /\ u64 (EraNumberForSlot b).
Proof.
  intros. unfold EraNumberForSlot. rewrite !u64_add_small by u64_lia. split; [|u64_lia].
  pose proof (N.Div0.div_le_mono a b SlotsPerEra). lia.
Qed.

Section range_lemmas.
Context {W : Type} (http : bytes -> W -> http_answer * W) (url_ok : bytes -> bool).
Context {T : Type} {ST : Store T} (objects : T -> gmap bytes bytes).
Context (env : io_env) {SS : StoreSpec T env objects} (d : Downloader).
Abbreviation state := (dl_state (W := W) (T := T)).
Implicit Types s : state.
Context (Hserver : server_index_ok http d) (Htemps : forall p n, era_file n (temp_name env p) = false).

Lemma era_file_not_temp n name : era_file n name = true -> not_temp env name.
Proof. intros H p ->. by rewrite Htemps in H. Qed.

(** From [s0] on: no file is lost or changed, and new era files have a source. *)
Definition kept s0 s : Prop :=
  forall name data, d_files s0 !! name = Some data -> not_temp env name -> d_files s !! name = Some data.
Definition sourced s0 s : Prop :=
  forall n name data, era_file n name = true -> d_files s !! name = Some data ->
    d_files s0 !! name = Some data \/ from_web http d name data \/ from_store objects d name data.

(** After the eras [done]; [left] are still missing. *)
Definition downloading s0 (ns left : list N) (_ : unit) s : Prop :=
  index_ok s /\ kept s0 s /\ sourced s0 s
  /\ forall n, n ∈ ns -> exists name, era_file n name = true /\ is_Some (d_files s !! name).

Lemma download_all_spec s0 needed :
  Forall (fun n => u64 n /\ findCachedFile (Some (d_files s0)) (eraFilePrefix n) = None) needed ->
  triple (downloading s0 [] needed tt)
    (st_fold (fun _ n => downloadEraWithRetries http url_ok env d n defaultMaxRetries) tt needed)
    (fun u s => downloading s0 needed [] u s) (fun _ s => kept s0 s).
Proof.
  intros Hn. rewrite Forall_forall in Hn.
  set (I := fun ns left (u : unit) s => (forall n, n ∈ left -> n ∈ needed) /\ downloading s0 ns left u s).
  eapply triple_impl; [apply (triple_fold _ I (fun _ s => kept s0 s))| | |]; cycle 1.
  { intros s Hs. split; [done|exact Hs]. } { intros u s [_ Hs]. exact Hs. } { done. }
  intros ns n left u s [Hleft (Hi & Hk & Hso & Hd)].
  pose proof (downloadEraWithRetries_spec http url_ok objects env d n defaultMaxRetries s ltac:(done) Hi Hserver) as H.
  destruct (downloadEraWithRetries _ _ _ _ _ _ s) as [o s'] eqn:Eo.
  destruct H as (Hp & Hi' & _ & name & Hname & Honly & Hok).
  destruct (Hn n) as [Hu Hmiss]; [apply Hleft, list_elem_of_here|].
  assert (Hk' : kept s0 s').
  { intros other data Ho Ht. rewrite Honly; [by apply Hk| |done]. intros ->.
    by rewrite (findCachedFile_None _ _ _ Hmiss Hname) in Ho. }
  destruct o as [[]|e|]; [|done|done]. split; [intros m Hm; by apply Hleft, list_elem_of_further|].
  destruct (Hok eq_refl) as (data & Hdata & Hsrc). split; [done|]. split; [done|]. split.
  - intros m other data' Hother Hl. destruct (decide (other = name)) as [->|Hne].
    + rewrite Hdata in Hl. injection Hl as <-. auto.
    + rewrite Honly in Hl by (done || by eapply era_file_not_temp). by eapply Hso.
  - intros m [Hm| ->%list_elem_of_singleton]%elem_of_app; [|exists name; split; [done|by eexists]].
    destruct (Hd m Hm) as (other & Hother & Hl). exists other. split; [done|].
    destruct (decide (other = name)) as [->|Hne]; [by eexists|]. rewrite Honly; [done|done|by eapply era_file_not_temp].
Qed.

Lemma preDownload_spec startSlot endSlot s :
  startSlot <= endSlot -> u64 endSlot -> index_ok s ->
  let '(o, s') := preDownloadSlotRangeContext http url_ok env d startSlot endSlot s in
  o ≠ Panic /\ kept s s'
  /\ (o = Ok tt -> forall slot, startSlot <= slot <= endSlot ->
      exists path data, findEraFile (Some (d_files s')) (EraNumberForSlot slot) = Ok path
        /\ open (Some (d_files s')) path = Some data
        /\ (d_files s !! path = Some data \/ from_web http d path data \/ from_store objects d path data)).
Proof.
  intros Hle Hu Hi. unfold preDownloadSlotRangeContext. replace (endSlot <? startSlot) with false by lia.
  destruct (EraNumberForSlot_mono startSlot endSlot Hu Hle) as [Hera Heu].
  st_step. rewrite needed_loop_spec by done. cbn [app].
  set (needed := filter _ _). unfold mbind, stateM_bind, st_bind, st_lift.
  assert (Hneeded : Forall (fun n => u64 n /\ findCachedFile (Some (d_files s)) (eraFilePrefix n) = None) needed).
  { apply Forall_forall. intros n [Hmiss Hin]%list_elem_of_filter. split; [|done].
    apply elem_of_slots in Hin. u64_lia. }
  pose proof (download_all_spec s needed Hneeded s) as H.
  destruct (st_fold _ _ _ s) as [[[]|e|] s']; [| |destruct H].
  - destruct H as (_ & Hk & Hso & Hd).
    { split; [done|]. split; [by intros ?|]. split; [by left|]. by intros n ?%not_elem_of_nil. }
    split; [done|]. split; [done|]. intros _ slot Hslot.
    pose proof (EraNumberForSlot_mono startSlot slot ltac:(u64_lia) ltac:(lia)) as [Hlo _].
    pose proof (EraNumberForSlot_mono slot endSlot ltac:(u64_lia) ltac:(lia)) as [Hhi _].
    set (n := EraNumberForSlot slot) in *.
    assert (Hfound : exists name, era_file n name = true /\ is_Some (d_files s' !! name)).
    { destruct (findCachedFile (Some (d_files s)) (eraFilePrefix n)) as [name|] eqn:Ef.
      - destruct (findCachedFile_spec _ _ _ Ef) as [Hname [data Hl]]. exists name. split; [done|].
        exists data. apply Hk; [done|by eapply era_file_not_temp].
      - apply Hd, list_elem_of_filter. split; [done|]. apply elem_of_slots. lia. }
    destruct Hfound as (name & Hname & [data0 Hl0]).
    destruct (findCachedFile (Some (d_files s')) (eraFilePrefix n)) as [path|] eqn:Ef;
      [|by rewrite (findCachedFile_None _ _ _ Ef Hname) in Hl0].
    destruct (findCachedFile_spec _ _ _ Ef) as [Hpath [data Hl]]. exists path, data.
    unfold findEraFile. rewrite Ef. split; [done|]. split; [done|]. by eapply Hso.
  - split; [done|]. split; [|done]. apply H. split; [done|]. split; [by intros ?|]. split; [by left|]. by intros n ?%not_elem_of_nil.
  - split; [done|]. split; [by intros ?|]. split; [by left|]. by intros n ?%not_elem_of_nil.
Qed.
End range_lemmas.

(** ** A sample server: an index of two eras; the first era is in the cache *)

Definition sample_downloader : Downloader := mkDownloader (str "http://era") (str "mainnet").
Definition sample_index_page : bytes :=
  str "files" ++ x0a :: str "mainnet-00002-bb.era 12M" ++ x0a :: str "mainnet-00001-aa.era 11M".
Definition sample_web (url : bytes) (n : N) : http_answer * N :=
  (if decide (url = str "http://era") then HttpResponse 200 sample_index_page
   else if n <? 2 then HttpError else HttpResponse 200 url, n + 1).
Definition sample_denv : io_env :=
  mkEnv (fun _ => false) (fun _ => None) (fun _ => false) (fun _ => None) (fun _ => false) (fun _ => str ".s3-1").
#[local] Instance sample_dstore : Store (gmap bytes bytes) := client_store map_minio sample_denv (str "bucket").
Definition sample_dl : dl_state :=
  mkDL 0 {[str "mainnet-00001-aa.era" := str "one"]} (Some (∅ : gmap bytes bytes)) None [].

Lemma sample_dstore_spec : StoreSpec (gmap bytes bytes) sample_denv (fun w => w).
Proof. apply client_spec, map_minio_ok. Qed.

Lemma sample_server_ok : server_index_ok sample_web sample_downloader.
Proof.
  intros w status body w'. unfold sample_web. rewrite decide_True by done. intros [= _ <- _].
  replace (parseEraFilenames sample_index_page)
    with [mkEraFilename 1 (str "mainnet-00001-aa.era"); mkEraFilename 2 (str "mainnet-00002-bb.era")] by (vm_compute; reflexivity).
  repeat constructor; cbn; u64_lia.
Qed.

Lemma sample_dtemps p n : era_file n (temp_name sample_denv p) = false.
Proof. unfold era_file, eraFilePrefix. by vm_compute. Qed.

(** ** Theorems *)

(** C34: [PreDownload] delivers what the reader needs.  When the index pages of the web
    server name files as the reader expects them, [PreDownloadContext] ends without a
    panic, whatever fails; no file of the cache is lost or changed; and when it reports
    success, the reader finds a file for the era of every slot from [startSlot] to 32
    slots after [endSlot] (cut off at the largest slot), whose contents were in the
    cache before or are those the web server or the object store gave for that name. *)
Theorem PreDownload_completes {W} (http : bytes -> W -> http_answer * W) (url_ok : bytes -> bool)
    {T} {ST : Store T} (objects : T -> gmap bytes bytes) (env : io_env) {SS : StoreSpec T env objects}
    (d : Downloader) (startSlot endSlot : N) (s : dl_state) :
  startSlot <= endSlot -> u64 endSlot -> server_index_ok http d -> index_ok s ->
  (forall p n, era_file n (temp_name env p) = false) ->
  let '(o, s') := PreDownloadContext http url_ok env d startSlot endSlot s in
  o ≠ Panic
  /\ (forall name data, d_files s !! name = Some data -> not_temp env name -> d_files s' !! name = Some data)
  /\ (o = Ok tt -> forall slot, startSlot <= slot <= N.min (endSlot + 32) MaxUint64 ->
      exists path data, findEraFile (Some (d_files s')) (EraNumberForSlot slot) = Ok path
        /\ open (Some (d_files s')) path = Some data
        /\ (d_files s !! path = Some data \/ from_web http d path data \/ from_store objects d path data)).
Proof.
  intros Hle Hu Hs Hi Ht. unfold PreDownloadContext. replace (endSlot <? startSlot) with false by lia.
  rewrite saturatingAddSlot_spec by done.
  apply (preDownload_spec http url_ok objects env d Hs Ht); [u64_lia|u64_lia|done].
Qed.

Lemma PreDownload_completes_witness :
  let '(o, s') := PreDownloadContext sample_web (fun _ => true) sample_denv sample_downloader 8190 8191 sample_dl in
  o = Ok tt /\ d_files s' !! str "mainnet-00001-aa.era" = Some (str "one")
  /\ exists path, findEraFile (Some (d_files s')) 2 = Ok path.
Proof.
  pose proof (PreDownload_completes sample_web (fun _ => true) (fun w => w) sample_denv (SS := sample_dstore_spec)
    sample_downloader 8190 8191 sample_dl ltac:(lia) ltac:(u64_lia) sample_server_ok ltac:(by intros l) sample_dtemps) as H.
  assert (Hok : fst (PreDownloadContext sample_web (fun _ => true) sample_denv sample_downloader 8190 8191 sample_dl) = Ok tt)
    by (vm_compute; reflexivity).
  destruct (PreDownloadContext _ _ _ _ _ _ _) as [o s']. destruct H as (_ & Hk & Hd). split; [exact Hok|]. split.
  - apply Hk; [reflexivity|]. intros p. discriminate.
  - destruct (Hd Hok 8192 ltac:(lia)) as (path & _ & Hf & _). exists path. exact Hf.
Defined.
