(* ===== verification/Mirror.v ===== *)
(** * Mirroring ERA files to the object store ([MirrorToS3] of [pkg/era/downloader.go])

    A producer hands eras to [parallel] workers over an unbuffered channel; the first
    error cancels the context.  The model is a step relation: a step is one access to
    what the goroutines share (a request, a call on the store, a file operation, a
    counter under its mutex, a channel operation, [setErr]), so every interleaving of
    these accesses is an execution.  [fetchIndex] runs under the downloader's mutex and
    is part of one step. *)

From S2P Require Import Prelude Bytes EraFormat EraReader GoStrings Files S3Cache Downloader.
From Stdlib Require Import Strings.Byte.

(** ** State *)

Record MirrorStats := mkMirrorStats { Scanned : N; Skipped : N; Downloaded : N; Uploaded : N }.

(** Where a worker is: waiting in its [select], returned, or inside [mirrorEraToS3] of an
    era (with its file name once known), about to do what the constructor names. *)
Inductive wpc :=
| WIdle
| WExit
| PScan (n : N)
| PName (n : N)
| PExists (n : N) (filename : bytes)
| PSkip (n : N) (filename : bytes)
| PStat (n : N) (filename : bytes)
| PDownload (n : N) (filename : bytes)
| PDownloaded (n : N) (filename : bytes)
| PUpload (n : N) (filename : bytes)
| PUploaded (n : N) (filename : bytes)
| PRemove (n : N) (filename : bytes)
| PErr (e : download_error).

(** The producer: about to send an era, past [close(jobs)], or stopped by the context. *)
Inductive producer := PrSend (n : N) | PrClosed | PrStopped.

Section mirror.
Context {W : Type} (http : bytes -> W -> http_answer * W) (url_ok : bytes -> bool).
Context {T : Type} {ST : Store T} (env : io_env) (stat_fails : bytes -> bool).
Abbreviation state := (dl_state (W := W) (T := T)).
Context (d : Downloader) (endEra : N).

Record mirror := mkMirror {
  m_producer : producer;
  m_workers : list wpc;
  m_cancelled : bool;
  m_err : option download_error;
  m_stats : MirrorStats;
  m_dl : state
}.

Definition count_scanned (st : MirrorStats) := mkMirrorStats (Scanned st + 1) (Skipped st) (Downloaded st) (Uploaded st).
Definition count_skipped (st : MirrorStats) := mkMirrorStats (Scanned st) (Skipped st + 1) (Downloaded st) (Uploaded st).
Definition count_downloaded (st : MirrorStats) := mkMirrorStats (Scanned st) (Skipped st) (Downloaded st + 1) (Uploaded st).
Definition count_uploaded (st : MirrorStats) := mkMirrorStats (Scanned st) (Skipped st) (Downloaded st) (Uploaded st + 1).

(** Go on with [k] on success, with [PErr] on an error. *)
Definition go_on {A} (r : outcome download_error A * state) (st : MirrorStats) (k : A -> wpc) : option (wpc * MirrorStats * state) :=
  match r with
  | (Ok a, s) => Some (k a, st, s)
  | (Err e, s) => Some (PErr e, st, s)
  | (Panic, _) => None
  end.

(** [os.Remove]: a missing file is no error. *)
Definition remove_mirrored (filename : bytes) : stateM state download_error unit := fun s =>
  match d_files s !! filename with
  | None => (Ok tt, s)
  | Some _ =>
      if remove_fails env filename then (Err (DRemove filename), s)
      else (Ok tt, set_files (delete filename (d_files s)) s)
  end.

(** One access of [mirrorEraToS3]; [None] where the worker is not inside it. *)
Definition mirror_act (pc : wpc) (st : MirrorStats) (s : state) : option (wpc * MirrorStats * state) :=
  match pc with
  | WIdle | WExit | PErr _ => None
  | PScan n => Some (PName n, count_scanned st, s)
  | PName n => go_on (filenameForEra http url_ok d n s) st (fun filename => PExists n filename)
  | PExists n filename =>
      go_on (on_store (S3ObjectExists (eraObjectKey (dl_network d) filename)) s) st
        (fun exists_ => if exists_ : bool then PSkip n filename else PStat n filename)
  | PSkip n filename => Some (WIdle, count_skipped st, s)
  | PStat n filename =>
      match d_files s !! filename with
      | Some _ => Some (PUpload n filename, st, s)
      | None => if stat_fails filename then Some (PErr (DStat filename), st, s) else Some (PDownload n filename, st, s)
      end
  | PDownload n filename =>
      go_on (tryDownloadHTTP http url_ok env d (file_url d filename) filename false s) st (fun _ => PDownloaded n filename)
  | PDownloaded n filename => Some (PUpload n filename, count_downloaded st, s)
  | PUpload n filename =>
      go_on (on_files_store (S3UploadFile (eraObjectKey (dl_network d) filename) filename) s) st (fun _ => PUploaded n filename)
  | PUploaded n filename => Some (PRemove n filename, count_uploaded st, s)
  | PRemove n filename => go_on (remove_mirrored filename s) st (fun _ => WIdle)
  end.

(** The whole call, run alone: nine accesses at most. *)
Fixpoint mirror_run (fuel : nat) (pc : wpc) (st : MirrorStats) (s : state) : outcome download_error unit * MirrorStats * state :=
  match pc with
  | WIdle | WExit => (Ok tt, st, s)
  | PErr e => (Err e, st, s)
  | _ =>
      match fuel, mirror_act pc st s with
      | S fuel', Some (pc, st, s) => mirror_run fuel' pc st s
      | _, _ => (Panic, st, s)
      end
  end.

Definition mirrorEraToS3 (eraNumber : N) (st : MirrorStats) (s : state) : outcome download_error unit * MirrorStats * state :=
  mirror_run 9 (PScan eraNumber) st s.

(** [if eraNumber == endEra { break }] and [eraNumber++] *)
Definition producer_next (n : N) : producer := if n =? endEra then PrClosed else PrSend (u64_add n 1).

(** [setErr]: the first error is kept, the context cancelled. *)
Definition setErr (e : download_error) (m : mirror) : mirror :=
  mkMirror (m_producer m) (m_workers m) true (match m_err m with Some _ => m_err m | None => Some e end) (m_stats m) (m_dl m).

Definition set_worker (i : nat) (pc : wpc) (m : mirror) : mirror :=
  mkMirror (m_producer m) (<[i := pc]> (m_workers m)) (m_cancelled m) (m_err m) (m_stats m) (m_dl m).

(** The calls that take the context: once it is cancelled they may fail, before or
    after their effect. *)
Definition takes_context (pc : wpc) : bool :=
  match pc with PExists _ _ | PDownload _ _ | PUpload _ _ => true | _ => false end.

Inductive mirror_step (m : mirror) : mirror -> Prop :=
| step_send i n :
    m_producer m = PrSend n -> m_workers m !! i = Some WIdle ->
    mirror_step m (mkMirror (producer_next n) (<[i := PScan n]> (m_workers m)) (m_cancelled m) (m_err m) (m_stats m) (m_dl m))
| step_stop n :
    m_producer m = PrSend n -> m_cancelled m = true ->
    mirror_step m (mkMirror PrStopped (m_workers m) (m_cancelled m) (m_err m) (m_stats m) (m_dl m))
| step_done i :
    m_workers m !! i = Some WIdle -> m_cancelled m = true -> mirror_step m (set_worker i WExit m)
| step_closed i :
    m_workers m !! i = Some WIdle -> m_producer m = PrClosed -> mirror_step m (set_worker i WExit m)
| step_act i pc pc' st' s' :
    m_workers m !! i = Some pc -> mirror_act pc (m_stats m) (m_dl m) = Some (pc', st', s') ->
    mirror_step m (mkMirror (m_producer m) (<[i := pc']> (m_workers m)) (m_cancelled m) (m_err m) st' s')
| step_abort i pc s' :
    m_workers m !! i = Some pc -> m_cancelled m = true -> takes_context pc = true ->
    (s' = m_dl m \/ exists pc', mirror_act pc (m_stats m) (m_dl m) = Some (pc', m_stats m, s')) ->
    mirror_step m (mkMirror (m_producer m) (<[i := PErr (DTransport [])]> (m_workers m)) (m_cancelled m) (m_err m) (m_stats m) s')
| step_err i e :
    m_workers m !! i = Some (PErr e) -> mirror_step m (set_worker i WExit (setErr e m)).

(** The caller may cancel the context at any time. *)
Inductive mirror_env (m : mirror) : mirror -> Prop :=
| env_step m' : mirror_step m m' -> mirror_env m m'
| env_cancel :
    m_cancelled m = false ->
    mirror_env m (mkMirror (m_producer m) (m_workers m) true (m_err m) (m_stats m) (m_dl m)).

(** [MirrorToS3] up to the start of its goroutines. *)
Definition MirrorToS3 (startEra : N) (parallel : Z) (s : state) : option mirror :=
  if bool_decide (d_store s = None) then None
  else if endEra <? startEra then None
  else if (parallel <=? 0)%Z then None
  else Some (mkMirror (PrSend startEra) (replicate (Z.to_nat parallel) WIdle) false None (mkMirrorStats 0 0 0 0) s).

(** [wg.Wait] returns: the call ends, with an error or none. *)
Definition finished (m : mirror) : Prop :=
  (forall n, m_producer m ≠ PrSend n) /\ Forall (fun pc => pc = WExit) (m_workers m).
Definition mirror_ok (m : mirror) : Prop := m_producer m = PrClosed /\ m_err m = None.
End mirror.

(** ** Specification *)

(** The era a worker is busy with. *)
Definition era_of (pc : wpc) : option N :=
  match pc with
  | PScan n | PName n | PExists n _ | PSkip n _ | PStat n _ | PDownload n _ | PDownloaded n _
  | PUpload n _ | PUploaded n _ | PRemove n _ => Some n
  | _ => None
  end.

(** Accesses left, at most; waiting counts one more than having returned. *)
Definition weight (pc : wpc) : nat :=
  match pc with
  | WExit => 0 | WIdle | PErr _ => 1
  | PSkip _ _ | PRemove _ _ => 2 | PUploaded _ _ => 3 | PUpload _ _ => 4 | PDownloaded _ _ => 5 | PDownload _ _ => 6
  | PStat _ _ => 7 | PExists _ _ => 8 | PName _ => 9 | PScan _ => 10
  end.

Definition is_err (pc : wpc) : nat := match pc with PErr _ => 1 | _ => 0 end.
(** Workers that still have to count their era as scanned, as skipped or uploaded, and
    that have counted a download but no upload. *)
Definition unscanned (pc : wpc) : nat := match pc with PScan _ => 1 | _ => 0 end.
Definition uncounted (pc : wpc) : nat :=
  match pc with
  | PScan _ | PName _ | PExists _ _ | PSkip _ _ | PStat _ _ | PDownload _ _ | PDownloaded _ _
  | PUpload _ _ | PUploaded _ _ => 1
  | _ => 0
  end.
Definition uploading (pc : wpc) : nat := match pc with PUpload _ _ | PUploaded _ _ => 1 | _ => 0 end.

Definition wsum (w : wpc -> nat) (l : list wpc) : nat := sum_list_with w l.

Lemma wsum_insert w l i pc pc' :
  l !! i = Some pc -> (wsum w (<[i := pc']> l) + w pc = wsum w l + w pc')%nat.
Proof.
  unfold wsum. revert i. induction l as [|x l IH]; intros [|i] H; try done; cbn in *.
  - injection H as ->. lia.
  - specialize (IH i H). unfold insert in *. lia.
Qed.

Lemma wsum_replicate_idle w k : w WIdle = 0%nat -> wsum w (replicate k WIdle) = 0%nat.
Proof. intros H. induction k as [|k IH]; [done|]. cbn. rewrite H. exact IH. Qed.

Lemma wsum_pos w l i pc : l !! i = Some pc -> (w pc <= wsum w l)%nat.
Proof.
  unfold wsum. revert i. induction l as [|x l IH]; intros [|i] H; try done; cbn in *; [injection H as ->|specialize (IH i H)]; lia.
Qed.

Lemma wsum_exit w l : w WExit = 0%nat -> Forall (fun pc => pc = WExit) l -> wsum w l = 0%nat.
Proof. intros Hw. induction 1 as [|x l -> _ IH]; [done|]. cbn. by rewrite Hw. Qed.

(** ** Lemmas: one access *)

Section access.
Context {W : Type} (http : bytes -> W -> http_answer * W) (url_ok : bytes -> bool).
Context {T : Type} {ST : Store T} (objects : T -> gmap bytes bytes).
Context (env : io_env) {SS : StoreSpec T env objects} (stat_fails : bytes -> bool) (d : Downloader).
Abbreviation state := (dl_state (W := W) (T := T)).
Implicit Types s : state.

Definition objs s : gmap bytes bytes := match d_store s with Some t => objects t | None => ∅ end.
Definition named s (n : N) (filename : bytes) : Prop := exists l, d_index s = Some l /\ mkEraFilename n filename ∈ l.
Definition stored s (filename : bytes) : Prop := is_Some (objs s !! eraObjectKey (dl_network d) filename).
Definition mirrored s (n : N) : Prop := exists filename, named s n filename /\ stored s filename.

(** What no access undoes. *)
Definition grows s s' : Prop :=
  (is_Some (d_store s) -> is_Some (d_store s'))
  /\ (forall key, is_Some (objs s !! key) -> is_Some (objs s' !! key))
  /\ forall l, d_index s = Some l -> d_index s' = Some l.

Definition pc_ok s (pc : wpc) : Prop :=
  match pc with
  | PExists n f | PStat n f | PDownload n f | PDownloaded n f | PUpload n f => named s n f
  | PSkip n f | PUploaded n f | PRemove n f => named s n f /\ stored s f
  | _ => True
  end.

Lemma grows_refl s : grows s s.
Proof. by split_and!. Qed.

Lemma grows_same s s' : d_store s' = d_store s -> d_index s' = d_index s -> grows s s'.
Proof. intros Ht Hi. unfold grows, objs. rewrite Ht, Hi. by split_and!. Qed.

Lemma named_grows s s' n f : grows s s' -> named s n f -> named s' n f.
Proof. intros (_ & _ & Hi) (l & Hl & Hin). exists l. split; [by apply Hi|done]. Qed.
Lemma stored_grows s s' f : grows s s' -> stored s f -> stored s' f.
Proof. intros (_ & Ho & _). apply Ho. Qed.
Lemma mirrored_grows s s' n : grows s s' -> mirrored s n -> mirrored s' n.
Proof. intros Hg (f & Hn & Hs). exists f. split; [by eapply named_grows|by eapply stored_grows]. Qed.
Lemma pc_ok_grows s s' pc : grows s s' -> pc_ok s pc -> pc_ok s' pc.
Proof.
  intros Hg. destruct pc; cbn; try done; try (by apply named_grows);
    intros [? ?]; (split; [by eapply named_grows|by eapply stored_grows]).
Qed.

Lemma filenameForEra_grows n s :
  let '(o, s') := filenameForEra http url_ok d n s in
  o ≠ Panic /\ grows s s' /\ forall f, o = Ok f -> named s' n f.
Proof.
  unfold filenameForEra, fetchIndex, mbind, stateM_bind, st_bind, st_gets.
  destruct (d_index s) as [l|] eqn:Ei.
  - rewrite Ei. cbn. destruct (find _ l) as [c|] eqn:Ef; (split; [done|]); (split; [apply grows_refl|]); [|done].
    intros f [= <-]. apply find_some in Ef as [Hin%list_elem_of_In Hn%N.eqb_eq]. exists l. split; [done|]. subst. by destruct c.
  - assert (Hgrow : forall s', d_store s' = d_store s -> grows s s').
    { intros s' Ht. unfold grows, objs. rewrite Ht. split_and!; try done. congruence. }
    destruct (url_ok _); cbn [negb]; [|split_and!; try done; by apply Hgrow].
    unfold d_get. destruct (http _ _) as [[| |status body] w]; [split_and!; try done; by apply Hgrow..|]. cbn.
    destruct (find _ _) as [c|] eqn:Ef; (split; [done|]); (split; [by apply Hgrow|]); [|done].
    intros f [= <-]. apply find_some in Ef as [Hin%list_elem_of_In Hn%N.eqb_eq].
    eexists. split; [done|]. subst. by destruct c.
Qed.

Lemma tryDownloadHTTP_grows url f s :
  let '(o, s') := tryDownloadHTTP http url_ok env d url f false s in o ≠ Panic /\ grows s s'.
Proof.
  unfold tryDownloadHTTP. destruct (url_ok _); cbn [negb]; [|split; [done|apply grows_refl]].
  pose proof (d_get_spec http url s) as H. destruct (d_get _ _ s) as [answer s1]. destruct H as (Hi & Ht & _).
  destruct answer as [| |status data]; [split; [done|by apply grows_same]..|].
  destruct (_ || _); [split; [done|by apply grows_same]|].
  unfold mbind, stateM_bind, st_bind, WriteFile. destruct (write_fails env f) as [[]|]; (split; [done|by apply grows_same]).
Qed.

Lemma ObjectExists_grows f s :
  is_Some (d_store s) ->
  let '(o, s') := on_store (S3ObjectExists (eraObjectKey (dl_network d) f)) s in
  o ≠ Panic /\ grows s s' /\ (o = Ok true -> stored s' f).
Proof.
  intros [t Ht]. unfold on_store, on_files_store. rewrite Ht. cbn.
  pose proof (S3ObjectExists_spec (eraObjectKey (dl_network d) f) t) as H. destruct (S3ObjectExists _ t) as [o t'].
  destruct H as (Hp & Ho & Hb). split; [by destruct o|]. split.
  - unfold grows, objs. cbn. rewrite Ht, Ho. by split_and!.
  - unfold stored, objs. cbn. rewrite Ho. intros H. destruct o as [b| |]; [|done..]. injection H as ->.
    specialize (Hb true eq_refl). symmetry in Hb. by apply bool_decide_eq_true in Hb.
Qed.

Lemma UploadFile_grows f s :
  is_Some (d_store s) ->
  let '(o, s') := on_files_store (S3UploadFile (eraObjectKey (dl_network d) f) f) s in
  o ≠ Panic /\ grows s s' /\ (o = Ok tt -> stored s' f).
Proof.
  intros [t Ht]. unfold on_files_store. rewrite Ht.
  pose proof (S3UploadFile_spec (eraObjectKey (dl_network d) f) f t (d_files s)) as H.
  destruct (S3UploadFile _ _ _) as [o [t' files']]. destruct H as (Hp & _ & Hu). split; [by destruct o|]. split.
  - unfold grows, objs. cbn. rewrite Ht. split; [done|]. split; [|done]. intros key Hkey.
    destruct Hu as [[-> _]|(data & _ & ->)]; [done|]. destruct (decide (key = eraObjectKey (dl_network d) f)) as [->|].
    + rewrite lookup_insert_eq. by eexists.
    + by rewrite lookup_insert_ne.
  - unfold stored, objs. cbn. intros H. destruct o as [[]| |]; [|done..].
    destruct Hu as [[_ []]|(data & _ & ->)]; [done|]. rewrite lookup_insert_eq. by eexists.
Qed.

(** What the counters and the workers' places add up to. *)
Definition counted (pc pc' : wpc) (st st' : MirrorStats) : Prop :=
  Scanned st' + N.of_nat (unscanned pc') = Scanned st + N.of_nat (unscanned pc)
  /\ Skipped st' + Uploaded st' + N.of_nat (uncounted pc') = Skipped st + Uploaded st + N.of_nat (uncounted pc)
  /\ Downloaded st' + Uploaded st + N.of_nat (uploading pc) <= Downloaded st + Uploaded st' + N.of_nat (uploading pc').

(** What one access does. *)
Definition accessed (pc : wpc) (st : MirrorStats) s (pc' : wpc) (st' : MirrorStats) s' : Prop :=
  grows s s' /\ pc_ok s' pc' /\ (weight pc' < weight pc)%nat
  /\ (is_err pc' = 1%nat
      \/ is_err pc' = 0%nat /\ counted pc pc' st st'
         /\ (era_of pc' = era_of pc \/ pc' = WIdle /\ exists n, era_of pc = Some n /\ mirrored s' n)).

Lemma accessed_err pc st s e s' : grows s s' -> (1 < weight pc)%nat -> accessed pc st s (PErr e) st s'.
Proof. intros. split; [done|]. split; [done|]. split; [done|by left]. Qed.

Lemma accessed_on pc st s pc' s' :
  grows s s' -> pc_ok s' pc' -> (weight pc' < weight pc)%nat -> is_err pc' = 0%nat -> era_of pc' = era_of pc ->
  unscanned pc' = unscanned pc -> uncounted pc' = uncounted pc -> (uploading pc <= uploading pc')%nat ->
  accessed pc st s pc' st s'.
Proof.
  intros Hg Hok Hw He Hera Hs Hc Hu. split; [done|]. split; [done|]. split; [done|]. right. split; [done|].
  split; [|by left]. unfold counted. rewrite Hs, Hc. split; [done|]. split; [done|lia].
Qed.

Lemma mirror_act_spec pc st s :
  is_Some (d_store s) -> pc_ok s pc -> is_Some (era_of pc) ->
  exists pc' st' s', mirror_act http url_ok env stat_fails d pc st s = Some (pc', st', s') /\ accessed pc st s pc' st' s'.
Proof.
  intros Ht Hok [n0 Hera]. destruct pc as [| |n|n|n f|n f|n f|n f|n f|n f|n f|n f|e]; try done; cbn [mirror_act].
  - exists (PName n), (count_scanned st), s. split; [done|]. split; [apply grows_refl|]. split; [done|]. split; [cbn; lia|].
    right. split; [done|]. split; [|by left]. unfold counted. cbn. lia.
  - pose proof (filenameForEra_grows n s) as H. destruct (filenameForEra _ _ _ _ s) as [[f|e|] s']; destruct H as (? & Hg & Hn);
      [| |done]; (eexists _, _, _; split; [reflexivity|]).
    + apply accessed_on; try done; [by apply Hn|cbn; lia].
    + apply accessed_err; [done|cbn; lia].
  - pose proof (ObjectExists_grows f s Ht) as H. destruct (on_store _ s) as [[b|e|] s']; destruct H as (? & Hg & Hb); [| |done];
      (eexists _, _, _; split; [reflexivity|]).
    + pose proof (named_grows _ _ _ _ Hg Hok). destruct b; apply accessed_on; try done; try (cbn; lia).
      split; [done|by apply Hb].
    + apply accessed_err; [done|cbn; lia].
  - destruct Hok as [Hn Hs]. exists WIdle, (count_skipped st), s. split; [done|]. split; [apply grows_refl|].
    split; [done|]. split; [cbn; lia|]. right. split; [done|]. split; [unfold counted; cbn; lia|]. right.
    split; [done|]. exists n. split; [done|by exists f].
  - destruct (d_files s !! f); [|destruct (stat_fails f)]; (eexists _, _, _; split; [reflexivity|]).
    + apply accessed_on; try done; cbn; lia.
    + apply accessed_err; [apply grows_refl|cbn; lia].
    + apply accessed_on; try done; cbn; lia.
  - pose proof (tryDownloadHTTP_grows (file_url d f) f s) as H. destruct (tryDownloadHTTP _ _ _ _ _ _ _ s) as [[[]|e|] s'];
      destruct H as (? & Hg); [| |done]; (eexists _, _, _; split; [reflexivity|]).
    + apply accessed_on; try done; [by apply (named_grows s)|cbn; lia].
    + apply accessed_err; [done|cbn; lia].
  - eexists _, _, _. split; [reflexivity|]. split; [apply grows_refl|]. split; [done|]. split; [cbn; lia|].
    right. split; [done|]. split; [|by left]. unfold counted. cbn. lia.
  - pose proof (UploadFile_grows f s Ht) as H. destruct (on_files_store _ s) as [[[]|e|] s']; destruct H as (? & Hg & Hs);
      [| |done]; (eexists _, _, _; split; [reflexivity|]).
    + apply accessed_on; try done; try (cbn; lia). split; [by apply (named_grows s)|by apply Hs].
    + apply accessed_err; [done|cbn; lia].
  - eexists _, _, _. split; [reflexivity|]. split; [apply grows_refl|]. split; [done|]. split; [cbn; lia|].
    right. split; [done|]. split; [|by left]. unfold counted. cbn. lia.
  - destruct Hok as [Hn Hs]. unfold remove_mirrored.
    assert (Hdone : forall s', grows s s' -> accessed (PRemove n f) st s WIdle st s').
    { intros s' Hg. split; [done|]. split; [done|]. split; [cbn; lia|]. right. split; [done|]. split; [unfold counted; cbn; lia|].
      right. split; [done|]. exists n. split; [done|]. exists f. split; [by eapply named_grows|by eapply stored_grows]. }
    destruct (d_files s !! f); [destruct (remove_fails env f)|]; (eexists _, _, _; split; [reflexivity|]).
    + apply accessed_err; [apply grows_refl|cbn; lia].
    + apply Hdone. by apply grows_same.
    + apply Hdone, grows_refl.
Qed.

(** A call that runs alone ends, and its success means the era is in the store. *)
Lemma mirror_run_spec fuel pc st s n :
  is_Some (d_store s) -> pc_ok s pc -> era_of pc = Some n -> (weight pc <= S fuel)%nat ->
  let '(o, _, s') := mirror_run http url_ok env stat_fails d fuel pc st s in
  o ≠ Panic /\ (o = Ok tt -> mirrored s' n).
Proof.
  revert pc st s. induction fuel as [|fuel IH]; intros pc st s Ht Hok Hera Hf;
    [by destruct pc; try done; cbn in Hf; lia|].
  destruct (mirror_act_spec pc st s Ht Hok ltac:(by eexists)) as (pc' & st' & s' & Ha & Hg & Hok' & Hw & Hacc).
  replace (mirror_run _ _ _ _ _ _ _ _ _) with (mirror_run http url_ok env stat_fails d fuel pc' st' s')
    by (destruct pc; try done; cbn [mirror_run]; by rewrite Ha).
  destruct Hacc as [He|(_ & _ & [He|(-> & n1 & Hn1 & Hm)])].
  - destruct pc'; try done. by destruct fuel.
  - apply IH; [by apply Hg|done|congruence|lia].
  - assert (n1 = n) as -> by congruence. by destruct fuel.
Qed.
End access.

(** ** Lemmas: all the goroutines *)

Section system.
Context {W : Type} (http : bytes -> W -> http_answer * W) (url_ok : bytes -> bool).
Context {T : Type} {ST : Store T} (objects : T -> gmap bytes bytes).
Context (env : io_env) {SS : StoreSpec T env objects} (stat_fails : bytes -> bool) (d : Downloader) (startEra endEra : N).
Abbreviation state := (dl_state (W := W) (T := T)).
Abbreviation sys := (mirror (W := W) (T := T)).
Implicit Types m : sys.
Abbreviation mstep := (mirror_step http url_ok env stat_fails d endEra).
Abbreviation menv := (mirror_env http url_ok env stat_fails d endEra).

(** The eras handed out, unless the producer was stopped. *)
Definition sent m : option (list N) :=
  match m_producer m with
  | PrSend n => Some (slots startEra n)
  | PrClosed => Some (slots startEra (endEra + 1))
  | PrStopped => None
  end.

(** No error so far. *)
Definition clean m : Prop := m_err m = None /\ wsum is_err (m_workers m) = 0%nat.

Definition busy_with m (n : N) : Prop := exists i pc, m_workers m !! i = Some pc /\ era_of pc = Some n.

Record mirror_inv m : Prop := {
  inv_store : is_Some (d_store (m_dl m));
  inv_send : forall n, m_producer m = PrSend n -> startEra <= n <= endEra;
  inv_stopped : m_producer m = PrStopped -> m_cancelled m = true;
  inv_workers : m_workers m ≠ [];
  inv_exit : forall i, m_workers m !! i = Some WExit -> m_cancelled m = true \/ m_producer m = PrClosed;
  inv_pc : forall i pc, m_workers m !! i = Some pc -> pc_ok objects d (m_dl m) pc;
  inv_clean : clean m -> forall l, sent m = Some l ->
    Scanned (m_stats m) + N.of_nat (wsum unscanned (m_workers m)) = N.of_nat (length l)
    /\ Skipped (m_stats m) + Uploaded (m_stats m) + N.of_nat (wsum uncounted (m_workers m)) = N.of_nat (length l)
    /\ Downloaded (m_stats m) <= Uploaded (m_stats m) + N.of_nat (wsum uploading (m_workers m))
    /\ forall n, n ∈ l -> busy_with m n \/ mirrored objects d (m_dl m) n
}.

Definition measure m : nat :=
  (match m_producer m with PrSend n => 12 * (N.to_nat (endEra - n) + 1) + 1 | _ => 0 end
   + wsum weight (m_workers m) + if m_cancelled m then 0 else 1)%nat.

Lemma mirror_act_busy pc st s r : mirror_act http url_ok env stat_fails d pc st s = Some r -> is_Some (era_of pc).
Proof. by destruct pc. Qed.

Lemma mirror_act_not_exit pc st s pc' st' s' :
  mirror_act http url_ok env stat_fails d pc st s = Some (pc', st', s') -> pc' ≠ WExit.
Proof.
  destruct pc; cbn [mirror_act]; unfold go_on; intros H ->; try done; repeat case_match; congruence.
Qed.

Local Ltac cases_lia := destruct (m_producer _), (m_cancelled _); lia.

Lemma measure_step m m' : mirror_inv m -> u64 endEra -> mstep m m' -> (measure m' < measure m)%nat.
Proof.
  intros Hi Hu Hst. destruct Hst as [i n Hp Hw|n Hp Hc|i Hw Hc|i Hw Hp|i pc pc' st' s' Hw Ha|i pc s' Hw Hc Ht Hs'|i e Hw];
    unfold measure; cbn [m_producer m_workers m_cancelled set_worker setErr].
  - pose proof (wsum_insert weight _ _ _ (PScan n) Hw) as H. cbn [weight] in H. rewrite Hp.
    pose proof (inv_send _ Hi n Hp). unfold producer_next. destruct (N.eqb_spec n endEra).
    + destruct (m_cancelled m); lia.
    + rewrite u64_add_small by u64_lia. destruct (m_cancelled m); lia.
  - rewrite Hp, Hc. lia.
  - pose proof (wsum_insert weight _ _ _ WExit Hw) as H. cbn [weight] in H. cases_lia.
  - pose proof (wsum_insert weight _ _ _ WExit Hw) as H. cbn [weight] in H. cases_lia.
  - destruct (mirror_act_spec http url_ok objects env stat_fails d pc (m_stats m) (m_dl m) (inv_store _ Hi)
      (inv_pc _ Hi i pc Hw) (mirror_act_busy _ _ _ _ Ha)) as (pc1 & st1 & s1 & Ha' & _ & _ & Hlt & _).
    rewrite Ha in Ha'. injection Ha' as <- <- <-. pose proof (wsum_insert weight _ _ _ pc' Hw). cases_lia.
  - pose proof (wsum_insert weight _ _ _ (PErr (DTransport [])) Hw) as H. cbn [weight] in H.
    assert (1 < weight pc)%nat by (destruct pc; try done; cbn; lia). cases_lia.
  - pose proof (wsum_insert weight _ _ _ WExit Hw) as H. cbn [weight] in H. cases_lia.
Qed.

Lemma measure_env m m' : mirror_inv m -> u64 endEra -> menv m m' -> (measure m' < measure m)%nat.
Proof.
  intros Hi Hu [m1 Hst|Hc]; [by apply measure_step|]. unfold measure. cbn [m_producer m_workers m_cancelled].
  rewrite Hc. destruct (m_producer m); lia.
Qed.

(** The goroutines never wait for each other for ever. *)
Lemma mirror_progress m : mirror_inv m -> finished m \/ exists m', mstep m m'.
Proof.
  intros Hi.
  assert (Hdec : Forall (fun pc => pc = WExit) (m_workers m) \/ exists i pc, m_workers m !! i = Some pc /\ pc ≠ WExit).
  { generalize (m_workers m) as l. induction l as [|x l IH]; [by left|].
    destruct (match x with WExit => true | _ => false end) eqn:Ex.
    - destruct x; try done. destruct IH as [IH|(i & pc & Hl & Hne)]; [left; by constructor|right; by exists (S i), pc].
    - right. exists 0%nat, x. split; [done|]. by intros ->. }
  destruct Hdec as [Hall|(i & pc & Hl & Hne)].
  - destruct (m_producer m) as [n| |] eqn:Hp.
    + right. eexists. eapply step_stop; [done|]. destruct (m_workers m) as [|pc l] eqn:Ew; [by destruct (inv_workers _ Hi)|].
      inversion Hall as [|? ? -> _]; subst. destruct (inv_exit _ Hi 0%nat); [by rewrite Ew|done|congruence].
    + left. split; [congruence|done].
    + left. split; [congruence|done].
  - right. destruct (era_of pc) as [n|] eqn:He.
    + destruct (mirror_act_spec http url_ok objects env stat_fails d pc (m_stats m) (m_dl m) (inv_store _ Hi)
        (inv_pc _ Hi i pc Hl) ltac:(by eexists)) as (pc1 & st1 & s1 & Ha & _). eexists. by eapply step_act.
    + destruct pc; try done; [|eexists; by eapply step_err].
      destruct (m_producer m) as [n| |] eqn:Hp; eexists; [by eapply step_send|by eapply step_closed|].
      eapply step_done; [done|by apply inv_stopped].
Qed.

(** A worker moves on and the shared state grows; the producer stays. *)
Lemma inv_move m i pc pc' st' s' (cancelled : bool) err :
  mirror_inv m -> m_workers m !! i = Some pc ->
  grows objects (m_dl m) s' -> pc_ok objects d s' pc' ->
  (m_cancelled m = true -> cancelled = true) ->
  (pc' = WExit -> cancelled = true \/ m_producer m = PrClosed) ->
  (err = None -> is_err pc' = 0%nat -> m_err m = None /\ is_err pc = 0%nat /\ counted pc pc' (m_stats m) st'
     /\ forall n, era_of pc = Some n -> era_of pc' = Some n \/ mirrored objects d s' n) ->
  mirror_inv (mkMirror (m_producer m) (<[i := pc']> (m_workers m)) cancelled err st' s').
Proof.
  intros [Ht Hsend Hstop Hws Hex Hpc Hcl] Hw Hg Hok Hcan Hexit Hclean. split; cbn [m_producer m_workers m_cancelled m_err m_stats m_dl].
  - by apply Hg.
  - done.
  - auto.
  - by intros H%(f_equal length); rewrite length_insert in H; destruct (m_workers m).
  - intros j Hj. apply list_lookup_insert_Some in Hj as [(<- & -> & _)|[_ Hj]]; [by apply Hexit|].
    destruct (Hex j Hj) as [?|?]; [left; by apply Hcan|by right].
  - intros j pc1 Hj. apply list_lookup_insert_Some in Hj as [(<- & -> & _)|[_ Hj]]; [done|]. by eapply pc_ok_grows, Hpc.
  - intros [He1 He2] l Hl. cbn [m_err m_workers] in He1, He2.
    assert (Hnew : <[i := pc']> (m_workers m) !! i = Some pc') by (apply list_lookup_insert_eq; by eapply lookup_lt_Some).
    pose proof (wsum_pos is_err _ i pc' Hnew) as Hpos.
    destruct (Hclean He1 ltac:(lia)) as (Hme & Hpe & (Hc1 & Hc2 & Hc3) & Hera).
    pose proof (wsum_insert is_err _ _ _ pc' Hw) as Herr.
    assert (Hclm : clean m) by (split; [done|lia]).
    destruct (Hcl Hclm l Hl) as (H1 & H2 & H3 & H4).
    pose proof (wsum_insert unscanned _ _ _ pc' Hw). pose proof (wsum_insert uncounted _ _ _ pc' Hw).
    pose proof (wsum_insert uploading _ _ _ pc' Hw). split; [lia|]. split; [lia|]. split; [lia|].
    intros n Hn. destruct (H4 n Hn) as [(j & pc1 & Hj & He)|Hm]; [|right; by eapply mirrored_grows].
    destruct (decide (i = j)) as [<-|Hne].
    + rewrite Hw in Hj. injection Hj as <-. destruct (Hera n He) as [He'|]; [|by right].
      left. by exists i, pc'.
    + left. exists j, pc1. split; [|done]. cbn [m_workers]. by rewrite list_lookup_insert_ne.
Qed.

Lemma inv_step m m' : u64 endEra -> mirror_inv m -> mstep m m' -> mirror_inv m'.
Proof.
  intros Hu Hi Hst. destruct Hst as [i n Hp Hw|n Hp Hc|i Hw Hc|i Hw Hp|i pc pc' st' s' Hw Ha|i pc s' Hw Hc Ht Hs'|i e Hw].
  - pose proof (inv_send _ Hi n Hp) as Hn. pose proof (inv_clean _ Hi) as Hcl. destruct Hi as [Ht Hsend Hstop Hws Hex Hpc _].
    assert (Hsent : forall l, sent (mkMirror (producer_next endEra n) (<[i:=PScan n]> (m_workers m)) (m_cancelled m) (m_err m) (m_stats m) (m_dl m)) = Some l ->
      l = slots startEra (n + 1) /\ sent m = Some (slots startEra n)).
    { unfold sent, producer_next. cbn. rewrite Hp. destruct (N.eqb_spec n endEra) as [->|]; [by intros l [= <-]|].
      rewrite u64_add_small by u64_lia. by intros l [= <-]. }
    split; cbn [m_producer m_workers m_cancelled m_err m_stats m_dl].
    + done.
    + intros n'. unfold producer_next. destruct (N.eqb_spec n endEra); [done|]. rewrite u64_add_small by u64_lia. intros [= <-]. lia.
    + unfold producer_next. by destruct (n =? endEra).
    + by intros H%(f_equal length); rewrite length_insert in H; destruct (m_workers m).
    + intros j Hj. apply list_lookup_insert_Some in Hj as [(_ & ? & _)|[_ Hj]]; [done|].
      destruct (Hex j Hj) as [|Hcl']; [by left|]. by rewrite Hp in Hcl'.
    + intros j pc1 Hj. apply list_lookup_insert_Some in Hj as [(<- & <- & _)|[_ Hj]]; [done|by eapply Hpc].
    + intros [He1 He2] l Hl. cbn [m_err m_workers] in He1, He2. destruct (Hsent l Hl) as [-> Hl0].
      pose proof (wsum_insert is_err _ _ _ (PScan n) Hw) as Herr. cbn [is_err] in Herr.
      assert (Hclm : clean m) by (split; [done|lia]).
      destruct (Hcl Hclm _ Hl0) as (H1 & H2 & H3 & H4).
      pose proof (wsum_insert unscanned _ _ _ (PScan n) Hw) as Hs1. pose proof (wsum_insert uncounted _ _ _ (PScan n) Hw) as Hs2.
      pose proof (wsum_insert uploading _ _ _ (PScan n) Hw) as Hs3. cbn [unscanned uncounted uploading] in Hs1, Hs2, Hs3.
      rewrite !length_slots in *. split; [lia|]. split; [lia|]. split; [lia|].
      intros n' Hn'. destruct (decide (n' = n)) as [->|Hne].
      * left. exists i, (PScan n). split; [|done]. cbn [m_workers]. rewrite list_lookup_insert_eq; [done|by eapply lookup_lt_Some].
      * destruct (H4 n') as [(j & pc1 & Hj & He)|]; [apply elem_of_slots in Hn'; apply elem_of_slots; lia| |by right].
        left. exists j, pc1. split; [|done]. cbn [m_workers]. rewrite list_lookup_insert_ne; [done|]. intros <-. rewrite Hw in Hj. by injection Hj as <-.
  - pose proof (inv_send _ Hi n Hp). destruct Hi as [Ht Hsend Hstop Hws Hex Hpc Hcl]. split; cbn; try done.
    intros j Hj. by left.
  - apply (inv_move m i WIdle WExit (m_stats m) (m_dl m) _ _ Hi Hw (grows_refl _ _)); [done|done|by left|].
    intros He _. split; [done|]. split; [done|]. split; [by unfold counted|done].
  - apply (inv_move m i WIdle WExit (m_stats m) (m_dl m) _ _ Hi Hw (grows_refl _ _)); [done|done|by right|].
    intros He _. split; [done|]. split; [done|]. split; [by unfold counted|done].
  - destruct (mirror_act_busy _ _ _ _ Ha) as [n Hera].
    destruct (mirror_act_spec http url_ok objects env stat_fails d pc (m_stats m) (m_dl m) (inv_store _ Hi)
      (inv_pc _ Hi i pc Hw) ltac:(by eexists)) as (pc1 & st1 & s1 & Ha' & Hg & Hok & Hlt & Hacc).
    rewrite Ha in Ha'. injection Ha' as <- <- <-. apply (inv_move m i pc pc' st' s'); try done.
    + intros Hx. by destruct (mirror_act_not_exit _ _ _ _ _ _ Ha).
    + intros He Hpe. destruct Hacc as [Hacc|(_ & Hc & Hera')]; [lia|]. split; [done|]. split; [by destruct pc|]. split; [done|].
      intros n' Hn'. destruct Hera' as [->|(_ & n1 & Hn1 & Hm)]; [by left|]. right. congruence.
  - apply (inv_move m i pc (PErr (DTransport [])) (m_stats m) s'); try done.
    destruct Hs' as [->|(pc' & Ha)]; [apply grows_refl|].
    destruct (mirror_act_spec http url_ok objects env stat_fails d pc (m_stats m) (m_dl m) (inv_store _ Hi)
      (inv_pc _ Hi i pc Hw) (mirror_act_busy _ _ _ _ Ha)) as (pc1 & st1 & s1 & Ha' & Hg & _).
    rewrite Ha in Ha'. by injection Ha' as <- <- <-.
  - apply (inv_move m i (PErr e) WExit (m_stats m) (m_dl m) true _ Hi Hw (grows_refl _ _)); [done|done|by left|].
    intros He. cbn [setErr m_err] in He. destruct (m_err m); congruence.
Qed.

Lemma inv_env m m' : u64 endEra -> mirror_inv m -> menv m m' -> mirror_inv m'.
Proof.
  intros Hu Hi [m1 Hst|Hc]; [by eapply inv_step|]. destruct Hi as [Ht Hsend Hstop Hws Hex Hpc Hcl].
  split; cbn; try done. intros j Hj. by left.
Qed.

Lemma inv_init parallel s m : MirrorToS3 endEra startEra parallel s = Some m -> mirror_inv m.
Proof.
  unfold MirrorToS3. case_bool_decide as Ht; [done|]. destruct (N.ltb_spec endEra startEra); [done|].
  destruct (Z.leb_spec parallel 0); [done|]. intros [= <-].
  assert (Hidle : forall i pc, replicate (Z.to_nat parallel) WIdle !! i = Some pc -> pc = WIdle)
    by (intros i pc [-> _]%lookup_replicate; done).
  split; cbn [m_producer m_workers m_cancelled m_err m_stats m_dl].
  - by destruct (d_store s); [eexists|].
  - intros n [= <-]. lia.
  - done.
  - destruct (Z.to_nat parallel) eqn:E; [lia|done].
  - by intros i Hi%Hidle.
  - by intros i pc ->%Hidle.
  - intros _ l [= <-]. rewrite slots_empty by lia. rewrite !wsum_replicate_idle by done. cbn.
    split; [done|]. split; [done|]. split; [done|]. by intros n ?%not_elem_of_nil.
Qed.

Lemma inv_reachable m m' k : u64 endEra -> mirror_inv m -> nsteps menv k m m' -> mirror_inv m' /\ (k + measure m' <= measure m)%nat.
Proof.
  intros Hu Hi H. induction H as [m|k m m1 m2 Hst _ IH]; [split; [done|lia]|].
  pose proof (measure_env _ _ Hi Hu Hst). destruct (IH (inv_env _ _ Hu Hi Hst)). split; [done|lia].
Qed.
End system.

(** ** A scheduler: the first goroutine that can go on does *)

Section scheduler.
Context {W : Type} (http : bytes -> W -> http_answer * W) (url_ok : bytes -> bool).
Context {T : Type} {ST : Store T} (env : io_env) (stat_fails : bytes -> bool) (d : Downloader) (endEra : N).
Abbreviation sys := (mirror (W := W) (T := T)).

Definition worker_next (m : sys) (i : nat) : option sys :=
  match m_workers m !! i with
  | None | Some WExit => None
  | Some WIdle =>
      match m_producer m with
      | PrSend n => Some (mkMirror (producer_next endEra n) (<[i := PScan n]> (m_workers m)) (m_cancelled m) (m_err m) (m_stats m) (m_dl m))
      | PrClosed => Some (set_worker i WExit m)
      | PrStopped => if m_cancelled m then Some (set_worker i WExit m) else None
      end
  | Some (PErr e) => Some (set_worker i WExit (setErr e m))
  | Some pc =>
      match mirror_act http url_ok env stat_fails d pc (m_stats m) (m_dl m) with
      | Some (pc', st', s') => Some (mkMirror (m_producer m) (<[i := pc']> (m_workers m)) (m_cancelled m) (m_err m) st' s')
      | None => None
      end
  end.

Fixpoint mirror_schedule (k : nat) (m : sys) : nat * sys :=
  match k with
  | O => (O, m)
  | S k' => match head (omap (worker_next m) (seq 0 (length (m_workers m)))) with
            | Some m' => let '(n, m'') := mirror_schedule k' m' in (S n, m'')
            | None => (O, m)
            end
  end.

Lemma worker_next_step m i m' : worker_next m i = Some m' -> mirror_step http url_ok env stat_fails d endEra m m'.
Proof.
  unfold worker_next. destruct (m_workers m !! i) as [pc|] eqn:Hw; [|done].
  destruct pc; try done; try (destruct (mirror_act _ _ _ _ _ _ _ _) as [[[pc' st'] s']|] eqn:Ha; [|done];
    intros [= <-]; by eapply step_act).
  - destruct (m_producer m) eqn:Hp; [|intros [= <-]; by apply step_closed|destruct (m_cancelled m) eqn:Hc; [|done]; intros [= <-]; by apply step_done].
    intros [= <-]. by apply step_send.
  - intros [= <-]. by apply step_err.
Qed.

Lemma mirror_schedule_steps k m :
  let '(n, m') := mirror_schedule k m in nsteps (mirror_env http url_ok env stat_fails d endEra) n m m'.
Proof.
  revert m. induction k as [|k IH]; intros m; cbn [mirror_schedule]; [constructor|].
  destruct (head _) as [m1|] eqn:Eh; [|constructor]. specialize (IH m1). destruct (mirror_schedule k m1) as [n m'].
  econstructor; [|exact IH]. apply env_step. apply head_Some_elem_of, list_elem_of_omap in Eh as (i & _ & Hi).
  by eapply worker_next_step.
Qed.
End scheduler.

(** ** A sample: two workers mirror two eras, one already in the store *)

Definition sample_mirror_dl : dl_state :=
  mkDL 2 ∅ (Some ({[str "era/mainnet/mainnet-00001-aa.era" := str "one"]} : gmap bytes bytes)) None [].
Definition sample_system : mirror :=
  mkMirror (PrSend 1) [WIdle; WIdle] false None (mkMirrorStats 0 0 0 0) sample_mirror_dl.
#[local] Instance sample_mstore : Store (gmap bytes bytes) := client_store map_minio sample_denv (str "bucket").
Definition sample_schedule :=
  mirror_schedule sample_web (fun _ => true) sample_denv (fun _ => false) sample_downloader 2 40 sample_system.

(** ** Theorems *)

(** C35: [MirrorToS3] with its workers.  However the goroutines and a cancellation by
    the caller interleave, an execution takes a bounded number of steps, and in every
    state it reaches the call has finished or a goroutine can go on: no deadlock, no
    endless run.  When it ends with no error, every era of the range is in the object
    store under the name the index gives it, every era was scanned once, and each was
    either skipped or uploaded, with no more downloads than uploads. *)
Theorem MirrorToS3_sound {W} (http : bytes -> W -> http_answer * W) (url_ok : bytes -> bool)
    {T} {ST : Store T} (objects : T -> gmap bytes bytes) (env : io_env) {SS : StoreSpec T env objects}
    (stat_fails : bytes -> bool) (d : Downloader) (startEra endEra : N) (parallel : Z) (s : dl_state) (m0 m : mirror) (k : nat) :
  u64 endEra -> MirrorToS3 endEra startEra parallel s = Some m0 ->
  nsteps (mirror_env http url_ok env stat_fails d endEra) k m0 m ->
  (k <= 12 * (N.to_nat (endEra - startEra) + 1) + 2 + Z.to_nat parallel)%nat
  /\ (finished m \/ exists m', mirror_step http url_ok env stat_fails d endEra m m')
  /\ (finished m -> mirror_ok m ->
      (forall n, startEra <= n <= endEra -> mirrored objects d (m_dl m) n)
      /\ Scanned (m_stats m) = endEra - startEra + 1
      /\ Skipped (m_stats m) + Uploaded (m_stats m) = Scanned (m_stats m)
      /\ Downloaded (m_stats m) <= Uploaded (m_stats m)).
Proof.
  intros Hu Hinit Hk. pose proof (inv_init objects d startEra endEra parallel s m0 Hinit) as Hi0.
  destruct (inv_reachable http url_ok objects env stat_fails d startEra endEra m0 m k Hu Hi0 Hk) as [Hi Hm].
  split; [|split; [by eapply mirror_progress|]].
  - etransitivity; [|]. 1: exact (Nat.le_trans _ _ _ (Nat.le_add_r k (measure endEra m)) Hm).
    unfold MirrorToS3 in Hinit. case_bool_decide; [done|]. destruct (endEra <? startEra); [done|].
    destruct (parallel <=? 0)%Z; [done|]. injection Hinit as <-. unfold measure. cbn [m_producer m_workers m_cancelled].
    assert (Hw : forall k, wsum weight (replicate k WIdle) = k).
    { clear. intros k. induction k as [|k IH]; [done|]. cbn. f_equal. exact IH. }
    rewrite Hw. lia.
  - intros [_ Hexit] [Hclosed Hnone]. pose proof (fun w Hw => wsum_exit w (m_workers m) Hw Hexit) as Hz.
    assert (Hsent : sent startEra endEra m = Some (slots startEra (endEra + 1))) by (unfold sent; by rewrite Hclosed).
    destruct (inv_clean _ _ _ _ _ Hi (conj Hnone (Hz is_err eq_refl)) _ Hsent) as (H1 & H2 & H3 & H4).
    rewrite !Hz in H1, H2, H3 by done. rewrite length_slots in *.
    assert (startEra <= endEra).
    { unfold MirrorToS3 in Hinit. case_bool_decide; [done|]. destruct (N.ltb_spec endEra startEra); [done|lia]. }
    split; [|split; [lia|split; [lia|lia]]]. intros n Hn.
    destruct (H4 n) as [(i & pc & Hl & He)|Hm1]; [apply elem_of_slots; lia| |done].
    rewrite Forall_lookup in Hexit. by rewrite (Hexit i pc Hl) in He.
Qed.

Lemma MirrorToS3_sound_witness :
  let m := snd sample_schedule in
  finished m /\ mirror_ok m /\ mirrored (fun w => w) sample_downloader (m_dl m) 2
  /\ m_stats m = mkMirrorStats 2 1 1 1.
Proof.
  pose proof (mirror_schedule_steps sample_web (fun _ => true) sample_denv (fun _ => false) sample_downloader 2 40 sample_system) as Hrun.
  fold sample_schedule in Hrun. destruct sample_schedule as [k m] eqn:E.
  assert (Hm : m = snd sample_schedule) by (by rewrite E). cbn [snd].
  pose proof (MirrorToS3_sound sample_web (fun _ => true) (fun w => w) sample_denv (SS := sample_dstore_spec)
    (fun _ => false) sample_downloader 1 2 2 sample_mirror_dl sample_system m k ltac:(u64_lia) eq_refl Hrun) as (_ & _ & H).
  assert (Hfin : finished m).
  { split; [intros n; rewrite Hm; vm_compute; discriminate|]. rewrite Hm. vm_compute. repeat constructor. }
  assert (Hok : mirror_ok m) by (rewrite Hm; vm_compute; by split).
  split; [exact Hfin|]. split; [exact Hok|]. destruct (H Hfin Hok) as [Hall _]. split; [apply Hall; lia|].
  rewrite Hm. vm_compute. reflexivity.
Defined.
