(* ===== verification/Merge.v ===== *)
(** * Merging worker outputs ([pkg/merge/merge.go], [pkg/schema/schema.go])

    The workers' JSONL files are read line by line, each line is validated and
    enriched, the records are sorted by slot, checked against the expected slots
    and written as JSONL and CSV.  The file system is a map from paths to contents;
    [io_env] says which of its operations fail. *)

From S2P Require Import Prelude Bytes Json Files.
From Stdlib Require Import Strings.Byte.

(** ** Records *)

(** [schema.Record]. *)
Record record := mkRecord {
  SchemaVersion : Z;
  EngineName : bytes;
  EngineVersion : bytes;
  EngineCommit : bytes;
  Slot : N;
  Epoch : N;
  HasBlock : bool;
  BlockRoot : option bytes;
  HeadRoot : bytes;
  ConfirmedRoot : bytes;
  ConfirmedSlot : N;
  ConfirmedNonCanonical : bool;
  ConfirmationDelaySlots : N;
  FastConfirmed : bool;
  StrictOneSlotConfirmed : bool;
  FinalizedEpoch : N;
  JustifiedEpoch : N;
  SourceBlockSlot : option N;
  NumAttestationsInjected : N;
  IsEpochBoundary : bool;
  IsMissedSlot : bool;
  FcrEvalDurationUs : N;
  AttestationSourceMode : bytes;
  LookaheadCap : N
}.

(** The zero value. *)
Definition zero_record : record :=
  mkRecord 0 [] [] [] 0 0 false None [] [] 0 false 0 false false 0 0 None 0 false false 0 [] 0.

Record OrchestratorMetadata := mkMeta {
  meta_EngineName : bytes;
  meta_EngineVersion : bytes;
  meta_EngineCommit : bytes;
  meta_AttestationSourceMode : bytes;
  meta_LookaheadCap : N
}.

Definition CSVSchemaMarker : bytes := str "# fcr-simulator-csv-schema-version:4".
Definition schemaVersion : Z := 4.

Definition requiredEngineFields : list bytes :=
  [str "slot"; str "epoch"; str "has_block"; str "block_root"; str "head_root"; str "confirmed_root";
   str "confirmed_slot"; str "confirmation_delay_slots"; str "fast_confirmed";
   str "strict_one_slot_confirmed"; str "finalized_epoch"; str "justified_epoch";
   str "source_block_slot"; str "num_attestations_injected"; str "is_epoch_boundary";
   str "is_missed_slot"; str "fcr_eval_duration_us"].

Definition nonNullableEngineFields : list bytes :=
  [str "slot"; str "epoch"; str "has_block"; str "head_root"; str "confirmed_root";
   str "confirmed_slot"; str "confirmation_delay_slots"; str "fast_confirmed";
   str "strict_one_slot_confirmed"; str "finalized_epoch"; str "justified_epoch";
   str "num_attestations_injected"; str "is_epoch_boundary"; str "is_missed_slot";
   str "fcr_eval_duration_us"].

Definition orchestratorAddedFields : list bytes :=
  [str "schema_version"; str "engine_name"; str "engine_version"; str "engine_commit";
   str "confirmed_non_canonical"; str "attestation_source_mode"; str "lookahead_cap"].

Definition csvColumns : list bytes :=
  [str "schema_version"; str "engine_name"; str "engine_version"; str "engine_commit"; str "slot";
   str "epoch"; str "has_block"; str "block_root"; str "head_root"; str "confirmed_root";
   str "confirmed_slot"; str "confirmed_non_canonical"; str "confirmation_delay_slots";
   str "fast_confirmed"; str "strict_one_slot_confirmed"; str "finalized_epoch";
   str "justified_epoch"; str "source_block_slot"; str "num_attestations_injected";
   str "is_epoch_boundary"; str "is_missed_slot"; str "fcr_eval_duration_us";
   str "attestation_source_mode"; str "lookahead_cap"].

Inductive merge_error :=
| ENoOutputPath
| EOpen (path : bytes)
| EDecodeJSON (path : bytes) (line : N)
| EMissingField (path : bytes) (line : N) (field : bytes)
| ENullField (path : bytes) (line : N) (field : bytes)
| EForbiddenField (path : bytes) (line : N) (field : bytes)
| EDecodeFields (path : bytes) (line : N)
| EEpochMismatch (path : bytes) (line : N)
| EBoundaryMismatch (path : bytes) (line : N)
| EMissedMismatch (path : bytes) (line : N)
| EBlockRootUnset (path : bytes) (line : N)
| EBlockRootSet (path : bytes) (line : N)
| ECanonicalLookup (path : bytes) (line : N)
| EDuplicateSlot (path : bytes) (line : N) (slot : N) (previous : bytes * N)
| EReadWorker (path : bytes)
| ECloseWorker (path : bytes)
| EMissingSlots (count : nat) (first : list N)
| EWriteOutput (path : bytes).

(** ** Decoding and encoding a record *)

Definition decode_members (ms : list (bytes * jvalue)) : option record :=
  schema_version ← decode_field ms (str "schema_version") store_int 0%Z;
  engine_name ← decode_field ms (str "engine_name") store_string [];
  engine_version ← decode_field ms (str "engine_version") store_string [];
  engine_commit ← decode_field ms (str "engine_commit") store_string [];
  slot ← decode_field ms (str "slot") store_uint 0;
  epoch ← decode_field ms (str "epoch") store_uint 0;
  has_block ← decode_field ms (str "has_block") store_bool false;
  block_root ← decode_field ms (str "block_root") (store_ptr store_string []) None;
  head_root ← decode_field ms (str "head_root") store_string [];
  confirmed_root ← decode_field ms (str "confirmed_root") store_string [];
  confirmed_slot ← decode_field ms (str "confirmed_slot") store_uint 0;
  confirmed_non_canonical ← decode_field ms (str "confirmed_non_canonical") store_bool false;
  confirmation_delay_slots ← decode_field ms (str "confirmation_delay_slots") store_uint 0;
  fast_confirmed ← decode_field ms (str "fast_confirmed") store_bool false;
  strict_one_slot_confirmed ← decode_field ms (str "strict_one_slot_confirmed") store_bool false;
  finalized_epoch ← decode_field ms (str "finalized_epoch") store_uint 0;
  justified_epoch ← decode_field ms (str "justified_epoch") store_uint 0;
  source_block_slot ← decode_field ms (str "source_block_slot") (store_ptr store_uint 0) None;
  num_attestations_injected ← decode_field ms (str "num_attestations_injected") store_uint 0;
  is_epoch_boundary ← decode_field ms (str "is_epoch_boundary") store_bool false;
  is_missed_slot ← decode_field ms (str "is_missed_slot") store_bool false;
  fcr_eval_duration_us ← decode_field ms (str "fcr_eval_duration_us") store_uint 0;
  attestation_source_mode ← decode_field ms (str "attestation_source_mode") store_string [];
  lookahead_cap ← decode_field ms (str "lookahead_cap") store_uint 0;
  Some (mkRecord schema_version engine_name engine_version engine_commit slot epoch has_block
    block_root head_root confirmed_root confirmed_slot confirmed_non_canonical
    confirmation_delay_slots fast_confirmed strict_one_slot_confirmed finalized_epoch
    justified_epoch source_block_slot num_attestations_injected is_epoch_boundary is_missed_slot
    fcr_eval_duration_us attestation_source_mode lookahead_cap).

(** [json.Unmarshal] into a map of raw messages, and into the struct. *)
Definition decode_raw (v : jvalue) : option (list (bytes * jvalue)) :=
  match v with JObject ms => Some ms | JNull => Some [] | _ => None end.

Definition decode_record (v : jvalue) : option record := decode_raw v ≫= decode_members.

Definition isJSONNull (v : jvalue) : bool := match v with JNull => true | _ => false end.

(** The struct as the members [json.Encoder] writes, in the order of its fields. *)
Definition record_members (r : record) : list (bytes * jvalue) :=
  [(str "schema_version", JNumber (format_int (SchemaVersion r)));
   (str "engine_name", JString (EngineName r));
   (str "engine_version", JString (EngineVersion r));
   (str "engine_commit", JString (EngineCommit r));
   (str "slot", JNumber (format_uint (Slot r)));
   (str "epoch", JNumber (format_uint (Epoch r)));
   (str "has_block", JBool (HasBlock r));
   (str "block_root", match BlockRoot r with Some root => JString root | None => JNull end);
   (str "head_root", JString (HeadRoot r));
   (str "confirmed_root", JString (ConfirmedRoot r));
   (str "confirmed_slot", JNumber (format_uint (ConfirmedSlot r)));
   (str "confirmed_non_canonical", JBool (ConfirmedNonCanonical r));
   (str "confirmation_delay_slots", JNumber (format_uint (ConfirmationDelaySlots r)));
   (str "fast_confirmed", JBool (FastConfirmed r));
   (str "strict_one_slot_confirmed", JBool (StrictOneSlotConfirmed r));
   (str "finalized_epoch", JNumber (format_uint (FinalizedEpoch r)));
   (str "justified_epoch", JNumber (format_uint (JustifiedEpoch r)));
   (str "source_block_slot", match SourceBlockSlot r with
                             | Some slot => JNumber (format_uint slot) | None => JNull end);
   (str "num_attestations_injected", JNumber (format_uint (NumAttestationsInjected r)));
   (str "is_epoch_boundary", JBool (IsEpochBoundary r));
   (str "is_missed_slot", JBool (IsMissedSlot r));
   (str "fcr_eval_duration_us", JNumber (format_uint (FcrEvalDurationUs r)));
   (str "attestation_source_mode", JString (AttestationSourceMode r));
   (str "lookahead_cap", JNumber (format_uint (LookaheadCap r)))].

Definition encode_record (r : record) : bytes := write_object (record_members r).

(** ** Roots *)

Definition isEmptyOrZeroRoot (root : bytes) : bool :=
  let root := TrimSpace root in
  if decide (root = []) then true
  else
    let trimmed := trim_prefix (trim_prefix root (str "0x")) (str "0X") in
    if negb (length trimmed =? 64)%nat then false
    else forallb (fun ch => bool_decide (ch = x30)) trimmed.

Definition rootsEqual (left right : bytes) : bool := EqualFold (TrimSpace left) (TrimSpace right).

(** The callback's answer at a slot: root, exists, known; [None] is an error. *)
Definition CanonicalRootLookup := N -> option (bytes * bool * bool).

Definition computeConfirmedNonCanonical (record : record) (canonicalLookup : option CanonicalRootLookup)
    : option bool :=
  match canonicalLookup with
  | None => Some false
  | Some lookup =>
      if (ConfirmedSlot record =? 0) || isEmptyOrZeroRoot (ConfirmedRoot record) then Some false
      else
        '(canonicalRoot, exists_, known) ← lookup (ConfirmedSlot record);
        if negb known then Some false
        else if negb exists_ then Some true
        else Some (negb (rootsEqual (ConfirmedRoot record) canonicalRoot))
  end.

(** ** One line *)

Section line.
Context (path : bytes) (lineNumber : N).

Fixpoint check_required (raw : list (bytes * jvalue)) (fields : list bytes) : outcome merge_error unit :=
  match fields with
  | [] => Ok tt
  | field :: fields' =>
      match map_get raw field with
      | None => Err (EMissingField path lineNumber field)
      | Some value =>
          if bool_decide (field ∈ nonNullableEngineFields) && isJSONNull value
          then Err (ENullField path lineNumber field)
          else check_required raw fields'
      end
  end.

Fixpoint check_added (raw : list (bytes * jvalue)) (fields : list bytes) : outcome merge_error unit :=
  match fields with
  | [] => Ok tt
  | field :: fields' =>
      match map_get raw field with
      | Some _ => Err (EForbiddenField path lineNumber field)
      | None => check_added raw fields'
      end
  end.

Definition check_record (record : record) : outcome merge_error unit :=
  if negb (Epoch record =? Slot record / 32) then Err (EEpochMismatch path lineNumber)
  else if negb (Bool.eqb (IsEpochBoundary record) (Slot record mod 32 =? 0))
  then Err (EBoundaryMismatch path lineNumber)
  else if negb (Bool.eqb (IsMissedSlot record) (negb (HasBlock record)))
  then Err (EMissedMismatch path lineNumber)
  else if HasBlock record && bool_decide (BlockRoot record = None)
  then Err (EBlockRootUnset path lineNumber)
  else if negb (HasBlock record) && negb (bool_decide (BlockRoot record = None))
  then Err (EBlockRootSet path lineNumber)
  else Ok tt.

(** The orchestrator's fields set, the engine's kept. *)
Definition enrich (meta : OrchestratorMetadata) (confirmedNonCanonical : bool) (r : record) : record :=
  mkRecord schemaVersion (meta_EngineName meta) (meta_EngineVersion meta) (meta_EngineCommit meta)
    (Slot r) (Epoch r) (HasBlock r) (BlockRoot r) (HeadRoot r) (ConfirmedRoot r) (ConfirmedSlot r)
    confirmedNonCanonical (ConfirmationDelaySlots r) (FastConfirmed r) (StrictOneSlotConfirmed r)
    (FinalizedEpoch r) (JustifiedEpoch r) (SourceBlockSlot r) (NumAttestationsInjected r)
    (IsEpochBoundary r) (IsMissedSlot r) (FcrEvalDurationUs r)
    (meta_AttestationSourceMode meta) (meta_LookaheadCap meta).

Definition parseEngineRecord (meta : OrchestratorMetadata) (canonicalLookup : option CanonicalRootLookup)
    (line : bytes) : outcome merge_error record :=
  match parse_json line with
  | None => Err (EDecodeJSON path lineNumber)
  | Some v =>
      match decode_raw v with
      | None => Err (EDecodeJSON path lineNumber)
      | Some raw =>
          _ ← check_required raw requiredEngineFields;
          _ ← check_added raw orchestratorAddedFields;
          match decode_record v with
          | None => Err (EDecodeFields path lineNumber)
          | Some record =>
              _ ← check_record record;
              match computeConfirmedNonCanonical record canonicalLookup with
              | None => Err (ECanonicalLookup path lineNumber)
              | Some nc => Ok (enrich meta nc record)
              end
          end
      end
  end.
End line.

(** ** Reading the workers' files *)

Abbreviation maxJSONLRecordBytes := 16777216%N (only parsing).

(** [bufio.ScanLines]: the lines without their newline; the last may lack one. *)
Fixpoint split_lines (current : bytes) (s : bytes) : list bytes :=
  match s with
  | [] => match current with [] => [] | _ => [current] end
  | c :: s' => if decide (c = x0a) then current :: split_lines [] s' else split_lines (current ++ [c]) s'
  end.

Definition drop_cr (line : bytes) : bytes :=
  if has_suffix line [x0d] then take (length line - 1) line else line.

(** The tokens the scanner delivers, and whether it stops at one that does not fit
    its buffer. *)
Fixpoint take_tokens (lines : list bytes) : list bytes * bool :=
  match lines with
  | [] => ([], false)
  | line :: lines' =>
      if maxJSONLRecordBytes <=? N.of_nat (length line) then ([], true)
      else let '(tokens, too_long) := take_tokens lines' in (drop_cr line :: tokens, too_long)
  end.

Abbreviation seen_map := (gmap N (bytes * N)).

Section read.
Context (env : io_env) (meta : OrchestratorMetadata) (canonicalLookup : option CanonicalRootLookup).

(** [for scanner.Scan()]. *)
Fixpoint read_lines (path : bytes) (lineNumber : N) (lines : list bytes) (acc : list record * seen_map)
    : outcome merge_error (list record * seen_map) :=
  match lines with
  | [] => Ok acc
  | text :: lines' =>
      let lineNumber := lineNumber + 1 in
      let line := TrimSpace text in
      if decide (line = []) then read_lines path lineNumber lines' acc
      else
        record ← parseEngineRecord path lineNumber meta canonicalLookup line;
        match acc.2 !! Slot record with
        | Some previous => Err (EDuplicateSlot path lineNumber (Slot record) previous)
        | None => read_lines path lineNumber lines'
                    (acc.1 ++ [record], <[Slot record := (path, lineNumber)]> acc.2)
        end
  end.

Definition read_worker (w : world) (path : bytes) (acc : list record * seen_map)
    : outcome merge_error (list record * seen_map) :=
  match w !! path with
  | None => Err (EOpen path)
  | Some data =>
      if open_fails env path then Err (EOpen path)
      else
        let data := match read_fails env path with Some n => take n data | None => data end in
        let '(lines, too_long) := take_tokens (split_lines [] data) in
        acc ← read_lines path 0 lines acc;
        if too_long || bool_decide (is_Some (read_fails env path)) then Err (EReadWorker path)
        else if close_fails env path then Err (ECloseWorker path)
        else Ok acc
  end.

Fixpoint read_workers (w : world) (workerPaths : list bytes) (acc : list record * seen_map)
    : outcome merge_error (list record * seen_map) :=
  match workerPaths with
  | [] => Ok acc
  | path :: workerPaths' => acc ← read_worker w path acc; read_workers w workerPaths' acc
  end.

Definition readWorkerRecords (w : world) (workerPaths : list bytes) : outcome merge_error (list record) :=
  acc ← read_workers w workerPaths ([], ∅); Ok acc.1.
End read.

(** ** Writing *)

(** The temporary file replaces [path] in the last step only; on a failure it is
    removed, and [path] keeps what it held. *)
Definition writeAtomically (env : io_env) (path content : bytes) (w : world) : outcome merge_error unit * world :=
  let temp := temp_name env path in
  let fail (w : world) : outcome merge_error unit * world :=
    (Err (EWriteOutput path), if remove_fails env temp then w else delete temp w) in
  match write_fails env path with
  | Some FMkdirAll | Some FCreateTemp => (Err (EWriteOutput path), w)
  | Some (FWrite n) => fail (<[temp := take n content]> w)
  | Some _ => fail (<[temp := content]> w)
  | None => (Ok tt, <[path := content]> (delete temp (<[temp := content]> w)))
  end.

Definition jsonl_content (records : list record) : bytes :=
  concat ((fun r => encode_record r ++ [x0a]) <$> records).

Definition writeJSONL (env : io_env) (path : bytes) (records : list record)
    : world -> outcome merge_error unit * world :=
  writeAtomically env path (jsonl_content records).

Definition recordCSVFields (r : record) : list bytes :=
  [format_int (SchemaVersion r); EngineName r; EngineVersion r; EngineCommit r;
   format_uint (Slot r); format_uint (Epoch r); format_bool (HasBlock r);
   default [] (BlockRoot r); HeadRoot r; ConfirmedRoot r; format_uint (ConfirmedSlot r);
   format_bool (ConfirmedNonCanonical r); format_uint (ConfirmationDelaySlots r);
   format_bool (FastConfirmed r); format_bool (StrictOneSlotConfirmed r);
   format_uint (FinalizedEpoch r); format_uint (JustifiedEpoch r);
   default [] (format_uint <$> SourceBlockSlot r); format_uint (NumAttestationsInjected r);
   format_bool (IsEpochBoundary r); format_bool (IsMissedSlot r);
   format_uint (FcrEvalDurationUs r); AttestationSourceMode r; format_uint (LookaheadCap r)].

(** [csv.Writer]: a field is quoted when it holds a separator, a quote or a line
    break, starts with a space, or is [\.]; quotes inside are doubled. *)
Definition field_needs_quotes (field : bytes) : bool :=
  if decide (field = []) then false
  else if decide (field = str "\.") then true
  else existsb (fun c => bool_decide (c ∈ [x2c; x22; x0a; x0d])) field
       || match runes field with r :: _ => space_rune r | [] => false end.

Definition csv_field (field : bytes) : bytes :=
  if field_needs_quotes field
  then x22 :: concat ((fun c => if decide (c = x22) then [x22; x22] else [c]) <$> field) ++ [x22]
  else field.

Fixpoint csv_line (fields : list bytes) : bytes :=
  match fields with
  | [] => [x0a]
  | [field] => csv_field field ++ [x0a]
  | field :: fields' => csv_field field ++ x2c :: csv_line fields'
  end.

Definition csv_content (records : list record) : bytes :=
  CSVSchemaMarker ++ x0a :: csv_line csvColumns ++ concat ((fun r => csv_line (recordCSVFields r)) <$> records).

Definition writeCSV (env : io_env) (path : bytes) (records : list record)
    : world -> outcome merge_error unit * world :=
  writeAtomically env path (csv_content records).

(** ** The merge *)

Record MergeStats := mkMergeStats {
  TotalSlots : N;
  FastConfirmedCount : N;
  FirstSlot : N;
  LastSlot : N
}.

Definition computeStats (records : list record) : MergeStats :=
  match head records, last records with
  | Some first, Some last =>
      mkMergeStats (N.of_nat (length records)) (N.of_nat (length (filter (fun r => FastConfirmed r = true) records)))
        (Slot first) (Slot last)
  | _, _ => mkMergeStats 0 0 0 0
  end.

Definition slot_less (a b : record) : bool := Slot a <? Slot b.

Definition missing_slots (records : list record) (expectedSlots : list N) : list N :=
  let seen := list_to_set (Slot <$> records) : gset N in
  filter (fun s => s ∉ seen) expectedSlots.

Definition write_out (write : world -> outcome merge_error unit * world) (path : bytes) (w : world)
    : outcome merge_error unit * world :=
  if decide (path = []) then (Ok tt, w) else write w.

(** Both outputs, the JSONL file first. *)
Definition write_outputs (env : io_env) (jsonlOut csvOut : bytes) (records : list record) (w : world)
    : outcome merge_error MergeStats * world :=
  let stats := computeStats records in
  match write_out (writeJSONL env jsonlOut records) jsonlOut w with
  | (Ok _, w) =>
      match write_out (writeCSV env csvOut records) csvOut w with
      | (Ok _, w) => (Ok stats, w)
      | (Err e, w) => (Err e, w)
      | (Panic, w) => (Panic, w)
      end
  | (Err e, w) => (Err e, w)
  | (Panic, w) => (Panic, w)
  end.

Definition MergeAndWriteWithCanonical (env : io_env) (workerPaths : list bytes) (jsonlOut csvOut : bytes)
    (meta : OrchestratorMetadata) (expectedSlots : list N) (canonicalLookup : option CanonicalRootLookup)
    (w : world) : outcome merge_error MergeStats * world :=
  if bool_decide (jsonlOut = [] /\ csvOut = []) then (Err ENoOutputPath, w)
  else
    match readWorkerRecords env meta canonicalLookup w workerPaths with
    | Err e => (Err e, w)
    | Panic => (Panic, w)
    | Ok records =>
        let records := sort_by slot_less records in
        let missing := missing_slots records expectedSlots in
        if negb (bool_decide (missing = [])) then (Err (EMissingSlots (length missing) (take 10 missing)), w)
        else write_outputs env jsonlOut csvOut records w
    end.

Definition MergeAndWrite env workerPaths jsonlOut csvOut meta expectedSlots :=
  MergeAndWriteWithCanonical env workerPaths jsonlOut csvOut meta expectedSlots None.

(** ** Lemmas: reading *)

(** The numbered lines that hold a record. *)
Fixpoint nonblank (lineNumber : N) (lines : list bytes) : list (N * bytes) :=
  match lines with
  | [] => []
  | text :: lines' =>
      let rest := nonblank (lineNumber + 1) lines' in
      let line := TrimSpace text in
      if decide (line = []) then rest else (lineNumber + 1, line) :: rest
  end.

Section read_lemmas.
Context (env : io_env) (meta : OrchestratorMetadata) (canonicalLookup : option CanonicalRootLookup).

(** The records of one worker, when its file can be read. *)
Definition worker_records (w : world) (path : bytes) (records : list record) : Prop :=
  exists data lines, w !! path = Some data /\ open_fails env path = false
    /\ read_fails env path = None /\ close_fails env path = false
    /\ take_tokens (split_lines [] data) = (lines, false)
    /\ Forall2 (fun l r => parseEngineRecord path l.1 meta canonicalLookup l.2 = Ok r)
         (nonblank 0 lines) records.

(** The slots seen are those of the records, which are distinct. *)
Definition acc_ok (acc : list record * seen_map) : Prop :=
  NoDup (Slot <$> acc.1) /\ forall slot, slot ∈ Slot <$> acc.1 <-> is_Some (acc.2 !! slot).

Lemma acc_ok_snoc acc r where_ :
  acc_ok acc -> acc.2 !! Slot r = None -> acc_ok (acc.1 ++ [r], <[Slot r := where_]> acc.2).
Proof.
  intros [Hn Hd] Hs. unfold acc_ok. cbn [fst snd]. rewrite fmap_app, list_fmap_singleton. split.
  - apply NoDup_app. split; [done|]. split; [|apply NoDup_singleton].
    intros slot Hin%Hd ->%list_elem_of_singleton. rewrite Hs in Hin. by destruct Hin.
  - intros slot. rewrite elem_of_app, Hd, list_elem_of_singleton. destruct (decide (slot = Slot r)) as [->|].
    + rewrite lookup_insert_eq. naive_solver.
    + rewrite lookup_insert_ne by done. naive_solver.
Qed.

Lemma read_lines_Ok path n lines acc acc' :
  acc_ok acc -> read_lines meta canonicalLookup path n lines acc = Ok acc' ->
  acc_ok acc' /\ exists new, acc'.1 = acc.1 ++ new
    /\ Forall2 (fun l r => parseEngineRecord path l.1 meta canonicalLookup l.2 = Ok r) (nonblank n lines) new.
Proof.
  revert n acc. induction lines as [|text lines IH]; intros n acc Ha; cbn [read_lines nonblank].
  { intros [= <-]. split; [done|]. exists []. by rewrite app_nil_r. }
  destruct (decide _); [by apply IH|].
  destruct (parseEngineRecord _ _ _ _ _) as [r| |] eqn:Hr; cbn; [|done..].
  destruct (acc.2 !! Slot r) as [prev|] eqn:Hs; [done|]. intros Hrun.
  destruct (IH _ _ (acc_ok_snoc acc r _ Ha Hs) Hrun) as (Ha' & new & Hnew & Hf).
  split; [done|]. exists (r :: new). split; [rewrite Hnew; cbn; by rewrite <- app_assoc|by constructor].
Qed.

Lemma read_lines_complete path n lines acc new :
  acc_ok acc ->
  Forall2 (fun l r => parseEngineRecord path l.1 meta canonicalLookup l.2 = Ok r) (nonblank n lines) new ->
  NoDup (Slot <$> acc.1 ++ new) ->
  exists acc', read_lines meta canonicalLookup path n lines acc = Ok acc' /\ acc'.1 = acc.1 ++ new /\ acc_ok acc'.
Proof.
  revert n acc new. induction lines as [|text lines IH]; intros n acc new Ha; cbn [read_lines nonblank].
  { intros ->%Forall2_nil_inv_l _. exists acc. by rewrite app_nil_r. }
  destruct (decide _); [by apply IH|].
  intros (r & new' & Hr & Hf & ->)%Forall2_cons_inv_l Hn. cbn in Hr. rewrite Hr. cbn.
  assert (Hs : acc.2 !! Slot r = None).
  { apply eq_None_not_Some. rewrite <- (proj2 Ha (Slot r)). rewrite fmap_app in Hn.
    apply NoDup_app in Hn as (_ & Hd & _). intros Hin. apply (Hd _ Hin). by left. }
  rewrite Hs. destruct (IH (n + 1) _ new' (acc_ok_snoc acc r (path, n + 1) Ha Hs) Hf) as (acc' & ? & Hacc & ?).
  { cbn. by rewrite <- app_assoc. }
  exists acc'. rewrite Hacc. cbn. by rewrite <- app_assoc.
Qed.

Lemma read_workers_Ok w paths acc acc' :
  acc_ok acc -> read_workers env meta canonicalLookup w paths acc = Ok acc' ->
  acc_ok acc' /\ exists lists, Forall2 (worker_records w) paths lists /\ acc'.1 = acc.1 ++ concat lists.
Proof.
  revert acc. induction paths as [|path paths IH]; intros acc Ha; cbn [read_workers].
  { intros [= <-]. split; [done|]. exists []. by rewrite app_nil_r. }
  intros (acc1 & H1 & H2)%outcome_bind_Ok. unfold read_worker in H1.
  destruct (w !! path) as [data|] eqn:Hd; [|done]. destruct (open_fails env path) eqn:Ho; [done|].
  destruct (take_tokens _) as [lines too_long] eqn:Ht.
  apply outcome_bind_Ok in H1 as (acc2 & Hrun & H1).
  destruct (too_long || bool_decide _) eqn:Hb; [done|]. apply orb_false_iff in Hb as [-> Hb].
  apply bool_decide_eq_false, eq_None_not_Some in Hb. rewrite Hb in Ht.
  destruct (close_fails env path) eqn:Hc; [done|]. injection H1 as <-.
  destruct (read_lines_Ok _ _ _ _ _ Ha Hrun) as (Ha2 & new & Hnew & Hf).
  destruct (IH _ Ha2 H2) as (Ha' & lists & Hl & Hacc).
  split; [done|]. exists (new :: lists). split; [constructor; [by exists data, lines|done]|].
  cbn. by rewrite Hacc, Hnew, <- app_assoc.
Qed.

Lemma read_workers_complete w paths acc lists :
  acc_ok acc -> Forall2 (worker_records w) paths lists -> NoDup (Slot <$> acc.1 ++ concat lists) ->
  exists acc', read_workers env meta canonicalLookup w paths acc = Ok acc' /\ acc'.1 = acc.1 ++ concat lists.
Proof.
  intros Ha Hl. revert acc Ha. induction Hl as [|path new paths lists Hw Hl IH]; intros acc Ha; cbn.
  { intros _. exists acc. by rewrite app_nil_r. }
  intros Hn. rewrite app_assoc in Hn. destruct Hw as (data & lines & Hd & Ho & Hr & Hc & Ht & Hf).
  assert (NoDup (Slot <$> acc.1 ++ new)) as Hn1 by (rewrite fmap_app in Hn; by apply NoDup_app in Hn as [? _]).
  destruct (read_lines_complete path 0 lines acc new Ha Hf Hn1) as (acc1 & Hrun & Hacc & Ha1).
  unfold read_worker. rewrite Hd, Ho, Hr, Ht. cbn. rewrite Hrun. cbn. rewrite Hc. cbn.
  rewrite <- Hacc in Hn. destruct (IH acc1 Ha1 Hn) as (acc' & Hrun' & Hacc').
  exists acc'. split; [done|]. by rewrite Hacc', Hacc, <- app_assoc.
Qed.

(** What [readWorkerRecords] returns, exactly. *)
Lemma readWorkerRecords_iff w paths records :
  readWorkerRecords env meta canonicalLookup w paths = Ok records
  <-> exists lists, Forall2 (worker_records w) paths lists /\ records = concat lists
      /\ NoDup (Slot <$> records).
Proof.
  assert (H0 : acc_ok ([], ∅)).
  { split; [constructor|]. intros slot. cbn. rewrite lookup_empty. split; [by intros ?%elem_of_nil|by intros [? ?]]. }
  unfold readWorkerRecords. split.
  - intros (acc & Hrun & [= <-])%outcome_bind_Ok.
    destruct (read_workers_Ok w paths _ _ H0 Hrun) as ([Hn _] & lists & Hl & Hacc). by exists lists.
  - intros (lists & Hl & -> & Hn). destruct (read_workers_complete w paths ([], ∅) lists H0 Hl Hn) as (acc & -> & Hacc).
    cbn. by rewrite Hacc.
Qed.

Lemma checks_no_Panic path n raw fields r :
  check_required path n raw fields ≠ Panic /\ check_added path n raw fields ≠ Panic
  /\ check_record path n r ≠ Panic.
Proof.
  split; [|split; [|unfold check_record; by case_ifs]].
  - induction fields as [|field fields IH]; cbn; [done|]. destruct (map_get raw field); [by case_ifs|done].
  - induction fields as [|field fields IH]; cbn; [done|]. by destruct (map_get raw field).
Qed.

Lemma parseEngineRecord_no_Panic path n line : parseEngineRecord path n meta canonicalLookup line ≠ Panic.
Proof.
  unfold parseEngineRecord. destruct (parse_json line) as [v|]; [|done]. destruct (decode_raw v) as [raw|]; [|done].
  apply outcome_bind_no_Panic; [apply (checks_no_Panic _ _ _ _ zero_record)|intros _ _].
  apply outcome_bind_no_Panic; [apply (checks_no_Panic _ _ _ _ zero_record)|intros _ _].
  destruct (decode_record v) as [r|]; [|done].
  apply outcome_bind_no_Panic; [apply (checks_no_Panic path n [] [] r)|intros _ _].
  by destruct (computeConfirmedNonCanonical r canonicalLookup).
Qed.

Lemma read_lines_no_Panic path n lines acc : read_lines meta canonicalLookup path n lines acc ≠ Panic.
Proof.
  revert n acc. induction lines as [|text lines IH]; intros n acc; cbn; [done|].
  case_decide; [apply IH|]. apply outcome_bind_no_Panic; [apply parseEngineRecord_no_Panic|].
  intros r _. case_match; [done|apply IH].
Qed.

Lemma readWorkerRecords_no_Panic w paths : readWorkerRecords env meta canonicalLookup w paths ≠ Panic.
Proof.
  unfold readWorkerRecords. apply outcome_bind_no_Panic; [|done].
  generalize (([] : list record), (∅ : seen_map)). induction paths as [|path paths IH]; intros acc; [done|].
  cbn [read_workers]. apply outcome_bind_no_Panic; [|intros; apply IH].
  unfold read_worker. destruct (w !! path); [|done]. destruct (open_fails env path); [done|].
  destruct (take_tokens _). apply outcome_bind_no_Panic; [apply read_lines_no_Panic|intros; by case_ifs].
Qed.
End read_lemmas.

(** ** Lemmas: one line *)

(** What the checks guarantee of an accepted record. *)
Definition consistent (r : record) : Prop :=
  Epoch r = Slot r / 32
  /\ (IsEpochBoundary r = true <-> Slot r mod 32 = 0)
  /\ IsMissedSlot r = negb (HasBlock r)
  /\ (HasBlock r = true <-> is_Some (BlockRoot r)).

(** The orchestrator's part of a record. *)
Definition stamped (meta : OrchestratorMetadata) (r : record) : Prop :=
  SchemaVersion r = schemaVersion /\ EngineName r = meta_EngineName meta
  /\ EngineVersion r = meta_EngineVersion meta /\ EngineCommit r = meta_EngineCommit meta
  /\ AttestationSourceMode r = meta_AttestationSourceMode meta /\ LookaheadCap r = meta_LookaheadCap meta.

Lemma check_record_Ok path n r : check_record path n r = Ok tt <-> consistent r.
Proof.
  unfold check_record, consistent.
  destruct (N.eqb_spec (Epoch r) (Slot r / 32)) as [He|He]; cbn; [|by split; [|intros []]].
  assert (Hb : Bool.eqb (IsEpochBoundary r) (Slot r mod 32 =? 0) = true
    <-> (IsEpochBoundary r = true <-> Slot r mod 32 = 0)).
  { rewrite Bool.eqb_true_iff, <- N.eqb_eq. by destruct (IsEpochBoundary r), (_ =? _); intuition. }
  destruct (Bool.eqb (IsEpochBoundary r) _); cbn; [|by split; [|intros (_ & ?%Hb & _)]].
  rewrite <- Hb. destruct (IsMissedSlot r), (HasBlock r), (BlockRoot r); cbn;
    (split; [|intros (_ & _ & ? & Hs)]); try done;
    first [ intros _; split_and!; try done; split; [by eauto || done|by intros [? ?] || done]
          | exfalso; by destruct (proj1 Hs eq_refl)
          | exfalso; discriminate (proj2 Hs ltac:(eauto)) ].
Qed.

Lemma check_required_Ok path n raw fields :
  check_required path n raw fields = Ok tt <->
  forall field, field ∈ fields -> exists v, map_get raw field = Some v
    /\ (field ∈ nonNullableEngineFields -> v ≠ JNull).
Proof.
  induction fields as [|field fields IH]; cbn; [split; [by intros _ ? ?%elem_of_nil|done]|].
  destruct (map_get raw field) as [v|] eqn:Hv.
  - destruct (bool_decide _ && _) eqn:Hb.
    + split; [done|]. intros H. destruct (H field ltac:(left)) as (v' & Hv' & Hn).
      apply andb_true_iff in Hb as [Hb%bool_decide_eq_true Hj]. rewrite Hv in Hv'. injection Hv' as <-.
      destruct v; try done. by destruct (Hn Hb).
    + rewrite IH. split.
      * intros H f [->|Hf]%elem_of_cons; [|by apply H]. exists v. split; [done|]. intros Hin ->.
        by rewrite bool_decide_eq_true_2 in Hb.
      * intros H f Hf. apply H. by right.
  - split; [done|]. intros H. destruct (H field ltac:(left)) as (v' & Hv' & _). by rewrite Hv in Hv'.
Qed.

Lemma check_added_Ok path n raw fields :
  check_added path n raw fields = Ok tt <-> forall field, field ∈ fields -> map_get raw field = None.
Proof.
  induction fields as [|field fields IH]; cbn; [split; [by intros _ ? ?%elem_of_nil|done]|].
  destruct (map_get raw field) as [v|] eqn:Hv.
  - split; [done|]. intros H. by rewrite (H field ltac:(left)) in Hv.
  - rewrite IH. split; [intros H f [->|Hf]%elem_of_cons; [done|by apply H]|intros H f Hf; apply H; by right].
Qed.

(** When a line is accepted, and as what. *)
Lemma parseEngineRecord_iff path n meta canonicalLookup line r :
  parseEngineRecord path n meta canonicalLookup line = Ok r <->
  exists v ms d nc, parse_json line = Some v /\ decode_raw v = Some ms
    /\ (forall field, field ∈ requiredEngineFields -> exists v, map_get ms field = Some v
          /\ (field ∈ nonNullableEngineFields -> v ≠ JNull))
    /\ (forall field, field ∈ orchestratorAddedFields -> map_get ms field = None)
    /\ decode_members ms = Some d /\ consistent d
    /\ computeConfirmedNonCanonical d canonicalLookup = Some nc
    /\ r = enrich meta nc d.
Proof.
  unfold parseEngineRecord, decode_record. destruct (parse_json line) as [v|]; [|naive_solver].
  destruct (decode_raw v) as [ms|] eqn:Hv; [|naive_solver].
  rewrite outcome_bind_Ok. setoid_rewrite outcome_bind_Ok. split.
  - intros ([] & Hreq & [] & Hadd & H). cbn [mbind option_bind] in H. destruct (decode_members ms) as [d|] eqn:Hd; [|done].
    apply outcome_bind_Ok in H as ([] & Hc & H). destruct (computeConfirmedNonCanonical _ _) as [nc|] eqn:Hn; [|done].
    injection H as <-. exists v, ms, d, nc.
    split_and!; [done|done|by apply (check_required_Ok path n)|by apply (check_added_Ok path n)|done
      |by apply (check_record_Ok path n)|done|done].
  - intros (? & ? & d & nc & [= <-] & Hv' & Hreq & Hadd & Hd & Hc & Hn & ->).
    rewrite Hv in Hv'. injection Hv' as <-.
    exists tt. rewrite check_required_Ok. split; [done|]. exists tt. rewrite check_added_Ok. split; [done|].
    cbn [mbind option_bind]. rewrite Hd.
    apply outcome_bind_Ok. exists tt. split; [by apply check_record_Ok|by rewrite Hn].
Qed.

Lemma parseEngineRecord_well_formed path n meta canonicalLookup line r :
  parseEngineRecord path n meta canonicalLookup line = Ok r -> consistent r /\ stamped meta r.
Proof.
  intros (v & ms & d & nc & _ & _ & _ & _ & _ & Hc & _ & ->)%parseEngineRecord_iff. by split.
Qed.

(** ** Lemmas: sorting and writing *)

Definition by_slot (a b : record) : Prop := Slot a < Slot b.

Lemma sorted_by_slot records :
  NoDup (Slot <$> records) -> StronglySorted by_slot (sort_by slot_less records).
Proof.
  intros Hn. assert (Hs : StronglySorted (not_less slot_less) (sort_by slot_less records)).
  { apply sort_by_sorted; unfold not_less, slot_less; intros; lia. }
  assert (Hn' : NoDup (Slot <$> sort_by slot_less records)) by (by rewrite sort_by_perm).
  induction Hs as [|r l Hs IH Hf]; [constructor|]. apply NoDup_cons in Hn' as [Hr Hn'].
  constructor; [by apply IH|]. rewrite Forall_forall in *. intros x Hx. specialize (Hf x Hx).
  unfold by_slot. unfold not_less, slot_less in Hf. assert (Slot r ≠ Slot x); [|lia].
  intros He. apply Hr. apply list_elem_of_fmap. by exists x.
Qed.

Lemma missing_slots_nil records expected :
  missing_slots records expected = [] <-> forall s, s ∈ expected -> exists r, r ∈ records /\ Slot r = s.
Proof.
  unfold missing_slots. split.
  - intros Hf s Hs. destruct (decide (s ∈ (list_to_set (Slot <$> records) : gset N))) as [Hin|Hn].
    + rewrite elem_of_list_to_set, list_elem_of_fmap in Hin. naive_solver.
    + assert (s ∈ ([] : list N)) as ?%elem_of_nil; [|done]. rewrite <- Hf. by apply list_elem_of_filter.
  - intros H. destruct (filter _ _) as [|s l] eqn:E; [done|]. exfalso.
    assert (s ∈ s :: l) as Hs by left. rewrite <- E in Hs. apply list_elem_of_filter in Hs as [Hn Hs].
    apply Hn. rewrite elem_of_list_to_set, list_elem_of_fmap. destruct (H s Hs) as (r & ? & <-). eauto.
Qed.

Lemma missing_slots_sorted records expected :
  missing_slots (sort_by slot_less records) expected = []
  <-> forall s, s ∈ expected -> exists r, r ∈ records /\ Slot r = s.
Proof.
  rewrite missing_slots_nil. split; intros H s Hs; destruct (H s Hs) as (r & Hr & <-); exists r;
    by rewrite elem_of_sort_by in *.
Qed.

(** A file is replaced as a whole or not at all. *)
Lemma writeAtomically_spec env path content w :
  temp_name env path ≠ path ->
  let '(o, w') := writeAtomically env path content w in
  (o = Ok tt <-> write_fails env path = None)
  /\ (o = Ok tt \/ o = Err (EWriteOutput path))
  /\ w' !! path = (if is_Ok o then Some content else w !! path)
  /\ forall p, p ≠ path -> p ≠ temp_name env path -> w' !! p = w !! p.
Proof.
  intros Ht. unfold writeAtomically.
  assert (Hfail : forall c, let w' := (if remove_fails env (temp_name env path)
      then <[temp_name env path := c]> w else delete (temp_name env path) (<[temp_name env path := c]> w)) in
    w' !! path = w !! path /\ forall p, p ≠ path -> p ≠ temp_name env path -> w' !! p = w !! p).
  { intros c. cbv zeta. destruct (remove_fails _ _).
    - split; intros; by rewrite lookup_insert_ne.
    - split; intros; by rewrite lookup_delete_ne, lookup_insert_ne. }
  destruct (write_fails env path) as [[]|] eqn:Hw; cbv zeta; (split; [naive_solver|]); (split; [naive_solver|]);
    try (by split); try apply Hfail.
  rewrite lookup_insert_eq. split; [done|]. intros p Hp Hpt.
  by rewrite lookup_insert_ne, lookup_delete_ne, lookup_insert_ne.
Qed.

(** One output: skipped, replaced as a whole, or left as it was. *)
Lemma write_out_spec env path content w :
  temp_name env path ≠ path ->
  let '(o, w') := write_out (writeAtomically env path content) path w in
  (o = Ok tt <-> path = [] \/ write_fails env path = None)
  /\ (o = Ok tt \/ o = Err (EWriteOutput path))
  /\ w' !! path = (if is_Ok o && negb (bool_decide (path = [])) then Some content else w !! path)
  /\ forall p, p ≠ path -> p ≠ temp_name env path -> w' !! p = w !! p.
Proof.
  intros Ht. unfold write_out. destruct (decide (path = [])) as [->|Hne].
  - split; [naive_solver|]. split; [naive_solver|]. by split.
  - pose proof (writeAtomically_spec env path content w Ht) as H.
    destruct (writeAtomically env path content w) as [o w']. destruct H as (H1 & H2 & H3 & H4).
    rewrite bool_decide_eq_false_2, andb_true_r by done. naive_solver.
Qed.

(** The names of temporary files are not those of the outputs. *)
Definition temps_fresh (env : io_env) (outs : list bytes) : Prop := forall p, temp_name env p ∉ outs.

(** Both outputs: success, and what is there after a failure. *)
Lemma write_outputs_spec env jsonlOut csvOut records w :
  temps_fresh env [jsonlOut; csvOut] ->
  let '(o, w') := write_outputs env jsonlOut csvOut records w in
  (o = Ok (computeStats records) \/ exists e, o = Err e)
  /\ (is_Ok o = true <->
      (jsonlOut = [] \/ write_fails env jsonlOut = None) /\ (csvOut = [] \/ write_fails env csvOut = None))
  /\ (is_Ok o = true -> csvOut ≠ [] -> w' !! csvOut = Some (csv_content records))
  /\ (is_Ok o = true -> jsonlOut ≠ [] -> jsonlOut ≠ csvOut -> w' !! jsonlOut = Some (jsonl_content records))
  /\ (is_Ok o = false -> jsonlOut ≠ csvOut \/ csvOut = [] -> w' !! csvOut = w !! csvOut
      /\ (w' !! jsonlOut = w !! jsonlOut \/ w' !! jsonlOut = Some (jsonl_content records)))
  /\ forall p, p ∉ [jsonlOut; csvOut; temp_name env jsonlOut; temp_name env csvOut] -> w' !! p = w !! p.
Proof.
  intros Hfresh. unfold write_outputs, writeJSONL, writeCSV.
  assert (Ht : forall p q, q ∈ [jsonlOut; csvOut] -> temp_name env p ≠ q) by (intros p q Hq <-; by apply (Hfresh p)).
  assert (Htc : csvOut ≠ temp_name env jsonlOut) by (apply not_eq_sym, Ht; right; left).
  assert (Htj : jsonlOut ≠ temp_name env csvOut) by (apply not_eq_sym, Ht; left).
  pose proof (write_out_spec env jsonlOut (jsonl_content records) w ltac:(apply Ht; left)) as Hj.
  destruct (write_out (writeAtomically env jsonlOut _) _ _) as [o1 w1]. destruct Hj as (Hj1 & Hj2 & Hj3 & Hj4).
  destruct Hj2 as [-> | ->]; cbn [is_Ok andb] in Hj3.
  2: { split_and!; [by eauto| |done|done| |].
       - split; [done|]. by intros [Hw%Hj1 _].
       - intros _ [Hne|He]; (split; [|by left]); [by apply Hj4|].
         destruct (decide (csvOut = jsonlOut)) as [->|]; [done|by apply Hj4].
       - intros p Hp. rewrite !not_elem_of_cons in Hp. by apply Hj4; naive_solver. }
  pose proof (write_out_spec env csvOut (csv_content records) w1 ltac:(apply Ht; right; left)) as Hc.
  destruct (write_out (writeAtomically env csvOut _) _ _) as [o2 w2]. destruct Hc as (Hc1 & Hc2 & Hc3 & Hc4).
  assert (Hw : forall p, p ∉ [jsonlOut; csvOut; temp_name env jsonlOut; temp_name env csvOut] -> w2 !! p = w !! p).
  { intros p Hp. rewrite !not_elem_of_cons in Hp. destruct Hp as (? & ? & ? & ? & _). by rewrite Hc4, Hj4. }
  destruct Hc2 as [-> | ->]; cbn [is_Ok andb] in Hc3.
  - split_and!; [by eauto| | | |done|done].
    + split; [intros _; split; [by apply Hj1|by apply Hc1]|done].
    + intros _ Hne. by rewrite bool_decide_eq_false_2 in Hc3.
    + intros _ Hne Hd. rewrite Hc4 by done. by rewrite bool_decide_eq_false_2 in Hj3.
  - split_and!; [by eauto| |done|done| |done]; [split; [done|by intros [_ Hx%Hc1]]|].
    intros _ [Hne|He]; [|by discriminate (proj2 Hc1 (or_introl He))]. rewrite Hc3, Hj4 by done. split; [done|].
    rewrite Hc4, Hj3 by done. destruct (bool_decide _); [by left|by right].
Qed.

Lemma computeStats_spec records :
  let stats := computeStats records in
  TotalSlots stats = N.of_nat (length records)
  /\ FastConfirmedCount stats = N.of_nat (length (filter (fun r => FastConfirmed r = true) records))
  /\ FirstSlot stats = default 0 (Slot <$> head records) /\ LastSlot stats = default 0 (Slot <$> last records).
Proof.
  unfold computeStats. destruct records as [|r l]; [done|]. cbn [head].
  destruct (last (r :: l)) as [r'|] eqn:E; [done|]. by apply last_None in E.
Qed.

(** What a successful merge read and wrote. *)
Lemma merge_success env paths jsonlOut csvOut meta expected lookup w stats w' :
  temps_fresh env [jsonlOut; csvOut] ->
  MergeAndWriteWithCanonical env paths jsonlOut csvOut meta expected lookup w = (Ok stats, w') ->
  exists lists records,
    Forall2 (worker_records env meta lookup w) paths lists /\ records ≡ₚ concat lists
    /\ StronglySorted by_slot records /\ (forall s, s ∈ expected -> exists r, r ∈ records /\ Slot r = s)
    /\ Forall (fun r => consistent r /\ stamped meta r) records
    /\ TotalSlots stats = N.of_nat (length records)
    /\ FastConfirmedCount stats = N.of_nat (length (filter (fun r => FastConfirmed r = true) records))
    /\ FirstSlot stats = default 0 (Slot <$> head records) /\ LastSlot stats = default 0 (Slot <$> last records)
    /\ (csvOut ≠ [] -> w' !! csvOut = Some (csv_content records))
    /\ (jsonlOut ≠ [] -> jsonlOut ≠ csvOut -> w' !! jsonlOut = Some (jsonl_content records))
    /\ forall p, p ∉ [jsonlOut; csvOut; temp_name env jsonlOut; temp_name env csvOut] -> w' !! p = w !! p.
Proof.
  intros Hfresh. unfold MergeAndWriteWithCanonical. case_bool_decide; [done|].
  destruct (readWorkerRecords _ _ _ _ _) as [records0| |] eqn:Hread; [|done..].
  apply readWorkerRecords_iff in Hread as (lists & Hl & Hrec & Hn).
  destruct (bool_decide _) eqn:Hm; cbn [negb]; [|done]. apply bool_decide_eq_true in Hm.
  set (records := sort_by slot_less records0) in *.
  pose proof (write_outputs_spec env jsonlOut csvOut records w Hfresh) as Hw.
  intros Hrun. rewrite Hrun in Hw. destruct Hw as ([[= ->]|[? [=]]] & _ & Hc & Hj & _ & Ho).
  exists lists, records. assert (Hp : records ≡ₚ concat lists) by (unfold records; by rewrite sort_by_perm, Hrec).
  destruct (computeStats_spec records) as (? & ? & ? & ?).
  split_and!; [done|done|by apply sorted_by_slot|by apply missing_slots_nil| |done|done|done|done|by auto|by auto|done].
  rewrite Hp. apply Forall_concat. clear -Hl. induction Hl as [|path l paths lists Hw Hl IH]; constructor; [|done].
  destruct Hw as (data & lines & _ & _ & _ & _ & _ & Hf). clear -Hf.
  induction Hf as [|x r xs l Hr Hf IH]; constructor; [by eapply parseEngineRecord_well_formed|done].
Qed.

(** ** Sample inputs *)

(** An engine's line for a slot with a block. *)
Definition sample_line (slot : N) (head : bytes) : bytes :=
  write_object [(str "slot", JNumber (format_uint slot)); (str "epoch", JNumber (format_uint (slot / 32)));
    (str "has_block", JBool true); (str "block_root", JString head); (str "head_root", JString head);
    (str "confirmed_root", JString head); (str "confirmed_slot", JNumber (format_uint slot));
    (str "confirmation_delay_slots", JNumber (str "1")); (str "fast_confirmed", JBool true);
    (str "strict_one_slot_confirmed", JBool false); (str "finalized_epoch", JNumber (str "0"));
    (str "justified_epoch", JNumber (str "0")); (str "source_block_slot", JNull);
    (str "num_attestations_injected", JNumber (str "18446744073709551615"));
    (str "is_epoch_boundary", JBool (slot mod 32 =? 0)); (str "is_missed_slot", JBool false);
    (str "fcr_eval_duration_us", JNumber (str "12"))].

Definition sample_meta : OrchestratorMetadata :=
  mkMeta (str "lighthouse") (str "1.0") (str "abc") (str "next-non-missed") 4.

Definition sample_env : io_env :=
  mkEnv (fun _ => false) (fun _ => None) (fun _ => false) (fun _ => None) (fun _ => false) (app (str "/tmp-")).

(** Two workers; a blank line, a carriage return and no final newline. *)
Definition sample_world : world :=
  {[str "w0" := sample_line 33 (str "0xaa") ++ [x0d; x0a; x0a];
    str "w1" := sample_line 32 (str "0xbb")]}.

Definition sample_run (expected : list N) :=
  MergeAndWriteWithCanonical sample_env [str "w0"; str "w1"] (str "out.jsonl") (str "out.csv") sample_meta
    expected None sample_world.

Lemma sample_fresh : temps_fresh sample_env [str "out.jsonl"; str "out.csv"].
Proof. intros p H. repeat (apply elem_of_cons in H as [H|H]; [discriminate H|]). by apply elem_of_nil in H. Qed.

(** ** Theorems *)

(** C26: when the merge succeeds, the outputs hold exactly the workers' records: every
    non-blank line of every worker was accepted, and the records of all of them,
    strictly ascending by slot (so no slot twice) and covering the expected slots,
    are what both files contain.  Each record is consistent (epoch, epoch boundary,
    missed slot, block root) and carries the orchestrator's metadata; the statistics
    are those of the records; no other file changes. *)
Theorem MergeAndWrite_output env paths jsonlOut csvOut meta expected lookup w stats w' :
  temps_fresh env [jsonlOut; csvOut] ->
  MergeAndWriteWithCanonical env paths jsonlOut csvOut meta expected lookup w = (Ok stats, w') ->
  exists lists records,
    Forall2 (worker_records env meta lookup w) paths lists /\ records ≡ₚ concat lists
    /\ StronglySorted by_slot records /\ (forall s, s ∈ expected -> exists r, r ∈ records /\ Slot r = s)
    /\ Forall (fun r => consistent r /\ stamped meta r) records
    /\ TotalSlots stats = N.of_nat (length records)
    /\ FastConfirmedCount stats = N.of_nat (length (filter (fun r => FastConfirmed r = true) records))
    /\ FirstSlot stats = default 0 (Slot <$> head records) /\ LastSlot stats = default 0 (Slot <$> last records)
    /\ (csvOut ≠ [] -> w' !! csvOut = Some (csv_content records))
    /\ (jsonlOut ≠ [] -> jsonlOut ≠ csvOut -> w' !! jsonlOut = Some (jsonl_content records))
    /\ forall p, p ∉ [jsonlOut; csvOut; temp_name env jsonlOut; temp_name env csvOut] -> w' !! p = w !! p.
Proof. apply merge_success. Qed.

Lemma MergeAndWrite_output_witness :
  exists lists records, Forall2 (worker_records sample_env sample_meta None sample_world) [str "w0"; str "w1"] lists
    /\ records ≡ₚ concat lists /\ StronglySorted by_slot records
    /\ is_Some ((sample_run [33; 32]).2 !! str "out.csv") /\ length records = 2%nat.
Proof.
  destruct (sample_run [33; 32]) as [o w'] eqn:E.
  assert (is_Ok o = true) as Ho by (change o with (o, w').1; rewrite <- E; vm_compute; reflexivity).
  assert (Ht : match o with Ok stats => TotalSlots stats | _ => 0 end = 2)
    by (change o with (o, w').1; rewrite <- E; vm_compute; reflexivity).
  destruct o as [stats| |]; [|discriminate Ho..].
  destruct (MergeAndWrite_output sample_env _ _ _ _ _ _ _ _ _ sample_fresh E)
    as (lists & records & Hl & Hp & Hs & _ & _ & Htot & _ & _ & _ & Hc & _ & _).
  exists lists, records. split; [exact Hl|]. split; [exact Hp|]. split; [exact Hs|].
  split; [cbn [snd]; rewrite Hc by discriminate; by eexists|]. rewrite Htot in Ht. lia.
Defined.

(** C27: the merge succeeds exactly when an output is asked for, every worker's file can
    be read to its end with every line accepted, no slot appears twice, no expected
    slot is missing and both outputs can be written; it never panics.  When it fails
    no output is ever left incomplete: the CSV file is untouched, and the JSONL file
    is untouched or holds all the records. *)
Theorem MergeAndWrite_accepts env paths jsonlOut csvOut meta expected lookup w :
  temps_fresh env [jsonlOut; csvOut] -> jsonlOut ≠ csvOut \/ csvOut = [] ->
  let accepted := fun records => exists lists, Forall2 (worker_records env meta lookup w) paths lists
    /\ records = concat lists /\ NoDup (Slot <$> records)
    /\ forall s, s ∈ expected -> exists r, r ∈ records /\ Slot r = s in
  let '(o, w') := MergeAndWriteWithCanonical env paths jsonlOut csvOut meta expected lookup w in
  o ≠ Panic
  /\ (is_Ok o = true <->
      (jsonlOut ≠ [] \/ csvOut ≠ []) /\ (exists records, accepted records)
      /\ (jsonlOut = [] \/ write_fails env jsonlOut = None) /\ (csvOut = [] \/ write_fails env csvOut = None))
  /\ (is_Ok o = false ->
      w' !! csvOut = w !! csvOut
      /\ (w' !! jsonlOut = w !! jsonlOut
          \/ exists records sorted, accepted records /\ sorted ≡ₚ records /\ StronglySorted by_slot sorted
             /\ w' !! jsonlOut = Some (jsonl_content sorted))).
Proof.
  intros Hfresh Hd accepted. unfold MergeAndWriteWithCanonical.
  destruct (bool_decide (jsonlOut = [] /\ csvOut = [])) eqn:Hout.
  { apply bool_decide_eq_true in Hout. split; [done|]. split; [naive_solver|auto]. }
  apply bool_decide_eq_false in Hout.
  assert (Hout' : jsonlOut ≠ [] \/ csvOut ≠ []) by (destruct jsonlOut, csvOut; auto).
  assert (Hacc : forall records0, readWorkerRecords env meta lookup w paths = Ok records0 <-> exists lists,
    Forall2 (worker_records env meta lookup w) paths lists /\ records0 = concat lists /\ NoDup (Slot <$> records0))
    by (intros; apply readWorkerRecords_iff).
  pose proof (readWorkerRecords_no_Panic env meta lookup w paths) as Hnp.
  destruct (readWorkerRecords env meta lookup w paths) as [records0|e|]; [|split; [done|]; split; [|auto]|done].
  2: { split; [done|]. intros (_ & (records & lists & Hl & Hr & Hn & _) & _).
       by discriminate (proj2 (Hacc records) ltac:(eauto)). }
  assert (Hall : forall records, accepted records <-> records = records0
    /\ forall s, s ∈ expected -> exists r, r ∈ records0 /\ Slot r = s).
  { intros records. split.
    - intros (lists & Hl & Hr & Hn & He). assert (Ok records0 = Ok records) as [= ->] by (apply Hacc; eauto). done.
    - intros [-> He]. destruct (proj1 (Hacc records0) eq_refl) as (lists & ? & ? & ?). exists lists. by split_and!. }
  assert (Hn : NoDup (Slot <$> records0)) by (by destruct (proj1 (Hacc records0) eq_refl) as (? & ? & ? & ?)).
  destruct (bool_decide _) eqn:Hmiss; cbn [negb];
    [apply bool_decide_eq_true in Hmiss|apply bool_decide_eq_false in Hmiss]; rewrite missing_slots_sorted in Hmiss.
  2: { split; [done|]. split; [|auto]. split; [done|]. by intros (_ & (records & [_ He]%Hall) & _). }
  pose proof (write_outputs_spec env jsonlOut csvOut (sort_by slot_less records0) w Hfresh) as Hw.
  destruct (write_outputs _ _ _ _ _) as [o w']. destruct Hw as (Ho & Hok & _ & _ & Hfail & _).
  split; [by destruct Ho as [-> | [e ->]]|]. split.
  - rewrite Hok. split; [|by intros (_ & _ & ?)]. intros ?. split; [done|]. split; [|done]. exists records0. by apply Hall.
  - intros Hf. destruct (Hfail Hf Hd) as [Hcsv Hj]. split; [done|]. destruct Hj as [Hj|Hj]; [by left|right].
    exists records0, (sort_by slot_less records0). split_and!; [by apply Hall|apply sort_by_perm|by apply sorted_by_slot|done].
Qed.

Lemma MergeAndWrite_accepts_witness :
  is_Ok (fst (sample_run [33; 32])) = true /\ is_Ok (fst (sample_run [33; 34])) = false
  /\ (snd (sample_run [33; 34])) !! str "out.csv" = sample_world !! str "out.csv".
Proof.
  split; [vm_compute; reflexivity|].
  assert (Hf : is_Ok (fst (sample_run [33; 34])) = false) by (vm_compute; reflexivity).
  split; [exact Hf|].
  pose proof (MergeAndWrite_accepts sample_env [str "w0"; str "w1"] (str "out.jsonl") (str "out.csv") sample_meta
    [33; 34] None sample_world sample_fresh ltac:(left; discriminate)) as H. cbv zeta in H.
  unfold sample_run in *. destruct (MergeAndWriteWithCanonical _ _ _ _ _ _ _ _) as [o w'].
  destruct H as (_ & _ & H). exact (proj1 (H Hf)).
Defined.
