(* ===== verification/MergeRoundtrip.v ===== *)
(** * The merged JSONL can be read back

    Every record the merge accepts is one [json.Encoder] writes on a line of its own
    and [json.Unmarshal] reads back unchanged. *)

From S2P Require Import Prelude Bytes Json Files Merge.
From Stdlib Require Import Strings.Byte.

(** ** Lemmas: the fields of a written record *)

Section fields.
Context {T : Type} (store : jvalue -> T -> option T).

Lemma decode_field_none (ms : list (bytes * jvalue)) name acc :
  Forall (fun m => fold_name m.1 ≠ fold_name name) ms ->
  foldl (fun acc m => if EqualFold m.1 name then acc ≫= store m.2 else acc) acc ms = acc.
Proof.
  intros Hm. revert acc. induction Hm as [|m ms Hm _ IH]; intros acc; cbn [foldl]; [done|].
  unfold EqualFold at 2. rewrite bool_decide_eq_false_2 by done. apply IH.
Qed.

(** A field of an object whose keys fold to different names. *)
Lemma decode_field_at names vals i name v zero :
  NoDup (fold_name <$> names) -> names !! i = Some name -> vals !! i = Some v ->
  decode_field (zip names vals) name store zero = store v zero.
Proof.
  unfold decode_field. revert vals i. induction names as [|k names IH]; intros vals i Hn Hi Hv; [done|].
  apply NoDup_cons in Hn as [Hk Hn]. destruct vals as [|v0 vals]; [by rewrite lookup_nil in Hv|].
  cbn [zip zip_with foldl fst snd]. destruct i as [|i]; cbn in Hi, Hv.
  - injection Hi as ->. injection Hv as ->. unfold EqualFold at 2. rewrite bool_decide_eq_true_2 by done.
    rewrite decode_field_none; [done|]. apply Forall_forall. intros [k' v'] Hin He. cbn in He.
    apply Hk. rewrite <- He. apply list_elem_of_fmap. exists k'. split; [done|].
    by apply elem_of_zip_l in Hin.
  - unfold EqualFold at 2. rewrite bool_decide_eq_false_2; [by eapply IH|].
    intros He. apply Hk. rewrite He. apply list_elem_of_fmap. exists name. split; [done|].
    by eapply list_elem_of_lookup_2.
Qed.
End fields.

Definition record_values (r : record) : list jvalue := snd <$> record_members r.

Lemma record_members_zip r : record_members r = zip csvColumns (record_values r).
Proof. done. Qed.

Lemma columns_distinct : NoDup (fold_name <$> csvColumns).
Proof. apply (bool_decide_unpack _). vm_compute. exact I. Qed.

(** What a written record holds: machine integers and valid strings. *)
Definition encodable (r : record) : Prop :=
  SchemaVersion r = schemaVersion
  /\ Forall u64 ([Slot r; Epoch r; ConfirmedSlot r; ConfirmationDelaySlots r; FinalizedEpoch r;
      JustifiedEpoch r; NumAttestationsInjected r; FcrEvalDurationUs r; LookaheadCap r]
      ++ option_list (SourceBlockSlot r))
  /\ Forall (fun s => valid_utf8 s = true) ([EngineName r; EngineVersion r; EngineCommit r; HeadRoot r;
      ConfirmedRoot r; AttestationSourceMode r] ++ option_list (BlockRoot r)).

Lemma store_uint_format n old : u64 n -> store_uint (JNumber (format_uint n)) old = Some n.
Proof. apply parse_format_uint. Qed.

(** Solves [csvColumns !! ?i = Some name]: tries the positions in turn. *)
Ltac column_at i :=
  match i with
  | 24%nat => fail 1
  | _ => first [instantiate (1 := i); reflexivity | column_at (S i)]
  end.

Lemma decode_record_members r : encodable r -> decode_members (record_members r) = Some r.
Proof.
  intros (Hv & Hu & _). rewrite record_members_zip. unfold decode_members.
  cbn [app] in Hu. repeat (apply Forall_cons in Hu as [? Hu]).
  do 24 (erewrite (decode_field_at _ _ _ _ _ _ _ columns_distinct);
    [|column_at 0%nat|reflexivity]).
  assert (Hb : forall o : option bytes, store_ptr store_string []
    (match o with Some root => JString root | None => JNull end) None = Some o) by by intros [].
  assert (Hs : forall o : option N, Forall u64 (option_list o) -> store_ptr store_uint 0
    (match o with Some slot => JNumber (format_uint slot) | None => JNull end) None = Some o).
  { intros [slot|] Ho; [|done]. apply Forall_cons in Ho as [Ho _]. cbn [store_ptr default].
    by rewrite store_uint_format. }
  cbn [snd].
  rewrite !store_uint_format, Hb, Hs by done. rewrite Hv. destruct r. cbn in Hv. by subst.
Qed.

Lemma columns_valid : Forall (fun k => valid_utf8 k = true) csvColumns.
Proof. apply (bool_decide_unpack _). vm_compute. exact I. Qed.

Lemma record_values_ok r : encodable r -> Forall scalar_ok (record_values r).
Proof.
  intros (Hv & _ & Hs). cbn [app] in Hs. repeat (apply Forall_cons in Hs as [? Hs]).
  assert (Hn : forall n, scalar_ok (JNumber (format_uint n))) by (intros n; by exists n).
  assert (Hz : scalar_ok (JNumber (format_int (SchemaVersion r)))) by (exists 4; by rewrite Hv).
  assert (Hb : scalar_ok (match BlockRoot r with Some root => JString root | None => JNull end))
    by (destruct (BlockRoot r); [by apply Forall_cons in Hs as [? _]|done]).
  assert (Ho : scalar_ok (match SourceBlockSlot r with
    | Some slot => JNumber (format_uint slot) | None => JNull end)) by (destruct (SourceBlockSlot r); [apply Hn|done]).
  unfold record_values, record_members. cbn [fmap list_fmap snd].
  repeat (apply Forall_cons_2; [first [exact Hz|exact Hb|exact Ho|apply Hn|done]|]). constructor.
Qed.

Lemma record_members_ok r :
  encodable r -> Forall (fun m => valid_utf8 m.1 = true /\ scalar_ok m.2) (record_members r).
Proof.
  intros Hr. rewrite record_members_zip. apply Forall_forall. intros [k v] Hin. split.
  - apply elem_of_zip_l in Hin. pose proof columns_valid as Hc. rewrite Forall_forall in Hc. by apply Hc.
  - apply elem_of_zip_r in Hin. pose proof (record_values_ok r Hr) as Hc. rewrite Forall_forall in Hc. by apply Hc.
Qed.

Lemma parse_encode_record r :
  encodable r -> parse_json (encode_record r) ≫= decode_record = Some r.
Proof.
  intros Hr. unfold encode_record. rewrite parse_write_object by by apply record_members_ok.
  by apply decode_record_members.
Qed.

(** ** Lemmas: a written record is one line *)

(** Bytes other than control characters. *)
Definition printable (s : bytes) : Prop := Forall (fun c => 32 <= byte_val c) s.

Lemma printable_quote s : valid_utf8 s = true -> printable (quote s).
Proof.
  intros Hs. unfold quote, printable. constructor; [vm_compute; discriminate|].
  apply Forall_app. split; [|repeat constructor; vm_compute; discriminate].
  apply Forall_concat, Forall_fmap. eapply Forall_impl; [by apply runes_good|]. intros q Hq. cbn.
  destruct (good_rune_cases q Hq) as [(b & -> & Hb)|[Hl Hh]].
  - destruct b; try (exfalso; apply N.ltb_lt in Hb; vm_compute in Hb; discriminate);
      (repeat constructor; vm_compute; discriminate).
  - destruct (quote_rune_wide q Hl) as [->|[[_ ->]|[_ ->]]];
      [|repeat constructor; vm_compute; discriminate..].
    eapply Forall_impl; [done|]. cbn. intros. lia.
Qed.

Lemma printable_uint n : printable (format_uint n).
Proof.
  unfold format_uint. destruct (decide (n = 0)) as [->|Hn]; [repeat constructor; vm_compute; discriminate|].
  destruct (format_uint_shape _ n [] Hn (lt_size n) ltac:(constructor)) as (c & s & -> & Hc & _ & Hs).
  assert (Hd : forall c, digit c = true -> 32 <= byte_val c).
  { intros c0 Hc0. unfold digit, byte_in in Hc0. bool_to_prop. lia. }
  constructor; [by apply Hd|]. eapply Forall_impl; [done|apply Hd].
Qed.

Lemma printable_scalar v : scalar_ok v -> printable (write_scalar v).
Proof.
  destruct v as [|[]|t|s|l|l]; cbn; try done; [repeat constructor; vm_compute; discriminate..| |].
  - intros [n ->]. apply printable_uint.
  - apply printable_quote.
Qed.

Lemma printable_members l :
  Forall (fun m => valid_utf8 m.1 = true /\ scalar_ok m.2) l -> printable (write_members l).
Proof.
  unfold printable. induction 1 as [|[k v] l [Hk Hv] Hl IH]; cbn [write_members fst snd] in *.
  { repeat constructor; vm_compute; discriminate. }
  rewrite Forall_app, Forall_cons, !Forall_app. split_and!; [by apply printable_quote|vm_compute; discriminate
    |by apply printable_scalar| |done].
  destruct l; [constructor|repeat constructor; vm_compute; discriminate].
Qed.

Lemma write_members_snoc l : exists s, write_members l = s ++ [x7d].
Proof.
  induction l as [|[k v] l [s IH]]; [by exists []|]. cbn [write_members]. rewrite IH.
  exists (quote k ++ x3a :: write_scalar v ++ match l with [] => [] | _ => [x2c] end ++ s).
  by rewrite <- !app_assoc, <- app_comm_cons, <- !app_assoc.
Qed.

Lemma split_lines_line current line rest :
  printable line -> split_lines current (line ++ x0a :: rest) = (current ++ line) :: split_lines [] rest.
Proof.
  intros Hl. revert current. induction Hl as [|c line Hc Hl IH]; intros current; cbn.
  - by rewrite app_nil_r.
  - rewrite decide_False by (intros ->; vm_compute in Hc; by apply Hc). by rewrite IH, <- app_assoc.
Qed.

(** The lines of the JSONL file are the encoded records. *)
Lemma jsonl_lines records :
  Forall encodable records -> Forall (fun r => N.of_nat (length (encode_record r)) < maxJSONLRecordBytes) records ->
  take_tokens (split_lines [] (jsonl_content records)) = (encode_record <$> records, false).
Proof.
  unfold jsonl_content. intros He. induction He as [|r records Hr He IH]; intros Hl; [done|].
  apply Forall_cons in Hl as [Hlen Hl]. cbn [fmap list_fmap concat].
  assert (Hp : printable (encode_record r)).
  { constructor; [vm_compute; discriminate|]. by apply printable_members, record_members_ok. }
  rewrite <- app_assoc. cbn [app]. rewrite split_lines_line by done. cbn [app take_tokens].
  destruct (N.leb_spec maxJSONLRecordBytes (N.of_nat (length (encode_record r)))); [lia|].
  cbn [fmap] in IH. rewrite IH by done. do 2 f_equal. unfold drop_cr.
  destruct (write_members_snoc (record_members r)) as [s Hs]. unfold encode_record, write_object. rewrite Hs.
  unfold has_suffix. by rewrite app_comm_cons, reverse_snoc.
Qed.

(** ** Lemmas: what is decoded can be encoded *)

Lemma good_rune_decoded s :
  s ≠ [] -> bad_rune (take (decode_rune s).2 s) = false -> good_rune (take (decode_rune s).2 s).
Proof.
  intros Hs Hb. pose proof (decode_rune_width s Hs). split_and!; [|done|].
  - intros Hn%(f_equal length). rewrite length_take in Hn. cbn in Hn. lia.
  - intros t. rewrite decode_rune_app by done. rewrite length_take. lia.
Qed.

Lemma good_rune_ascii b : byte_val b < 128 -> good_rune [b].
Proof.
  intros Hb. split_and!; [done|cbn; lia|]. intros t. cbn. by destruct (N.ltb_spec (byte_val b) 128); [|lia].
Qed.

Lemma byte_val_small n : n < 256 -> byte_val (to_byte n) = n.
Proof. intros. rewrite byte_val_to_byte. by apply N.mod_small. Qed.

Lemma good_encode_rune r : good_rune (encode_rune r).
Proof.
  unfold encode_rune. set (r' := if _ || _ then _ else r).
  assert (Hr : r' <= 1114111 /\ (r' < 55296 \/ 57343 < r')).
  { unfold r'. destruct (_ || _) eqn:E; [lia|]. bool_to_prop. lia. }
  clearbody r'. destruct (N.ltb_spec r' 128); [apply good_rune_ascii; rewrite byte_val_small; lia|].
  assert (Hm : forall n, 128 + n mod 64 < 256) by (intros; lia).
  destruct (N.ltb_spec r' 2048); [|destruct (N.ltb_spec r' 65536)]; (split_and!; [done|done|]); intros t;
    unfold decode_rune; cbn [app]; unfold cont, byte_in; rewrite !byte_val_small by lia.
  - destruct (N.ltb_spec (192 + r' / 64) 128); [lia|].
    rewrite (proj2 (N.leb_le 194 _)), (proj2 (N.leb_le _ 223)), (proj2 (N.leb_le 128 _)), (proj2 (N.leb_le _ 191)) by lia.
    done.
  - destruct (N.ltb_spec (224 + r' / 4096) 128); [lia|].
    rewrite (proj2 (N.leb_gt _ 223)), andb_false_r by lia. cbn [andb].
    rewrite (proj2 (N.leb_le 224 _)), (proj2 (N.leb_le _ 239)), (proj2 (N.leb_le 128 (128 + r' mod 64))),
      (proj2 (N.leb_le (128 + r' mod 64) 191)) by lia. cbn [andb].
    destruct (N.eqb_spec (224 + r' / 4096) 224), (N.eqb_spec (224 + r' / 4096) 237);
      rewrite (proj2 (N.leb_le _ (128 + r' / 64 mod 64))), (proj2 (N.leb_le (128 + r' / 64 mod 64) _)) by lia; done.
  - destruct (N.ltb_spec (240 + r' / 262144) 128); [lia|].
    rewrite (proj2 (N.leb_gt _ 223)), (proj2 (N.leb_gt _ 239)), !andb_false_r by lia. cbn [andb].
    rewrite (proj2 (N.leb_le 240 _)), (proj2 (N.leb_le _ 244)), (proj2 (N.leb_le 128 (128 + r' mod 64))),
      (proj2 (N.leb_le (128 + r' mod 64) 191)), (proj2 (N.leb_le 128 (128 + r' / 64 mod 64))),
      (proj2 (N.leb_le (128 + r' / 64 mod 64) 191)) by lia. cbn [andb].
    destruct (N.eqb_spec (240 + r' / 262144) 240), (N.eqb_spec (240 + r' / 262144) 244);
      rewrite (proj2 (N.leb_le _ (128 + r' / 4096 mod 64))), (proj2 (N.leb_le (128 + r' / 4096 mod 64) _)) by lia; done.
Qed.

Lemma runes_fuel_concat_good fuel l :
  Forall good_rune l -> (length (concat l) <= fuel)%nat -> runes_fuel fuel (concat l) = l.
Proof.
  intros Hl. revert fuel. induction Hl as [|r l Hr Hl IH]; intros fuel Hf; [by destruct fuel|].
  cbn [concat] in *. rewrite length_app in Hf. destruct Hr as (Hne & _ & Hw). specialize (Hw (concat l)).
  destruct r as [|b r]; [done|]. destruct fuel as [|fuel]; [cbn in Hf; lia|].
  cbn [runes_fuel app] in *. rewrite Hw. change (b :: r ++ concat l) with ((b :: r) ++ concat l).
  rewrite take_app_length, drop_app_length, IH; [done|]. cbn in Hf. lia.
Qed.

Lemma valid_concat l : Forall good_rune l -> valid_utf8 (concat l) = true.
Proof.
  intros Hl. unfold valid_utf8, runes. rewrite runes_fuel_concat_good by done.
  apply forallb_forall. intros r Hr. apply list_elem_of_In in Hr. rewrite Forall_forall in Hl.
  destruct (Hl r Hr) as (_ & -> & _). done.
Qed.

Lemma unescape_good c b : unescape c = Some b -> good_rune b.
Proof.
  unfold unescape. intros H. repeat case_decide; case_bool_decide as Hc; simplify_eq;
    try (apply good_rune_ascii; vm_compute; reflexivity).
  all: repeat (apply elem_of_cons in Hc as [->|Hc]; [apply good_rune_ascii; vm_compute; reflexivity|]);
    by apply elem_of_nil in Hc.
Qed.

Lemma unquote_step_good s b rest : unquote_step s = Some (b, rest) -> good_rune b.
Proof.
  unfold unquote_step. destruct s as [|c s]; [done|]. destruct (decide (c = x5c)) as [_|_].
  - destruct (getu4 (c :: s)) as [[r s1]|].
    + destruct (is_surrogate r); [|intros [= <- _]; apply good_encode_rune].
      destruct (getu4 s1) as [[r2 s2]|]; [|intros [= <- _]; apply good_encode_rune].
      destruct (surrogate_pair r r2); intros [= <- _]; apply good_encode_rune.
    + destruct s as [|e s]; [done|]. destruct (unescape e) eqn:He; [|done].
      intros [= <- _]. by eapply unescape_good.
  - destruct (_ || _); [done|]. destruct (bad_rune _) eqn:Hb; intros [= <- _];
      [apply good_encode_rune|by apply (good_rune_decoded (c :: s))].
Qed.

Lemma unquote_valid s t : unquote s = Some t -> valid_utf8 t = true.
Proof.
  unfold unquote. generalize (length s) as fuel. intros fuel H.
  assert (exists l, Forall good_rune l /\ t = concat l) as (l & Hl & ->); [|by apply valid_concat].
  revert s t H. induction fuel as [|fuel IH]; intros s t; destruct s as [|c s]; cbn [unquote_fuel]; try done;
    try (intros [= <-]; by exists []).
  destruct (unquote_step _) as [[b rest]|] eqn:Hs; [|done]. cbn [mbind option_bind].
  destruct (unquote_fuel fuel rest) as [t'|] eqn:Ht; [|done]. intros [= <-].
  destruct (IH _ _ Ht) as (l & Hl & ->). exists (b :: l). split; [|done].
  constructor; [by eapply unquote_step_good|done].
Qed.

(** Every string in the members of an object that was read is valid. *)
Definition string_ok (v : jvalue) : Prop := match v with JString s => valid_utf8 s = true | _ => True end.
Definition value_ok (v : jvalue) : Prop :=
  match v with JObject ms => Forall (fun m : bytes * jvalue => string_ok m.2) ms | _ => string_ok v end.
Definition frame_ok (f : frame) : Prop :=
  match f with FKey ms | FValue ms _ => Forall (fun m : bytes * jvalue => string_ok m.2) ms | FArray _ => True end.
Definition jstep_ok (s : jstep) : Prop :=
  match s with SEndValue v | SEndTop v | SLit _ v => value_ok v | _ => True end.
Definition jstate_ok (st : jstate) : Prop := jstep_ok st.1 /\ Forall frame_ok st.2.

Lemma value_ok_string v : value_ok v -> string_ok v.
Proof. by destruct v. Qed.

Lemma end_value_ok v stk c st :
  value_ok v -> Forall frame_ok stk -> end_value v stk c = Some st -> jstate_ok st.
Proof.
  intros Hv Hs. unfold end_value. destruct Hs as [|f stk Hf Hs]; [by case_ifs; intros [= <-]|].
  destruct (json_space c); [intros [= <-]; by split; [|constructor]|].
  assert (Hp : forall w, value_ok w -> jstate_ok (pop_state w stk)) by (intros; by destruct stk).
  assert (Hm : forall ms k, Forall (fun m : bytes * jvalue => string_ok m.2) ms -> Forall (fun m : bytes * jvalue => string_ok m.2) (ms ++ [(k, v)])).
  { intros ms k Hms. apply Forall_app. split; [done|]. constructor; [by apply value_ok_string|constructor]. }
  destruct f as [ms|ms k|items].
  - destruct v; try done. case_decide; [|done]. intros [= <-]. by split; [|constructor].
  - case_decide; [intros [= <-]; split; [done|constructor; [by apply Hm|done]]|].
    case_decide; [intros [= <-]; by apply Hp, Hm|done].
  - case_decide; [intros [= <-]; split; [done|by constructor]|].
    case_decide; [intros [= <-]; by apply Hp|done].
Qed.

Lemma begin_ok stk c st :
  Forall frame_ok stk -> begin_value stk c = Some st \/ begin_string stk c = Some st -> jstate_ok st.
Proof.
  intros Hs. assert (Hp : forall f s, frame_ok f -> jstep_ok s -> push_state f s stk = Some st -> jstate_ok st).
  { intros f s Hf Hst. unfold push_state. case_decide; [|done]. intros [= <-]. split; [done|by constructor]. }
  unfold begin_value, begin_string. intros [H|H]; repeat (case_match; simplify_eq); try (by split);
    by apply Hp in H; [|constructor|].
Qed.

Lemma number_ok acc stk c st :
  Forall frame_ok stk -> state_0 acc stk c = Some st \/ state_esign acc stk c = Some st -> jstate_ok st.
Proof.
  intros Hs. unfold state_0, state_esign. intros [H|H]; repeat (case_match; simplify_eq);
    first [done|by split|by eapply end_value_ok; [|eassumption|eassumption]; exact I].
Qed.

Lemma scan_step_ok st c st' : jstate_ok st -> scan_step st c = Some st' -> jstate_ok st'.
Proof.
  destruct st as [s stk]. intros [Hs Hstk]. cbn in Hs, Hstk.
  assert (Hp : forall w f stk', stk = f :: stk' -> value_ok w -> jstate_ok (pop_state w stk')).
  { intros w f stk' -> Hw. apply Forall_cons in Hstk as [_ Hstk]. by destruct stk'. }
  destruct s; cbn [scan_step]; intros H;
    first [ by eapply end_value_ok | by eapply begin_ok; eauto | by eapply number_ok; eauto | idtac ].
  all: repeat case_match; simplify_eq;
    first [ done | by eapply Hp | by eapply Hp; [|constructor]
          | by eapply begin_ok; eauto | by eapply number_ok; eauto
          | by eapply end_value_ok; [|eassumption|eassumption]; exact I | by split | idtac ].
  destruct (unquote acc) as [t|] eqn:Ht; [|done]. injection H as <-. split; [by eapply unquote_valid|done].
Qed.

Lemma parse_json_ok s v : parse_json s = Some v -> value_ok v.
Proof.
  unfold parse_json. assert (H : forall st s st', jstate_ok st -> scan st s = Some st' -> jstate_ok st').
  { intros st s'. revert st. induction s' as [|c s' IH]; intros st st' Hst; cbn; [by intros [= <-]|].
    destruct (scan_step st c) as [st1|] eqn:Hc; [|done]. apply IH. by eapply scan_step_ok. }
  destruct (scan _ _) as [[st stk]|] eqn:Hs; [|done]. apply H in Hs as [Hs _]; [|by split].
  destruct st; try done. by intros [= <-].
Qed.

(** What a decoder stores satisfies what the values it reads and the zero value do. *)
Lemma decode_field_ok {T} (P : T -> Prop) ms name (store : jvalue -> T -> option T) zero t :
  P zero -> (forall v old new, string_ok v -> P old -> store v old = Some new -> P new) ->
  Forall (fun m : bytes * jvalue => string_ok m.2) ms -> decode_field ms name store zero = Some t -> P t.
Proof.
  intros Hz Hst Hm. unfold decode_field. assert (Hacc : forall t, Some zero = Some t -> P t) by (intros ? [= <-]; done).
  revert Hacc. generalize (Some zero) as acc. induction Hm as [|m ms Hm _ IH]; intros acc Hacc; cbn [foldl]; [by apply Hacc|].
  apply IH. intros t'. destruct (EqualFold _ _); [|by apply Hacc].
  destruct acc as [old|]; [|done]. cbn. by apply Hst; [|apply Hacc].
Qed.

Definition meta_ok (meta : OrchestratorMetadata) : Prop :=
  Forall (fun s => valid_utf8 s = true) [meta_EngineName meta; meta_EngineVersion meta;
    meta_EngineCommit meta; meta_AttestationSourceMode meta] /\ u64 (meta_LookaheadCap meta).

Lemma decode_uint ms name n :
  Forall (fun m : bytes * jvalue => string_ok m.2) ms -> decode_field ms name store_uint 0 = Some n -> u64 n.
Proof.
  apply decode_field_ok; [u64_lia|]. intros [] old new _ Ho; cbn; try done; [by intros [= <-]|apply parse_uint_u64].
Qed.

Lemma decode_string ms name s :
  Forall (fun m : bytes * jvalue => string_ok m.2) ms -> decode_field ms name store_string [] = Some s ->
  valid_utf8 s = true.
Proof. apply (decode_field_ok (fun s => valid_utf8 s = true)); [done|]. intros [] old new Hv Ho; cbn; naive_solver. Qed.

Lemma decode_string_ptr ms name o :
  Forall (fun m : bytes * jvalue => string_ok m.2) ms ->
  decode_field ms name (store_ptr store_string []) None = Some o ->
  Forall (fun s => valid_utf8 s = true) (option_list o).
Proof.
  apply (decode_field_ok (fun o => Forall (fun s => valid_utf8 s = true) (option_list o))); [constructor|].
  intros [] old new Hv Ho; cbn; try done; intros [= <-]; repeat constructor. done.
Qed.

Lemma decode_uint_ptr ms name o :
  Forall (fun m : bytes * jvalue => string_ok m.2) ms ->
  decode_field ms name (store_ptr store_uint 0) None = Some o -> Forall u64 (option_list o).
Proof.
  apply (decode_field_ok (fun o => Forall u64 (option_list o))); [constructor|].
  intros [] old new Hv Ho; cbn; try done; [intros [= <-]; constructor|].
  destruct (parse_uint text) eqn:Hp; [|done]. intros [= <-]. repeat constructor. by eapply parse_uint_u64.
Qed.

Lemma accepted_encodable path n meta lookup line r :
  meta_ok meta -> parseEngineRecord path n meta lookup line = Ok r -> encodable r.
Proof.
  intros [Hm Hcap] (v & ms & d & nc & Hp & Hraw & _ & _ & Hd & _ & _ & ->)%parseEngineRecord_iff.
  assert (Hms : Forall (fun m : bytes * jvalue => string_ok m.2) ms).
  { apply parse_json_ok in Hp. destruct v; try done; injection Hraw as <-; [constructor|done]. }
  unfold decode_members in Hd. repeat (apply bind_Some in Hd as (? & ? & Hd)). injection Hd as <-.
  rewrite !Forall_cons in Hm. destruct Hm as (? & ? & ? & ? & _).
  split; [done|]. cbn [enrich Slot Epoch ConfirmedSlot ConfirmationDelaySlots FinalizedEpoch JustifiedEpoch
    NumAttestationsInjected FcrEvalDurationUs LookaheadCap SourceBlockSlot EngineName EngineVersion
    EngineCommit HeadRoot ConfirmedRoot AttestationSourceMode BlockRoot app].
  split; repeat (apply Forall_cons_2; [first [done|by eapply decode_uint|by eapply decode_string]|]);
    [by eapply decode_uint_ptr|by eapply decode_string_ptr].
Qed.

(** ** Theorem *)

(** C28: the JSONL output can be read back.  For records the merge accepts (with a
    metadata of valid strings), the file [writeJSONL] writes splits into one line per
    record, in order, and each line decodes into exactly its record: escapes,
    non-ASCII text, optional fields and 64-bit numbers included. *)
Theorem jsonl_roundtrip meta lookup records :
  meta_ok meta ->
  Forall (fun r => exists path n line, parseEngineRecord path n meta lookup line = Ok r) records ->
  Forall (fun r => N.of_nat (length (encode_record r)) < maxJSONLRecordBytes) records ->
  exists lines, take_tokens (split_lines [] (jsonl_content records)) = (lines, false)
    /\ Forall2 (fun line r => parse_json line ≫= decode_record = Some r) lines records.
Proof.
  intros Hm Hr Hlen. assert (He : Forall encodable records).
  { eapply Forall_impl; [exact Hr|]. intros r (path & n & line & H). by eapply accepted_encodable. }
  exists (encode_record <$> records). split; [by apply jsonl_lines|].
  apply Forall2_fmap_l, Forall_Forall2_diag. eapply Forall_impl; [exact He|]. apply parse_encode_record.
Qed.

(** A root with an escape, a quote and a non-ASCII character. *)
Definition sample_text : bytes := [x5c; x22; x0a; xe2; x82; xac; x7f].

Lemma jsonl_roundtrip_witness :
  exists r lines, parseEngineRecord (str "w") 1 sample_meta None (sample_line 33 sample_text) = Ok r
    /\ HeadRoot r = sample_text
    /\ take_tokens (split_lines [] (jsonl_content [r])) = (lines, false)
    /\ Forall2 (fun line r => parse_json line ≫= decode_record = Some r) lines [r].
Proof.
  assert (H : match parseEngineRecord (str "w") 1 sample_meta None (sample_line 33 sample_text) with
    | Ok r => bool_decide (HeadRoot r = sample_text)
              && (N.of_nat (length (encode_record r)) <? maxJSONLRecordBytes) | _ => false end = true)
    by (vm_compute; reflexivity).
  destruct (parseEngineRecord _ _ _ _ _) as [r| |] eqn:E; [|discriminate H..].
  apply andb_true_iff in H as [Hh%bool_decide_eq_true Hlen%N.ltb_lt].
  destruct (jsonl_roundtrip sample_meta None [r]) as (lines & Hl & Hf).
  - split; [repeat constructor|vm_compute; discriminate].
  - repeat constructor. by exists (str "w"), 1, (sample_line 33 sample_text).
  - by repeat constructor.
  - exists r, lines. by split_and!.
Defined.
