(* ===== verification/CanonicalLookup.v ===== *)
(** * Looking up canonical roots for the merge ([CanonicalRootLookup] in
      [pkg/beaconapi/realbackend.go])

    The orchestrator hands the merge a lookup over a second, archive-less backend.
    Its answers come from the canonical block index; the theorem says what the
    [confirmed_non_canonical] flag of a merged record means in terms of the ERA files. *)

From S2P Require Import Prelude Bytes Lru EraFormat EraReader Sources BlockInfo Samples.
From S2P Require Import CanonicalIndex PlanSources Json GoStrings Files Merge.
From Stdlib Require Import Strings.Byte.

(** ** Definitions *)

Section lookup.
Context {E2 : Eth2} {R : Type} {BS : BlockSource R}.
Context {CS : Type} {LS : Lru N blockInfo CS} {CR : Type} {LR : Lru bytes blockInfo CR}.
Context (forkAtSlot : N -> bytes).

(** The type [CanonicalRootLookup] of the package: a backend and the slots it is for. *)
Record lookup_range := mkLookup { l_from : N; l_to : N }.

(** The answer is the root, whether a block exists, and whether the slot is known. *)
Definition Lookup (l : lookup_range) (slot : N)
    : stateM (istate R CS CR) beacon_error (bytes * bool * bool) :=
  if (slot <? l_from l) || (l_to l <? slot) then mret ([], false, false)
  else
    info ← canonicalInfoAtSlot forkAtSlot slot;
    match info with
    | None => mret ([], false, true)
    | Some info => mret (formatRoot (BlockInfo.Root info), true, true)
    end.

(** The callback the merge gets, on a backend in the state [st]. *)
Definition lookup_callback (l : lookup_range) (st : istate R CS CR) : CanonicalRootLookup := fun slot =>
  match fst (Lookup l slot st) with Ok answer => Some answer | _ => None end.
End lookup.

(** ** Lemmas: printed roots *)

Lemma hex_digit_cases n : n < 16 -> 48 <= byte_val (hex_digit n) <= 57 \/ 97 <= byte_val (hex_digit n) <= 102.
Proof.
  intros. unfold hex_digit. destruct (N.ltb_spec n 10); rewrite byte_val_to_byte, N.mod_small by lia; lia.
Qed.

Lemma plain_formatRoot root : plain_text (formatRoot root).
Proof.
  unfold formatRoot, plain_text. apply Forall_app. split; [repeat constructor|].
  induction root as [|b root IH]; cbn [hex_encode]; [constructor|]. pose proof (byte_val_lt b).
  destruct (hex_digit_cases (byte_val b / 16) ltac:(lia)), (hex_digit_cases (byte_val b mod 16) ltac:(lia));
    repeat constructor; try lia; done.
Qed.

(** Folding a hexadecimal digit keeps its value. *)
Lemma fold_hex_digit n : n < 16 -> exists c, fold_rune [hex_digit n] = [c] /\ hex_value c = Some n.
Proof.
  intros Hn. assert (Hv : n ∈ slots 0 16) by (rewrite elem_of_slots; lia). revert Hv. clear Hn.
  change (slots 0 16) with [0; 1; 2; 3; 4; 5; 6; 7; 8; 9; 10; 11; 12; 13; 14; 15]. intros Hv.
  repeat (apply elem_of_cons in Hv as [->|Hv]; [eexists; split; vm_compute; reflexivity|]).
  by apply elem_of_nil in Hv.
Qed.

Lemma hex_decode_fold root : hex_decode (concat (fold_rune <$> ((fun b => [b]) <$> hex_encode root))) = Some root.
Proof.
  induction root as [|b root IH]; [done|]. cbn [hex_encode fmap list_fmap concat]. pose proof (byte_val_lt b).
  destruct (fold_hex_digit (byte_val b / 16) ltac:(lia)) as (c & -> & Hc).
  destruct (fold_hex_digit (byte_val b mod 16) ltac:(lia)) as (d & -> & Hd).
  cbn [app hex_decode]. rewrite Hc, Hd. cbn [mbind option_bind]. rewrite IH. cbn.
  do 2 f_equal. rewrite <- (to_byte_val b) at 3. f_equal. lia.
Qed.

(** Printed roots are equal up to letter case exactly when the roots are. *)
Lemma rootsEqual_formatRoot a b : rootsEqual (formatRoot a) (formatRoot b) = bool_decide (a = b).
Proof.
  unfold rootsEqual. rewrite !TrimSpace_plain by apply plain_formatRoot. unfold EqualFold.
  apply bool_decide_ext. split; [|by intros ->]. unfold fold_name.
  rewrite !runes_plain by apply plain_formatRoot. unfold formatRoot. rewrite !fmap_app, !concat_app.
  intros H%app_inv_head. apply (inj Some). by rewrite <- !hex_decode_fold, H.
Qed.

Lemma hex_encode_zeros root :
  forallb (fun ch => bool_decide (ch = x30)) (hex_encode root) = forallb (fun b => bool_decide (b = x00)) root.
Proof.
  induction root as [|b root IH]; cbn [hex_encode forallb]; [done|]. rewrite IH, andb_assoc. f_equal.
  by destruct b.
Qed.

Lemma zeros_replicate root :
  forallb (fun b => bool_decide (b = x00)) root = true <-> root = replicate (length root) x00.
Proof.
  rewrite forallb_forall. setoid_rewrite bool_decide_eq_true. split.
  - intros H. symmetry. apply replicate_as_elem_of. split; [done|]. intros x Hx. by apply H, list_elem_of_In.
  - intros H x Hx%list_elem_of_In. rewrite H in Hx. by apply elem_of_replicate in Hx as [-> _].
Qed.

(** The empty-or-zero test, of a printed root. *)
Lemma isEmptyOrZeroRoot_formatRoot root : isEmptyOrZeroRoot (formatRoot root) = bool_decide (root = zero_root).
Proof.
  unfold isEmptyOrZeroRoot. rewrite TrimSpace_plain by apply plain_formatRoot. cbv zeta.
  rewrite decide_False by done. assert (Hx : trim_prefix (formatRoot root) (str "0x") = hex_encode root)
    by (unfold trim_prefix, formatRoot; by rewrite has_prefix_app, drop_app_length). rewrite Hx.
  assert (Ht : trim_prefix (hex_encode root) (str "0X") = hex_encode root).
  { unfold trim_prefix. destruct root as [|b root]; [done|]. by destruct b. }
  rewrite Ht, length_hex_encode, hex_encode_zeros.
  destruct (Nat.eqb_spec (2 * length root) 64) as [Hl|Hl]; cbn [negb].
  - apply eq_bool_prop_intro. rewrite !Is_true_true, bool_decide_eq_true, zeros_replicate.
    by replace (length root) with 32%nat by lia.
  - symmetry. apply bool_decide_eq_false. intros ->. by apply Hl.
Qed.

Section lookup_lemmas.
Context {E2 : Eth2} {R : Type} {BS : BlockSource R}.
Context {CS : Type} {LS : Lru N blockInfo CS} {CR : Type} {LR : Lru bytes blockInfo CR}.
Context (forkAtSlot : N -> bytes) (content : N -> outcome era_error (option bytes)).

Lemma Lookup_spec l slot (st : istate R CS CR) :
  quiet forkAtSlot content st -> u64 slot ->
  let '(o, st') := Lookup forkAtSlot l slot st in
  quiet forkAtSlot content st'
  /\ o = (if (slot <? l_from l) || (l_to l <? slot) then Ok ([], false, false)
          else match canonical_at forkAtSlot content slot with
               | Ok None => Ok ([], false, true)
               | Ok (Some info) => Ok (formatRoot (BlockInfo.Root info), true, true)
               | Err e => Err e
               | Panic => Panic
               end).
Proof.
  intros Hq Hu. unfold Lookup. destruct (_ || _); [by split|].
  pose proof (canonicalInfoAtSlot_spec forkAtSlot content slot st Hq Hu) as H.
  unfold mbind, stateM_bind, st_bind. destruct (canonicalInfoAtSlot _ _ _) as [o st'].
  destruct H as (-> & Hq' & _). by destruct (canonical_at _ _ _) as [[info|]| |].
Qed.
End lookup_lemmas.

(** ** Theorem *)

(** C29: the [confirmed_non_canonical] flag the merge computes from the orchestrator's
    lookup means that the engine confirmed a block the ERA files do not have at that
    slot.  For a confirmed root as engines print it: never for slot 0 or the zero root,
    never outside the looked-up slots; otherwise exactly when the slot's canonical
    block is missing or has another root; an unreadable slot is an error.  The answer
    does not depend on what was looked up before: it is the same in every state of the
    backend's caches. *)
Theorem confirmed_non_canonical_spec {E2 : Eth2} {R} {BS : BlockSource R} {CS} {LS : Lru N blockInfo CS}
    {CR} {LR : Lru bytes blockInfo CR} (forkAtSlot : N -> bytes) (content : N -> outcome era_error (option bytes))
    (l : lookup_range) (st : istate R CS CR) (r : record) (root : bytes) :
  quiet forkAtSlot content st -> u64 (ConfirmedSlot r) -> ConfirmedRoot r = formatRoot root ->
  computeConfirmedNonCanonical r (Some (lookup_callback forkAtSlot l st))
  = (if decide (ConfirmedSlot r = 0 \/ root = zero_root \/ ~ (l_from l <= ConfirmedSlot r <= l_to l)) then Some false
     else match canonical_at forkAtSlot content (ConfirmedSlot r) with
          | Ok (Some info) => Some (bool_decide (BlockInfo.Root info ≠ root))
          | Ok None => Some true
          | _ => None
          end)
  /\ quiet forkAtSlot content (snd (Lookup forkAtSlot l (ConfirmedSlot r) st)).
Proof.
  intros Hq Hu Hr. pose proof (Lookup_spec forkAtSlot content l _ st Hq Hu) as H.
  unfold computeConfirmedNonCanonical, lookup_callback. rewrite Hr, isEmptyOrZeroRoot_formatRoot.
  destruct (Lookup _ _ _ _) as [o st']. destruct H as [Hq' ->]. split; [|done].
  destruct (N.eqb_spec (ConfirmedSlot r) 0) as [|H0]; [by rewrite decide_True by auto|].
  destruct (decide (root = zero_root)) as [->|Hz]; [by rewrite decide_True by auto|].
  rewrite (bool_decide_eq_false_2 (root = zero_root)) by done. cbn [orb fst].
  destruct (N.ltb_spec (ConfirmedSlot r) (l_from l)); [by rewrite decide_True by lia|].
  destruct (N.ltb_spec (l_to l) (ConfirmedSlot r)); [by rewrite decide_True by lia|].
  rewrite decide_False by (intros [?|[?|[]]]; done). cbn [orb].
  destruct (canonical_at _ _ _) as [[info|]| |]; [|done..]. cbn [mbind option_bind negb]. rewrite rootsEqual_formatRoot. f_equal.
  rewrite <- bool_decide_not. apply bool_decide_ext. naive_solver.
Qed.

Definition sample_confirmed (root : byte) (slot : N) : record :=
  mkRecord 0 [] [] [] 0 0 false None [] (formatRoot (toy_root root)) slot false 0 false
    false 0 0 None 0 false false 0 [] 0.

(** Slot 103 has the block [0x13]: confirming [0x99] there is flagged. *)
Lemma confirmed_non_canonical_spec_witness :
  let callback := lookup_callback MainnetForkAtSlot (mkLookup 100 104) toy_istate in
  computeConfirmedNonCanonical (sample_confirmed Byte.x99 103) (Some callback) = Some true
  /\ computeConfirmedNonCanonical (sample_confirmed Byte.x13 103) (Some callback) = Some false.
Proof.
  assert (Hu : u64 103) by (vm_compute; discriminate). cbv zeta. split.
  - destruct (confirmed_non_canonical_spec MainnetForkAtSlot (era_block plain toy_dir)
      (mkLookup 100 104) toy_istate (sample_confirmed Byte.x99 103) (toy_root Byte.x99) toy_quiet Hu eq_refl) as [H _].
    rewrite H. clear H. vm_compute. reflexivity.
  - destruct (confirmed_non_canonical_spec MainnetForkAtSlot (era_block plain toy_dir)
      (mkLookup 100 104) toy_istate (sample_confirmed Byte.x13 103) (toy_root Byte.x13) toy_quiet Hu eq_refl) as [H _].
    rewrite H. clear H. vm_compute. reflexivity.
Defined.
