(* ===== verification/Manifest.v ===== *)
(** * The run manifest ([pkg/manifest/manifest.go])

    The manifest records the configuration, the engine, the hashes of the inputs and of the
    outputs, and the counts.  As in [Downloader], the ERA cache directory is the map from
    file names to contents; the other paths are those of [Files.world]. *)

From S2P Require Import Prelude Bytes Json GoStrings JsonIndent Files Sha256 Merge.
From Stdlib Require Import Strings.Byte.

(** ** Data *)

Record RunConfig := mkManifestConfig {
  mc_Engine : bytes; mc_Network : bytes; mc_StartEpoch : N; mc_EndEpoch : N; mc_WarmupEpochs : N; mc_Parallel : Z;
  mc_AttestationSourceMode : bytes; mc_LookaheadCap : N; mc_FirstSeenBasePath : bytes; mc_FirstSeenDeadlineMS : N;
  mc_ByzantineThreshold : N; mc_BeaconNodeURL : bytes; mc_EraURL : bytes
}.

(** [None] is a nil slice of build flags. *)
Record EngineManifest := mkEngineManifest {
  em_EngineName : bytes; em_EngineVersion : bytes; em_EngineCommit : bytes; BuildFlags : option (list bytes); FCRSpecCommit : bytes
}.

Record EraFile := mkEraFile { ef_Era : N; ef_URL : bytes; ef_SHA256 : bytes }.
Record CheckpointState := mkCheckpointState { cs_Worker : Z; cs_Slot : N; cs_SHA256 : bytes }.

(** [None] is a nil slice of ERA files. *)
Record Inputs := mkInputs { EraFiles : option (list EraFile); CheckpointStates : list CheckpointState }.
Record Outputs := mkOutputs { ResultsJSONLSHA256 : bytes; ResultsCSVSHA256 : bytes; out_TotalSlots : N; out_FastConfirmedCount : N }.

Record RunManifest := mkRunManifest {
  rm_SchemaVersion : Z; FCRSimulatorVersion : bytes; RanAt : bytes; rm_Config : RunConfig; rm_Engine : EngineManifest;
  rm_Inputs : Inputs; rm_Outputs : Outputs
}.

Inductive manifest_error := MWrite (path : bytes) | MReadDir | MHash (path : bytes).

(** ** JSON: the struct tags *)

Definition jtexts (l : option (list bytes)) : jvalue := jopt (fun l => JArray (JString <$> l)) l.

(** [omitempty] drops the zero value. *)
Definition config_json (c : RunConfig) : jvalue :=
  JObject ([(str "engine", JString (mc_Engine c)); (str "network", JString (mc_Network c));
            (str "start_epoch", jnum (mc_StartEpoch c)); (str "end_epoch", jnum (mc_EndEpoch c));
            (str "warmup_epochs", jnum (mc_WarmupEpochs c)); (str "parallel", jint (mc_Parallel c));
            (str "attestation_source_mode", JString (mc_AttestationSourceMode c));
            (str "lookahead_cap", jnum (mc_LookaheadCap c))]
           ++ (if decide (mc_FirstSeenBasePath c = []) then [] else [(str "attestation_first_seen_base", JString (mc_FirstSeenBasePath c))])
           ++ (if decide (mc_FirstSeenDeadlineMS c = 0) then [] else [(str "attestation_first_seen_deadline_ms", jnum (mc_FirstSeenDeadlineMS c))])
           ++ [(str "byzantine_threshold", jnum (mc_ByzantineThreshold c)); (str "beacon_node_url", JString (mc_BeaconNodeURL c));
               (str "era_url", JString (mc_EraURL c))]).

Definition engine_json (e : EngineManifest) : jvalue :=
  JObject [(str "engine_name", JString (em_EngineName e)); (str "engine_version", JString (em_EngineVersion e));
           (str "engine_commit", JString (em_EngineCommit e)); (str "build_flags", jtexts (BuildFlags e));
           (str "fcr_spec_commit", JString (FCRSpecCommit e))].

Definition era_file_json (f : EraFile) : jvalue :=
  JObject [(str "era", jnum (ef_Era f)); (str "url", JString (ef_URL f)); (str "sha256", JString (ef_SHA256 f))].

Definition checkpoint_state_json (s : CheckpointState) : jvalue :=
  JObject [(str "worker", jint (cs_Worker s)); (str "slot", jnum (cs_Slot s)); (str "sha256", JString (cs_SHA256 s))].

Definition inputs_json (i : Inputs) : jvalue :=
  JObject [(str "era_files", jopt (fun l => JArray (era_file_json <$> l)) (EraFiles i));
           (str "checkpoint_states", JArray (checkpoint_state_json <$> CheckpointStates i))].

Definition outputs_json (o : Outputs) : jvalue :=
  JObject [(str "results_jsonl_sha256", JString (ResultsJSONLSHA256 o)); (str "results_csv_sha256", JString (ResultsCSVSHA256 o));
           (str "total_slots", jnum (out_TotalSlots o)); (str "fast_confirmed_count", jnum (out_FastConfirmedCount o))].

Definition manifest_members (m : RunManifest) : list (bytes * jvalue) :=
  [(str "schema_version", jint (rm_SchemaVersion m)); (str "fcr_simulator_version", JString (FCRSimulatorVersion m));
   (str "ran_at", JString (RanAt m)); (str "config", config_json (rm_Config m)); (str "engine_manifest", engine_json (rm_Engine m));
   (str "inputs", inputs_json (rm_Inputs m)); (str "outputs", outputs_json (rm_Outputs m))].

(** ** Operations *)

(** [if m.SchemaVersion == 0 { m.SchemaVersion = schema.SchemaVersion }] *)
Definition with_version (m : RunManifest) : RunManifest :=
  if decide (rm_SchemaVersion m = 0%Z)
  then mkRunManifest schemaVersion (FCRSimulatorVersion m) (RanAt m) (rm_Config m) (rm_Engine m) (rm_Inputs m) (rm_Outputs m)
  else m.

Definition Write (env : io_env) (path : bytes) (m : RunManifest) (w : world) : outcome manifest_error unit * world :=
  let '(ok, w) := atomic_write env path (encode_indented (JObject (manifest_members (with_version m)))) w in
  (if ok then Ok tt else Err (MWrite path), w).

Definition SHA256Bytes (data : bytes) : bytes := hex_encode (sha256 data).

Definition SHA256File (env : io_env) (path : bytes) (w : world) : outcome manifest_error bytes :=
  match ReadFile env path w with RData data => Ok (SHA256Bytes data) | _ => Err (MHash path) end.

Fixpoint leading_digits (s : bytes) : bytes :=
  match s with c :: s' => if digit c then c :: leading_digits s' else [] | [] => [] end.

(** [None] is [false]. *)
Definition parseEraNumber (filename : bytes) : option N :=
  if negb (has_prefix filename (str "mainnet-")) then None
  else
    let digits := leading_digits (trim_prefix filename (str "mainnet-")) in
    if decide (digits = []) then None else parse_uint digits.

(** What [os.ReadDir] finds: nothing, an error, or files (directories are skipped). *)
Inductive dir_listing := DirMissing | DirFailed | DirFiles (files : world).

Definition era_file_of (env : io_env) (baseURL : bytes) (files : world) (name : bytes) : outcome manifest_error (option EraFile) :=
  if negb (has_suffix name (str ".era")) then Ok None
  else match parseEraNumber name with
       | None => Ok None
       | Some eraNumber =>
           sha ← SHA256File env name files;
           let url := if decide (baseURL = []) then name else baseURL ++ x2f :: name in
           Ok (Some (mkEraFile eraNumber url sha))
       end.

Fixpoint collect_loop (env : io_env) (baseURL : bytes) (files : world) (names : list bytes) : outcome manifest_error (list EraFile) :=
  match names with
  | [] => Ok []
  | name :: names' =>
      file ← era_file_of env baseURL files name;
      rest ← collect_loop env baseURL files names';
      Ok (match file with Some f => f :: rest | None => rest end)
  end.

(** [sort.Slice] leaves the order of equal eras open; here they keep that of their names. *)
Definition CollectEraFiles (env : io_env) (listing : dir_listing) (baseURL : bytes) : outcome manifest_error (option (list EraFile)) :=
  match listing with
  | DirMissing => Ok None
  | DirFailed => Err MReadDir
  | DirFiles files =>
      let names := sort_by bytes_less (fst <$> map_to_list files) in
      collected ← collect_loop env (trim_slashes baseURL) files names;
      Ok (Some (sort_by (fun a b => ef_Era a <? ef_Era b) collected))
  end.

(** ** Lemmas: writing *)

(** Every string of the manifest is valid UTF-8. *)
Definition config_text (c : RunConfig) : Prop :=
  Forall (fun s => valid_utf8 s = true)
    [mc_Engine c; mc_Network c; mc_AttestationSourceMode c; mc_FirstSeenBasePath c; mc_BeaconNodeURL c; mc_EraURL c].
Definition engine_text (e : EngineManifest) : Prop :=
  Forall (fun s => valid_utf8 s = true)
    ([em_EngineName e; em_EngineVersion e; em_EngineCommit e; FCRSpecCommit e] ++ default [] (BuildFlags e)).
Definition inputs_text (i : Inputs) : Prop :=
  Forall (fun f => valid_utf8 (ef_URL f) = true /\ valid_utf8 (ef_SHA256 f) = true) (default [] (EraFiles i))
  /\ Forall (fun s => valid_utf8 (cs_SHA256 s) = true) (CheckpointStates i).

Record manifest_text (m : RunManifest) : Prop := {
  text_version : valid_utf8 (FCRSimulatorVersion m) = true;
  text_ran_at : valid_utf8 (RanAt m) = true;
  text_config : config_text (rm_Config m);
  text_engine : engine_text (rm_Engine m);
  text_inputs : inputs_text (rm_Inputs m);
  text_outputs : valid_utf8 (ResultsJSONLSHA256 (rm_Outputs m)) = true /\ valid_utf8 (ResultsCSVSHA256 (rm_Outputs m)) = true
}.

Lemma jint_ok room z : json_ok room (jint z).
Proof. destruct room; cbn; eauto. Qed.

Lemma jnum_int n : jnum n = jint (Z.of_N n).
Proof. unfold jnum, jint, format_int. destruct (Z.ltb_spec (Z.of_N n) 0); [lia|]. by rewrite N2Z.id. Qed.

Lemma jnum_ok room n : json_ok room (jnum n).
Proof. rewrite jnum_int. apply jint_ok. Qed.

Lemma jstring_ok room s : valid_utf8 s = true -> json_ok room (JString s).
Proof. by destruct room. Qed.

Lemma jopt_ok {A} room (f : A -> jvalue) o : (forall a, o = Some a -> json_ok room (f a)) -> json_ok room (jopt f o).
Proof. destruct o; cbn; [by auto|]. by destruct room. Qed.

Lemma member_ok room k v : valid_utf8 k = true -> json_ok room v -> valid_utf8 (k, v).1 = true /\ json_ok room (k, v).2.
Proof. done. Qed.

Lemma object_ok room members :
  Forall (fun m => valid_utf8 m.1 = true /\ json_ok room m.2) members -> json_ok (S room) (JObject members).
Proof. done. Qed.

Lemma array_ok {A} room (f : A -> jvalue) l : Forall (fun a => json_ok room (f a)) l -> json_ok (S room) (JArray (f <$> l)).
Proof. cbn [json_ok]. by rewrite Forall_fmap. Qed.

Create HintDb json.
#[export] Hint Resolve jint_ok jnum_ok jstring_ok : json.

(** The members of an object one by one; the keys are literals. *)
Ltac members_ok :=
  apply object_ok;
  repeat (apply Forall_cons; split; [apply member_ok; [vm_compute; reflexivity|eauto with json]|]); try apply Forall_nil_2.

Lemma config_json_ok room c : config_text c -> json_ok (S room) (config_json c).
Proof.
  unfold config_text. rewrite !Forall_cons. intros (? & ? & ? & ? & ? & ? & _). unfold config_json.
  destruct (decide _), (decide _); cbn [app]; members_ok.
Qed.

Lemma engine_json_ok room e : engine_text e -> json_ok (S (S room)) (engine_json e).
Proof.
  unfold engine_text. rewrite Forall_app, !Forall_cons. intros ((? & ? & ? & ? & _) & Hf). unfold engine_json. members_ok.
  apply jopt_ok. intros l Hl. rewrite Hl in Hf. apply array_ok. eapply Forall_impl; [exact Hf|]. eauto with json.
Qed.

Lemma inputs_json_ok room i : inputs_text i -> json_ok (S (S (S room))) (inputs_json i).
Proof.
  intros [He Hs]. unfold inputs_json. members_ok.
  - apply jopt_ok. intros l Hl. rewrite Hl in He. apply array_ok. eapply Forall_impl; [exact He|].
    intros f [? ?]. unfold era_file_json. members_ok.
  - apply array_ok. eapply Forall_impl; [exact Hs|]. intros s ?. unfold checkpoint_state_json. members_ok.
Qed.

Lemma manifest_json_ok m : manifest_text m -> json_ok 4 (JObject (manifest_members m)).
Proof.
  intros [? ? ? ? ? [? ?]]. unfold manifest_members. members_ok.
  - by apply config_json_ok.
  - by apply engine_json_ok.
  - by apply inputs_json_ok.
  - unfold outputs_json. members_ok.
Qed.

Lemma with_version_text m : manifest_text m -> manifest_text (with_version m).
Proof. intros []. unfold with_version. by destruct (decide _). Qed.

(** What a successful write leaves. *)
Lemma Write_Ok env path m w w' :
  temp_name env path ≠ path -> Write env path m w = (Ok tt, w') ->
  w' !! path = Some (encode_indented (JObject (manifest_members (with_version m))))
  /\ forall p, p ≠ path -> p ≠ temp_name env path -> w' !! p = w !! p.
Proof.
  intros Ht. unfold Write. set (text := encode_indented _).
  pose proof (fun other => atomic_write_spec env path text w other) as H.
  destruct (atomic_write env path text w) as [[] w1]; [|done]. intros [= <-]. cbn [andb] in H. split.
  - rewrite (H path) by done. by rewrite bool_decide_eq_true_2.
  - intros p Hp Hp'. rewrite (H p) by done. by rewrite (bool_decide_eq_false_2 _ Hp).
Qed.

(** A written manifest reads back as the manifest; a failed write leaves the old file. *)
Lemma Write_spec env path m w :
  manifest_text m -> temp_name env path ≠ path ->
  let '(o, w') := Write env path m w in
  (o = Ok tt \/ o = Err (MWrite path))
  /\ (o = Ok tt -> exists text, w' !! path = Some text /\ parse_json text = Some (JObject (manifest_members (with_version m))))
  /\ (o ≠ Ok tt -> w' !! path = w !! path)
  /\ forall p, p ≠ path -> p ≠ temp_name env path -> w' !! p = w !! p.
Proof.
  intros Hm Ht. unfold Write. set (text := encode_indented _).
  pose proof (fun other => atomic_write_spec env path text w other) as H.
  destruct (atomic_write env path text w) as [ok w']. split; [by destruct ok; auto|]. split_and!.
  - intros Hok. destruct ok; [|done]. exists text. split.
    + rewrite (H path) by done. cbn [andb]. by rewrite bool_decide_eq_true_2.
    + unfold text. apply (parse_encode_indented _ 4); [by apply manifest_json_ok, with_version_text|by apply Nat.leb_le].
  - intros Hok. destruct ok; [done|]. by rewrite (H path).
  - intros p Hp Hp'. rewrite (H p) by done. by rewrite (bool_decide_eq_false_2 _ Hp), andb_false_r.
Qed.

Lemma SHA256File_spec env path w sha :
  SHA256File env path w = Ok sha -> exists data, w !! path = Some data /\ sha = SHA256Bytes data.
Proof.
  unfold SHA256File. destruct (ReadFile env path w) eqn:E; [|done..]. intros [= <-]. apply ReadFile_data in E. eauto.
Qed.

(** ** Lemmas: the ERA files *)

(** The entry of the manifest for the file [name]. *)
Definition lists_era_file (baseURL : bytes) (files : world) (f : EraFile) : Prop :=
  exists name data, files !! name = Some data /\ has_suffix name (str ".era") = true /\ parseEraNumber name = Some (ef_Era f)
  /\ ef_URL f = (if decide (baseURL = []) then name else baseURL ++ x2f :: name) /\ ef_SHA256 f = SHA256Bytes data.

Lemma era_file_of_spec env baseURL files name o :
  era_file_of env baseURL files name = Ok o ->
  match o with
  | Some f => exists data, files !! name = Some data /\ has_suffix name (str ".era") = true /\ parseEraNumber name = Some (ef_Era f)
      /\ ef_URL f = (if decide (baseURL = []) then name else baseURL ++ x2f :: name) /\ ef_SHA256 f = SHA256Bytes data
  | None => has_suffix name (str ".era") = false \/ parseEraNumber name = None
  end.
Proof.
  unfold era_file_of. destruct (has_suffix name (str ".era")); cbn [negb]; [|intros [= <-]; by left].
  destruct (parseEraNumber name) as [n|]; [|intros [= <-]; by right].
  destruct (SHA256File env name files) as [sha|e|] eqn:E; [|done..]. intros [= <-].
  apply SHA256File_spec in E as (data & ? & ->). by exists data.
Qed.

Lemma collect_loop_spec env baseURL files names l :
  collect_loop env baseURL files names = Ok l ->
  (forall f, f ∈ l -> lists_era_file baseURL files f)
  /\ forall name, name ∈ names -> has_suffix name (str ".era") = true -> forall n, parseEraNumber name = Some n ->
     exists f data, f ∈ l /\ files !! name = Some data /\ ef_Era f = n /\ ef_SHA256 f = SHA256Bytes data.
Proof.
  revert l. induction names as [|name names IH]; intros l; cbn [collect_loop].
  { intros [= <-]. split; [by intros f Hf%elem_of_nil|by intros ? ?%elem_of_nil]. }
  destruct (era_file_of env baseURL files name) as [o|e|] eqn:Eo; [|done..]. apply era_file_of_spec in Eo. cbn [mbind outcome_bind].
  destruct (collect_loop env baseURL files names) as [rest|e|]; [|done..]. intros [= <-]. destruct (IH rest eq_refl) as [H1 H2].
  destruct o as [f|].
  - destruct Eo as (data & Hd & Hs & Hp & Hu & Hsha). split.
    + intros g [-> | Hg]%elem_of_cons; [|by auto]. exists name, data. by split_and!.
    + intros name' [-> | Hin]%elem_of_cons Hs' n Hn; [exists f, data; split_and!; [by left|done|congruence|done]|].
      destruct (H2 name' Hin Hs' n Hn) as (g & d & ? & ?). exists g, d. split; [by right|done].
  - split; [done|]. intros name' [-> | Hin]%elem_of_cons Hs' n Hn; [destruct Eo; congruence|by apply H2].
Qed.

(** The collected files, in ascending order of their eras, are those of the directory. *)
Lemma CollectEraFiles_spec env files baseURL o :
  CollectEraFiles env (DirFiles files) baseURL = Ok o ->
  exists l, o = Some l /\ StronglySorted (fun a b => ef_Era a <= ef_Era b) l
    /\ (forall f, f ∈ l -> lists_era_file (trim_slashes baseURL) files f)
    /\ forall name data n, files !! name = Some data -> has_suffix name (str ".era") = true -> parseEraNumber name = Some n ->
       exists f, f ∈ l /\ ef_Era f = n /\ ef_SHA256 f = SHA256Bytes data.
Proof.
  unfold CollectEraFiles. destruct (collect_loop _ _ _ _) as [l| |] eqn:E; [|done..]. intros [= <-].
  apply collect_loop_spec in E as [H1 H2]. eexists. split; [done|]. split_and!.
  - eapply StronglySorted_impl; [|apply sort_by_sorted; unfold not_less; intros; bool_to_prop; lia].
    unfold not_less. intros. bool_to_prop. lia.
  - intros f Hf%elem_of_sort_by. by apply H1.
  - intros name data n Hd Hs Hn. destruct (H2 name) with (n := n) as (f & d & ? & ? & ? & ?); [|done|done|].
    + apply elem_of_sort_by, list_elem_of_fmap. exists (name, data). by rewrite elem_of_map_to_list.
    + exists f. split; [by apply elem_of_sort_by|]. split; [done|congruence].
Qed.
