(* ===== verification/Archive.v ===== *)
(** * The block archive client ([pkg/blockarchive/client.go])

    HTTP is a parameter: a request is answered by a server with a state of its own.
    The disk cache is part of the file system.  The client implements the class
    [Archive] the backend is proved against. *)

From S2P Require Import Prelude Bytes Json GoStrings Files PlanState.
From Stdlib Require Import Strings.Byte.

(** ** Requests and errors *)

Abbreviation fetchMaxAttempts := 3%N.
Abbreviation fetchRetryBaseLag := 250%N. (* milliseconds *)
Abbreviation indexSlotRangePageSize := 1000%Z.
Abbreviation indexSafetyEntriesPerSlot := 16%Z.
Abbreviation maxInt := 9223372036854775807%Z.

(** The URLs the client asks for, below the base URL. *)
Inductive request :=
| IndexBySlots (network : bytes) (slot_min slot_max : N) (limit offset : Z)
| IndexByRoot (network root_prefix : bytes)
| BlockSSZ (network : bytes) (slot : N) (root : bytes).

(** [ErrNotFound], a [transientArchiveError], and any other error. *)
Inductive archive_error := ArchNotFound | ArchTransient | ArchOther.
#[export] Instance archive_error_eq_decision : EqDecision archive_error.
Proof. solve_decision. Defined.

Record Client := mkClient { baseURL : bytes; network : bytes; cacheDir : bytes }.

Record IndexEntry := mkIndexEntry { entry_Slot : N; entry_BlockRoot : bytes }.

Record FetchStats := mkFetchStats { CacheHit : bool; Downloaded : bool; TransientFailuresRetried : N }.

Definition zero_stats : FetchStats := mkFetchStats false false 0.

Definition New (baseURL network cacheDir : bytes) : option Client :=
  let baseURL := trim_slashes (TrimSpace baseURL) in
  let network := TrimSpace network in
  let cacheDir := TrimSpace cacheDir in
  if bool_decide (baseURL = [] \/ network = [] \/ cacheDir = []) then None
  else Some (mkClient baseURL network cacheDir).

Definition retryableHTTPStatus (status : Z) : bool :=
  (status =? 408)%Z || (status =? 429)%Z || (500 <=? status)%Z.

(** The checks every request applies to its answer. *)
Definition response_body (a : http_answer) : outcome archive_error bytes :=
  match a with
  | HttpError | HttpBodyError => Err ArchTransient
  | HttpResponse status body =>
      if (status =? 404)%Z then Err ArchNotFound
      else if retryableHTTPStatus status then Err ArchTransient
      else if (status <? 200)%Z || (300 <=? status)%Z then Err ArchOther
      else Ok body
  end.

(** ** Roots *)

Definition rootHex (root : bytes) : bytes := str "0x" ++ hex_encode root.

Definition ParseRoot (text : bytes) : option bytes :=
  let text := TrimSpace text in
  let text := trim_prefix (trim_prefix text (str "0x")) (str "0X") in
  if negb (length text =? 64)%nat then None else hex_decode text.

Definition rootsEqual (text root : bytes) : bool := bool_decide (ParseRoot text = Some root).

(** ** The index response *)

(** One element of the array, decoded over the element already there. *)
Definition store_entry (v : jvalue) (old : IndexEntry) : option IndexEntry :=
  match v with
  | JNull => Some old
  | JObject ms =>
      slot ← decode_field ms (str "slot") store_uint (entry_Slot old);
      root ← decode_field ms (str "block_root") store_string (entry_BlockRoot old);
      Some (mkIndexEntry slot root)
  | _ => None
  end.

Definition store_index : jvalue -> list IndexEntry -> option (list IndexEntry) :=
  store_slice store_entry (mkIndexEntry 0 []).

(** [json.Unmarshal(body, &parsed)]; [None] is its error. *)
Definition decode_index (body : bytes) : option (list IndexEntry) :=
  match parse_json body with
  | Some (JObject ms) => decode_field ms (str "index") store_index []
  | Some JNull => Some []
  | _ => None
  end.

(** ** Calls *)

Section client.
Context {W : Type} (http : request -> W -> http_answer * W) (env : io_env) (url_ok : bytes -> bool).

(** The server, the files, the delays slept so far (milliseconds), and the stats of
    the call. *)
Record archive_state := mkAS {
  server : W;
  files : world;
  slept : list N;
  fstats : FetchStats
}.

Abbreviation M := (stateM archive_state archive_error).

Context (c : Client).

Definition get (req : request) : M bytes := fun s =>
  let '(answer, w) := http req (server s) in
  (response_body answer, mkAS w (files s) (slept s) (fstats s)).

(** [url.Parse(c.baseURL + ...)], then the request. *)
Definition get_index (req : request) : M bytes :=
  if url_ok (baseURL c) then get req else st_lift (Err ArchOther).

Definition listIndexBySlotRangeOnce (slotMin slotMax : N) (limit offset : Z) : M (list IndexEntry) :=
  body ← get_index (IndexBySlots (network c) slotMin slotMax limit offset);
  match decode_index body with Some entries => mret entries | None => st_lift (Err ArchOther) end.

Definition lookupSlotOnce (root rootText : bytes) : M N :=
  body ← get_index (IndexByRoot (network c) rootText);
  match decode_index body with
  | None => st_lift (Err ArchOther)
  | Some entries =>
      match find (fun entry => rootsEqual (entry_BlockRoot entry) root) entries with
      | Some entry => mret (entry_Slot entry)
      | None => st_lift (Err ArchNotFound)
      end
  end.

Definition downloadBlockOnce (slot : N) (rootText : bytes) : M bytes := get (BlockSSZ (network c) slot rootText).

(** [stats.TransientFailuresRetried++] and [sleepBeforeRetry(attempt)]. *)
Definition sleepBeforeRetry (attempt : N) : M unit :=
  st_modify (fun s => mkAS (server s) (files s) (slept s ++ [fetchRetryBaseLag * 2 ^ (attempt - 1)])
    (mkFetchStats (CacheHit (fstats s)) (Downloaded (fstats s)) (TransientFailuresRetried (fstats s) + 1))).

(** The loop the three requests share; at most [left] more attempts. *)
Fixpoint retry {A} (left : nat) (attempt : N) (once : M A) : M A := fun s =>
  match once s with
  | (Err e, s) =>
      if negb (bool_decide (e = ArchTransient)) || (fetchMaxAttempts <=? attempt) then (Err e, s)
      else match left with
           | O => (Panic, s)
           | S left' => st_bind (sleepBeforeRetry attempt) (fun _ => retry left' (attempt + 1) once) s
           end
  | r => r
  end.

Definition listIndexBySlotRangePage (slotMin slotMax : N) (limit offset : Z) : M (list IndexEntry) :=
  retry 3 1 (listIndexBySlotRangeOnce slotMin slotMax limit offset).
Definition lookupSlot (root rootText : bytes) : M N := retry 3 1 (lookupSlotOnce root rootText).
Definition downloadBlock (slot : N) (rootText : bytes) : M bytes := retry 3 1 (downloadBlockOnce slot rootText).

(** The disk cache. *)
Definition cachePath (root : bytes) : bytes := cacheDir c ++ x2f :: rootHex root ++ str ".ssz".

Definition readCached (root : bytes) : M (option bytes) := fun s =>
  match files s !! cachePath root with
  | None => (Ok None, s)
  | Some data =>
      if open_fails env (cachePath root) || bool_decide (is_Some (read_fails env (cachePath root)))
      then (Err ArchOther, s) else (Ok (Some data), s)
  end.

(** The temporary file is removed in every case. *)
Definition writeCached (root data : bytes) : M unit := fun s =>
  let path := cachePath root in
  let tmp := temp_name env path in
  let remove (w : world) : world := if remove_fails env tmp then w else delete tmp w in
  let fail (w : world) := (Err ArchOther, mkAS (server s) (remove w) (slept s) (fstats s)) in
  match write_fails env path with
  | Some FMkdirAll | Some FCreateTemp => (Err ArchOther, s)
  | Some (FWrite n) => fail (<[tmp := take n data]> (files s))
  | Some FClose | Some FRename => fail (<[tmp := data]> (files s))
  | Some FSync | None =>
      (Ok tt, mkAS (server s) (<[path := data]> (delete tmp (<[tmp := data]> (files s)))) (slept s) (fstats s))
  end.

Definition mark_hit : M unit :=
  st_modify (fun s => mkAS (server s) (files s) (slept s)
    (mkFetchStats true (Downloaded (fstats s)) (TransientFailuresRetried (fstats s)))).
Definition mark_downloaded : M unit :=
  st_modify (fun s => mkAS (server s) (files s) (slept s)
    (mkFetchStats (CacheHit (fstats s)) true (TransientFailuresRetried (fstats s)))).

(** Every exported call starts with fresh stats and returns them. *)
Definition with_stats {A} (m : M A) (s : archive_state) : outcome archive_error A * FetchStats * archive_state :=
  let '(o, s) := m (mkAS (server s) (files s) (slept s) zero_stats) in (o, fstats s, s).

Definition fetch_slot_root (slot : M N) (root : bytes) : M bytes :=
  cached ← readCached root;
  match cached with
  | Some data => _ ← mark_hit; mret data
  | None =>
      slot ← slot;
      data ← downloadBlock slot (rootHex root);
      _ ← writeCached root data;
      _ ← mark_downloaded;
      mret data
  end.

Definition FetchBlockSSZByRoot (root : bytes) := with_stats (fetch_slot_root (lookupSlot root (rootHex root)) root).
Definition FetchBlockSSZBySlotAndRoot (slot : N) (root : bytes) := with_stats (fetch_slot_root (mret slot) root).

Definition ReadCachedSSZ (root : bytes) : M bytes :=
  cached ← readCached root;
  match cached with Some data => mret data | None => st_lift (Err ArchNotFound) end.

(** ** Listing a slot range *)

Definition slotRangeIndexSafetyLimit (slotMin slotMax : N) (pageLimit : Z) : Z :=
  let span := u64_sub slotMax slotMin in
  let maxSafeSpan := u64_sub (Z.to_N (maxInt / indexSafetyEntriesPerSlot)) 1 in
  if maxSafeSpan <? span then maxInt
  else
    let maxEntries := (Z.of_N (u64_add span 1) * indexSafetyEntriesPerSlot)%Z in
    if (maxEntries <? pageLimit)%Z then pageLimit else maxEntries.

(** The loop over pages. *)
Fixpoint list_pages (fuel : nat) (slotMin slotMax : N) (pageLimit maxEntries : Z)
    (entries : list IndexEntry) (offset : Z) : M (list IndexEntry) := fun s =>
  match listIndexBySlotRangePage slotMin slotMax pageLimit offset s with
  | (Err e, s) => if bool_decide (e = ArchNotFound) then (Ok entries, s) else (Err e, s)
  | (Panic, s) => (Panic, s)
  | (Ok page, s) =>
      if bool_decide (page = []) then (Ok entries, s)
      else if (maxEntries - Z.of_nat (length page) <? Z.of_nat (length entries))%Z then (Err ArchOther, s)
      else match fuel with
           | O => (Panic, s)
           | S fuel' => list_pages fuel' slotMin slotMax pageLimit maxEntries (entries ++ page)
                          (offset + Z.of_nat (length page)) s
           end
  end.

Definition list_index (slotMin slotMax : N) (limit : Z) : M (list IndexEntry) :=
  if slotMax <? slotMin then mret []
  else if (limit <=? 0)%Z then st_lift (Err ArchOther)
  else
    let pageLimit := if (indexSlotRangePageSize <? limit)%Z then indexSlotRangePageSize else limit in
    let maxEntries := slotRangeIndexSafetyLimit slotMin slotMax pageLimit in
    list_pages (Z.to_nat maxEntries) slotMin slotMax pageLimit maxEntries [] 0.

Definition ListIndexBySlotRange (slotMin slotMax : N) (limit : Z) := with_stats (list_index slotMin slotMax limit).
End client.

(** ** Lemmas: retries *)

Section client_lemmas.
Context {W : Type} (http : request -> W -> http_answer * W) (env : io_env) (url_ok : bytes -> bool).
Context (c : Client).

Abbreviation state := (archive_state (W := W)).
Abbreviation M := (stateM state archive_error).
Implicit Types s : state.

(** The first [k] delays from attempt [attempt] on. *)
Definition delays (attempt : N) (k : nat) : list N :=
  (fun a => fetchRetryBaseLag * 2 ^ (a - 1)) <$> seqN attempt k.

(** [s'] after some requests, [k] of them retried: the files are as they were. *)
Definition requested (attempt : N) (k : nat) s s' : Prop :=
  files s' = files s /\ slept s' = slept s ++ delays attempt k
  /\ fstats s' = mkFetchStats (CacheHit (fstats s)) (Downloaded (fstats s))
                   (TransientFailuresRetried (fstats s) + N.of_nat k).

Lemma requested_0 attempt s s' :
  files s' = files s -> slept s' = slept s -> fstats s' = fstats s -> requested attempt 0 s s'.
Proof.
  intros Hf Hs Hst. unfold requested. rewrite Hf, Hs, Hst. split; [done|]. split; [by rewrite app_nil_r|].
  destruct (fstats s). cbn. f_equal. lia.
Qed.

(** A single request: it does not panic and touches the server only. *)
Definition single {A} (once : M A) : Prop :=
  forall s, let '(o, s') := once s in
    o ≠ Panic /\ files s' = files s /\ slept s' = slept s /\ fstats s' = fstats s.

Lemma single_get req : single (get http req).
Proof.
  intros s. unfold get. destruct (http req (server s)) as [answer w]. split; [|done].
  unfold response_body. by destruct answer; case_ifs.
Qed.

Lemma single_get_index req : single (get_index http url_ok c req).
Proof. unfold get_index. destruct (url_ok _); [apply single_get|by intros s]. Qed.

Lemma single_list slotMin slotMax limit offset :
  single (listIndexBySlotRangeOnce http url_ok c slotMin slotMax limit offset).
Proof.
  intros s. pose proof (single_get_index (IndexBySlots (network c) slotMin slotMax limit offset) s) as H.
  unfold listIndexBySlotRangeOnce, mbind, stateM_bind, st_bind. destruct (get_index _ _ _ _ s) as [[body|e|] s']; destruct H as [Hp H]; [|by split|done].
  by destruct (decode_index body).
Qed.

Lemma single_lookup root rootText : single (lookupSlotOnce http url_ok c root rootText).
Proof.
  intros s. pose proof (single_get_index (IndexByRoot (network c) rootText) s) as H.
  unfold lookupSlotOnce, mbind, stateM_bind, st_bind. destruct (get_index _ _ _ _ s) as [[body|e|] s']; destruct H as [Hp H]; [|by split|done].
  destruct (decode_index body); [|done]. by destruct (find _ _).
Qed.

Lemma single_download slot rootText : single (downloadBlockOnce http c slot rootText).
Proof. apply single_get. Qed.

(** The retry loop ends, after at most [3 - attempt] retries; its outcome is the one
    of its last request. *)
Lemma retry_spec {A} (once : M A) left attempt s :
  single once -> fetchMaxAttempts <= attempt + N.of_nat left -> 1 <= attempt <= fetchMaxAttempts ->
  let '(o, s') := retry left attempt once s in
  o ≠ Panic /\ (exists k, N.of_nat k <= fetchMaxAttempts - attempt /\ requested attempt k s s')
  /\ exists s1, once s1 = (o, s').
Proof.
  intros Hm. revert attempt s. induction left as [|left IH]; intros attempt s Hl Ha; cbn [retry];
    specialize (Hm s) as Hs; destruct (once s) as [[a|e|] s1] eqn:E; try (by destruct Hs);
    destruct Hs as (_ & Hf & Hsl & Hst).
  1, 3: split; [done|]; split; [|by exists s]; exists 0%nat; split; [lia|by apply requested_0].
  - destruct (N.leb_spec fetchMaxAttempts attempt); [|lia]. rewrite orb_true_r.
    split; [done|]. split; [|by exists s]. exists 0%nat. split; [lia|by apply requested_0].
  - destruct (negb _ || _) eqn:Hb.
    { split; [done|]. split; [|by exists s]. exists 0%nat. split; [lia|by apply requested_0]. }
    apply orb_false_iff in Hb as [_ Hb%N.leb_gt]. unfold sleepBeforeRetry, st_modify, st_bind. cbn zeta beta.
    set (s2 := mkAS _ _ _ _). specialize (IH (attempt + 1) s2 ltac:(lia) ltac:(lia)).
    destruct (retry left (attempt + 1) once s2) as [o s']. destruct IH as (Hp & (k & Hk & Hf' & Hsl' & Hst') & Hlast).
    split; [done|]. split; [|done]. exists (S k). split; [lia|]. unfold s2 in *. cbn in Hf', Hsl', Hst'. unfold requested.
    rewrite Hf', Hsl', Hst', Hf, Hsl, Hst. split; [done|]. split; [by rewrite <- app_assoc|].
    f_equal. lia.
Qed.

(** A server that answers a request within [k] retries. *)
Fixpoint answers (k : nat) (req : request) (good : bytes -> W -> Prop) (w : W) : Prop :=
  match http req w with
  | (answer, w') =>
      match response_body answer with
      | Ok body => good body w'
      | Err ArchTransient => match k with O => False | S k' => answers k' req good w' end
      | _ => False
      end
  end.

Lemma retry_answers {A} req (decode : bytes -> outcome archive_error A) (good : A -> W -> Prop) left attempt s :
  answers (N.to_nat (fetchMaxAttempts - attempt)) req (fun body w => exists a, decode body = Ok a /\ good a w) (server s) ->
  fetchMaxAttempts <= attempt + N.of_nat left -> 1 <= attempt <= fetchMaxAttempts ->
  exists a s', retry left attempt (get http req ≫= fun body => st_lift (decode body)) s = (Ok a, s')
    /\ good a (server s') /\ files s' = files s.
Proof.
  revert attempt s. induction left as [|left IH]; intros attempt s Hans Hl Ha.
  - assert (attempt = 3) as -> by lia. change (N.to_nat (3 - 3)) with 0%nat in Hans. cbn [answers] in Hans.
    cbn [retry]. unfold mbind, stateM_bind, st_bind, get. destruct (http req (server s)) as [answer w].
    destruct (response_body answer) as [body|[]|]; try done. destruct Hans as (a & Hd & Hg).
    unfold st_lift. rewrite Hd. by exists a, (mkAS w (files s) (slept s) (fstats s)).
  - cbn [retry]. unfold mbind, stateM_bind, st_bind, get.
    destruct (N.to_nat (fetchMaxAttempts - attempt)) as [|k] eqn:Hk; cbn [answers] in Hans;
      destruct (http req (server s)) as [answer w]; destruct (response_body answer) as [body|[]|]; try done.
    1, 2: destruct Hans as (a & Hd & Hg); unfold st_lift; rewrite Hd; by exists a, (mkAS w (files s) (slept s) (fstats s)).
    destruct (N.leb_spec fetchMaxAttempts attempt); [lia|]. cbn [negb bool_decide orb].
    replace k with (N.to_nat (fetchMaxAttempts - (attempt + 1))) in Hans by lia.
    destruct (IH (attempt + 1) (snd (sleepBeforeRetry attempt (mkAS w (files s) (slept s) (fstats s)))) Hans
      ltac:(lia) ltac:(lia)) as (a & s' & Hr & Hg & Hf).
    exists a, s'. split; [exact Hr|by split].
Qed.

(** ** Lemmas: the pages of an index *)

Lemma list_pages_spec fuel slotMin slotMax pageLimit maxEntries entries offset s :
  (Z.of_nat (length entries) <= maxEntries)%Z -> (maxEntries - Z.of_nat (length entries) <= Z.of_nat fuel)%Z ->
  let '(o, s') := list_pages http url_ok c fuel slotMin slotMax pageLimit maxEntries entries offset s in
  o ≠ Panic /\ files s' = files s
  /\ forall result, o = Ok result -> entries `prefix_of` result /\ (Z.of_nat (length result) <= maxEntries)%Z.
Proof.
  revert entries offset s. induction fuel as [|fuel IH]; intros entries offset s Hmax Hf; cbn [list_pages];
    pose proof (retry_spec (listIndexBySlotRangeOnce http url_ok c slotMin slotMax pageLimit offset) 3 1 s
      (single_list _ _ _ _) ltac:(lia) ltac:(lia)) as H; unfold listIndexBySlotRangePage;
    destruct (retry _ _ _ _) as [[page|e|] s1]; destruct H as (Hp & (k & _ & Hfiles & _) & _); try done.
  1, 3: case_bool_decide as Hpage;
    [split; [done|]; split; [done|]; by intros ? [= <-]|];
    destruct page as [|e0 page]; [done|]; cbn [length] in *.
  - destruct (Z.ltb_spec (maxEntries - Z.of_nat (S (length page))) (Z.of_nat (length entries))); [by split_and!|lia].
  - destruct (Z.ltb_spec (maxEntries - Z.of_nat (S (length page))) (Z.of_nat (length entries))); [by split_and!|].
    specialize (IH (entries ++ e0 :: page) (offset + Z.of_nat (S (length page)))%Z s1).
    rewrite length_app in IH. cbn [length] in IH. specialize (IH ltac:(lia) ltac:(lia)).
    destruct (list_pages _ _ _ _ _ _ _ _ _ _) as [o s']. destruct IH as (Hp' & Hf' & Hr).
    split; [done|]. split; [by rewrite Hf'|]. intros result Ho. destruct (Hr result Ho) as [Hpre ?].
    split; [|done]. by apply prefix_app_l in Hpre.
  - case_bool_decide; (split; [done|]; split; [done|]); [by intros ? [= <-]|done].
  - case_bool_decide; (split; [done|]; split; [done|]); [by intros ? [= <-]|done].
Qed.

(** A page a server may send for an offset: a slice of [entries] from there, at most
    the requested limit but as short as the server likes, and empty only at the end. *)
Definition is_page (pageLimit : Z) (entries : list IndexEntry) (offset : nat) (page : list IndexEntry) : Prop :=
  page `prefix_of` drop offset entries /\ (Z.of_nat (length page) <= pageLimit)%Z
  /\ (page = [] -> (length entries <= offset)%nat).

(** A server that holds the list [entries] for the range: every answer, within the
    retries, is such a page, and it goes on doing so.  The lengths of its pages may
    vary with the offset and with its state. *)
Definition serves_index (slotMin slotMax : N) (pageLimit : Z) (entries : list IndexEntry) (inv : W -> Prop) : Prop :=
  forall offset w, inv w ->
    answers 2 (IndexBySlots (network c) slotMin slotMax pageLimit (Z.of_nat offset))
      (fun body w' => (exists page, decode_index body = Some page /\ is_page pageLimit entries offset page) /\ inv w') w.

Lemma answers_impl k req (P Q : bytes -> W -> Prop) w :
  (forall body w, P body w -> Q body w) -> answers k req P w -> answers k req Q w.
Proof.
  intros HPQ. revert w. induction k as [|k IH]; intros w; cbn; destruct (http req w) as [answer w'];
    destruct (response_body answer) as [|[]|]; auto.
Qed.

Lemma page_served slotMin slotMax pageLimit entries inv offset s :
  serves_index slotMin slotMax pageLimit entries inv -> url_ok (baseURL c) = true -> inv (server s) ->
  exists page s', listIndexBySlotRangePage http url_ok c slotMin slotMax pageLimit (Z.of_nat offset) s = (Ok page, s')
    /\ is_page pageLimit entries offset page /\ inv (server s') /\ files s' = files s.
Proof.
  intros Hs Hu Hi. destruct (retry_answers (IndexBySlots (network c) slotMin slotMax pageLimit (Z.of_nat offset))
    (fun body => match decode_index body with Some es => Ok es | None => Err ArchOther end)
    (fun es w => is_page pageLimit entries offset es /\ inv w) 3 1 s) as (es & s' & Hr & [Hpage Hi'] & Hf);
    [|lia|lia|].
  - eapply answers_impl; [|apply (Hs offset (server s) Hi)]. cbn. intros body w [(page & -> & Hp) Hw]. eauto.
  - exists es, s'. split; [|done]. rewrite <- Hr. unfold listIndexBySlotRangePage.
    assert (He : forall (left : nat) attempt (m1 m2 : M (list IndexEntry)) s,
      (forall s, m1 s = m2 s) -> retry left attempt m1 s = retry left attempt m2 s).
    { clear. induction left as [|left IH]; intros attempt m1 m2 s Hm; cbn [retry]; rewrite Hm; [done|].
      destruct (m2 s) as [[|e|] s1]; try done. destruct (_ || _); [done|]. apply IH, Hm. }
    apply He. intros s0. unfold listIndexBySlotRangeOnce, get_index. rewrite Hu.
    unfold mbind, stateM_bind, st_bind. destruct (get http _ s0) as [[body|e|] s2]; [|done..].
    by destruct (decode_index body).
Qed.

Lemma take_app_page {A} (l page : list A) offset :
  page `prefix_of` drop offset l -> take offset l ++ page = take (offset + length page) l.
Proof.
  intros [rest Hd]. rewrite <- take_take_drop, Hd. by rewrite take_app_length.
Qed.

Lemma list_pages_served fuel slotMin slotMax pageLimit maxEntries entries inv offset s :
  serves_index slotMin slotMax pageLimit entries inv -> url_ok (baseURL c) = true -> inv (server s) ->
  (Z.of_nat (length entries) <= maxEntries)%Z -> (length entries - offset <= fuel)%nat ->
  (offset <= length entries)%nat ->
  exists s', list_pages http url_ok c fuel slotMin slotMax pageLimit maxEntries (take offset entries)
      (Z.of_nat offset) s = (Ok entries, s') /\ inv (server s') /\ files s' = files s.
Proof.
  intros Hs Hu Hi Hmax. revert offset s Hi. induction fuel as [|fuel IH]; intros offset s Hi Hf Hle;
    cbn [list_pages]; destruct (page_served slotMin slotMax pageLimit entries inv offset s Hs Hu Hi)
      as (page & s1 & -> & (Hpre & _ & Hend) & Hi1 & Hf1).
  - rewrite drop_ge in Hpre by lia. apply prefix_nil_inv in Hpre as ->. rewrite firstn_all2 by lia. by exists s1.
  - case_bool_decide as Hp; [rewrite firstn_all2 by auto; by exists s1|].
    assert (length page ≠ 0%nat) by (by destruct page).
    pose proof (prefix_length _ _ Hpre) as Hlen. rewrite length_drop in Hlen. rewrite length_take.
    destruct (Z.ltb_spec (maxEntries - Z.of_nat (length page))
      (Z.of_nat (Nat.min offset (length entries)))); [lia|].
    rewrite (take_app_page _ _ _ Hpre).
    replace (Z.of_nat offset + Z.of_nat (length page))%Z with (Z.of_nat (offset + length page)) by lia.
    destruct (IH (offset + length page)%nat s1 Hi1 ltac:(lia) ltac:(lia)) as (s' & -> & ? & Hf').
    exists s'. split; [done|]. split; [done|]. by rewrite Hf'.
Qed.
End client_lemmas.

(** ** Lemmas: the disk cache *)

Section cache_lemmas.
Context {W : Type} (http : request -> W -> http_answer * W) (env : io_env) (url_ok : bytes -> bool).
Context (c : Client).
Abbreviation state := (archive_state (W := W)).
Implicit Types s : state.

(** The cached file of a block can be read; temporary files are not cache files. *)
Definition readable (root : bytes) : Prop :=
  open_fails env (cachePath c root) = false /\ read_fails env (cachePath c root) = None.
Definition temps_apart : Prop := forall p root, temp_name env p ≠ cachePath c root.

Lemma cachePath_inj a b : cachePath c a = cachePath c b -> a = b.
Proof. unfold cachePath, rootHex. intros H%app_inv_head. injection H as H. by apply app_inv_tail, hex_encode_inj in H. Qed.

Lemma readCached_spec root s :
  readable root -> readCached env c root s = (Ok (files s !! cachePath c root), s).
Proof. intros [Ho Hr]. unfold readCached. rewrite Ho, Hr. by destruct (files s !! _). Qed.

Lemma readCached_frame root s :
  let '(o, s') := readCached env c root s in
  s' = s /\ o ≠ Panic /\ (forall data, o = Ok (Some data) -> files s !! cachePath c root = Some data).
Proof.
  unfold readCached. destruct (files s !! cachePath c root) as [data|]; [|by split_and!].
  destruct (_ || _); split_and!; try done. by intros data' [= <-].
Qed.

(** A cache file is written as a whole or left as it was; the others do not change. *)
Lemma writeCached_spec root data s :
  temps_apart ->
  let '(o, s') := writeCached env c root data s in
  o ≠ Panic /\ server s' = server s /\ slept s' = slept s /\ fstats s' = fstats s
  /\ files s' !! cachePath c root = (if is_Ok o then Some data else files s !! cachePath c root)
  /\ forall other, other ≠ root -> files s' !! cachePath c other = files s !! cachePath c other.
Proof.
  intros Ht. assert (Hfail : forall d other, (if remove_fails env (temp_name env (cachePath c root))
      then <[temp_name env (cachePath c root) := d]> (files s)
      else delete (temp_name env (cachePath c root)) (<[temp_name env (cachePath c root) := d]> (files s)))
      !! cachePath c other = files s !! cachePath c other).
  { intros d other. destruct (remove_fails _ _); rewrite ?lookup_delete_ne, lookup_insert_ne by apply Ht; done. }
  assert (Hok : forall other, <[cachePath c root := data]> (delete (temp_name env (cachePath c root))
      (<[temp_name env (cachePath c root) := data]> (files s))) !! cachePath c other
      = if decide (other = root) then Some data else files s !! cachePath c other).
  { intros other. destruct (decide (other = root)) as [->|Hne]; [by rewrite lookup_insert_eq|].
    rewrite lookup_insert_ne by (intros ?%cachePath_inj; done). rewrite lookup_delete_ne, lookup_insert_ne by apply Ht. done. }
  unfold writeCached. destruct (write_fails env (cachePath c root)) as [[]|];
    (split; [done|]); (split; [done|]); (split; [done|]); (split; [done|]); cbn [is_Ok files];
    try (split; [apply Hfail|intros; apply Hfail]); try (by split);
    (split; [by rewrite Hok, decide_True|intros other Hne; by rewrite Hok, decide_False]).
Qed.

(** Where a downloaded block comes from: a response to [BlockSSZ] at [slot]. *)
Definition downloaded_at (slot : N) (root data : bytes) : Prop :=
  exists w, response_body (fst (http (BlockSSZ (network c) slot (rootHex root)) w)) = Ok data.

(** Where a slot comes from: an entry of an index response for the root. *)
Definition indexed_at (slot : N) (root : bytes) : Prop :=
  exists w body entries entry, response_body (fst (http (IndexByRoot (network c) (rootHex root)) w)) = Ok body
    /\ decode_index body = Some entries /\ entry ∈ entries /\ ParseRoot (entry_BlockRoot entry) = Some root
    /\ entry_Slot entry = slot.

Lemma lookupSlotOnce_found root s slot s' :
  lookupSlotOnce http url_ok c root (rootHex root) s = (Ok slot, s') -> indexed_at slot root.
Proof.
  unfold lookupSlotOnce, get_index. destruct (url_ok _); [|done]. unfold mbind, stateM_bind, st_bind, get.
  destruct (http _ _) as [answer w] eqn:Hh. destruct (response_body answer) as [body| |] eqn:Hb; [|done..].
  destruct (decode_index body) as [entries|] eqn:Hd; [|done].
  destruct (find _ entries) as [entry|] eqn:Hf; [|done]. intros [= <- _].
  apply find_some in Hf as [Hin%list_elem_of_In Hr]. exists (server s), body, entries, entry. rewrite Hh.
  split_and!; try done. by apply bool_decide_eq_true in Hr.
Qed.

(** What a fetch does, for a way [slot] of finding the block's slot that answers [Q]
    within [n] retries. *)
Lemma fetch_slot_root_spec (slot : stateM state archive_error N) (Q : N -> Prop) (n : nat) root s :
  temps_apart -> fstats s = zero_stats ->
  (forall s, let '(o, s') := slot s in
     o ≠ Panic /\ (exists k, (k <= n)%nat /\ requested 1 k s s') /\ forall sl, o = Ok sl -> Q sl) ->
  let '(o, s') := fetch_slot_root http env c slot root s in
  o ≠ Panic
  /\ (forall other, other ≠ root -> files s' !! cachePath c other = files s !! cachePath c other)
  /\ (forall e, o = Err e -> files s' !! cachePath c root = files s !! cachePath c root)
  /\ (exists k1 k2, (k1 <= n)%nat /\ (k2 <= 2)%nat /\ slept s' = slept s ++ delays 1 k1 ++ delays 1 k2
       /\ TransientFailuresRetried (fstats s') = N.of_nat (k1 + k2))
  /\ (forall data, o = Ok data -> files s' !! cachePath c root = Some data
       /\ Downloaded (fstats s') = negb (CacheHit (fstats s'))
       /\ (CacheHit (fstats s') = true -> files s !! cachePath c root = Some data)
       /\ (Downloaded (fstats s') = true -> exists sl, Q sl /\ downloaded_at sl root data)).
Proof.
  intros Ht Hst Hslot. unfold fetch_slot_root, mbind, stateM_bind, st_bind.
  pose proof (readCached_frame root s) as Hc. destruct (readCached env c root s) as [o s0].
  destruct Hc as (-> & Hp & Hhit).
  assert (Hnone : exists k1 k2, (k1 <= n)%nat /\ (k2 <= 2)%nat /\ slept s = slept s ++ delays 1 k1 ++ delays 1 k2
       /\ 0 = N.of_nat (k1 + k2)) by (exists 0%nat, 0%nat; rewrite app_nil_r; split_and!; lia || done).
  destruct o as [[data|]|e|]; [| |by rewrite Hst; split_and!|done].
  { cbn [mark_hit st_modify files slept fstats]. rewrite Hst. split_and!; try done.
    intros data' [= <-]. split; [by apply Hhit|]. split; [done|]. split; [|done]. intros _. by apply Hhit. }
  specialize (Hslot s). destruct (slot s) as [[sl|e|] s1]; destruct Hslot as (Hps & (k1 & Hk1 & Hf1 & Hsl1 & Hst1) & HQ);
    [| |done]; rewrite Hst in Hst1.
  2: { split_and!; [done|by rewrite Hf1|by rewrite Hf1| |done]. exists k1, 0%nat. rewrite Hst1. cbn.
       rewrite app_nil_r. split_and!; [done|lia|done|lia]. }
  pose proof (retry_spec (downloadBlockOnce http c sl (rootHex root)) 3 1 s1 (single_download _ _ _ _)
    ltac:(lia) ltac:(lia)) as Hd. unfold downloadBlock. destruct (retry _ _ _ _) as [o s2].
  destruct Hd as (Hpd & (k2 & Hk2 & Hf2 & Hsl2 & Hst2) & s1' & Hlast). rewrite Hst1 in Hst2.
  assert (Hk : exists k1' k2', (k1' <= n)%nat /\ (k2' <= 2)%nat /\ slept s2 = slept s ++ delays 1 k1' ++ delays 1 k2'
       /\ TransientFailuresRetried (fstats s2) = N.of_nat (k1' + k2')).
  { exists k1, k2. rewrite Hsl2, Hsl1, Hst2, app_assoc. cbn. split_and!; lia || done. }
  destruct o as [data|e|]; [| |done].
  2: { split_and!; try done; intros; by rewrite Hf2, Hf1. }
  pose proof (writeCached_spec root data s2 Ht) as Hw. destruct (writeCached _ _ _ _ _) as [o s3].
  destruct Hw as (Hpw & _ & Hsl3 & Hst3 & Hf3 & Hother). destruct o as [[]|e|]; [| |done]; cbn [is_Ok] in Hf3.
  - cbn [mark_downloaded st_modify files slept fstats Downloaded CacheHit TransientFailuresRetried].
    rewrite Hsl3, Hst3. split_and!; [done|intros; by rewrite Hother, Hf2, Hf1|done|done|].
    intros data' [= <-]. split; [done|]. rewrite Hst2. split; [done|]. split; [done|]. intros _. exists sl. split; [by apply HQ|].
    unfold downloadBlockOnce, get in Hlast. exists (server s1').
    destruct (http _ (server s1')) as [answer w]. injection Hlast as Ha _. exact Ha.
  - rewrite Hsl3, Hst3. split_and!; [done|intros; by rewrite Hother, Hf2, Hf1|intros; by rewrite Hf3, Hf2, Hf1|done|done].
Qed.

Lemma lookupSlot_spec root s :
  let '(o, s') := lookupSlot http url_ok c root (rootHex root) s in
  o ≠ Panic /\ (exists k, (k <= 2)%nat /\ requested 1 k s s') /\ forall sl, o = Ok sl -> indexed_at sl root.
Proof.
  pose proof (retry_spec (lookupSlotOnce http url_ok c root (rootHex root)) 3 1 s
    (single_lookup _ _ _ _ _) ltac:(lia) ltac:(lia)) as Hl. unfold lookupSlot.
  destruct (retry _ _ _ _) as [o s']. destruct Hl as (Hp & (k & Hk & Hq) & s2 & Hlast). split; [done|].
  split; [exists k; split; [lia|done]|]. intros sl ->. by eapply lookupSlotOnce_found.
Qed.

(** A cached block is answered without a request. *)
Lemma fetch_cached (slot : stateM state archive_error N) root data s :
  readable root -> files s !! cachePath c root = Some data ->
  fetch_slot_root http env c slot root s
  = (Ok data, mkAS (server s) (files s) (slept s)
       (mkFetchStats true (Downloaded (fstats s)) (TransientFailuresRetried (fstats s)))).
Proof.
  intros Hr Hd. unfold fetch_slot_root, mbind, stateM_bind, st_bind. by rewrite readCached_spec, Hd by done.
Qed.

(** No fetch touches a cached block. *)
Lemma fetch_keeps_cached root data r s :
  temps_apart -> readable root -> files s !! cachePath c root = Some data ->
  files (FetchBlockSSZByRoot http env url_ok c r s).2 !! cachePath c root = Some data.
Proof.
  intros Ht Hr Hd. unfold FetchBlockSSZByRoot, with_stats. set (s0 := mkAS _ _ _ _).
  destruct (decide (r = root)) as [->|Hne].
  { by rewrite (fetch_cached _ root data s0 Hr Hd). }
  pose proof (fetch_slot_root_spec (lookupSlot http url_ok c r (rootHex r)) (fun slot => indexed_at slot r)
    2 r s0 Ht eq_refl (lookupSlot_spec r)) as H.
  destruct (fetch_slot_root _ _ _ _ _ _) as [o s']. destruct H as (_ & Hother & _). cbn.
  by rewrite Hother by congruence.
Qed.
End cache_lemmas.

(** ** The client as the backend sees it *)

(** [int(n)] of a [uint64]. *)
Definition int_of_u64 (n : N) : Z := if (Z.of_N n <=? maxInt)%Z then Z.of_N n else (Z.of_N n - Z.of_N TwoTo64)%Z.

Definition to_result {A} (o : outcome archive_error A) : archive_result A :=
  match o with Ok a => AOk a | Err ArchNotFound => ANotFound | _ => AError end.

(** The backend parses the root of every entry. *)
Definition parsed_roots (o : outcome archive_error (list IndexEntry)) : outcome archive_error (list (N * option bytes)) :=
  match o with
  | Ok entries => Ok (map (fun entry => (entry_Slot entry, ParseRoot (entry_BlockRoot entry))) entries)
  | Err e => Err e
  | Panic => Panic
  end.

#[export] Instance client_archive {W} (http : request -> W -> http_answer * W) (env : io_env)
    (url_ok : bytes -> bool) (c : Client) : Archive (archive_state (W := W)) := {|
  ReadCachedSSZByRoot := fun root s => let '(o, s) := ReadCachedSSZ env c root s in (to_result o, s);
  FetchBlockSSZByRootWithStats := fun root s =>
    let '(o, stats, s) := FetchBlockSSZByRoot http env url_ok c root s in
    (to_result o, TransientFailuresRetried stats, s);
  FetchBlockSSZBySlotAndRootWithStats := fun slot root s =>
    let '(o, stats, s) := FetchBlockSSZBySlotAndRoot http env c slot root s in
    (to_result o, TransientFailuresRetried stats, s);
  ListIndexBySlotRangeWithStats := fun slotMin slotMax limit s =>
    let '(o, stats, s) := ListIndexBySlotRange http url_ok c slotMin slotMax (int_of_u64 limit) s in
    (to_result (parsed_roots o),
     TransientFailuresRetried stats, s)
|}.

(** What the planner relies on: a block in the disk cache is served from then on, by
    every later request, in the cache-only mode and in the fetching one. *)
Lemma cached_block_served {W R CS CR F} (http : request -> W -> http_answer * W) (env : io_env)
    (url_ok : bytes -> bool) (c : Client) (cfg : RealBackendConfig) (root data : bytes)
    (b : realBackend R CS CR (archive_state (W := W)) F) a :
  temps_apart env c -> readable env c root -> CheckpointBlocksByRoot cfg !! root = None ->
  BlockArchive b = Some a -> files a !! cachePath c root = Some data ->
  serves_root (AR := client_archive http env url_ok c) cfg root data b.
Proof.
  intros Ht Hr Hcp Hb Ha.
  exists (fun b => exists a, BlockArchive b = Some a /\ files a !! cachePath c root = Some data).
  split_and!; [by exists a|..].
  - intros b' (a' & Hb' & Ha'). unfold fetchBlockSSZByRootForPlanWithStats. rewrite Hcp, Hb'. cbn.
    destruct (ArchiveCacheOnly cfg).
    + unfold ReadCachedSSZ, mbind, stateM_bind, st_bind. by rewrite readCached_spec, Ha' by done.
    + unfold FetchBlockSSZByRoot, with_stats. by rewrite (fetch_cached http env c _ root data).
  - intros r b' (a' & Hb' & Ha'). unfold fetchBlockSSZByRootForPlanWithStats.
    destruct (CheckpointBlocksByRoot cfg !! r); [by exists a'|]. rewrite Hb'. cbn.
    destruct (ArchiveCacheOnly cfg).
    + unfold ReadCachedSSZ, mbind, stateM_bind, st_bind. pose proof (readCached_frame env c r a') as Hc.
      destruct (readCached env c r a') as [[[d|]|e|] s]; destruct Hc as (-> & _); by exists a'.
    + pose proof (fetch_keeps_cached http env url_ok c root data r a' Ht Hr Ha') as Hk.
      destruct (FetchBlockSSZByRoot http env url_ok c r a') as [[o stats] s]. by exists s.
  - done.
Qed.

(** ** A sample server

    It answers every other request with status 503, holds three entries and one block,
    and caps its index pages: at two entries first, then at one. *)

Definition sample_root : bytes := repeat x2a 32.
Definition sample_index : list IndexEntry :=
  [mkIndexEntry 100 (rootHex sample_root); mkIndexEntry 102 (str "0xzz"); mkIndexEntry 102 (rootHex sample_root)].

Definition sample_page (limit offset : Z) : list IndexEntry :=
  take (Z.to_nat (Z.min limit (if (offset =? 0)%Z then 2 else 1))) (drop (Z.to_nat offset) sample_index).

Fixpoint index_items (entries : list IndexEntry) : bytes :=
  match entries with
  | [] => []
  | entry :: entries' =>
      write_object [(str "slot", JNumber (format_uint (entry_Slot entry)));
                    (str "block_root", JString (entry_BlockRoot entry))]
      ++ match entries' with [] => [] | _ => [x2c] end ++ index_items entries'
  end.

Definition index_body (entries : list IndexEntry) : bytes :=
  x7b :: quote (str "index") ++ str ":[" ++ index_items entries ++ str "]}".

Definition sample_http (req : request) (n : N) : http_answer * N :=
  (if n mod 2 =? 0 then HttpResponse 503 []
   else match req with
        | IndexBySlots _ _ _ limit offset =>
            HttpResponse 200 (index_body (sample_page limit offset))
        | IndexByRoot _ _ => HttpResponse 200 (index_body sample_index)
        | BlockSSZ _ slot root =>
            if (slot =? 100) && bool_decide (root = rootHex sample_root) then HttpResponse 200 (str "block")
            else HttpResponse 404 []
        end, n + 1).

Definition sample_fs : io_env :=
  mkEnv (fun _ => false) (fun _ => None) (fun _ => false) (fun _ => None) (fun _ => false) (fun _ => str "tmp").

Definition sample_client : Client := mkClient (str "http://a") (str "mainnet") (str "/cache").
Definition sample_state : archive_state := mkAS (W := N) 0 ∅ [] zero_stats.

Lemma sample_decode offset :
  decode_index (index_body (sample_page 10 (Z.of_nat offset))) = Some (sample_page 10 (Z.of_nat offset)).
Proof.
  destruct offset as [|[|[|offset]]]; [vm_compute; reflexivity..|].
  unfold sample_page. rewrite Nat2Z.id, drop_ge, take_nil by (cbn; lia). reflexivity.
Qed.

Lemma sample_is_page offset : is_page 10 sample_index offset (sample_page 10 (Z.of_nat offset)).
Proof.
  unfold sample_page. rewrite Nat2Z.id. split_and!.
  - apply prefix_take.
  - rewrite length_take. destruct (_ =? _)%Z; lia.
  - intros Hn%(f_equal length). rewrite length_take, length_drop in Hn. cbn in *. destruct (_ =? _)%Z; cbn in Hn; lia.
Qed.

Lemma sample_serves :
  serves_index sample_http sample_client 100 110 10 sample_index (fun _ => True).
Proof.
  intros offset w _. set (good := fun (body : bytes) (_ : N) =>
    (exists page, decode_index body = Some page /\ is_page 10 sample_index offset page) /\ True).
  assert (Hg : forall n, n mod 2 <> 0 -> forall k,
    answers sample_http k (IndexBySlots (network sample_client) 100 110 10 (Z.of_nat offset)) good n).
  { intros n Hn k. destruct k; cbn [answers]; unfold sample_http; rewrite (proj2 (N.eqb_neq _ _) Hn); cbn [response_body];
      (split; [|done]); exists (sample_page 10 (Z.of_nat offset)); (split; [apply sample_decode|apply sample_is_page]). }
  destruct (decide (w mod 2 = 0)) as [He|Hn]; [|by apply Hg].
  cbn [answers]. unfold sample_http at 1. rewrite He. cbn [N.eqb response_body].
  change (answers sample_http 1 (IndexBySlots (network sample_client) 100 110 10 (Z.of_nat offset)) good (w + 1)).
  apply Hg. lia.
Qed.

Lemma sample_apart : temps_apart sample_fs sample_client.
Proof. intros p root. discriminate. Qed.

(** ** Theorems *)

(** C30: listing the index of a slot range ends, whatever the server answers: it never
    panics, never returns more entries than the safety limit, and touches no file.
    Against a server that holds [entries] for the range, within the limit, and answers
    each page within the two retries the client allows itself, it returns exactly
    [entries], however the server cuts them into pages: the pages may be shorter than
    the limit asked for, each by another length, and the next one is then asked for
    from where the last one ended. *)
Theorem ListIndexBySlotRange_spec {W} (http : request -> W -> http_answer * W) (url_ok : bytes -> bool) (c : Client)
    (slotMin slotMax : N) (limit : Z) (s : archive_state) :
  slotMin <= slotMax -> (0 < limit)%Z ->
  let pageLimit := Z.min limit indexSlotRangePageSize in
  let maxEntries := slotRangeIndexSafetyLimit slotMin slotMax pageLimit in
  let '(o, stats, s') := ListIndexBySlotRange http url_ok c slotMin slotMax limit s in
  o ≠ Panic /\ files s' = files s
  /\ (forall result, o = Ok result -> (Z.of_nat (length result) <= maxEntries)%Z)
  /\ (forall entries inv, serves_index http c slotMin slotMax pageLimit entries inv -> inv (server s) ->
      url_ok (baseURL c) = true -> (Z.of_nat (length entries) <= maxEntries)%Z -> o = Ok entries).
Proof.
  intros Hle Hlim. cbv zeta. unfold ListIndexBySlotRange, with_stats, list_index.
  destruct (N.ltb_spec slotMax slotMin); [lia|]. destruct (Z.leb_spec limit 0); [lia|].
  replace (if (indexSlotRangePageSize <? limit)%Z then indexSlotRangePageSize else limit)
    with (Z.min limit indexSlotRangePageSize) by (destruct (Z.ltb_spec indexSlotRangePageSize limit); lia).
  set (pageLimit := Z.min limit indexSlotRangePageSize).
  set (maxEntries := slotRangeIndexSafetyLimit slotMin slotMax pageLimit).
  assert (Hmax : (pageLimit <= maxEntries)%Z).
  { unfold maxEntries, slotRangeIndexSafetyLimit. case_ifs; bool_to_prop; lia. }
  set (s0 := mkAS _ _ _ _).
  pose proof (list_pages_spec http url_ok c (Z.to_nat maxEntries) slotMin slotMax pageLimit maxEntries [] 0 s0
    ltac:(cbn; lia) ltac:(cbn; lia)) as Hany.
  assert (Hhonest : forall entries inv, serves_index http c slotMin slotMax pageLimit entries inv -> inv (server s) ->
    url_ok (baseURL c) = true -> (Z.of_nat (length entries) <= maxEntries)%Z ->
    exists s', list_pages http url_ok c (Z.to_nat maxEntries) slotMin slotMax pageLimit maxEntries [] 0 s0 = (Ok entries, s')).
  { intros entries inv Hs Hi Hu Hl. destruct (list_pages_served http url_ok c (Z.to_nat maxEntries) slotMin slotMax
      pageLimit maxEntries entries inv 0 s0 Hs Hu Hi Hl ltac:(lia) ltac:(lia)) as (s' & Hr & _). by exists s'. }
  destruct (list_pages _ _ _ _ _ _ _ _ _ _) as [o s']. destruct Hany as (Hp & Hf & Hr).
  split; [done|]. split; [done|]. split; [intros result Ho; by apply (Hr result Ho)|].
  intros entries inv Hs Hi Hu Hl. by destruct (Hhonest entries inv Hs Hi Hu Hl) as (? & [= -> _]).
Qed.

Lemma ListIndexBySlotRange_spec_witness :
  fst (fst (ListIndexBySlotRange sample_http (fun _ => true) sample_client 100 110 10 sample_state)) = Ok sample_index.
Proof.
  pose proof (ListIndexBySlotRange_spec sample_http (fun _ => true) sample_client 100 110 10 sample_state
    ltac:(lia) ltac:(lia)) as H. cbv zeta in H.
  destruct (ListIndexBySlotRange _ _ _ _ _ _ _) as [[o stats] s']. destruct H as (_ & _ & _ & H).
  exact (H sample_index (fun _ => True) sample_serves I eq_refl ltac:(vm_compute; discriminate)).
Defined.

(** C31: fetching a block by its root.  The call ends without a panic after at most four
    retries and a second and a half of waiting; it answers from the disk cache without
    a request when it can; a block it downloads is the body of a response for the slot
    an index entry gives for exactly this root, and is then in the cache, as written,
    for every later read; a failing call leaves the cached block as it was, and no call
    touches another block's file. *)
Theorem FetchBlockSSZByRoot_spec {W} (http : request -> W -> http_answer * W) (env : io_env)
    (url_ok : bytes -> bool) (c : Client) (root : bytes) (s : archive_state) :
  temps_apart env c -> readable env c root ->
  let '(o, stats, s') := FetchBlockSSZByRoot http env url_ok c root s in
  o ≠ Panic
  /\ (TransientFailuresRetried stats <= 4 /\ exists waits, slept s' = slept s ++ waits /\ foldr N.add 0 waits <= 1500)
  /\ (forall data, files s !! cachePath c root = Some data -> o = Ok data /\ s' = mkAS (server s) (files s) (slept s) stats)
  /\ (forall data, o = Ok data -> fst (ReadCachedSSZ env c root s') = Ok data
      /\ (files s !! cachePath c root = None ->
          exists slot, indexed_at http c slot root /\ downloaded_at http c slot root data))
  /\ (forall e, o = Err e -> files s' !! cachePath c root = files s !! cachePath c root)
  /\ forall other, other ≠ root -> files s' !! cachePath c other = files s !! cachePath c other.
Proof.
  intros Ht Hr. unfold FetchBlockSSZByRoot, with_stats. set (s0 := mkAS _ _ _ _).
  pose proof (fetch_slot_root_spec http env url_ok c (lookupSlot http url_ok c root (rootHex root))
    (fun slot => indexed_at http c slot root) 2 root s0 Ht eq_refl (lookupSlot_spec http url_ok c root)) as H.
  assert (Hhit : forall data, files s !! cachePath c root = Some data ->
    fetch_slot_root http env c (lookupSlot http url_ok c root (rootHex root)) root s0
    = (Ok data, mkAS (server s) (files s) (slept s) (mkFetchStats true false 0)))
    by (intros data Hd; exact (fetch_cached http env c _ root data s0 Hr Hd)).
  destruct (fetch_slot_root _ _ _ _ _ _) as [o s'] eqn:Hrun.
  destruct H as (Hp & Hother & Herr & (k1 & k2 & Hk1 & Hk2 & Hsl & Hst) & Hok).
  split; [done|]. split.
  { rewrite Hst. split; [lia|]. eexists. split; [exact Hsl|].
    destruct k1 as [|[|[|]]]; [| | |lia]; (destruct k2 as [|[|[|]]]; [| | |lia]); vm_compute; discriminate. }
  split; [intros data Hd; pose proof (Hhit data Hd) as Hh; by injection Hh as -> ->|].
  split; [|by split]. intros data Ho. destruct (Hok data Ho) as (Hf & Hdl & Hhit' & Hsrc). split.
  - unfold ReadCachedSSZ, mbind, stateM_bind, st_bind. rewrite readCached_spec by done. by rewrite Hf.
  - intros Hn. apply Hsrc. rewrite Hdl. destruct (CacheHit (fstats s')) eqn:Hh; [|done].
    specialize (Hhit' eq_refl). change (files s0) with (files s) in Hhit'. by rewrite Hn in Hhit'.
Qed.

Lemma FetchBlockSSZByRoot_spec_witness :
  let '(o, _, s') := FetchBlockSSZByRoot sample_http sample_fs (fun _ => true) sample_client sample_root sample_state in
  o = Ok (str "block") /\ fst (ReadCachedSSZ sample_fs sample_client sample_root s') = Ok (str "block")
  /\ exists slot, downloaded_at sample_http sample_client slot sample_root (str "block").
Proof.
  pose proof (FetchBlockSSZByRoot_spec sample_http sample_fs (fun _ => true) sample_client sample_root sample_state
    sample_apart (conj eq_refl eq_refl)) as H.
  assert (Ho : fst (fst (FetchBlockSSZByRoot sample_http sample_fs (fun _ => true) sample_client sample_root sample_state))
    = Ok (str "block")) by (vm_compute; reflexivity).
  destruct (FetchBlockSSZByRoot _ _ _ _ _ _) as [[o stats] s']. cbn in Ho.
  destruct H as (_ & _ & _ & H & _). destruct (H _ Ho) as [Hc Hd]. split; [exact Ho|]. split; [exact Hc|].
  destruct (Hd eq_refl) as (slot & _ & Hdown). by exists slot.
Defined.
