(* ===== verification/FirstSeen.v ===== *)
(** * The first-seen attestation source ([pkg/beaconapi/firstseen.go])

    In first-seen mode the attestations of a slot are those validators were first seen
    to send over gossip, read per epoch from a parquet file: rows seen in time are
    grouped by what they vote for.  The parquet library is a parameter ([parquet]: the
    rows of a file, [None] for an error or a panic, which the code recovers from).  The
    files are part of the file system; with an S3 base they are downloaded into it. *)

From S2P Require Import Prelude Bytes Lru Json GoStrings Files Sha256 S3Cache BlockInfo PlanState.
From Stdlib Require Import Strings.Byte.

(** ** Data *)

Definition defaultFirstSeenEpochCacheSize : Z := 64.
Definition mainnetSlotsPerEpoch : N := 32.

(** [raw], [localPath], [s3Prefix], [isS3] *)
Record firstSeenBase := mkBase { base_raw : bytes; base_localPath : bytes; base_s3Prefix : bytes; base_isS3 : bool }.

(** A row of the parquet file; the integer columns are 32 bits wide. *)
Record firstSeenParquetRow := mkRow {
  row_Slot : N; row_Epoch : N; row_ValidatorIndex : N; row_BlockRoot : bytes;
  row_SourceEpoch : N; row_SourceRoot : bytes; row_TargetEpoch : N; row_TargetRoot : bytes; row_RawSeenMS : N
}.

(** What a vote is for. *)
Record firstSeenGroupKey := mkKey {
  k_slot : N; k_beaconBlockRoot : bytes; k_sourceEpoch : N; k_sourceRoot : bytes; k_targetEpoch : N; k_targetRoot : bytes
}.

#[export] Instance firstSeenGroupKey_eq_dec : EqDecision firstSeenGroupKey.
Proof. solve_decision. Defined.
#[export] Program Instance firstSeenGroupKey_countable : Countable firstSeenGroupKey :=
  inj_countable' (fun k => (k_slot k, k_beaconBlockRoot k, k_sourceEpoch k, k_sourceRoot k, k_targetEpoch k, k_targetRoot k))
    (fun '(slot, block, sourceEpoch, source, targetEpoch, target) => mkKey slot block sourceEpoch source targetEpoch target) _.
Next Obligation. by intros []. Qed.

(** [firstSeenEpoch.slots] *)
Abbreviation firstSeenEpoch := (gmap N (list attestationInfo)).

Inductive first_seen_error :=
| FSBaseRequired | FSBaseQuery | FSBaseBucket | FSNetwork | FSCacheDir | FSStoreRequired | FSCache
| FSStat (path : bytes) | FSStore (e : store_error) | FSNotFound (key : bytes)
| FSRead (epoch : N) | FSRowEpoch (slot epoch : N) | FSRowRoot (slot validator : N).

Record FirstSeenAttestationSource := mkSource {
  fs_base : firstSeenBase; fs_network : bytes; fs_deadlineMS : N; fs_cacheDir : bytes
}.

(** ** Parsing *)

(** [strings.Trim(s, "/")] *)
Definition trim_both_slashes (s : bytes) : bytes := reverse (trim_slashes (reverse (trim_slashes s))).

Definition parseFirstSeenBase (raw : bytes) : outcome first_seen_error firstSeenBase :=
  let raw := TrimSpace raw in
  if decide (raw = []) then Err FSBaseRequired
  else if negb (has_prefix raw (str "s3://")) then Ok (mkBase raw raw [] false)
  else
    let withoutScheme := trim_prefix raw (str "s3://") in
    if contains withoutScheme (str "?") || contains withoutScheme (str "#") then Err FSBaseQuery
    else
      let parts := cut x2f withoutScheme in
      let bucket := TrimSpace (match parts with Some (bucket, _) => bucket | None => withoutScheme end) in
      if decide (bucket = []) then Err FSBaseBucket
      else Ok (mkBase bucket [] (match parts with Some (_, prefix) => trim_both_slashes prefix | None => [] end) true).

(** The size of the epoch cache and the source; [lru_ok]: [lru.New] accepts the size. *)
Definition NewFirstSeenAttestationSource (lru_ok : Z -> bool) (basePath network : bytes) (deadlineMS : N) (cacheDir : bytes)
    (has_store : bool) (epochCacheSize : Z) : outcome first_seen_error (FirstSeenAttestationSource * Z) :=
  base ← parseFirstSeenBase basePath;
  let network := TrimSpace network in
  if decide (network = []) then Err FSNetwork
  else if decide (TrimSpace cacheDir = []) then Err FSCacheDir
  else if base_isS3 base && negb has_store then Err FSStoreRequired
  else
    let cacheSize := if (epochCacheSize <=? 0)%Z then defaultFirstSeenEpochCacheSize else epochCacheSize in
    if lru_ok cacheSize then Ok (mkSource base network deadlineMS cacheDir, cacheSize) else Err FSCache.

Definition parseFirstSeenRoot (value : bytes) : option bytes :=
  let value := TrimSpace value in
  if decide (value = []) then None
  else
    let value := trim_prefix (trim_prefix value (str "0x")) (str "0X") in
    decoded ← hex_decode value;
    if (length decoded =? 32)%nat then Some decoded else None.

(** ** Grouping *)

Definition writeUint64Decimal (value : N) : bytes := format_uint value ++ [x00].

Definition syntheticFirstSeenAttestationRoot (key : firstSeenGroupKey) : bytes :=
  sha256 (writeUint64Decimal (k_slot key) ++ k_beaconBlockRoot key
          ++ writeUint64Decimal (k_sourceEpoch key) ++ k_sourceRoot key
          ++ writeUint64Decimal (k_targetEpoch key) ++ k_targetRoot key).

Definition compareUint64 (a b : N) : Z := if a <? b then -1 else if b <? a then 1 else 0.
Definition compareRoot (a b : bytes) : Z :=
  if bytes_less (hex_encode a) (hex_encode b) then -1 else if bytes_less (hex_encode b) (hex_encode a) then 1 else 0.

Definition compareFirstSeenGroupKeys (a b : firstSeenGroupKey) : Z :=
  if negb (k_slot a =? k_slot b) then compareUint64 (k_slot a) (k_slot b)
  else let c := compareRoot (k_beaconBlockRoot a) (k_beaconBlockRoot b) in
  if negb (c =? 0)%Z then c
  else if negb (k_sourceEpoch a =? k_sourceEpoch b) then compareUint64 (k_sourceEpoch a) (k_sourceEpoch b)
  else let c := compareRoot (k_sourceRoot a) (k_sourceRoot b) in
  if negb (c =? 0)%Z then c
  else if negb (k_targetEpoch a =? k_targetEpoch b) then compareUint64 (k_targetEpoch a) (k_targetEpoch b)
  else let c := compareRoot (k_targetRoot a) (k_targetRoot b) in
  if negb (c =? 0)%Z then c else 0.

(** The loop that compacts the sorted values. *)
Fixpoint unique_loop (kept : N) (values : list N) : list N :=
  match values with
  | [] => []
  | value :: values' => if value =? kept then unique_loop kept values' else value :: unique_loop value values'
  end.

Definition sortedUniqueUint64s (values : list N) : list N :=
  match sort_by N.ltb values with [] => [] | v :: out => v :: unique_loop v out end.

(** The key of a row, once its epoch has been checked. *)
Definition row_key (row : firstSeenParquetRow) : option firstSeenGroupKey :=
  block ← parseFirstSeenRoot (row_BlockRoot row);
  source ← parseFirstSeenRoot (row_SourceRoot row);
  target ← parseFirstSeenRoot (row_TargetRoot row);
  Some (mkKey (row_Slot row) block (row_SourceEpoch row) source (row_TargetEpoch row) target).

(** The indices of each group, in the order of the rows. *)
Abbreviation groups := (gmap firstSeenGroupKey (list N)).

Fixpoint group_rows (deadlineMS epoch : N) (rows : list firstSeenParquetRow) (gs : groups) : outcome first_seen_error groups :=
  match rows with
  | [] => Ok gs
  | row :: rows' =>
      if deadlineMS <? row_RawSeenMS row then group_rows deadlineMS epoch rows' gs
      else if negb (row_Epoch row =? epoch) then Err (FSRowEpoch (row_Slot row) (row_Epoch row))
      else match row_key row with
           | None => Err (FSRowRoot (row_Slot row) (row_ValidatorIndex row))
           | Some key =>
               group_rows deadlineMS epoch rows' (<[key := default [] (gs !! key) ++ [row_ValidatorIndex row]]> gs)
           end
  end.

Definition group_attestation (g : firstSeenGroupKey * list N) : attestationInfo :=
  let key := g.1 in
  mkAttestation (syntheticFirstSeenAttestationRoot key) [] None (k_slot key) 0 (k_beaconBlockRoot key)
    (k_sourceEpoch key) (k_sourceRoot key) (k_targetEpoch key) (k_targetRoot key) (sortedUniqueUint64s g.2).

Definition append_group (slots : firstSeenEpoch) (g : firstSeenGroupKey * list N) : firstSeenEpoch :=
  <[k_slot g.1 := default [] (slots !! k_slot g.1) ++ [group_attestation g]]> slots.

Definition key_less (a b : firstSeenGroupKey * list N) : bool := (compareFirstSeenGroupKeys a.1 b.1 <? 0)%Z.

(** [loadEpoch] on the rows of the file.  Go's iteration order over the groups does not
    matter: they are sorted by key. *)
Definition epoch_of_rows (deadlineMS epoch : N) (rows : list firstSeenParquetRow) : outcome first_seen_error firstSeenEpoch :=
  gs ← group_rows deadlineMS epoch rows ∅;
  Ok (foldl append_group ∅ (sort_by key_less (map_to_list gs))).

(** ** Calls *)

Definition firstSeenEpochRelativePath (network : bytes) (epoch : N) : bytes :=
  Join [str "network=" ++ network; str "source=raw"; str "epoch=" ++ format_uint epoch; str "data.parquet"].

Section first_seen.
Context (parquet : bytes -> option (list firstSeenParquetRow)) (stat_fails : bytes -> bool).
Context {T : Type} {ST : Store T} (env : io_env).
Context {C : Type} {L : Lru N firstSeenEpoch C}.

(** The epoch cache, the epochs being loaded, the files and the object store. *)
Record first_seen_state := mkFSS { fs_cache : C; fs_inflight : gset N; fs_files : world; fs_store : option T }.

Abbreviation M := (stateM first_seen_state first_seen_error).

Context (src : FirstSeenAttestationSource).

Definition readFirstSeenRows (path : bytes) (w : world) : option (list firstSeenParquetRow) :=
  match ReadFile env path w with RData data => parquet data | _ => None end.

Definition firstSeenCachePath (epoch : N) : bytes :=
  Join [fs_cacheDir src; str "attestation-first-seen"; fs_network src; str "epoch-" ++ format_uint epoch ++ str ".parquet"].
Definition firstSeenKey (epoch : N) : bytes :=
  Join [base_s3Prefix (fs_base src); firstSeenEpochRelativePath (fs_network src) epoch].
Definition firstSeenLocalPath (epoch : N) : bytes :=
  Join [base_localPath (fs_base src); firstSeenEpochRelativePath (fs_network src) epoch].

Definition localParquetPath (epoch : N) : M bytes := fun s =>
  if negb (base_isS3 (fs_base src)) then (Ok (firstSeenLocalPath epoch), s)
  else
    let cachePath := firstSeenCachePath epoch in
    if stat_fails cachePath then (Err (FSStat cachePath), s)
    else match fs_files s !! cachePath with
         | Some _ => (Ok cachePath, s)
         | None =>
             match fs_store s with
             | None => (Panic, s)
             | Some t =>
                 let '(o, (t, files)) := S3DownloadFile (firstSeenKey epoch) cachePath (t, fs_files s) in
                 (match o with
                  | Ok true => Ok cachePath
                  | Ok false => Err (FSNotFound (firstSeenKey epoch))
                  | Err e => Err (FSStore e)
                  | Panic => Panic
                  end, mkFSS (fs_cache s) (fs_inflight s) files (Some t))
             end
         end.

Definition loadEpoch (epoch : N) : M firstSeenEpoch :=
  path ← localParquetPath epoch;
  files ← st_gets fs_files;
  match readFirstSeenRows path files with
  | None => st_lift (Err (FSRead epoch))
  | Some rows => st_lift (epoch_of_rows (fs_deadlineMS src) epoch rows)
  end.

Definition set_inflight (i : gset N) (s : first_seen_state) := mkFSS (fs_cache s) i (fs_files s) (fs_store s).
Definition set_cache (c : C) (s : first_seen_state) := mkFSS c (fs_inflight s) (fs_files s) (fs_store s).

(** [epoch], run alone: an epoch somebody else is loading would be waited for, with
    nobody else for ever ([Panic]). *)
Definition source_epoch (epoch : N) : M firstSeenEpoch := fun s =>
  let '(hit, c) := lru_get epoch (fs_cache s) in
  let s := set_cache c s in
  match hit with
  | Some cached => (Ok cached, s)
  | None =>
      if decide (epoch ∈ fs_inflight s) then (Panic, s)
      else
        let '(o, s) := loadEpoch epoch (set_inflight ({[epoch]} ∪ fs_inflight s) s) in
        let s := match o with Ok loaded => set_cache (lru_add epoch loaded (fs_cache s)) s | _ => s end in
        (o, set_inflight (fs_inflight s ∖ {[epoch]}) s)
  end.

(** The nil source is [FirstSeenSource = None] of the backend. *)
Definition SourceAttestationsForSlot (slot : N) : M (list attestationInfo) :=
  loaded ← source_epoch (slot / mainnetSlotsPerEpoch);
  mret (default [] (loaded !! slot)).

(** The source as the planners use it: the instance of [FirstSeen]. *)
#[local] Instance source_first_seen : FirstSeen first_seen_state := {|
  AttestationsForSlot slot _ s :=
    match SourceAttestationsForSlot slot s with (Ok l, s) => (Some l, s) | (_, s) => (None, s) end
|}.
End first_seen.

(** ** Lemmas: the order of the keys *)

(** A three-way comparison that is a total preorder. *)
Record cmp_ok {A} (cmp : A -> A -> Z) : Prop := {
  cmp_anti a b : cmp b a = (- cmp a b)%Z;
  cmp_same a b c : cmp a b = 0%Z -> cmp a c = cmp b c;
  cmp_trans a b c : (cmp a b < 0)%Z -> (cmp b c < 0)%Z -> (cmp a c < 0)%Z
}.

Definition lex {A} (c1 c2 : A -> A -> Z) (a b : A) : Z := if (c1 a b =? 0)%Z then c2 a b else c1 a b.

Lemma cmp_same_r {A} (cmp : A -> A -> Z) a b c : cmp_ok cmp -> cmp a b = 0%Z -> cmp c a = cmp c b.
Proof. intros H Hab. rewrite (cmp_anti _ H a c), (cmp_anti _ H b c). by rewrite (cmp_same _ H a b c Hab). Qed.

Lemma lex_ok {A} (c1 c2 : A -> A -> Z) : cmp_ok c1 -> cmp_ok c2 -> cmp_ok (lex c1 c2).
Proof.
  intros H1 H2. unfold lex. split.
  - intros a b. rewrite (cmp_anti _ H1 a b), (cmp_anti _ H2 a b). case_ifs; lia.
  - intros a b c. destruct (Z.eqb_spec (c1 a b) 0) as [E|]; [|done]. intros Hc.
    by rewrite (cmp_same _ H1 a b c E), (cmp_same _ H2 a b c Hc).
  - intros a b c. destruct (Z.eqb_spec (c1 a b) 0) as [E|]; [rewrite (cmp_same _ H1 a b c E)|].
    + destruct (c1 b c =? 0)%Z; [apply (cmp_trans _ H2)|done].
    + destruct (Z.eqb_spec (c1 b c) 0) as [E2|].
      * intros Hab _. rewrite <- (cmp_same_r _ _ _ a H1 E2). destruct (Z.eqb_spec (c1 a b) 0); [done|exact Hab].
      * intros Hab Hbc. pose proof (cmp_trans _ H1 a b c Hab Hbc). destruct (Z.eqb_spec (c1 a c) 0); lia.
Qed.

Lemma compareUint64_ok {A} (f : A -> N) : cmp_ok (fun a b => compareUint64 (f a) (f b)).
Proof. unfold compareUint64. split; intros; repeat case_match; bool_to_prop; lia. Qed.

Lemma compareRoot_eq a b : compareRoot a b = 0%Z -> a = b.
Proof.
  unfold compareRoot. destruct (bytes_less (hex_encode a) _) eqn:H1; [done|].
  destruct (bytes_less (hex_encode b) _) eqn:H2; [done|]. intros _. by apply hex_encode_inj, bytes_less_total.
Qed.

Lemma compareRoot_ok {A} (f : A -> bytes) : cmp_ok (fun a b => compareRoot (f a) (f b)).
Proof.
  split.
  - intros a b. unfold compareRoot. destruct (bytes_less (hex_encode (f a)) (hex_encode (f b))) eqn:H1.
    + by rewrite (bytes_less_asym _ _ H1).
    + rewrite ?H1. case_ifs; lia.
  - intros a b c H%compareRoot_eq. by rewrite H.
  - intros a b c. unfold compareRoot.
    destruct (bytes_less (hex_encode (f a)) (hex_encode (f b))) eqn:H1; [|case_ifs; lia].
    destruct (bytes_less (hex_encode (f b)) (hex_encode (f c))) eqn:H2; [|case_ifs; lia].
    by rewrite (bytes_less_trans _ _ _ H1 H2).
Qed.

Definition key_order : firstSeenGroupKey -> firstSeenGroupKey -> Z :=
  lex (fun a b => compareUint64 (k_slot a) (k_slot b))
    (lex (fun a b => compareRoot (k_beaconBlockRoot a) (k_beaconBlockRoot b))
      (lex (fun a b => compareUint64 (k_sourceEpoch a) (k_sourceEpoch b))
        (lex (fun a b => compareRoot (k_sourceRoot a) (k_sourceRoot b))
          (lex (fun a b => compareUint64 (k_targetEpoch a) (k_targetEpoch b))
            (fun a b => compareRoot (k_targetRoot a) (k_targetRoot b)))))).

Lemma key_order_ok : cmp_ok key_order.
Proof. repeat (apply lex_ok; [apply compareUint64_ok || apply compareRoot_ok|]). apply compareRoot_ok. Qed.

Lemma compareUint64_zero a b : (compareUint64 a b =? 0)%Z = (a =? b).
Proof. unfold compareUint64. repeat case_match; bool_to_prop; lia. Qed.

Lemma compare_is_key_order a b : compareFirstSeenGroupKeys a b = key_order a b.
Proof.
  unfold compareFirstSeenGroupKeys, key_order, lex. rewrite !compareUint64_zero.
  repeat (case_match; cbn [negb] in *; try done; try lia).
Qed.

Lemma key_order_eq a b : key_order a b = 0%Z -> a = b.
Proof.
  destruct a as [s1 b1 e1 r1 t1 q1], b as [s2 b2 e2 r2 t2 q2]. unfold key_order, lex.
  cbn [k_slot k_beaconBlockRoot k_sourceEpoch k_sourceRoot k_targetEpoch k_targetRoot]. rewrite !compareUint64_zero.
  repeat match goal with
  | |- context [if (?x =? ?y)%N then _ else _] => destruct (N.eqb_spec x y) as [->|];
      [|intros H; unfold compareUint64 in H; repeat case_match; bool_to_prop; lia]
  | |- context [if (compareRoot ?x ?y =? 0)%Z then _ else _] =>
      destruct (Z.eqb_spec (compareRoot x y) 0) as [->%compareRoot_eq|]; [|done]
  end.
  by intros ->%compareRoot_eq.
Qed.

(** ** Lemmas: indices, groups, slots *)

Lemma unique_loop_spec kept values :
  StronglySorted N.le values -> Forall (N.le kept) values ->
  StronglySorted N.lt (kept :: unique_loop kept values)
  /\ forall v, v ∈ kept :: unique_loop kept values <-> v ∈ kept :: values.
Proof.
  intros Hs. revert kept. induction Hs as [|value values Hs IH Hv]; intros kept Hk; cbn [unique_loop].
  { split; [repeat constructor|done]. }
  apply Forall_cons in Hk as [Hle Hk]. destruct (N.eqb_spec value kept) as [->|Hne].
  - destruct (IH kept Hk) as [H1 H2]. split; [done|]. intros v. rewrite H2, !elem_of_cons. tauto.
  - destruct (IH value Hv) as [H1 H2]. split.
    + constructor; [done|]. constructor; [lia|]. apply StronglySorted_inv in H1 as [_ H1].
      eapply Forall_impl; [exact H1|]. intros x Hx. cbn in Hx. lia.
    + intros v. rewrite (elem_of_cons (value :: unique_loop value values)), H2. by rewrite <- elem_of_cons.
Qed.

Lemma sortedUniqueUint64s_spec values :
  StronglySorted N.lt (sortedUniqueUint64s values) /\ forall v, v ∈ sortedUniqueUint64s values <-> v ∈ values.
Proof.
  unfold sortedUniqueUint64s.
  assert (Hs : StronglySorted N.le (sort_by N.ltb values)).
  { eapply StronglySorted_impl; [|apply sort_by_sorted; unfold not_less; intros; bool_to_prop; lia].
    unfold not_less. intros a b Hab. lia. }
  pose proof (fun v => elem_of_sort_by N.ltb v values) as He.
  destruct (sort_by N.ltb values) as [|v out]; [split; [constructor|done]|].
  apply StronglySorted_inv in Hs as [Hs Hv]. destruct (unique_loop_spec v out Hs Hv) as [H1 H2].
  split; [done|]. intros x. by rewrite H2, He.
Qed.

Section grouping.
Context (deadlineMS epoch : N).

(** A vote seen in time, as the rows record it. *)
Definition in_time (row : firstSeenParquetRow) : Prop := row_RawSeenMS row <= deadlineMS.
Definition votes (rows : list firstSeenParquetRow) (key : firstSeenGroupKey) : list N :=
  row_ValidatorIndex <$> filter (fun row => in_time row /\ row_key row = Some key) rows.
Definition good_row (row : firstSeenParquetRow) : Prop :=
  in_time row -> row_Epoch row = epoch /\ is_Some (row_key row).

Lemma votes_cons row rows key :
  votes (row :: rows) key
  = if decide (in_time row /\ row_key row = Some key) then row_ValidatorIndex row :: votes rows key else votes rows key.
Proof. unfold votes. rewrite filter_cons. by case_decide. Qed.

Lemma elem_of_votes v rows key :
  v ∈ votes rows key <-> exists row, row ∈ rows /\ in_time row /\ row_key row = Some key /\ row_ValidatorIndex row = v.
Proof.
  unfold votes. rewrite list_elem_of_fmap. split.
  - intros (row & -> & [[? ?] ?]%list_elem_of_filter). by exists row.
  - intros (row & ? & ? & ? & <-). exists row. split; [done|]. by apply list_elem_of_filter.
Qed.

(** A group holds the votes so far, and exists when there are any. *)
Lemma group_rows_spec rows gs :
  match group_rows deadlineMS epoch rows gs with
  | Ok gs' => Forall good_row rows /\ forall key, default [] (gs' !! key) = default [] (gs !! key) ++ votes rows key
      /\ (is_Some (gs' !! key) <-> is_Some (gs !! key) \/ votes rows key ≠ [])
  | Err _ => ~ Forall good_row rows
  | Panic => False
  end.
Proof.
  revert gs. induction rows as [|row rows IH]; intros gs; cbn [group_rows].
  { split; [constructor|]. intros key. rewrite app_nil_r. split; [done|]. unfold votes. cbn. naive_solver. }
  destruct (N.ltb_spec deadlineMS (row_RawSeenMS row)) as [Hlate|Hin].
  - assert (Hni : ~ in_time row) by (unfold in_time; lia). specialize (IH gs).
    destruct (group_rows _ _ _ gs) as [gs'|e|]; [| |done].
    + destruct IH as [Hg IH]. split; [by constructor|]. intros key. rewrite votes_cons, decide_False by tauto. apply IH.
    + by intros [_ ?]%Forall_cons.
  - destruct (N.eqb_spec (row_Epoch row) epoch) as [He|He]; cbn [negb]; [|intros [[? _] _]%Forall_cons; by try apply Hin].
    destruct (row_key row) as [key0|] eqn:Hk; [|intros [[_ [? Hx]] _]%Forall_cons; [done|congruence]].
    specialize (IH (<[key0 := default [] (gs !! key0) ++ [row_ValidatorIndex row]]> gs)).
    destruct (group_rows _ _ _ _) as [gs'|e|]; [| |done].
    + destruct IH as [Hg IH]. split; [constructor; [intros _; rewrite Hk; by split|done]|]. intros key. rewrite votes_cons.
      destruct (IH key) as [H1 H2]. rewrite H1, H2. destruct (decide (key0 = key)) as [<-|Hne].
      * rewrite decide_True by done. rewrite lookup_insert_eq. cbn. rewrite <- app_assoc. split; [done|].
        split; [intros _; by right|intros _; left; by eexists].
      * rewrite decide_False by naive_solver. by rewrite lookup_insert_ne.
    + by intros [_ ?]%Forall_cons.
Qed.

Lemma append_groups_lookup l slots slot :
  default [] (foldl append_group slots l !! slot)
  = default [] (slots !! slot) ++ (group_attestation <$> filter (fun g => k_slot g.1 = slot) l).
Proof.
  revert slots. induction l as [|g l IH]; intros slots; cbn [foldl]; [by rewrite app_nil_r|].
  rewrite IH, filter_cons. unfold append_group at 1. case_decide as Hs; [subst|].
  - rewrite lookup_insert_eq. cbn. by rewrite <- app_assoc.
  - by rewrite lookup_insert_ne.
Qed.

(** What a slot of the epoch answers. *)
Definition first_seen_answer (rows : list firstSeenParquetRow) (slot : N) (l : list attestationInfo) : Prop :=
  exists gs : list (firstSeenGroupKey * list N),
    l = (fun g => mkAttestation (syntheticFirstSeenAttestationRoot g.1) [] None slot 0 (k_beaconBlockRoot g.1)
           (k_sourceEpoch g.1) (k_sourceRoot g.1) (k_targetEpoch g.1) (k_targetRoot g.1) g.2) <$> gs
    /\ StronglySorted (fun a b => compareFirstSeenGroupKeys a.1 b.1 < 0)%Z gs
    /\ (forall key, key ∈ gs.*1 <-> k_slot key = slot /\ votes rows key ≠ [])
    /\ forall key vs, (key, vs) ∈ gs -> StronglySorted N.lt vs /\ forall v, v ∈ vs <-> v ∈ votes rows key.

Lemma sorted_groups (gs : groups) :
  StronglySorted (fun a b => compareFirstSeenGroupKeys a.1 b.1 < 0)%Z (sort_by key_less (map_to_list gs)).
Proof.
  pose proof key_order_ok as Hok.
  assert (Hsort : StronglySorted (not_less key_less) (sort_by key_less (map_to_list gs))).
  { apply sort_by_sorted; unfold not_less, key_less; intros *; rewrite !compare_is_key_order.
    - intros Hab Hbc. bool_to_prop. pose proof (cmp_anti _ Hok a.1 b.1). pose proof (cmp_anti _ Hok b.1 c.1).
      pose proof (cmp_anti _ Hok a.1 c.1). apply Z.ltb_ge.
      destruct (Z.eq_dec (key_order a.1 b.1) 0) as [E|E]; [rewrite (cmp_same_r _ _ _ c.1 Hok E); lia|].
      destruct (Z.eq_dec (key_order b.1 c.1) 0) as [E2|E2]; [rewrite <- (cmp_same _ Hok _ _ a.1 E2); lia|].
      pose proof (cmp_trans _ Hok a.1 b.1 c.1). lia.
    - intros Hab. bool_to_prop. pose proof (cmp_anti _ Hok a.1 b.1). lia. }
  assert (Hnd : NoDup (sort_by key_less (map_to_list gs)).*1) by (rewrite sort_by_perm; apply NoDup_fst_map_to_list).
  revert Hsort Hnd. generalize (sort_by key_less (map_to_list gs)). intros l. induction 1 as [|g l Hl IH Hg]; [constructor|].
  cbn. intros [Hni Hnd]%NoDup_cons. constructor; [by apply IH|]. apply Forall_forall. intros h Hh.
  rewrite Forall_forall in Hg. specialize (Hg h Hh). unfold not_less, key_less in Hg. rewrite compare_is_key_order in *.
  bool_to_prop. pose proof (cmp_anti _ Hok g.1 h.1). destruct (Z.eq_dec (key_order g.1 h.1) 0) as [E|]; [|lia].
  apply key_order_eq in E. destruct Hni. rewrite E. by apply list_elem_of_fmap_2.
Qed.

Lemma epoch_of_rows_spec rows :
  match epoch_of_rows deadlineMS epoch rows with
  | Ok data => Forall good_row rows /\ forall slot, first_seen_answer rows slot (default [] (data !! slot))
  | Err _ => ~ Forall good_row rows
  | Panic => False
  end.
Proof.
  unfold epoch_of_rows. pose proof (group_rows_spec rows ∅) as H.
  destruct (group_rows deadlineMS epoch rows ∅) as [gs|e|]; cbn; [|done|done]. destruct H as [Hg H].
  split; [done|]. intros slot. rewrite append_groups_lookup, lookup_empty. cbn [default app].
  set (l := filter _ _). exists ((fun g => (g.1, sortedUniqueUint64s g.2)) <$> l).
  assert (Hin : forall g, g ∈ l <-> k_slot g.1 = slot /\ gs !! g.1 = Some g.2).
  { intros [key vs]. unfold l. rewrite list_elem_of_filter, elem_of_sort_by, elem_of_map_to_list. done. }
  assert (Hv : forall key vs, gs !! key = Some vs -> vs = votes rows key).
  { intros key vs Hk. destruct (H key) as [H1 _]. by rewrite Hk, lookup_empty in H1. }
  split_and!.
  - rewrite <- list_fmap_compose. apply list_fmap_ext. intros i g Hgi. unfold group_attestation, compose. cbn.
    apply list_elem_of_lookup_2, Hin in Hgi as [<- _]. done.
  - assert (Hs : StronglySorted (fun a b => compareFirstSeenGroupKeys a.1 b.1 < 0)%Z l) by apply StronglySorted_filter, sorted_groups.
    clear -Hs. induction Hs as [|g l Hl IH Hg]; [constructor|]. cbn. constructor; [done|]. apply Forall_fmap. exact Hg.
  - intros key. rewrite <- list_fmap_compose, list_elem_of_fmap. cbn. split.
    + intros ([key' vs] & -> & [Hs Hk]%Hin). split; [done|]. cbn in Hk |- *.
      destruct (H key') as [_ [H2 _]]. destruct (H2 ltac:(by eexists)) as [Hx|Hx]; [|done].
      rewrite lookup_empty in Hx. by destruct Hx.
    + intros [Hs Hk]. destruct (H key) as [_ [_ H2]]. destruct (H2 (or_intror Hk)) as [vs Hvs]. exists (key, vs). split; [done|].
      by apply Hin.
  - intros key vs ([key' vs'] & [= -> ->] & [_ Hk]%Hin)%list_elem_of_fmap. cbn in Hk. rewrite <- (Hv key' vs' Hk).
    apply sortedUniqueUint64s_spec.
Qed.
End grouping.

(** ** Lemmas: files and caches *)

Lemma epoch_file_name epoch : u64 epoch -> file_name (str "epoch-" ++ format_uint epoch ++ str ".parquet").
Proof.
  intros Hu. split; [done|]. split; [done|]. split; [done|]. apply Forall_app. split; [by repeat constructor|].
  apply Forall_app. split; [|by repeat constructor]. eapply Forall_impl; [by apply format_uint_all_digits|].
  intros c Hc ->. by vm_compute in Hc.
Qed.

Lemma firstSeenCachePath_inj src e e' :
  u64 e -> u64 e' -> firstSeenCachePath src e = firstSeenCachePath src e' -> e = e'.
Proof.
  intros He He'. unfold firstSeenCachePath.
  change [?a; ?b; ?c; ?d] with ([a; b; c] ++ [d]). rewrite !Join_file_name by by apply epoch_file_name.
  intros H%app_inv_head. rewrite !(app_assoc (str "epoch-")) in H. apply app_inv_tail, app_inv_head in H.
  by apply format_uint_inj.
Qed.

Section source.
Context (parquet : bytes -> option (list firstSeenParquetRow)) (stat_fails : bytes -> bool).
Context {T : Type} {ST : Store T} (objects : T -> gmap bytes bytes) (env : io_env) {SS : StoreSpec T env objects}.
Context {C : Type} {L : Lru N firstSeenEpoch C}.
Context (src : FirstSeenAttestationSource) (content : N -> option bytes).
Abbreviation state := (first_seen_state (T := T) (C := C)).
Implicit Types s : state.

(** The rows of an epoch, and what they group to. *)
Definition epoch_rows (epoch : N) (rows : list firstSeenParquetRow) : Prop :=
  exists data, content epoch = Some data /\ parquet data = Some rows.

(** The parquet files are those of [content]: at their local paths, or in the bucket,
    and then the downloaded ones are copies. *)
Definition files_ok s : Prop :=
  if base_isS3 (fs_base src) then
    (exists t, fs_store s = Some t /\ forall e, u64 e -> objects t !! firstSeenKey src e = content e)
    /\ forall e d, u64 e -> fs_files s !! firstSeenCachePath src e = Some d -> content e = Some d
  else forall e, u64 e -> fs_files s !! firstSeenLocalPath src e = content e.

Definition fs_cache_ok (c : C) : Prop :=
  lru_all (fun e data => exists rows, epoch_rows e rows /\ epoch_of_rows (fs_deadlineMS src) e rows = Ok data) c.

(** No load is under way, cache and files are right. *)
Definition first_seen_ok s : Prop := fs_inflight s = ∅ /\ fs_cache_ok (fs_cache s) /\ files_ok s.

Definition cache_temps_apart : Prop := forall p e, u64 e -> temp_name env p ≠ firstSeenCachePath src e.
Context (Htemps : cache_temps_apart).

Lemma localParquetPath_ok e s :
  u64 e -> files_ok s ->
  let '(o, s') := localParquetPath stat_fails src e s in
  o ≠ Panic /\ files_ok s' /\ fs_cache s' = fs_cache s /\ fs_inflight s' = fs_inflight s
  /\ (forall path, o = Ok path -> fs_files s' !! path = content e)
  /\ (base_isS3 (fs_base src) = false -> o = Ok (firstSeenLocalPath src e)).
Proof.
  intros He Hf. unfold localParquetPath. unfold files_ok in *. destruct (base_isS3 (fs_base src)) eqn:H3; cbn [negb].
  2: { split_and!; try done. intros path [= <-]. by apply Hf. }
  pose proof Hf as [(t & Ht & Hobj) Hfile]. 
  destruct (stat_fails _); [split; [done|]; split; [done|]; split; [done|]; split; [done|]; by split|].
  destruct (fs_files s !! firstSeenCachePath src e) as [d|] eqn:Hd.
  { split; [done|]. split; [done|]. split; [done|]. split; [done|]. split; [|done].
    intros path [= <-]. rewrite Hd. symmetry. by apply Hfile. }
  rewrite Ht. pose proof (S3DownloadFile_spec (firstSeenKey src e) (firstSeenCachePath src e) t (fs_files s)) as H.
  destruct (S3DownloadFile _ _ _) as [o [t' files']]. destruct H as (Hp & Ho & Hok & Hother). cbn [fs_cache fs_inflight fs_files fs_store].
  assert (Hnt : forall e', u64 e' -> firstSeenCachePath src e' ≠ temp_name env (firstSeenCachePath src e))
    by (intros e' He' Heq; by apply (Htemps (firstSeenCachePath src e) e')).
  split; [by destruct o as [[]| |]|]. split; [|split; [done|split; [done|split; [|done]]]].
  - split; [exists t'; split; [done|]; intros e' He'; rewrite Ho; by apply Hobj|].
    intros e' d He' Hd'. destruct (decide (e' = e)) as [->|Hne].
    + assert (o = Ok true \/ o ≠ Ok true) as [E|E] by (destruct o as [[]| |]; auto); [|rewrite Hother in Hd'; [congruence|by apply Hnt|by right]].
      destruct (Hok E) as (data & Hdata & Hfd). rewrite Hobj in Hdata by done. congruence.
    + rewrite Hother in Hd'; [by apply Hfile|by apply Hnt|]. left. intros Heq. by apply Hne, (firstSeenCachePath_inj src).
  - intros path Hpath. destruct o as [[]| |]; try done. injection Hpath as <-.
    destruct (Hok eq_refl) as (data & Hdata & Hfd). by rewrite Hfd, <- Hobj, Hdata.
Qed.

Lemma readFirstSeenRows_ok path w rows :
  readFirstSeenRows parquet env path w = Some rows -> exists d, w !! path = Some d /\ parquet d = Some rows.
Proof.
  unfold readFirstSeenRows. destruct (ReadFile env path w) as [d| |] eqn:E; [|done..].
  intros Hr. exists d. split; [by apply ReadFile_data in E|done].
Qed.

(** A local file can be opened and read to its end. *)
Definition readable (path : bytes) : Prop := open_fails env path = false /\ read_fails env path = None.

Lemma loadEpoch_ok e s :
  u64 e -> files_ok s ->
  let '(o, s') := loadEpoch parquet stat_fails env src e s in
  files_ok s' /\ fs_cache s' = fs_cache s /\ fs_inflight s' = fs_inflight s
  /\ match o with
     | Ok data => exists rows, epoch_rows e rows /\ epoch_of_rows (fs_deadlineMS src) e rows = Ok data
     | Err _ => base_isS3 (fs_base src) = true \/ ~ readable (firstSeenLocalPath src e)
                \/ forall rows, epoch_rows e rows -> ~ Forall (good_row (fs_deadlineMS src) e) rows
     | Panic => False
     end.
Proof.
  intros He Hf. unfold loadEpoch, mbind, stateM_bind, st_bind.
  pose proof (localParquetPath_ok e s He Hf) as H. destruct (localParquetPath _ _ e s) as [[path|err|] s1];
    destruct H as (Hp & Hf1 & Hc & Hi & Hpath & Hlocal); [| |done].
  2: { split; [done|]. split; [done|]. split; [done|]. destruct (base_isS3 _); [by left|by specialize (Hlocal eq_refl)]. }
  specialize (Hpath path eq_refl). cbn. destruct (readFirstSeenRows parquet env path (fs_files s1)) as [rows|] eqn:Hr; cbn.
  - apply readFirstSeenRows_ok in Hr as (d & Hd & Hrows). split; [done|]. split; [done|]. split; [done|].
    assert (epoch_rows e rows) as Her by (exists d; split; congruence).
    pose proof (epoch_of_rows_spec (fs_deadlineMS src) e rows) as Hs. destruct (epoch_of_rows _ _ _) as [data|err|] eqn:Ed; [eauto| |done].
    right. right. intros rows' (d' & Hd' & Hrows'). assert (rows' = rows) as -> by congruence. done.
  - split; [done|]. split; [done|]. split; [done|]. destruct (base_isS3 _); [by left|]. right.
    specialize (Hlocal eq_refl). injection Hlocal as ->.
    unfold readable. unfold readFirstSeenRows, ReadFile in Hr. rewrite Hpath in Hr.
    destruct (open_fails env _); [left; by intros [? _]|]. destruct (read_fails env _); [left; by intros [_ ?]|].
    right. intros rows (d & Hd & Hrows). rewrite Hd in Hr. cbn in Hr. congruence.
Qed.

Lemma source_epoch_ok e s :
  u64 e -> first_seen_ok s ->
  let '(o, s') := source_epoch parquet stat_fails env src e s in
  first_seen_ok s'
  /\ match o with
     | Ok data => exists rows, epoch_rows e rows /\ epoch_of_rows (fs_deadlineMS src) e rows = Ok data
     | Err _ => base_isS3 (fs_base src) = true \/ ~ readable (firstSeenLocalPath src e)
                \/ forall rows, epoch_rows e rows -> ~ Forall (good_row (fs_deadlineMS src) e) rows
     | Panic => False
     end
  /\ (is_Some (lru_map (fs_cache s) !! e) -> fs_files s' = fs_files s /\ fs_store s' = fs_store s).
Proof.
  intros He (Hi & Hc & Hf). unfold source_epoch.
  pose proof (lru_get_value e (fs_cache s)) as Hv. pose proof (lru_get_map e (fs_cache s)) as Hm.
  destruct (lru_get e (fs_cache s)) as [hit c]. cbn [fst snd] in Hv, Hm.
  assert (Hc1 : fs_cache_ok c) by (unfold fs_cache_ok, lru_all in *; by rewrite Hm).
  destruct hit as [data|].
  { split; [by split_and!|]. split; [|done]. apply Hc. by rewrite Hv. }
  rewrite decide_False by (cbn; rewrite Hi; set_solver).
  set (s1 := set_inflight _ _). assert (Hf1 : files_ok s1) by exact Hf.
  pose proof (loadEpoch_ok e s1 He Hf1) as H. destruct (loadEpoch _ _ _ _ e s1) as [o s2].
  destruct H as (Hf2 & Hc2 & Hi2 & Ho). cbn in Hc2, Hi2.
  assert (Hi3 : fs_inflight s2 ∖ {[e]} = ∅) by (rewrite Hi2, Hi; set_solver).
  split; [|split; [done|intros [? Hx]; rewrite Hx in Hv; done]].
  destruct o as [data|err|]; [|split_and!; cbn; [done|by rewrite Hc2|done]|done].
  split_and!; cbn; [done| |done]. intros k v Hk. destruct (decide (e = k)) as [<-|Hne].
  - rewrite lru_add_stored in Hk. injection Hk as <-. exact Ho.
  - apply lru_add_others in Hk; [|done]. rewrite Hc2 in Hk. by apply Hc1.
Qed.
End source.

(** ** A sample source: one local epoch file *)

Definition sample_root (b : byte) : bytes := str "0x" ++ hex_encode (replicate 31 x00 ++ [b]).
Definition sample_row (slot epoch validator : N) (block : byte) (seen : N) : firstSeenParquetRow :=
  mkRow slot epoch validator (sample_root block) 1 (sample_root x01) 2 (sample_root x02) seen.
Definition sample_rows : list firstSeenParquetRow :=
  [sample_row 64 2 12 x11 12000; sample_row 64 2 10 x22 1000; sample_row 64 2 10 x11 1000; sample_row 64 2 11 x11 12001;
   sample_row 64 2 10 x11 2000; sample_row 65 2 10 x11 1000].
Definition sample_parquet (data : bytes) : option (list firstSeenParquetRow) :=
  if decide (data = str "rows") then Some sample_rows else None.

Definition sample_source : FirstSeenAttestationSource :=
  mkSource (mkBase (str "/fs") (str "/fs") [] false) (str "mainnet") 12000 (str "/cache").
Definition sample_fs_env : io_env :=
  mkEnv (fun _ => false) (fun _ => None) (fun _ => false) (fun _ => None) (fun _ => false) (fun _ => str "/fs/tmp").
#[local] Instance sample_fs_store : Store (gmap bytes bytes) := client_store map_minio sample_fs_env (str "bucket").
#[local] Instance sample_fs_lru : Lru N firstSeenEpoch (list (N * firstSeenEpoch)) := lru_list 64.
Definition sample_fs_files : world := {[firstSeenLocalPath sample_source 2 := str "rows"]}.
Definition sample_fs_state : first_seen_state (T := gmap bytes bytes) := mkFSS lru_empty ∅ sample_fs_files None.
Definition sample_content (epoch : N) : option bytes := sample_fs_files !! firstSeenLocalPath sample_source epoch.
Definition sample_answer (slot : N) :=
  SourceAttestationsForSlot sample_parquet (fun _ => false) sample_fs_env sample_source slot sample_fs_state.


Lemma sample_fs_temps : cache_temps_apart sample_fs_env sample_source.
Proof.
  intros p e He. unfold firstSeenCachePath. change [?a; ?b; ?c; ?d] with ([a; b; c] ++ [d]).
  rewrite Join_file_name by by apply epoch_file_name. set (dir := join_dir _). vm_compute in dir. discriminate.
Qed.

Lemma sample_fs_ok : first_seen_ok sample_parquet (fun w => w) sample_source sample_content sample_fs_state.
Proof. split; [done|]. split; [apply lru_all_empty|]. by intros e _. Qed.

Example first_seen_sample :
  match (sample_answer 64).1 with Ok l => (fun a => (last (BeaconBlockRoot a), AttestingIndices a)) <$> l | _ => [] end
  = [(Some x11, [10; 12]); (Some x22, [10])].
Proof. vm_compute. reflexivity. Qed.

(** ** Theorems *)

(** C39: the first-seen source.  From a state whose epoch cache and downloaded files are
    copies of the source's parquet files, asking for the attestations of any slot ends
    without panic or waiting in such a state.  The answer consists of one attestation per
    distinct vote (slot, block, source, target) that some row of the slot's epoch records
    as seen by the deadline, in strictly ascending key order, with exactly the validators
    that cast it, each once and ascending; every row seen in time was checked.  A local
    source fails only when its file cannot be read or a row seen in time has a wrong
    epoch or a malformed root.  An epoch in the cache is answered without any I/O. *)
Theorem first_seen_source_spec (parquet : bytes -> option (list firstSeenParquetRow)) (stat_fails : bytes -> bool)
    {T} {ST : Store T} (objects : T -> gmap bytes bytes) (env : io_env) {SS : StoreSpec T env objects}
    {C} {L : Lru N firstSeenEpoch C} (src : FirstSeenAttestationSource) (content : N -> option bytes) (slot : N)
    (s : first_seen_state) :
  u64 slot -> cache_temps_apart env src -> first_seen_ok parquet objects src content s ->
  let epoch := slot / 32 in
  let '(o, s') := SourceAttestationsForSlot parquet stat_fails env src slot s in
  first_seen_ok parquet objects src content s'
  /\ match o with
     | Ok l => exists rows, epoch_rows parquet content epoch rows
         /\ Forall (good_row (fs_deadlineMS src) epoch) rows /\ first_seen_answer (fs_deadlineMS src) rows slot l
     | Err _ => base_isS3 (fs_base src) = true \/ ~ readable env (firstSeenLocalPath src epoch)
         \/ forall rows, epoch_rows parquet content epoch rows -> ~ Forall (good_row (fs_deadlineMS src) epoch) rows
     | Panic => False
     end
  /\ (is_Some (lru_map (fs_cache s) !! epoch) -> fs_files s' = fs_files s /\ fs_store s' = fs_store s).
Proof.
  intros Hs Ht Hok epoch. assert (He : u64 epoch) by (unfold epoch; u64_lia).
  pose proof (source_epoch_ok parquet stat_fails objects env src content Ht epoch s He Hok) as H.
  unfold SourceAttestationsForSlot, mbind, stateM_bind, st_bind. change (slot / mainnetSlotsPerEpoch) with epoch.
  destruct (source_epoch _ _ _ _ epoch s) as [[data|err|] s']; destruct H as (Hok' & H & Hio); [|by split|done].
  split; [done|]. split; [|done]. destruct H as (rows & Hrows & Hdata). exists rows. split; [done|].
  pose proof (epoch_of_rows_spec (fs_deadlineMS src) epoch rows) as Hspec. rewrite Hdata in Hspec.
  destruct Hspec as [Hg Ha]. split; [done|]. apply Ha.
Qed.

Lemma first_seen_source_spec_witness :
  exists l, (sample_answer 64).1 = Ok l /\ AttestingIndices <$> l = [[10; 12]; [10]]
    /\ first_seen_answer 12000 sample_rows 64 l.
Proof.
  assert (match (sample_answer 64).1 with Ok l => AttestingIndices <$> l | _ => [] end = [[10; 12]; [10]])
    as Hv by (vm_compute; reflexivity).
  pose proof (first_seen_source_spec sample_parquet (fun _ => false) (fun w => w) sample_fs_env
    (SS := client_spec map_minio sample_fs_env (str "bucket") (fun w => w) (map_minio_ok (str "bucket")))
    sample_source sample_content 64 sample_fs_state ltac:(u64_lia) sample_fs_temps sample_fs_ok) as H.
  change (SourceAttestationsForSlot _ _ _ _ _ _) with (sample_answer 64) in H.
  destruct (sample_answer 64) as [[l|e|] s']; cbn [fst] in *; [|discriminate Hv..].
  exists l. split; [reflexivity|]. split; [exact Hv|].
  destruct H as (_ & (rows & (d & Hd & Hrows) & _ & Ha) & _).
  unfold sample_parquet in Hrows. destruct (decide (d = str "rows")); [|discriminate Hrows].
  injection Hrows as <-. exact Ha.
Defined.
