(* ===== verification/Server.v ===== *)
(** * The Beacon API server ([pkg/beaconapi/server.go], [types.go])

    A request is what [net/http] hands to the handler: method, decoded path, the
    [Accept] header and the query values.  The backend is the class [Backend], the Go
    interface of that name.  A response records its body by what it was written from:
    a text, an error's message, SSZ bytes, or the JSON value that is encoded.  A handler
    that panics ([net/http] recovers and drops the connection) has no response. *)

From S2P Require Import Prelude Bytes Json GoStrings PlanSources.
From Stdlib Require Import Strings.Byte.

(** ** The interface of the backend *)

Record GenesisInfo := mkGenesisInfo { GenesisTime : N; GenesisValidatorsRoot : bytes; GenesisForkVersion : bytes }.

Class Backend (B E : Type) := {
  (** [errors.Is(err, ErrNotFound)] *)
  backend_not_found : E -> bool;
  BlockSSZBySlot : N -> stateM B E bytes;
  BlockSSZByRoot : bytes -> stateM B E bytes;
  StateSSZBySlot : N -> stateM B E bytes;
  GenesisStateSSZ : stateM B E bytes;
  GetGenesisInfo : stateM B E GenesisInfo;
  ConsensusVersionAtSlot : N -> B -> bytes;
  BackendPlan : N -> N -> stateM B E (list PlanEntry);
  BackendSlot : N -> N -> stateM B E SlotInstruction
}.

(** ** Requests and responses *)

Record request := mkRequest { Method : bytes; URLPath : bytes; Accept : bytes; Query : list (bytes * bytes) }.

(** [url.Values.Get] *)
Definition query_get (key : bytes) (r : request) : bytes :=
  match find (fun kv => bool_decide (kv.1 = key)) (Query r) with Some kv => kv.2 | None => [] end.

Inductive resp_body (E : Type) := BText (msg : bytes) | BError (e : E) | BSSZ (data : bytes) | BJson (v : jvalue).
Arguments BText {E}.
Arguments BError {E}.
Arguments BSSZ {E}.
Arguments BJson {E}.

Record response (E : Type) := mkResponse {
  Status : Z;
  ContentType : bytes;
  ConsensusVersion : bytes;   (** empty: the header is not set *)
  Body : resp_body E
}.
Arguments mkResponse {E}.
Arguments Status {E}.
Arguments ContentType {E}.
Arguments ConsensusVersion {E}.
Arguments Body {E}.

Abbreviation planVersion := 2%N.
Abbreviation slotVersion := 3%N.
Definition blocksPrefix : bytes := str "/eth/v2/beacon/blocks/".
Definition statesPrefix : bytes := str "/eth/v2/debug/beacon/states/".
Definition genesisPath : bytes := str "/eth/v2/beacon/genesis".
Definition planPath : bytes := str "/fcr-sim/v1/plan".
Definition slotPrefix : bytes := str "/fcr-sim/v1/slot/".
Definition contentTypeSSZ : bytes := str "application/octet-stream".
Definition contentTypeJSON : bytes := str "application/json".

(** ** Parsing *)

Definition parseUint64ID (value : bytes) : option N :=
  if decide (value = []) then None
  else if forallb digit value then parse_uint value else None.

Definition parseRequiredUint64Query (value : bytes) : option N :=
  if decide (value = []) then None else parseUint64ID value.

Inductive parsedBlockID := blockIDSlot (slot : N) | blockIDRoot (root : bytes) | blockIDUnsupported.

(** The error is its message. *)
Definition parseBlockID (value : bytes) : bytes + parsedBlockID :=
  if bool_decide (value ∈ [str "genesis"; str "head"; str "finalized"; str "justified"]) then inr blockIDUnsupported
  else match parseUint64ID value with
       | Some slot => inr (blockIDSlot slot)
       | None =>
           if has_prefix value (str "0x") then
             if negb (length value =? 66)%nat then inl (str "invalid block root length")
             else match hex_decode (drop 2 value) with
                  | None => inl (str "invalid block root hex")
                  | Some decoded =>
                      if negb (length decoded =? 32)%nat then inl (str "invalid block root length")
                      else inr (blockIDRoot decoded)
                  end
           else inl (str "invalid block id")
       end.

(** The parameters of a media range: the last [q] counts. *)
Fixpoint accept_q (parts : list bytes) (q : bytes) : bytes :=
  match parts with
  | [] => q
  | part :: parts' =>
      accept_q parts' (match cut x3d (TrimSpace part) with
                       | Some (key, value) => if EqualFold key (str "q") then TrimSpace value else q
                       | None => q
                       end)
  end.

Definition parseAcceptItem (item : bytes) : bytes * bytes :=
  let parts := split_on x3b item in
  (ToLower (TrimSpace (default [] (head parts))), accept_q (tail parts) (str "1")).

Fixpoint accepts_any (items : list bytes) : bool :=
  match items with
  | [] => false
  | item :: items' =>
      let '(mediaType, q) := parseAcceptItem item in
      if bool_decide (q ∈ [str "0"; str "0.0"; str "0.00"; str "0.000"]) then accepts_any items'
      else if bool_decide (mediaType ∈ [contentTypeSSZ; str "application/*"; str "*/*"]) then true
      else accepts_any items'
  end.

Definition acceptsSSZ (accept : bytes) : bool :=
  let accept := TrimSpace accept in
  if decide (accept = []) then true else accepts_any (split_on x2c accept).

(** ** JSON values: the struct tags of [types.go] *)

Definition genesis_json (g : GenesisInfo) : jvalue :=
  JObject [(str "genesis_time", JString (format_uint (GenesisTime g)));
           (str "genesis_validators_root", JString (GenesisValidatorsRoot g));
           (str "genesis_fork_version", JString (GenesisForkVersion g))].

Definition import_json (i : PlanBlockImport) : jvalue :=
  JObject [(str "slot", jnum (i_Slot i)); (str "root", JString (i_Root i)); (str "canonical", JBool (Canonical i))].

Definition source_json (s : PlanAttestationSource) : jvalue :=
  JObject [(str "slot", jnum (s_Slot s)); (str "max_attestation_slot", jopt jnum (MaxAttestationSlot s))].

Definition entry_json (e : PlanEntry) : jvalue :=
  JObject [(str "sim_slot", jnum (pe_SimSlot e)); (str "eval_slot", jnum (pe_EvalSlot e));
           (str "import_blocks", JArray (import_json <$> pe_ImportBlocks e));
           (str "attestation_sources", JArray (source_json <$> AttestationSources e));
           (str "source_block_slot", jopt jnum (pe_SourceBlockSlot e))].

Definition checkpoint_json (c : PlanCheckpoint) : jvalue :=
  JObject [(str "epoch", jnum (Epoch c)); (str "root", JString (c_Root c))].

Definition attestation_data_json (d : PlanAttestationData) : jvalue :=
  JObject [(str "slot", jnum (pd_Slot d)); (str "index", jnum (pd_Index d));
           (str "beacon_block_root", JString (pd_BeaconBlockRoot d));
           (str "source", checkpoint_json (Source d)); (str "target", checkpoint_json (Target d))].

(** [omitempty]: empty strings, nil pointers and empty lists have no member. *)
Definition attestation_json (a : PlanAttestation) : jvalue :=
  JObject ((if decide (pa_AggregationBits a = []) then [] else [(str "aggregation_bits", JString (pa_AggregationBits a))])
           ++ match pa_CommitteeBits a with Some bits => [(str "committee_bits", JString bits)] | None => [] end
           ++ [(str "data", attestation_data_json (Data a))]
           ++ match pa_AttestingIndices a with [] => [] | l => [(str "attesting_indices", JArray (jnum <$> l))] end).

Definition instruction_json (s : SlotInstruction) : jvalue :=
  JObject [(str "sim_slot", jnum (si_SimSlot s)); (str "eval_slot", jnum (si_EvalSlot s));
           (str "import_blocks", JArray (import_json <$> si_ImportBlocks s));
           (str "attestations", JArray (attestation_json <$> si_Attestations s))].

Definition plan_json (entries : list PlanEntry) : jvalue :=
  JObject [(str "version", jnum planVersion); (str "entries", JArray (entry_json <$> entries))].
Definition slot_json (slot : SlotInstruction) : jvalue :=
  JObject [(str "version", jnum slotVersion); (str "slot", instruction_json slot)].

(** ** Handlers *)

Section server.
Context {B E : Type} {BK : Backend B E}.

Abbreviation reply := (option (response E) * B)%type.

(** [http.Error] and [http.NotFound] *)
Definition http_error (msg : bytes) (status : Z) : response E :=
  mkResponse status (str "text/plain; charset=utf-8") [] (BText (msg ++ [x0a])).
Definition NotFound : response E := http_error (str "404 page not found") 404.

Definition writeSSZ (data consensusVersion : bytes) : response E :=
  mkResponse 200 contentTypeSSZ consensusVersion (BSSZ data).
Definition writeJSON (v : jvalue) : response E := mkResponse 200 contentTypeJSON [] (BJson v).

Definition writeBackendError (e : E) : response E :=
  if backend_not_found e then http_error (str "not found") 404
  else mkResponse 500 (str "text/plain; charset=utf-8") [] (BError e).

(** [data, err := s.backend.<call>; if err != nil { writeBackendError; return }; ...] *)
Definition respond {A} (call : stateM B E A) (write : A -> B -> response E) (b : B) : reply :=
  match call b with
  | (Ok a, b) => (Some (write a b), b)
  | (Err e, b) => (Some (writeBackendError e), b)
  | (Panic, b) => (None, b)
  end.

Definition handleBlock (r : request) (b : B) : reply :=
  if negb (acceptsSSZ (Accept r)) then (Some (http_error (str "SSZ response is not acceptable") 406), b)
  else
    let blockID := trim_prefix (URLPath r) blocksPrefix in
    if bool_decide (blockID = []) || contains blockID (str "/") then (Some NotFound, b)
    else match parseBlockID blockID with
         | inl msg => (Some (http_error msg 400), b)
         | inr (blockIDSlot slot) =>
             respond (BlockSSZBySlot slot) (fun data b => writeSSZ data (ConsensusVersionAtSlot slot b)) b
         | inr (blockIDRoot root) => respond (BlockSSZByRoot root) (fun data _ => writeSSZ data []) b
         | inr blockIDUnsupported => (Some NotFound, b)
         end.

Definition handleState (r : request) (b : B) : reply :=
  if negb (acceptsSSZ (Accept r)) then (Some (http_error (str "SSZ response is not acceptable") 406), b)
  else
    let stateID := trim_prefix (URLPath r) statesPrefix in
    if bool_decide (stateID = []) || contains stateID (str "/") then (Some NotFound, b)
    else if decide (stateID = str "genesis") then
      respond GenesisStateSSZ (fun data b => writeSSZ data (ConsensusVersionAtSlot 0 b)) b
    else if has_prefix stateID (str "0x") then (Some NotFound, b)
    else match parseUint64ID stateID with
         | None => (Some (http_error (str "invalid state id") 400), b)
         | Some slot =>
             respond (StateSSZBySlot slot) (fun data b => writeSSZ data (ConsensusVersionAtSlot slot b)) b
         end.

Definition handleGenesis (b : B) : reply := respond GetGenesisInfo (fun info _ => writeJSON (genesis_json info)) b.

Definition handlePlan (r : request) (b : B) : reply :=
  match parseRequiredUint64Query (query_get (str "from") r) with
  | None => (Some (http_error (str "from query parameter is required and must be a uint64") 400), b)
  | Some from =>
      match parseRequiredUint64Query (query_get (str "to") r) with
      | None => (Some (http_error (str "to query parameter is required and must be a uint64") 400), b)
      | Some to =>
          if to <? from then (Some (http_error (str "from must be less than or equal to to") 400), b)
          else respond (BackendPlan from to) (fun entries _ => writeJSON (plan_json entries)) b
      end
  end.

Definition handleSlot (r : request) (b : B) : reply :=
  let slotID := trim_prefix (URLPath r) slotPrefix in
  if bool_decide (slotID = []) || contains slotID (str "/") then (Some NotFound, b)
  else match parseUint64ID slotID with
       | None => (Some (http_error (str "invalid sim slot") 400), b)
       | Some simSlot =>
           match parseRequiredUint64Query (query_get (str "warmup_start_slot") r) with
           | None => (Some (http_error (str "warmup_start_slot query parameter is required and must be a uint64") 400), b)
           | Some warmupStartSlot =>
               if simSlot <=? warmupStartSlot
               then (Some (http_error (str "sim slot must be greater than warmup_start_slot") 400), b)
               else respond (BackendSlot simSlot warmupStartSlot) (fun slot _ => writeJSON (slot_json slot)) b
           end
       end.

(** The server of a backend; the nil backend is in [serveHTTP_nil]. *)
Definition serveHTTP (r : request) (b : B) : reply :=
  if negb (bool_decide (Method r = str "GET")) then (Some (http_error (str "method not allowed") 405), b)
  else if has_prefix (URLPath r) blocksPrefix then handleBlock r b
  else if has_prefix (URLPath r) statesPrefix then handleState r b
  else if decide (URLPath r = genesisPath) then handleGenesis b
  else if has_prefix (URLPath r) slotPrefix then handleSlot r b
  else if decide (URLPath r = planPath) then handlePlan r b
  else (Some NotFound, b).

Definition serveHTTP_nil (r : request) : response E :=
  if negb (bool_decide (Method r = str "GET")) then http_error (str "method not allowed") 405
  else http_error (str "backend is not configured") 500.
End server.

(** ** Specification: what the server asks of the backend *)

Inductive backend_call :=
| CBlock (slot : N) | CRoot (root : bytes) | CState (slot : N) | CGenesisState | CGenesisInfo
| CPlan (from to : N) | CSlot (simSlot warmupStartSlot : N).

(** The arguments a backend call is made with. *)
Definition valid_call (c : backend_call) : Prop :=
  match c with
  | CBlock slot | CState slot => u64 slot
  | CRoot root => length root = 32%nat
  | CGenesisState | CGenesisInfo => True
  | CPlan from to => from <= to /\ u64 to
  | CSlot simSlot warmup => warmup < simSlot /\ u64 simSlot
  end.

(** The call a request asks for. *)
Definition asks (r : request) (c : backend_call) : Prop :=
  match c with
  | CBlock slot => exists id, URLPath r = blocksPrefix ++ id /\ parseBlockID id = inr (blockIDSlot slot)
  | CRoot root => exists id, URLPath r = blocksPrefix ++ id /\ parseBlockID id = inr (blockIDRoot root)
  | CState slot => exists id, URLPath r = statesPrefix ++ id /\ parseUint64ID id = Some slot
  | CGenesisState => URLPath r = statesPrefix ++ str "genesis"
  | CGenesisInfo => URLPath r = genesisPath
  | CPlan from to =>
      URLPath r = planPath /\ parseRequiredUint64Query (query_get (str "from") r) = Some from
      /\ parseRequiredUint64Query (query_get (str "to") r) = Some to
  | CSlot simSlot warmup => exists id,
      URLPath r = slotPrefix ++ id /\ parseUint64ID id = Some simSlot
      /\ parseRequiredUint64Query (query_get (str "warmup_start_slot") r) = Some warmup
  end.

(** The calls that are answered with SSZ. *)
Definition ssz_call (c : backend_call) : bool :=
  match c with CBlock _ | CRoot _ | CState _ | CGenesisState => true | _ => false end.

(** The request makes the call: it asks for it, validly, with the right method, and
    accepts the reply. *)
Definition makes (r : request) (c : backend_call) : Prop :=
  Method r = str "GET" /\ valid_call c /\ asks r c /\ (ssz_call c = true -> acceptsSSZ (Accept r) = true).

(** A canonical address of a call. *)
Definition request_for (accept : bytes) (c : backend_call) : request :=
  let get path query := mkRequest (str "GET") path accept query in
  match c with
  | CBlock slot => get (blocksPrefix ++ format_uint slot) []
  | CRoot root => get (blocksPrefix ++ formatRoot root) []
  | CState slot => get (statesPrefix ++ format_uint slot) []
  | CGenesisState => get (statesPrefix ++ str "genesis") []
  | CGenesisInfo => get genesisPath []
  | CPlan from to => get planPath [(str "from", format_uint from); (str "to", format_uint to)]
  | CSlot simSlot warmup => get (slotPrefix ++ format_uint simSlot) [(str "warmup_start_slot", format_uint warmup)]
  end.

(** The reply to a call: its result, or the error as a status. *)
Definition answer {B E} {BK : Backend B E} (c : backend_call) : B -> option (response E) * B :=
  match c with
  | CBlock slot => respond (BlockSSZBySlot slot) (fun data b => writeSSZ data (ConsensusVersionAtSlot slot b))
  | CRoot root => respond (BlockSSZByRoot root) (fun data _ => writeSSZ data [])
  | CState slot => respond (StateSSZBySlot slot) (fun data b => writeSSZ data (ConsensusVersionAtSlot slot b))
  | CGenesisState => respond GenesisStateSSZ (fun data b => writeSSZ data (ConsensusVersionAtSlot 0 b))
  | CGenesisInfo => respond GetGenesisInfo (fun info _ => writeJSON (genesis_json info))
  | CPlan from to => respond (BackendPlan from to) (fun entries _ => writeJSON (plan_json entries))
  | CSlot simSlot warmup => respond (BackendSlot simSlot warmup) (fun slot _ => writeJSON (slot_json slot))
  end.

(** ** Lemmas: parsing *)

Lemma parseUint64ID_u64 value n : parseUint64ID value = Some n -> u64 n.
Proof.
  unfold parseUint64ID. case_decide; [done|]. destruct (forallb _ _); [|done]. apply parse_uint_u64.
Qed.

Lemma parseUint64ID_format n : u64 n -> parseUint64ID (format_uint n) = Some n.
Proof.
  intros Hn. unfold parseUint64ID. rewrite decide_False by apply format_uint_ne.
  replace (forallb digit (format_uint n)) with true; [by apply parse_format_uint|].
  symmetry. apply forallb_forall. intros c Hc%list_elem_of_In. by apply (proj1 (Forall_forall _ _) (format_uint_all_digits n Hn)).
Qed.

Lemma contains_slash s : Forall (fun c => c ≠ x2f) s -> contains s (str "/") = false.
Proof.
  induction 1 as [|c s Hc Hs IH]; [done|]. cbn [contains]. rewrite IH, orb_false_r. cbn.
  by rewrite decide_False by congruence.
Qed.

Lemma format_uint_no_slash n : u64 n -> contains (format_uint n) (str "/") = false.
Proof.
  intros Hn. apply contains_slash. eapply Forall_impl; [by apply format_uint_all_digits|]. intros c Hc ->. by vm_compute in Hc.
Qed.

Lemma formatRoot_no_slash root : contains (formatRoot root) (str "/") = false.
Proof.
  apply contains_slash. unfold formatRoot. constructor; [done|]. constructor; [done|].
  induction root as [|b root IH]; [constructor|]. cbn [hex_encode].
  assert (Hd : forall n, n < 16 -> hex_digit n ≠ x2f).
  { intros n Hn H. apply (f_equal hex_value) in H. by rewrite hex_value_digit in H. }
  constructor; [|constructor; [|exact IH]]; apply Hd; pose proof (byte_val_lt b); lia.
Qed.

Lemma trim_prefix_app p s : trim_prefix (p ++ s) p = s.
Proof. unfold trim_prefix. by rewrite has_prefix_app, drop_app_length. Qed.

Lemma parseBlockID_format n : u64 n -> parseBlockID (format_uint n) = inr (blockIDSlot n).
Proof.
  intros Hn. unfold parseBlockID. rewrite parseUint64ID_format by done. rewrite bool_decide_eq_false_2; [done|].
  intros Hin. pose proof (parseUint64ID_format n Hn) as H.
  repeat (apply elem_of_cons in Hin as [Hin|Hin]; [by rewrite Hin in H|]). by apply not_elem_of_nil in Hin.
Qed.

Lemma parseBlockID_root root : length root = 32%nat -> parseBlockID (formatRoot root) = inr (blockIDRoot root).
Proof.
  intros Hl. unfold parseBlockID. rewrite bool_decide_eq_false_2.
  2: { intros Hin. repeat (apply elem_of_cons in Hin as [Hin|Hin]; [discriminate Hin|]). by apply not_elem_of_nil in Hin. }
  replace (parseUint64ID (formatRoot root)) with (@None N) by reflexivity.
  replace (has_prefix (formatRoot root) (str "0x")) with true by (symmetry; apply has_prefix_app).
  replace (length (formatRoot root)) with 66%nat by (unfold formatRoot; rewrite length_app, length_hex_encode, Hl; done).
  cbn [negb Nat.eqb]. change (drop 2 (formatRoot root)) with (hex_encode root). by rewrite hex_decode_encode, Hl.
Qed.

Lemma parseBlockID_valid value id : parseBlockID value = inr id ->
  match id with blockIDSlot slot => u64 slot | blockIDRoot root => length root = 32%nat | blockIDUnsupported => True end.
Proof.
  unfold parseBlockID. case_bool_decide; [by intros [= <-]|].
  destruct (parseUint64ID value) eqn:E; [intros [= <-]; by eapply parseUint64ID_u64|].
  destruct (has_prefix _ _), (length value =? 66)%nat; try done. cbn [negb]. destruct (hex_decode _) as [root|]; [|done].
  destruct (Nat.eqb_spec (length root) 32); [|done]. by intros [= <-].
Qed.

(** An id that parses is a path element. *)
Definition path_element (id : bytes) : Prop := id ≠ [] /\ contains id (str "/") = false.

Lemma parseUint64ID_digits id n : parseUint64ID id = Some n -> id ≠ [] /\ Forall (fun c => digit c = true) id.
Proof.
  unfold parseUint64ID. case_decide; [done|]. destruct (forallb digit id) eqn:Hd; [|done]. intros _.
  split; [done|]. apply Forall_forall. intros c Hc. rewrite forallb_forall in Hd. by apply Hd, list_elem_of_In.
Qed.

Lemma parseUint64ID_element id n : parseUint64ID id = Some n -> path_element id.
Proof.
  intros [Hne Hd]%parseUint64ID_digits. split; [done|]. apply contains_slash.
  eapply Forall_impl; [exact Hd|]. by intros c Hc ->.
Qed.

Lemma hex_decode_no_slash s root : hex_decode s = Some root -> Forall (fun c => c ≠ x2f) s.
Proof.
  revert root. induction s as [s IH] using (induction_ltof1 _ length). intros root.
  destruct s as [|c [|d s]]; [constructor|done|]. cbn [hex_decode].
  destruct (hex_value c) eqn:Hc; [|done]. destruct (hex_value d) eqn:Hd; [|done].
  destruct (hex_decode s) as [rest|] eqn:Hs; [|done]. intros _.
  constructor; [by intros ->|]. constructor; [by intros ->|]. eapply (IH s); [|done]. unfold ltof. cbn. lia.
Qed.

Lemma parseBlockID_element id v : parseBlockID id = inr v -> v ≠ blockIDUnsupported -> path_element id.
Proof.
  unfold parseBlockID. case_bool_decide; [by intros [= <-]|].
  destruct (parseUint64ID id) as [slot|] eqn:E; [intros _ _; by eapply parseUint64ID_element|].
  destruct (has_prefix id (str "0x")) eqn:Hx; [|done]. destruct (length id =? 66)%nat; [|done].
  cbn [negb]. destruct (hex_decode (drop 2 id)) as [root|] eqn:Hd; [|done]. intros _ _.
  apply has_prefix_spec in Hx as [t ->]. split; [done|]. apply contains_slash.
  constructor; [done|]. constructor; [done|]. by eapply hex_decode_no_slash.
Qed.

(** ** Lemmas: the handlers *)

Section server_lemmas.
Context {B E : Type} {BK : Backend B E}.
Implicit Types b : B.

(** Answered without the backend: a client error. *)
Definition refused (b : B) (r : option (response E) * B) : Prop :=
  exists resp, r = (Some resp, b) /\ (Status resp ∈ [400; 404; 405; 406])%Z.

Lemma refused_error msg status b : (status ∈ [400; 404; 405; 406])%Z -> refused b (Some (http_error msg status), b).
Proof. intros H. by eexists. Qed.

(** The two kinds of replies. *)
Definition served (r : request) (b : B) (reply : option (response E) * B) : Prop :=
  refused b reply \/ exists c, makes r c /\ reply = answer c b.

Lemma served_error r b msg status :
  (status ∈ [400; 404; 405; 406])%Z -> served r b (Some (http_error msg status), b).
Proof. left. by apply refused_error. Qed.

Lemma trim_prefix_eq s p : has_prefix s p = true -> s = p ++ trim_prefix s p.
Proof. intros [t ->]%has_prefix_spec. by rewrite trim_prefix_app. Qed.

#[local] Hint Extern 1 (served _ _ (Some (http_error _ _), _)) => apply served_error; set_solver : core.
#[local] Hint Extern 1 (served _ _ (Some NotFound, _)) => apply served_error; set_solver : core.

Lemma handleBlock_sound r b : Method r = str "GET" -> has_prefix (URLPath r) blocksPrefix = true -> served r b (handleBlock r b).
Proof.
  intros Hg Hp%trim_prefix_eq. unfold handleBlock. destruct (acceptsSSZ _) eqn:Ha; cbn [negb]; [|auto].
  destruct (_ || _); [auto|]. destruct (parseBlockID _) as [msg|id] eqn:Ep; [auto|].
  pose proof (parseBlockID_valid _ _ Ep). destruct id as [slot|root|]; [right; exists (CBlock slot)|right; exists (CRoot root)|auto];
    (split; [|done]; split_and!; [done|done|by eexists|done]).
Qed.

Lemma handleState_sound r b : Method r = str "GET" -> has_prefix (URLPath r) statesPrefix = true -> served r b (handleState r b).
Proof.
  intros Hm Hp%trim_prefix_eq. unfold handleState. destruct (acceptsSSZ _) eqn:Ha; cbn [negb]; [|auto].
  destruct (_ || _); [auto|].
  case_decide as Hg; [right; exists CGenesisState; split; [split_and!; [done|done|by rewrite Hg in Hp|done]|done]|].
  destruct (has_prefix _ (str "0x")); [auto|]. destruct (parseUint64ID _) as [slot|] eqn:Ep; [|auto].
  right. exists (CState slot). split; [|done]. split_and!; [done|by eapply parseUint64ID_u64|by eexists|done].
Qed.

Lemma parseRequired_u64 value n : parseRequiredUint64Query value = Some n -> u64 n.
Proof. unfold parseRequiredUint64Query. case_decide; [done|]. apply parseUint64ID_u64. Qed.

Lemma handlePlan_sound r b : Method r = str "GET" -> URLPath r = planPath -> served r b (handlePlan r b).
Proof.
  intros Hm Hp. unfold handlePlan.
  destruct (parseRequiredUint64Query (query_get (str "from") r)) as [from|] eqn:Ef; [|auto].
  destruct (parseRequiredUint64Query (query_get (str "to") r)) as [to|] eqn:Et; [|auto].
  destruct (N.ltb_spec to from); [auto|].
  right. exists (CPlan from to). split; [|done]. split_and!; [done|split; [done|by eapply parseRequired_u64]|done|done].
Qed.

Lemma handleSlot_sound r b : Method r = str "GET" -> has_prefix (URLPath r) slotPrefix = true -> served r b (handleSlot r b).
Proof.
  intros Hm Hp%trim_prefix_eq. unfold handleSlot. destruct (_ || _); [auto|].
  destruct (parseUint64ID _) as [simSlot|] eqn:Es; [|auto].
  destruct (parseRequiredUint64Query _) as [warmup|] eqn:Ew; [|auto].
  destruct (N.leb_spec simSlot warmup); [auto|].
  right. exists (CSlot simSlot warmup). split; [|done].
  split_and!; [done|split; [done|by eapply parseUint64ID_u64]|by eexists|done].
Qed.

Lemma serveHTTP_sound r b : served r b (serveHTTP r b).
Proof.
  unfold serveHTTP. case_bool_decide as Hm; cbn [negb]; [|auto].
  destruct (has_prefix _ blocksPrefix) eqn:?; [by apply handleBlock_sound|].
  destruct (has_prefix _ statesPrefix) eqn:?; [by apply handleState_sound|].
  case_decide; [right; exists CGenesisInfo; by split|].
  destruct (has_prefix _ slotPrefix) eqn:?; [by apply handleSlot_sound|].
  case_decide; [by apply handlePlan_sound|auto].
Qed.

Lemma parseRequired_format n : u64 n -> parseRequiredUint64Query (format_uint n) = Some n.
Proof.
  intros Hn. unfold parseRequiredUint64Query. rewrite decide_False by apply format_uint_ne.
  by apply parseUint64ID_format.
Qed.

(** The guard on the last element of the path. *)
Lemma id_guard id : path_element id -> bool_decide (id = []) || contains id (str "/") = false.
Proof. intros [Hne ->]. by rewrite bool_decide_eq_false_2. Qed.

(** A request that makes a call is answered with it. *)
Lemma serveHTTP_makes r c b : makes r c -> serveHTTP r b = answer c b.
Proof.
  intros (Hm & Hc & Hask & Ha). unfold serveHTTP. rewrite Hm, (bool_decide_eq_true_2 (str "GET" = _)) by done. cbn [negb].
  destruct c as [slot|root|slot| | |from to|simSlot warmup]; cbn [asks valid_call ssz_call] in *; try specialize (Ha eq_refl).
  - destruct Hask as (id & Hu & Hp). rewrite Hu, has_prefix_app. unfold handleBlock.
    rewrite Ha, Hu, trim_prefix_app. cbn [negb]. by rewrite id_guard, Hp by (by eapply parseBlockID_element).
  - destruct Hask as (id & Hu & Hp). rewrite Hu, has_prefix_app. unfold handleBlock.
    rewrite Ha, Hu, trim_prefix_app. cbn [negb]. by rewrite id_guard, Hp by (by eapply parseBlockID_element).
  - destruct Hask as (id & Hu & Hp). rewrite Hu. change (has_prefix (statesPrefix ++ id) blocksPrefix) with false.
    rewrite has_prefix_app. unfold handleState. rewrite Ha, Hu, trim_prefix_app. cbn [negb].
    rewrite id_guard by (by eapply parseUint64ID_element).
    rewrite decide_False by (intros Heq; by rewrite Heq in Hp).
    destruct (has_prefix id (str "0x")) eqn:Hx; [|by rewrite Hp].
    apply has_prefix_spec in Hx as [t ->]. apply parseUint64ID_digits in Hp as [_ Hd].
    by inversion Hd as [|?? _ Hd']; inversion Hd'.
  - rewrite Hask. change (has_prefix (statesPrefix ++ _) blocksPrefix) with false. rewrite has_prefix_app.
    unfold handleState. by rewrite Ha, Hask.
  - by rewrite Hask.
  - destruct Hask as (Hu & Hf & Ht). rewrite Hu. change (has_prefix planPath blocksPrefix) with false.
    change (has_prefix planPath statesPrefix) with false. change (has_prefix planPath slotPrefix) with false.
    rewrite decide_False, decide_True by done. unfold handlePlan. rewrite Hf, Ht.
    by destruct (N.ltb_spec to from); [lia|].
  - destruct Hask as (id & Hu & Hp & Hw). rewrite Hu. change (has_prefix (slotPrefix ++ id) blocksPrefix) with false.
    change (has_prefix (slotPrefix ++ id) statesPrefix) with false. rewrite decide_False by done.
    rewrite has_prefix_app. unfold handleSlot. rewrite Hu, trim_prefix_app.
    rewrite id_guard, Hp, Hw by (by eapply parseUint64ID_element). by destruct (N.leb_spec simSlot warmup); [lia|].
Qed.

Lemma request_for_makes accept c : acceptsSSZ accept = true -> valid_call c -> makes (request_for accept c) c.
Proof.
  intros Ha Hc. split_and!; [by destruct c|done| |by destruct c].
  destruct c as [slot|root|slot| | |from to|simSlot warmup]; cbn [valid_call asks request_for URLPath] in *.
  - exists (format_uint slot). by rewrite parseBlockID_format.
  - exists (formatRoot root). by rewrite parseBlockID_root.
  - exists (format_uint slot). by rewrite parseUint64ID_format.
  - done.
  - done.
  - split; [done|]. split; apply parseRequired_format; u64_lia.
  - exists (format_uint simSlot). split; [done|]. split; [apply parseUint64ID_format|apply parseRequired_format]; u64_lia.
Qed.

(** Every call has an address, at which the server makes it. *)
Lemma serveHTTP_request_for accept c b :
  acceptsSSZ accept = true -> valid_call c -> serveHTTP (request_for accept c) b = answer c b.
Proof. intros. by apply serveHTTP_makes, request_for_makes. Qed.
End server_lemmas.

(** ** Theorems *)

(** A backend that counts its calls and knows the block of slot 7. *)
#[local] Instance toy_server_backend : Backend nat bool := {
  backend_not_found e := e;
  BlockSSZBySlot slot n := (if slot =? 7 then Ok (str "block") else Err true, S n);
  BlockSSZByRoot _ n := (Err true, S n);
  StateSSZBySlot _ n := (Err false, S n);
  GenesisStateSSZ n := (Panic, S n);
  GetGenesisInfo n := (Ok (mkGenesisInfo 12 [] []), n);
  ConsensusVersionAtSlot _ _ := str "deneb";
  BackendPlan from to n := (Ok [], S n);
  BackendSlot simSlot _ n := (Err true, S n)
}.

Example serve_block :
  serveHTTP (request_for (str "application/json;q=1, */*;q=0.5") (CBlock 7)) O
  = (Some (mkResponse 200 contentTypeSSZ (str "deneb") (BSSZ (str "block"))), 1%nat).
Proof. vm_compute. reflexivity. Qed.
Example serve_not_acceptable :
  option_map Status (serveHTTP (request_for (str "*/*;q=0, application/json") (CBlock 7)) O).1 = Some 406%Z.
Proof. vm_compute. reflexivity. Qed.
Example serve_leading_zeros :
  (serveHTTP (mkRequest (str "GET") (blocksPrefix ++ str "007") [] []) O).2 = 1%nat.
Proof. vm_compute. reflexivity. Qed.
Example serve_plan_order :
  option_map Status (serveHTTP (mkRequest (str "GET") planPath [] [(str "to", str "3"); (str "from", str "4")]) O).1
  = Some 400%Z.
Proof. vm_compute. reflexivity. Qed.

(** C36: routing of the HTTP server, for every backend.  A request is either refused
    with a client error and without touching the backend, or the reply is the result of
    exactly one backend call: the one its path and query ask for, with arguments in the
    range the backend expects (64-bit slots, 32-byte roots, [from <= to],
    [warmup_start_slot < sim_slot]); and every such call is reachable: at its address,
    with SSZ acceptable, the server makes that call and no other. *)
Theorem serveHTTP_routes {B E} {BK : Backend B E} (b : B) :
  (forall r, (exists resp, serveHTTP r b = (Some resp, b) /\ (Status resp ∈ [400; 404; 405; 406])%Z)
             \/ exists c, valid_call c /\ asks r c /\ serveHTTP r b = answer c b)
  /\ (forall accept c, acceptsSSZ accept = true -> valid_call c -> serveHTTP (request_for accept c) b = answer c b).
Proof.
  split; [intros r|intros; by apply serveHTTP_request_for].
  destruct (serveHTTP_sound r b) as [?|(c & (_ & ? & ? & _) & ?)]; [by left|right; by exists c].
Qed.

Lemma serveHTTP_routes_witness :
  acceptsSSZ (str "text/html, application/octet-stream") = true /\ valid_call (CSlot 9 8)
  /\ serveHTTP (request_for (str "text/html, application/octet-stream") (CSlot 9 8)) O = answer (CSlot 9 8) O.
Proof.
  assert (acceptsSSZ (str "text/html, application/octet-stream") = true) as Ha by (vm_compute; reflexivity).
  assert (valid_call (CSlot 9 8)) as Hc by (split; u64_lia).
  split; [exact Ha|]. split; [exact Hc|]. exact (proj2 (serveHTTP_routes O) _ _ Ha Hc).
Defined.
