(* ===== verification/RealBackend.v ===== *)
(** * The backend behind the server ([pkg/beaconapi/realbackend.go], the methods of [Backend])

    [realBackend] answers the server's calls from the ERA reader, the beacon fetcher and
    the planners: the composition of [CanonicalIndex], [BuildSlot], [BuildPlan], [Fetch]
    and [Server].  Requests are served one after the other here; concurrent use of the
    index is in [IndexConcurrent]. *)

From S2P Require Import Prelude Bytes Lru EraFormat EraReader Sources SlotRanges BlockInfo Samples.
From S2P Require Import AttPlan CanonicalIndex PlanSources PlanState PlanSamples Orphans BuildSlot BuildPlan.
From S2P Require Import Json GoStrings Files S3Cache Fetch Server.
From Stdlib Require Import Strings.Byte.

(** ** Definitions *)

Inductive backend_error :=
| BErrNotFound
| BFetcherNotConfigured
| BBeacon (e : beacon_error)
| BFetch (e : fetch_error).

(** [errors.Is(err, ErrNotFound)] *)
Definition is_backend_not_found (e : backend_error) : bool :=
  match e with BErrNotFound => true | BBeacon e => is_not_found e | _ => false end.

(** [mapBeaconFetchResult] *)
Definition mapBeaconFetchResult {A} (o : outcome fetch_error A) : outcome backend_error A :=
  match o with
  | Ok data => Ok data
  | Err e => Err (if is_fetch_not_found e then BErrNotFound else BFetch e)
  | Panic => Panic
  end.

Section backend.
Context {E2 : Eth2} {R : Type} {BS : BlockSource R}.
Context {CS : Type} {LS : Lru N blockInfo CS} {CR : Type} {LR : Lru bytes blockInfo CR}.
Context {A : Type} {AR : Archive A} {F : Type} {FS : FirstSeen F}.
Context {W : Type} (http : bytes -> bytes -> W -> http_answer * W) (url_ok : bytes -> bool).
Context {T : Type} {ST : Store T} (env : io_env) (jitter : nat -> N) (f : Fetcher).
Context (cfg : RealBackendConfig) (genesis : GenesisInfo).

(** The backend with its fetcher ([None]: nil). *)
Record served_backend := mkServed {
  sb_real : realBackend R CS CR A F;
  sb_fetcher : option (fetch_state (W := W) (T := T))
}.

Abbreviation M := (stateM served_backend backend_error).

Definition on_real {V} (m : stateM (realBackend R CS CR A F) beacon_error V) : M V := fun b =>
  let '(o, rb) := m (sb_real b) in
  (match o with Ok v => Ok v | Err e => Err (BBeacon e) | Panic => Panic end, mkServed rb (sb_fetcher b)).

(** [if b.cfg.Fetcher == nil { ... }; data, err := b.cfg.Fetcher...; mapBeaconFetchResult] *)
Definition on_fetcher {V} (m : stateM (fetch_state (W := W) (T := T)) fetch_error V) : M V := fun b =>
  match sb_fetcher b with
  | None => (Err BFetcherNotConfigured, b)
  | Some s => let '(o, s) := m s in (mapBeaconFetchResult o, mkServed (sb_real b) (Some s))
  end.

Definition realBlockSSZBySlot (slot : N) : stateM (realBackend R CS CR A F) beacon_error bytes := fun b =>
  match era (ix b) with
  | None => (Err EEraReaderNotConfigured, b)
  | Some _ =>
      let '(o, i) := rawBlock slot (ix b) in
      (match o with Ok (Some data) => Ok data | Ok None => Err ErrNotFound | Err e => Err e | Panic => Panic end,
       mkBackend i (BlockArchive b) (FirstSeenSource b))
  end.

(** [fetchBlockSSZByRootForPlan], which is [BlockSSZByRoot] *)
Definition fetchBlockSSZByRootForPlan (root : bytes) : stateM (realBackend R CS CR A F) beacon_error bytes := fun b =>
  let '(res, _, b) := fetchBlockSSZByRootForPlanWithStats cfg root b in
  (match res with AOk data => Ok data | ANotFound => Err ErrNotFound | AError => Err EArchive end, b).

Definition realStateSSZBySlot (slot : N) : M bytes := on_fetcher (FetchStateSSZAtSlot http url_ok env jitter f slot).
Definition realGenesisStateSSZ : M bytes := on_fetcher (FetchGenesisStateSSZ http url_ok env jitter f).

#[local] Instance real_backend : Backend served_backend backend_error := {|
  backend_not_found := is_backend_not_found;
  BlockSSZBySlot slot := on_real (realBlockSSZBySlot slot);
  BlockSSZByRoot root := on_real (fetchBlockSSZByRootForPlan root);
  StateSSZBySlot := realStateSSZBySlot;
  GenesisStateSSZ := realGenesisStateSSZ;
  GetGenesisInfo b := (Ok genesis, b);
  ConsensusVersionAtSlot slot _ := SlotFork cfg slot;
  BackendPlan from to := on_real (BuildPlan cfg from to);
  BackendSlot simSlot warmup := on_real (BuildSlot cfg simSlot warmup)
|}.

(** The requests of a connection, answered in order. *)
Fixpoint serve (rs : list request) (b : served_backend) : list (option (response backend_error)) * served_backend :=
  match rs with
  | [] => ([], b)
  | r :: rs' =>
      let '(reply, b) := serveHTTP r b in
      let '(replies, b) := serve rs' b in
      (reply :: replies, b)
  end.
End backend.

(** ** Specification *)

Section specification.
Context {E2 : Eth2} {R : Type} {BS : BlockSource R}.
Context {CS : Type} {LS : Lru N blockInfo CS} {CR : Type} {LR : Lru bytes blockInfo CR}.
Context {A : Type} {AR : Archive A} {F : Type} {FS : FirstSeen F}.
Context {W : Type} (http : bytes -> bytes -> W -> http_answer * W) (url_ok : bytes -> bool).
Context {T : Type} {ST : Store T} (objects : T -> gmap bytes bytes) (env : io_env) (jitter : nat -> N).
Context (f : Fetcher) (cfg : RealBackendConfig) (genesis : GenesisInfo).
Context (content : N -> outcome era_error (option bytes)) (node : bytes -> bytes).

Abbreviation served_backend := (served_backend (R := R) (CS := CS) (CR := CR) (A := A) (F := F) (W := W) (T := T)).
Abbreviation reply := (response backend_error).
Implicit Types (b : served_backend) (resp : reply).

(** The index and its caches agree with the ERA files, the fetcher's caches with the node. *)
Definition served_ok b : Prop :=
  quiet (SlotFork cfg) content (ix (sb_real b))
  /\ forall s, sb_fetcher b = Some s -> coherent objects f node s.

(** The reply to a failed call: 404 for what does not exist, else 500 with the error. *)
Definition fails_with (not_found : bool) (e : backend_error) resp : Prop :=
  if not_found then Status resp = 404%Z else Status resp = 500%Z /\ Body resp = BError e.

(** What the block archive says about a root. *)
Definition archive_says (root : bytes) (b : realBackend R CS CR A F) : archive_result bytes :=
  match BlockArchive b with
  | None => ANotFound
  | Some a => if ArchiveCacheOnly cfg then (ReadCachedSSZByRoot root a).1
              else (FetchBlockSSZByRootWithStats root a).1.1
  end.

(** A state the fetcher is asked for: what the node serves or the fetcher's failure; a
    state in the file cache, when there is no object store, is always answered. *)
Definition state_answer (r : resource)
    (m : stateM (fetch_state (W := W) (T := T)) fetch_error bytes) (fork : bytes) b resp : Prop :=
  match sb_fetcher b with
  | None => fails_with false BFetcherNotConfigured resp
  | Some s =>
      match (m s).1 with
      | Ok d => d = node (resource_url f r) /\ resp = writeSSZ d fork
      | Err e => fails_with (is_fetch_not_found e) (BFetch e) resp
      | Panic => False
      end
      /\ forall d, f_store s = None -> ReadFile env (resource_path f r) (f_files s) = RData d ->
           resp = writeSSZ (node (resource_url f r)) fork
  end.

(** A planner's result as JSON, or its error. *)
Definition planner_answer {V} (o : outcome beacon_error V) (json : V -> jvalue) (good : V -> Prop) resp : Prop :=
  match o with
  | Ok v => resp = writeJSON (json v) /\ good v
  | Err e => fails_with (is_not_found e) (BBeacon e) resp
  | Panic => False
  end.

(** The right reply to each call, made in state [b]. *)
Definition answer_ok (c : backend_call) b resp : Prop :=
  match c with
  | CBlock slot =>
      match content slot with
      | Ok (Some data) => resp = writeSSZ data (SlotFork cfg slot)
      | Ok None => Status resp = 404%Z
      | Err e => fails_with false (BBeacon (EEra e)) resp
      | Panic => False
      end
  | CRoot root =>
      match CheckpointBlocksByRoot cfg !! root with
      | Some data => resp = writeSSZ data []
      | None =>
          match archive_says root (sb_real b) with
          | AOk data => resp = writeSSZ data []
          | ANotFound => Status resp = 404%Z
          | AError => fails_with false (BBeacon EArchive) resp
          end
      end
  | CState slot =>
      state_answer (RState slot) (FetchStateSSZAtSlot http url_ok env jitter f slot) (SlotFork cfg slot) b resp
  | CGenesisState =>
      state_answer RGenesis (FetchGenesisStateSSZ http url_ok env jitter f) (SlotFork cfg 0) b resp
  | CGenesisInfo => resp = writeJSON (genesis_json genesis)
  | CPlan from to =>
      planner_answer (BuildPlan cfg from to (sb_real b)).1 plan_json
        (fun entries => pe_SimSlot <$> entries = slots from to) resp
  | CSlot simSlot warmup =>
      planner_answer (BuildSlot cfg simSlot warmup (sb_real b)).1 slot_json
        (fun ins => si_SimSlot ins = simSlot) resp
  end.

(** One exchange, from state [b] to [b']: a request that makes a call is answered right
    for that call; one that makes none is refused with a client error and changes
    nothing. *)
Definition exchange_ok (r : request) b (rep : option reply) b' : Prop :=
  exists resp, rep = Some resp
  /\ (forall c, makes r c -> answer_ok c b resp)
  /\ ((forall c, ~ makes r c) -> b' = b /\ (Status resp ∈ [400; 404; 405; 406])%Z).

(** The exchanges of a connection, each from the state the ones before it left. *)
Inductive exchanges : list request -> served_backend -> list (option reply) -> served_backend -> Prop :=
| exchanges_nil b : exchanges [] b [] b
| exchanges_cons r rs b rep b1 reps b2 :
    exchange_ok r b rep b1 -> exchanges rs b1 reps b2 -> exchanges (r :: rs) b (rep :: reps) b2.

(** A plan request whose answer [make] can allocate. *)
Definition plan_fits (r : request) : Prop :=
  forall from to, makes r (CPlan from to) -> 72 * (to - from) <= maxAlloc.
End specification.

(** ** Lemmas *)

Section planners.
Context {E2 : Eth2} {R : Type} {BS : BlockSource R}.
Context {CS : Type} {LS : Lru N blockInfo CS} {CR : Type} {LR : Lru bytes blockInfo CR}.
Context {A : Type} {AR : Archive A} {F : Type} {FS : FirstSeen F}.
Context (cfg : RealBackendConfig) (content : N -> outcome era_error (option bytes)).
Context (Hcap : u64 (LookaheadCap cfg)) (Halloc : 16 * LookaheadCap cfg <= maxAlloc).
Implicit Types b : realBackend R CS CR A F.

(** The outcome and state of a call of the planner: [quiet] is kept, no panic. *)
Definition planner_ok {V} (r : outcome beacon_error V * realBackend R CS CR A F) (P : V -> Prop) : Prop :=
  quiet (SlotFork cfg) content (ix r.2) /\ match r.1 with Ok v => P v | Err _ => True | Panic => False end.

Lemma BuildPlan_served from to b :
  quiet (SlotFork cfg) content (ix b) -> u64 to -> 72 * (to - from) <= maxAlloc ->
  planner_ok (BuildPlan cfg from to b) (fun entries => pe_SimSlot <$> entries = slots from to).
Proof.
  intros Hq Hto Hsz. pose proof (BuildPlan_call cfg content from to b Hq Hto Hcap Halloc Hsz) as H.
  destruct (BuildPlan cfg from to b) as [[entries|e|] b']; destruct H as [Hq' H]; [|by split|done].
  split; [done|]. cbn. destruct H as (maps & b1 & s' & Hs & _ & _ & Hle & Hrun).
  pose proof (plan_slots_spec cfg content (N.to_nat (to - from)) (first_state cfg b1 maps from)
    ((fun _ => true) <$> maps.1) from to from ∅ [] Hs
    (pending_ok_empty cfg content from) ltac:(lia) Hle Hto Halloc ltac:(lia)) as Hc.
  rewrite Hrun in Hc. destruct Hc as (_ & entries' & orphans & Heq & Hl1 & Hl2 & Hall & _).
  cbn in Heq. subst entries'. apply list_eq. intros k. rewrite list_lookup_fmap.
  destruct (entries !! k) as [e|] eqn:Hk; cbn.
  - destruct (lookup_lt_is_Some_2 orphans k) as [l Hl].
    { rewrite Hl2, <- Hl1. by eapply lookup_lt_Some. }
    destruct (Hall k e l Hk Hl) as (sk & _ & _ & H1 & _). apply lookup_lt_Some in Hk.
    unfold slots. by rewrite lookup_seqN, H1 by lia.
  - apply lookup_ge_None in Hk. symmetry. apply lookup_ge_None. rewrite length_slots. lia.
Qed.

Lemma BuildSlot_served simSlot warmup b :
  quiet (SlotFork cfg) content (ix b) -> u64 simSlot -> u64 warmup ->
  planner_ok (BuildSlot cfg simSlot warmup b) (fun ins => si_SimSlot ins = simSlot).
Proof.
  intros Hq Hs Hw. assert (u64 (slot_cap cfg) /\ 16 * slot_cap cfg <= maxAlloc) as [Hsc Hsa]
    by (unfold slot_cap; case_ifs; split; u64_lia).
  pose proof (BuildSlot_call cfg content simSlot warmup b Hq Hs Hw Hsc Hsa) as H.
  destruct (BuildSlot cfg simSlot warmup b) as [[ins|e|] b']; destruct H as [Hq' Hi]; [|by split|done].
  split; [done|]. cbn. by destruct Hi as (_ & s & _ & _ & _ & ? & _).
Qed.

Lemma realBlockSSZBySlot_spec slot b :
  quiet (SlotFork cfg) content (ix b) ->
  let '(o, b') := realBlockSSZBySlot slot b in
  quiet (SlotFork cfg) content (ix b')
  /\ o = match content slot with
         | Ok (Some data) => Ok data | Ok None => Err ErrNotFound | Err e => Err (EEra e) | Panic => Panic end
  /\ content slot ≠ Panic.
Proof.
  intros (Hc & Hi & Hl). unfold realBlockSSZBySlot. destruct (proj1 Hc) as (r & He & _). rewrite He.
  pose proof (caches_ok_content _ _ _ slot Hc) as Hnp.
  pose proof (rawBlock_spec (SlotFork cfg) content slot (ix b) Hc) as H.
  destruct (rawBlock slot (ix b)) as [o i]. destruct H as (-> & Hc' & Hi').
  split; [unfold quiet; cbn; by rewrite Hi'|]. split; [|done]. by destruct (content slot) as [[]| |].
Qed.
End planners.

(** What [fetchBlockSSZByRootForPlan] answers. *)
Lemma fetchBlockSSZ_says {R CS CR A F} {AR : Archive A} (cfg : RealBackendConfig) root (b : realBackend R CS CR A F) :
  (fetchBlockSSZByRootForPlanWithStats cfg root b).1.1
  = match CheckpointBlocksByRoot cfg !! root with Some data => AOk data | None => archive_says cfg root b end.
Proof.
  unfold fetchBlockSSZByRootForPlanWithStats, archive_says.
  destruct (CheckpointBlocksByRoot cfg !! root); [done|]. destruct (BlockArchive b) as [a|]; [|done].
  destruct (ArchiveCacheOnly cfg); [by destruct (ReadCachedSSZByRoot root a)|].
  by destruct (FetchBlockSSZByRootWithStats root a) as [[? ?] ?].
Qed.

(** A cached call with the file in the cache, and no object store. *)
Lemma cached_file_hit {W} (http : bytes -> bytes -> W -> http_answer * W) (url_ok : bytes -> bool)
    {T} {ST : Store T} (env : io_env) (jitter : nat -> N) path key url accept d (s : fetch_state (W := W) (T := T)) :
  f_store s = None -> ReadFile env path (f_files s) = RData d ->
  cached http url_ok env jitter path key url accept s = (Ok d, s).
Proof.
  intros Hn Hd. unfold cached. rewrite Hn. unfold cachedOrFetch, read_cache, mbind, stateM_bind, st_bind. by rewrite Hd.
Qed.

Section served.
Context {E2 : Eth2} {R : Type} {BS : BlockSource R}.
Context {CS : Type} {LS : Lru N blockInfo CS} {CR : Type} {LR : Lru bytes blockInfo CR}.
Context {A : Type} {AR : Archive A} {F : Type} {FS : FirstSeen F}.
Context {W : Type} (http : bytes -> bytes -> W -> http_answer * W) (url_ok : bytes -> bool).
Context {T : Type} {ST : Store T} (objects : T -> gmap bytes bytes) (env : io_env) {SS : StoreSpec T env objects}.
Context (jitter : nat -> N) (f : Fetcher).
Context (cfg : RealBackendConfig) (genesis : GenesisInfo).
Context (content : N -> outcome era_error (option bytes)) (node : bytes -> bytes).
Context (Hcap : u64 (LookaheadCap cfg)) (Halloc : 16 * LookaheadCap cfg <= maxAlloc).
Context (Hnode : node_stable http node) (Htemps : temps_apart env f).

Abbreviation served_backend := (served_backend (R := R) (CS := CS) (CR := CR) (A := A) (F := F) (W := W) (T := T)).
Abbreviation served_ok := (served_ok objects f cfg content node : served_backend -> Prop).
Abbreviation answer_ok := (answer_ok http url_ok env jitter f cfg genesis content node).
Abbreviation BK := (real_backend http url_ok env jitter f cfg genesis (CS := CS) (CR := CR) (A := A) (F := F)).
Implicit Types b : served_backend.

(** The reply to a failed call of the backend. *)
Lemma writeBackendError_fails e :
  fails_with (is_backend_not_found e) e (writeBackendError (BK := BK) e).
Proof. unfold writeBackendError. cbn. unfold fails_with. by destruct (is_backend_not_found e). Qed.

Lemma on_real_planner {V} (m : stateM (realBackend R CS CR A F) beacon_error V) (json : V -> jvalue) P b :
  served_ok b -> planner_ok cfg content (m (sb_real b)) P ->
  let '(rep, b') := respond (BK := BK) (on_real m) (fun v _ => writeJSON (json v)) b in
  served_ok b' /\ exists resp, rep = Some resp /\ planner_answer (m (sb_real b)).1 json P resp.
Proof.
  intros [_ Hf]. unfold respond, on_real, planner_ok, planner_answer. destruct (m (sb_real b)) as [o rb]. cbn.
  intros [Hq H]. destruct o as [v|e|]; [| |done]; (split; [by split|]); eexists; (split; [done|]); [done|].
  apply (writeBackendError_fails (BBeacon e)).
Qed.

Lemma on_fetcher_state r key fork m b :
  resource_ok r -> resource_key f r = Some key -> served_ok b ->
  m = cached http url_ok env jitter (resource_path f r) key (resource_url f r) acceptSSZ ->
  let '(rep, b') := respond (BK := BK) (on_fetcher m) (fun data _ => writeSSZ data fork) b in
  served_ok b' /\ exists resp, rep = Some resp /\ state_answer env f node r m fork b resp.
Proof.
  intros Hr Hk Hb Hm. pose proof Hb as [Hq Hf]. unfold respond, on_fetcher, state_answer.
  destruct (sb_fetcher b) as [s|]; [|split; [done|]; eexists; split; [done|]; apply (writeBackendError_fails BFetcherNotConfigured)].
  pose proof (cached_resource http url_ok objects env jitter f node Hnode Htemps r key acceptSSZ s Hr (Hf s eq_refl) Hk) as H.
  assert (Hhit : forall d, f_store s = None -> ReadFile env (resource_path f r) (f_files s) = RData d ->
    m s = (Ok d, s)) by (intros d; rewrite Hm; apply cached_file_hit).
  rewrite <- Hm in H. destruct (m s) as [o s']. destruct H as (Hp & Hc & _ & Hd & _).
  assert (served_ok (mkServed (sb_real b) (Some s'))) as Hb' by (split; [done|by intros ? [= <-]]).
  destruct o as [d|e|]; [| |done]; (split; [done|]); eexists; (split; [done|]); cbn [fst].
  - destruct (Hd d eq_refl) as (-> & _ & _). by split.
  - split; [|intros d Hn Hread; by specialize (Hhit d Hn Hread)].
    cbn [mapBeaconFetchResult]. destruct (is_fetch_not_found e); [done|exact (writeBackendError_fails (BFetch e))].
Qed.

Lemma answer_served c b :
  served_ok b -> valid_call c -> (forall from to, c = CPlan from to -> 72 * (to - from) <= maxAlloc) ->
  let '(rep, b') := answer (BK := BK) c b in
  served_ok b' /\ exists resp, rep = Some resp /\ answer_ok c b resp.
Proof.
  intros Hb Hc Hsz. destruct c as [slot|root|slot| | |from to|simSlot warmup]; cbn [answer valid_call] in *.
  - pose proof (realBlockSSZBySlot_spec cfg content slot (sb_real b) (proj1 Hb)) as H.
    unfold respond. cbn [BlockSSZBySlot real_backend]. unfold on_real.
    destruct (realBlockSSZBySlot slot (sb_real b)) as [o rb]. destruct H as (Hq & -> & Hp). cbn.
    destruct (content slot) as [[data|]|e|]; [| | |done]; cbn;
      (split; [by split; [|apply Hb]|]); eexists; by split.
  - unfold respond. cbn [BlockSSZByRoot real_backend RealBackend.answer_ok]. unfold on_real, fetchBlockSSZByRootForPlan.
    pose proof (fetchBlockSSZ_frame cfg root (sb_real b)) as H.
    pose proof (fetchBlockSSZ_says cfg root (sb_real b)) as Hsays.
    destruct (fetchBlockSSZByRootForPlanWithStats cfg root (sb_real b)) as [[res n] rb]. destruct H as [Hi _].
    assert (served_ok (mkServed rb (sb_fetcher b))) as Hb' by (split; cbn; [rewrite Hi|]; apply Hb).
    cbn [fst] in Hsays. destruct (CheckpointBlocksByRoot cfg !! root) as [data|].
    { subst res. split; [exact Hb'|]. eexists. split; reflexivity. }
    rewrite <- Hsays. destruct res as [data| |]; (split; [exact Hb'|]); eexists; (split; [reflexivity|]).
    + reflexivity.
    + reflexivity.
    + split; reflexivity.
  - cbn [StateSSZBySlot ConsensusVersionAtSlot real_backend RealBackend.answer_ok]. unfold realStateSSZBySlot.
    exact (on_fetcher_state (RState slot) _ (SlotFork cfg slot) _ b Hc eq_refl Hb eq_refl).
  - cbn [GenesisStateSSZ ConsensusVersionAtSlot real_backend RealBackend.answer_ok]. unfold realGenesisStateSSZ.
    exact (on_fetcher_state RGenesis _ (SlotFork cfg 0) _ b Hc eq_refl Hb eq_refl).
  - split; [done|]. by eexists.
  - cbn [BackendPlan real_backend RealBackend.answer_ok].
    refine (on_real_planner (BuildPlan cfg from to) plan_json _ b Hb _).
    apply BuildPlan_served; [done|done|apply Hb|apply Hc|by apply Hsz].
  - cbn [BackendSlot real_backend RealBackend.answer_ok].
    refine (on_real_planner (BuildSlot cfg simSlot warmup) slot_json _ b Hb _).
    apply BuildSlot_served; [done|done|apply Hb|apply Hc|u64_lia].
Qed.

Lemma exchange_served r b :
  served_ok b -> plan_fits r ->
  let '(rep, b') := serveHTTP (BK := BK) r b in
  served_ok b' /\ exchange_ok http url_ok env jitter f cfg genesis content node r b rep b'.
Proof.
  intros Hb Hfits.
  assert (Hmakes : forall c, makes r c -> let '(rep, b') := serveHTTP (BK := BK) r b in
    served_ok b' /\ exists resp, rep = Some resp /\ answer_ok c b resp).
  { intros c Hc. rewrite (serveHTTP_makes (BK := BK) r c b Hc).
    apply answer_served; [done|apply Hc|]. intros from to ->. by apply Hfits. }
  destruct (serveHTTP_sound (BK := BK) r b) as [(resp & Hrep & Hst)|(c & Hc & _)].
  - rewrite Hrep in *. split; [done|]. exists resp. split; [done|]. split; [|done].
    intros c Hc. by destruct (Hmakes c Hc) as (_ & resp' & [= ->] & ?).
  - destruct (serveHTTP r b) as [rep b']. destruct (Hmakes c Hc) as (Hb' & resp & -> & _). split; [done|].
    exists resp. split; [done|]. split; [|intros Hno; by destruct (Hno c)].
    intros c' Hc'. by destruct (Hmakes c' Hc') as (_ & resp' & [= ->] & ?).
Qed.

Lemma serve_ok rs b :
  served_ok b -> Forall plan_fits rs ->
  let '(replies, b') := serve http url_ok env jitter f cfg genesis rs b in
  served_ok b' /\ exchanges http url_ok env jitter f cfg genesis content node rs b replies b'.
Proof.
  intros Hb Hfits. revert b Hb. induction Hfits as [|r rs Hr Hrs IH]; intros b Hb; cbn [serve]; [split; [done|constructor]|].
  pose proof (exchange_served r b Hb Hr) as H.
  destruct (serveHTTP r b) as [reply b1]. destruct H as [Hb1 Hreply]. specialize (IH b1 Hb1).
  destruct (serve _ _ _ _ _ _ _ rs b1) as [replies b2]. destruct IH as [Hb2 IH]. split; [done|]. by econstructor.
Qed.
End served.

(** ** A sample: the toy sources of [PlanSamples] and the sample node of [Fetch] *)

#[local] Existing Instance sample_store.
Definition sample_backend := mkServed toy_backend (Some sample_fetch_state).
Definition sample_genesis : GenesisInfo := mkGenesisInfo 1606824023 (str "0x4b36") (str "0x00000000").
Definition sample_serve := serve sample_node (fun _ => true) sample_env (fun _ => 7) sample_fetcher
  (toy_config 2%Z 2) sample_genesis.
Definition sample_requests : list request :=
  [request_for [] (CSlot 102 100); request_for [] (CBlock 103); request_for [] (CBlock 102); request_for [] (CPlan 101 103);
   request_for (str "text/html") (CBlock 5); request_for [] (CState 320)].

Lemma sample_backend_ok :
  served_ok (fun w => w) sample_fetcher (toy_config 2%Z 2) (era_block plain toy_dir) sample_content sample_backend.
Proof.
  split; [exact toy_quiet|]. intros s [= <-] r _. cbn.
  split; [intros d; by rewrite lookup_empty|]. intros t k d [= <-] _. by rewrite lookup_empty.
Qed.

Example serve_sample :
  option_map Status <$> (sample_serve sample_requests sample_backend).1
  = [Some 200; Some 200; Some 404; Some 200; Some 406; Some 200]%Z.
Proof. vm_compute. reflexivity. Qed.

(** ** Theorems *)

(** C37: the life of a worker's server.  Any sequence of requests, answered in order by
    the real backend, leaves the shared index, the decoding caches and the fetcher's
    caches in agreement with the ERA files and the beacon node, so the next request
    finds a sound state; no request makes a handler panic (plan ranges being small
    enough to allocate).  Every request that makes a call is answered right for that
    call: the block the ERA files hold, 404 exactly for a missed slot and 500 with the
    reader's error; the checkpoint block, or what the block archive says about the root;
    the state the node serves, at once if it is in the file cache, or the failure of the
    fetcher; the genesis data; the planners' result for the range or the slot, with one
    entry per slot in order, or their error.  A request that makes no call (wrong
    method, unknown path, malformed id, bad range, SSZ not accepted) is refused with a
    client error and leaves the backend as it was. *)
Theorem serve_keeps_backend {E2 : Eth2} {R} {BS : BlockSource R} {CS} {LS : Lru N blockInfo CS}
    {CR} {LR : Lru bytes blockInfo CR} {A} {AR : Archive A} {F} {FS : FirstSeen F}
    {W} (http : bytes -> bytes -> W -> http_answer * W) (url_ok : bytes -> bool)
    {T} {ST : Store T} (objects : T -> gmap bytes bytes) (env : io_env) {SS : StoreSpec T env objects}
    (jitter : nat -> N) (f : Fetcher) (cfg : RealBackendConfig) (genesis : GenesisInfo)
    (content : N -> outcome era_error (option bytes)) (node : bytes -> bytes)
    (rs : list request) (b : served_backend (R := R) (CS := CS) (CR := CR) (A := A) (F := F)) :
  u64 (LookaheadCap cfg) -> 16 * LookaheadCap cfg <= maxAlloc ->
  node_stable http node -> temps_apart env f ->
  served_ok objects f cfg content node b -> Forall plan_fits rs ->
  let '(replies, b') := serve http url_ok env jitter f cfg genesis rs b in
  served_ok objects f cfg content node b'
  /\ exchanges http url_ok env jitter f cfg genesis content node rs b replies b'.
Proof. intros. by apply serve_ok. Qed.

Lemma serve_keeps_backend_witness :
  option_map Status <$> (sample_serve sample_requests sample_backend).1 = [Some 200; Some 200; Some 404; Some 200; Some 406; Some 200]%Z
  /\ exchanges sample_node (fun _ => true) sample_env (fun _ => 7) sample_fetcher (toy_config 2%Z 2) sample_genesis
       (era_block plain toy_dir) sample_content sample_requests sample_backend
       (sample_serve sample_requests sample_backend).1 (sample_serve sample_requests sample_backend).2.
Proof.
  assert (option_map Status <$> (sample_serve sample_requests sample_backend).1
    = [Some 200; Some 200; Some 404; Some 200; Some 406; Some 200]%Z) as Hv by (vm_compute; reflexivity).
  split; [exact Hv|].
  assert (Forall plan_fits sample_requests) as Hfits.
  { repeat constructor; intros from to (_ & _ & (Hp & Hf & Ht) & _); try (vm_compute in Hp; discriminate Hp).
    vm_compute in Hf, Ht. injection Hf as <-. injection Ht as <-. lia. }
  pose proof (serve_keeps_backend sample_node (fun _ => true) (fun w => w) sample_env (SS := sample_store_spec)
    (fun _ => 7) sample_fetcher (toy_config 2%Z 2) sample_genesis (era_block plain toy_dir) sample_content
    sample_requests sample_backend ltac:(cbn; u64_lia) ltac:(cbn; lia) sample_node_stable sample_temps
    sample_backend_ok Hfits) as H.
  change (serve _ _ _ _ _ _ _ _ _) with (sample_serve sample_requests sample_backend) in H.
  destruct (sample_serve sample_requests sample_backend) as [replies b']. exact (proj2 H).
Defined.
