(* ===== verification/Engine.v ===== *)
(** * Engines ([cmd/fcr-orchestrator/main.go])

    Finding and building the engine binary, reading its manifest, its command line and its
    exit, and the URL it gets.  Engines, the build script and the operating system are
    parameters: [host] is what the orchestrator asks of the system it runs on, over a state
    the build script may change, and a [session] is what all engines of a run do. *)

From S2P Require Import Prelude Bytes Chunk Json GoStrings Files Merge Manifest S3Cache Flags Config Server.
From Stdlib Require Import Strings.Byte.

(** ** The system *)

(** The answer of a call that may fail with [os.ErrNotExist]. *)
Inductive found (A : Type) := Found (a : A) | NotExist | Failed.
Arguments Found {A} a.
Arguments NotExist {A}.
Arguments Failed {A}.

(** [net.Addr]: a TCP address (an empty IP is nil), or the text of another one. *)
Inductive addr := TCPAddr (ip : bytes) (port : N) | OtherAddr (text : bytes).

Record host (Y : Type) := mkHost {
  h_working_dir : found bytes;                   (** [os.Getwd] *)
  h_stat : bytes -> Y -> found bool;             (** [os.Stat]: whether it is a directory *)
  h_look_path : bytes -> found bytes;            (** [exec.LookPath] *)
  h_run_script : bytes -> Y -> bool * Y;         (** the build script: whether it exits with 0 *)
  h_manifest_json : bytes -> Y -> option bytes;  (** the output of [binary --manifest-json] *)
  h_mkdir_ok : bytes -> bool;                    (** [os.MkdirAll] *)
  h_listen : bytes -> option addr;               (** [net.Listen] *)
  h_git_head : option bytes;                     (** the output of [git rev-parse HEAD] *)
  h_version : bytes;                             (** [version], set by the linker *)
  h_now : bytes                                  (** the time in RFC 3339 *)
}.
Arguments h_working_dir {Y}.
Arguments h_stat {Y}.
Arguments h_look_path {Y}.
Arguments h_run_script {Y}.
Arguments h_manifest_json {Y}.
Arguments h_mkdir_ok {Y}.
Arguments h_listen {Y}.
Arguments h_git_head {Y}.
Arguments h_version {Y}.
Arguments h_now {Y}.

Inductive engine_error :=
| XAbs (path : bytes) | XStat (path : bytes) | XDirectory (path : bytes) | XLookPath (path : bytes)
| XNoBinary (binary script : bytes) | XStatScript (script : bytes) | XScriptDirectory (script : bytes)
| XRunScript (script : bytes) | XNotBuilt (script binary : bytes)
| XCapture | XDecodeManifest
| XNoEngineName (binary : bytes) | XEngineName (name engine : bytes) | XBuildFlag (binary flag : bytes).

(** ** The binary *)

(** [filepath.Abs] *)
Definition Abs {Y} (h : host Y) (path : bytes) : found bytes :=
  if has_prefix path (str "/") then Found (Clean path)
  else match h_working_dir h with Found wd => Found (Join [wd; path]) | NotExist => NotExist | Failed => Failed end.

(** The error and whether it is [os.ErrNotExist]. *)
Definition resolveExecutable {Y} (h : host Y) (path : bytes) (y : Y) : outcome (engine_error * bool) bytes :=
  if contains path (str "/") then
    match Abs h path with
    | NotExist => Err (XAbs path, true)
    | Failed => Err (XAbs path, false)
    | Found abs =>
        match h_stat h abs y with
        | NotExist => Err (XStat abs, true)
        | Failed => Err (XStat abs, false)
        | Found true => Err (XDirectory abs, false)
        | Found false => Ok abs
        end
    end
  else match h_look_path h path with
       | Found resolved => Ok resolved
       | NotExist => Err (XLookPath path, true)
       | Failed => Err (XLookPath path, false)
       end.

Definition plain_error {A} (o : outcome (engine_error * bool) A) : outcome engine_error A :=
  match o with Ok a => Ok a | Err e => Err e.1 | Panic => Panic end.

(** The build script for a missing default binary, and the second look. *)
Definition build_engine {Y} (h : host Y) (cfg : config) : stateM Y engine_error config := fun y =>
  let buildScript := defaultEngineBuildScript (cfg_Engine cfg) in
  match h_stat h buildScript y with
  | NotExist => (Err (XNoBinary (cfg_EngineBinary cfg) buildScript), y)
  | Failed => (Err (XStatScript buildScript), y)
  | Found true => (Err (XScriptDirectory buildScript), y)
  | Found false =>
      let '(ok, y) := h_run_script h buildScript y in
      if negb ok then (Err (XRunScript buildScript), y)
      else match resolveExecutable h (cfg_EngineBinary cfg) y with
           | Ok binary => (Ok (set_binary binary (cfg_engineBinarySource cfg) cfg), y)
           | Err (_, true) => (Err (XNotBuilt buildScript (cfg_EngineBinary cfg)), y)
           | Err (e, false) => (Err e, y)
           | Panic => (Panic, y)
           end
  end.

(** The configuration with the binary found. *)
Definition prepareEngineBinary {Y} (h : host Y) (cfg : config) : stateM Y engine_error config := fun y =>
  let resolved := resolveExecutable h (cfg_EngineBinary cfg) y in
  let found := binary ← plain_error resolved; Ok (set_binary binary (cfg_engineBinarySource cfg) cfg) in
  match cfg_engineBinarySource cfg, resolved with
  | engineBinarySourceDefault, Err (_, true) => build_engine h cfg y
  | _, _ => (found, y)
  end.

Definition simulatorVersion {Y} (h : host Y) : bytes :=
  if negb (bool_decide (h_version h = [])) && negb (bool_decide (h_version h = str "dev")) then h_version h
  else match h_git_head h with
       | None => h_version h
       | Some output => let sha := TrimSpace output in if decide (sha = []) then h_version h else sha
       end.

(** ** The engine's manifest *)

Definition store_flags (v : jvalue) (old : option (list bytes)) : option (option (list bytes)) :=
  match v with JNull => Some None | _ => Some <$> store_slice store_string [] v (default [] old) end.

(** [json.Unmarshal] into an [EngineManifest]. *)
Definition decode_engine_manifest (data : bytes) : option EngineManifest :=
  match parse_json data with
  | Some (JObject ms) =>
      name ← decode_field ms (str "engine_name") store_string [];
      version ← decode_field ms (str "engine_version") store_string [];
      commit ← decode_field ms (str "engine_commit") store_string [];
      flags ← decode_field ms (str "build_flags") store_flags None;
      spec ← decode_field ms (str "fcr_spec_commit") store_string [];
      Some (mkEngineManifest name version commit flags spec)
  | Some JNull => Some (mkEngineManifest [] [] [] None [])
  | _ => None
  end.

Definition captureEngineManifest {Y} (h : host Y) (engineBinary : bytes) (y : Y) : outcome engine_error EngineManifest :=
  match h_manifest_json h engineBinary y with
  | None => Err XCapture
  | Some stdout =>
      match decode_engine_manifest stdout with
      | None => Err XDecodeManifest
      | Some m =>
          Ok (mkEngineManifest (em_EngineName m) (em_EngineVersion m) (em_EngineCommit m)
                (Some (default [] (BuildFlags m))) (FCRSpecCommit m))
      end
  end.

Definition engineHasBuildFlag (m : EngineManifest) (flag : bytes) : bool :=
  existsb (fun f => bool_decide (f = flag)) (default [] (BuildFlags m)).

Definition validateEngineManifest (engine binary : bytes) (m : EngineManifest) : outcome engine_error unit :=
  if decide (em_EngineName m = []) then Err (XNoEngineName binary)
  else if negb (bool_decide (em_EngineName m = engine)) then Err (XEngineName (em_EngineName m) engine)
  else match find (fun flag => negb (engineHasBuildFlag m flag)) (default [] (RequiredBuildFlags engine)) with
       | Some flag => Err (XBuildFlag binary flag)
       | None => Ok tt
       end.

(** ** The workers *)

Record workerInfo := mkWorkerInfo {
  wi_Chunk : Chunk; OutputPath : bytes; ActualWarmupStartSlot : N; wi_Skipped : bool
}.

(** How a command ends: exit status 0, another one, or it could not be run. *)
Inductive exec_result := RunOk | RunExit (code : Z) | RunFailed.

Record workerResult := mkWorkerResult { wr_Index : Z; wr_Skipped : bool; ExitCode : Z; wr_failed : bool }.

Definition worker_args (cfg : config) (worker : workerInfo) (beaconNodeURL : bytes) : list bytes :=
  [str "--beacon-node-url"; beaconNodeURL;
   str "--start-slot"; format_uint (StartSlot (wi_Chunk worker));
   str "--end-slot"; format_uint (EndSlot (wi_Chunk worker));
   str "--warmup-start-slot"; format_uint (ActualWarmupStartSlot worker);
   str "--network"; cfg_Network cfg;
   str "--byzantine-threshold"; format_uint (cfg_ByzantineThreshold cfg);
   str "--attestation-source-mode"; cfg_AttestationSourceMode cfg;
   str "--lookahead-cap"; format_uint (cfg_LookaheadCap cfg);
   str "--output"; OutputPath worker].

Definition runEngineWorker (worker : workerInfo) (r : exec_result) : workerResult :=
  let index := Index (wi_Chunk worker) in
  match r with
  | RunOk => mkWorkerResult index false 0 false
  | RunExit code => mkWorkerResult index false code true
  | RunFailed => mkWorkerResult index false (-1) true
  end.

(** The workers that run, in order. *)
Definition running (workers : list workerInfo) : list workerInfo := filter (fun w => wi_Skipped w = false) workers.

(** The results in the order of the workers; [ends] is how the running ones end. *)
Fixpoint runEngineWorkers (workers : list workerInfo) (ends : list exec_result) : list workerResult :=
  match workers with
  | [] => []
  | worker :: workers' =>
      if wi_Skipped worker then mkWorkerResult (Index (wi_Chunk worker)) true 0 false :: runEngineWorkers workers' ends
      else runEngineWorker worker (default RunFailed (head ends)) :: runEngineWorkers workers' (tail ends)
  end.

(** What the engines of a run do together: requests to the server in the order it gets
    them, each going on with the reply, and in the end how they exit and the files they
    leave. *)
Inductive session (reply : Type) :=
| Finished (ends : list exec_result) (files : world)
| Asks (r : request) (next : reply -> session reply).
Arguments Finished {reply}.
Arguments Asks {reply}.

(** ** The server's URL *)

Definition dotted (ip : bytes) : bytes := join (str ".") ((fun b => format_uint (byte_val b)) <$> ip).

(** The 16-bit fields of an IPv6 address. *)
Fixpoint ip_fields (ip : bytes) : list N :=
  match ip with a :: b :: ip' => 256 * byte_val a + byte_val b :: ip_fields ip' | _ => [] end.

(** Hexadecimal without leading zeros. *)
Definition hex_field (n : N) : bytes :=
  let digits := hex_digit <$> [n / 4096; n / 256 mod 16; n / 16 mod 16; n mod 16] in
  match list_find (fun d => d ≠ x30) digits with Some (k, _) => drop k digits | None => [x30] end.

Fixpoint zero_run (fields : list N) : nat :=
  match fields with 0 :: fields' => S (zero_run fields') | _ => O end.

(** The first longest run of at least two zero fields: start and length. *)
Fixpoint longest_zeros (i : nat) (fields : list N) (best : nat * nat) : nat * nat :=
  match fields with
  | [] => best
  | _ :: fields' =>
      let n := zero_run fields in
      longest_zeros (S i) fields' (if ((1 <? n) && (best.2 <? n))%nat then (i, n) else best)
  end.

Definition ipv6_text (fields : list N) : bytes :=
  let '(start, n) := longest_zeros 0 fields (O, O) in
  if (n =? 0)%nat then join (str ":") (hex_field <$> fields)
  else join (str ":") (hex_field <$> take start fields) ++ str "::" ++ join (str ":") (hex_field <$> drop (start + n) fields).

(** [IP.To4] *)
Definition ip_to4 (ip : bytes) : option bytes :=
  if (length ip =? 4)%nat then Some ip
  else if (length ip =? 16)%nat && bool_decide (take 12 ip = replicate 10 x00 ++ [xff; xff]) then Some (drop 12 ip)
  else None.

(** [IP.String] *)
Definition ip_string (ip : bytes) : bytes :=
  if decide (ip = []) then str "<nil>"
  else if negb ((length ip =? 4) || (length ip =? 16))%nat then str "?" ++ hex_encode ip
  else match ip_to4 ip with Some ip4 => dotted ip4 | None => ipv6_text (ip_fields ip) end.

(** [IP.IsUnspecified] *)
Definition unspecified (ip : bytes) : bool :=
  bool_decide (ip_to4 ip = Some (replicate 4 x00)) || bool_decide (ip = replicate 16 x00).

(** [net.JoinHostPort] *)
Definition JoinHostPort (host port : bytes) : bytes :=
  if contains host (str ":") || contains host (str "%") then str "[" ++ host ++ str "]:" ++ port else host ++ str ":" ++ port.

Definition listenerHTTPURL (a : addr) : bytes :=
  match a with
  | OtherAddr text => str "http://" ++ text
  | TCPAddr ip port =>
      let host := if bool_decide (ip = []) || unspecified ip then str "127.0.0.1" else ip_string ip in
      str "http://" ++ JoinHostPort host (format_uint port)
  end.

Example listenerHTTPURL_samples :
  listenerHTTPURL <$> [TCPAddr [] 80; TCPAddr (replicate 16 x00) 5052; TCPAddr [x0a; x01; x02; xff] 1;
    TCPAddr (replicate 15 x00 ++ [x01]) 8080;
    TCPAddr ([x20; x01; x0d; xb8] ++ replicate 4 x00 ++ [x00; x01] ++ replicate 6 x00) 443;
    TCPAddr (replicate 10 x00 ++ [xff; xff; x7f; x00; x00; x01]) 9]
  = [str "http://127.0.0.1:80"; str "http://127.0.0.1:5052"; str "http://10.1.2.255:1"; str "http://[::1]:8080";
     str "http://[2001:db8:0:0:1::]:443"; str "http://127.0.0.1:9"].
Proof. vm_compute. reflexivity. Qed.
