(* ===== verification/Orchestrator.v ===== *)
(** * The orchestrator's pipeline ([cmd/fcr-orchestrator/main.go])

    [execute] and what it calls: the slots and ERA files of a run, the preparation of the
    workers, the warm-up, the server and the engines, the merge and the manifest; and the
    commands around it.  The state is a [machine]: the services outside, and one file map
    per directory the program keeps ([era], the fetcher's directories, [block-archive],
    [attestation-first-seen]), the rest in [m_files].  Progress messages are left out. *)

From S2P Require Import Prelude Bytes Lru EraFormat EraReader Sources SlotRanges BlockInfo AttPlan CanonicalIndex.
From S2P Require Import PlanSources PlanState ArchiveWarm Chunk Json GoStrings Files S3Cache Flags Config Fetch Downloader Mirror.
From S2P Require Import Merge CanonicalLookup Manifest Archive FirstSeen Server RealBackend Engine.
From Stdlib Require Import Strings.Byte.

(** ** Slots and ERA files *)

Definition saturatingSlotAdd (value delta : N) : N := if MaxUint64 - value <? delta then MaxUint64 else u64_add value delta.

Definition filterActiveChunks (chunks : list Chunk) : list Chunk := filter (fun c => StartEpoch c < EndEpoch c) chunks.

(** [chunks[0]] panics on an empty slice. *)
Definition minWarmupSlot (chunks : list Chunk) : option N :=
  match chunks with
  | [] => None
  | c :: rest => Some (foldl (fun m c => if WarmupStartSlot c <? m then WarmupStartSlot c else m) (WarmupStartSlot c) rest)
  end.
Definition maxEndSlot (chunks : list Chunk) : option N :=
  match chunks with
  | [] => None
  | c :: rest => Some (foldl (fun m c => if m <? EndSlot c then EndSlot c else m) (EndSlot c) rest)
  end.

Record eraSlotEnvelope := mkEnvelope { env_StartSlot : N; env_EndSlot : N }.

(** [None] is [found = false]. *)
Definition minActualWorkerWarmupSlot (workerInfos : list workerInfo) : option N :=
  foldl (fun m info =>
    if wi_Skipped info then m
    else match m with
         | Some min => if ActualWarmupStartSlot info <? min then Some (ActualWarmupStartSlot info) else m
         | None => Some (ActualWarmupStartSlot info)
         end) None workerInfos.

Definition oneEraGuardedStartSlot (slot : N) : N := if slot <=? SlotsPerEra then 0 else u64_sub slot SlotsPerEra.

Definition warmArchiveEraDownloadEnvelope (workerInfos : list workerInfo) (maxPlannedEndSlot lookaheadCap : N) : option eraSlotEnvelope :=
  slot ← minActualWorkerWarmupSlot workerInfos;
  Some (mkEnvelope (oneEraGuardedStartSlot slot) (saturatingSlotAdd maxPlannedEndSlot lookaheadCap)).

Definition slotEnvelopeExtendsBeyond (candidate covered : eraSlotEnvelope) : bool :=
  (env_StartSlot candidate <? env_StartSlot covered) || (env_EndSlot covered <? env_EndSlot candidate).

Definition eraRangeForSlots (startSlot endSlot : N) : N * N :=
  (EraNumberForSlot startSlot, EraNumberForSlot (saturatingSlotAdd endSlot PreDownloadLookaheadSlots)).
Definition eraRangeForExactSlotRange (startSlot endSlot : N) : N * N :=
  (EraNumberForSlot startSlot, EraNumberForSlot endSlot).

(** The slots the engines owe a record: each chunk's, from after its warm-up start on. *)
Definition record_start (c : Chunk) : N :=
  if StartSlot c <? u64_add (WarmupStartSlot c) 1 then u64_add (WarmupStartSlot c) 1 else StartSlot c.
Definition expected_slots (activeChunks : list Chunk) : list N :=
  concat ((fun c => slots (record_start c) (EndSlot c)) <$> activeChunks).

Definition mainnetGenesisInfo : GenesisInfo :=
  mkGenesisInfo 1606824023 (str "0x4b363db94e286120d76eb905340fdd4e54bfe9f06bf33ff6cf5ad27f511bfe95") (str "0x00000000").

(** ** Output paths; the empty path is no output *)

Record outputPaths := mkPaths { JSONL : bytes; CSV : bytes; ManifestPath : bytes }.

Definition resolveOutputPaths (output format : bytes) : outputPaths :=
  let format := ToLower format in
  let ext := ToLower (Ext output) in
  let trimmed := trim_suffix output (Ext output) in
  let '(jsonl, csv) :=
    if decide (format = str "csv") then ([], output)
    else if decide (format = str "jsonl") then (output, [])
    else if decide (format = str "both") then
      if decide (ext = str ".csv") then (trimmed ++ str ".jsonl", output)
      else if decide (ext = str ".jsonl") then (output, trimmed ++ str ".csv")
      else (output ++ str ".jsonl", output ++ str ".csv")
    else ([], []) in
  let manifestBase := if decide (csv = []) then if decide (jsonl = []) then output else jsonl else csv in
  mkPaths jsonl csv (trim_suffix manifestBase (Ext manifestBase) ++ str ".manifest.json").

(** ** Errors *)

Inductive exec_error :=
| XMkdir (path : bytes) | XStore (e : store_error) | XEngine (e : engine_error) | XNoChunks | XNoActiveChunks
| XDownloader | XPreDownload (e : download_error) | XReader (e : era_error) | XFetcher
| XFirstSeenStore (e : store_error) | XFirstSeen (e : first_seen_error)
| XRemoveStale (path : bytes) | XCreateOutput (path : bytes)
| XCheckpointState (worker : Z) (e : fetch_error) | XCheckpointRoot (worker : Z) (e : fetch_error) | XCheckpointBlock (worker : Z) (e : fetch_error)
| XCatchUp (e : download_error) | XGenesisState (e : fetch_error)
| XArchiveClient | XMode (mode : bytes) | XWarm (e : beacon_error) | XListen (address : bytes)
| XStatOutput (path : bytes) | XNoOutput (worker : Z) (path : bytes)
| XMerge (e : merge_error) | XManifest (e : manifest_error) | XStoreRequired.

(** [fmt.Errorf("...: %w", err)] *)
Definition map_err {E E' A} (f : E -> E') (o : outcome E A) : outcome E' A :=
  match o with Ok a => Ok a | Err e => Err (f e) | Panic => Panic end.

Definition or_panic {E A} (o : option A) : outcome E A := match o with Some a => Ok a | None => Panic end.
Definition or_fail {E A} (e : E) (o : option A) : outcome E A := match o with Some a => Ok a | None => Err e end.

(** ** Worker outputs *)

Definition worker_output (workersDir : bytes) (index : Z) : bytes :=
  Join [workersDir; str "worker-" ++ format_int index ++ str ".jsonl"].

Definition successByIndex (results : list workerResult) : gmap Z bool :=
  foldl (fun m r => <[wr_Index r := negb (wr_failed r)]> m) ∅ results.

Definition collectMergePaths (stat_fails : bytes -> bool) (files : world) (workers : list workerInfo) (results : list workerResult)
    : outcome exec_error (list bytes) :=
  let success := successByIndex results in
  (fix go workers :=
     match workers with
     | [] => Ok []
     | worker :: workers' =>
         let p := OutputPath worker in
         if stat_fails p then Err (XStatOutput p)
         else match files !! p with
              | Some _ => rest ← go workers'; Ok (p :: rest)
              | None =>
                  if default false (success !! Index (wi_Chunk worker)) then Err (XNoOutput (Index (wi_Chunk worker)) p) else go workers'
              end
     end) workers.

(** The files [os.RemoveAll] leaves. *)
Definition under (dir path : bytes) : bool := has_prefix path (dir ++ str "/").
Definition cleanupWorkerCache (env : io_env) (workersDir : bytes) (files : world) : world :=
  filter (fun kv => under workersDir kv.1 = false \/ remove_fails env kv.1 = true) files.

(** The engines, served one request after the other. *)
Fixpoint run_session {B E} {BK : Backend B E} (ses : session (option (response E))) (b : B) : list exec_result * world * B :=
  match ses with
  | Finished ends files => (ends, files, b)
  | Asks r next => let '(reply, b) := serveHTTP r b in run_session (next reply) b
  end.

(** ** The machine *)

Section orchestrator.
Context {E2 : Eth2} (decompress : bytes -> option bytes) {RC : Type} {RL : Lru N bytes RC}.
Context {CS : Type} {LS : Lru N blockInfo CS} {CR : Type} {LR : Lru bytes blockInfo CR} {FC : Type} {FL : Lru N firstSeenEpoch FC}.
Context {Y : Type} (h : host Y) (env : io_env) (stat_fails : bytes -> bool) (jitter : nat -> N) (iterate : gset N -> list N).
Context (url_parse : bytes -> option URL) (getenv : bytes -> bytes) (minio_new : bytes -> bool -> bool -> bool) (url_ok : bytes -> bool).
Context {T : Type} (s3 : bytes -> Store T) (lru_ok : Z -> bool) (parquet : bytes -> option (list firstSeenParquetRow)).
Context {Wd : Type} (era_http : bytes -> Wd -> http_answer * Wd).
Context {Wn : Type} (node_http : bytes -> bytes -> Wn -> http_answer * Wn).
Context {Wa : Type} (archive_http : Archive.request -> Wa -> http_answer * Wa).
Context (engines : bytes -> list (list bytes) -> world -> Y -> session (option (response backend_error))).

Abbreviation era_reader := (reader RC).
Abbreviation first_state := (first_seen_state (T := T) (C := FC)).
Abbreviation archive_st := (archive_state (W := Wa)).

(** The object stores of the cache and of the first-seen base are separate states. *)
Record machine := mkMachine {
  m_host : Y;
  m_files : world;
  m_store : T;
  m_web : Wd; m_era : world; m_index : option (list eraFilename); m_web_slept : list N;
  m_node : Wn; m_node_files : world; m_node_slept : list N;
  m_archive : archive_st;
  m_first_store : T; m_first_files : world
}.

Abbreviation M := (stateM machine exec_error).

Definition with_files (files : world) (s : machine) : machine :=
  mkMachine (m_host s) files (m_store s) (m_web s) (m_era s) (m_index s) (m_web_slept s) (m_node s) (m_node_files s) (m_node_slept s)
    (m_archive s) (m_first_store s) (m_first_files s).
Definition with_archive (a : archive_st) (s : machine) : machine :=
  mkMachine (m_host s) (m_files s) (m_store s) (m_web s) (m_era s) (m_index s) (m_web_slept s) (m_node s) (m_node_files s) (m_node_slept s)
    a (m_first_store s) (m_first_files s).
Definition with_host (y : Y) (s : machine) : machine :=
  mkMachine y (m_files s) (m_store s) (m_web s) (m_era s) (m_index s) (m_web_slept s) (m_node s) (m_node_files s) (m_node_slept s)
    (m_archive s) (m_first_store s) (m_first_files s).

(** The store of the cache, by its bucket. *)
Definition cache_store (bucket : option bytes) : Store T := s3 (default [] bucket).
Definition store_of (bucket : option bytes) (s : machine) : option T := (fun _ => m_store s) <$> bucket.

Definition dl_of (bucket : option bytes) (s : machine) : dl_state (W := Wd) (T := T) :=
  mkDL (m_web s) (m_era s) (store_of bucket s) (m_index s) (m_web_slept s).
Definition with_dl (d : dl_state (W := Wd) (T := T)) (s : machine) : machine :=
  mkMachine (m_host s) (m_files s) (default (m_store s) (d_store d)) (d_server d) (d_files d) (d_index d) (d_slept d)
    (m_node s) (m_node_files s) (m_node_slept s) (m_archive s) (m_first_store s) (m_first_files s).

(** A call of the downloader. *)
Definition on_downloader {A} (bucket : option bytes) (wrap : download_error -> exec_error)
    (call : stateM (dl_state (W := Wd) (T := T)) download_error A) : M A := fun s =>
  let '(o, d) := call (dl_of bucket s) in (map_err wrap o, with_dl d s).

Definition fetch_of (bucket : option bytes) (s : machine) : fetch_state (W := Wn) (T := T) :=
  mkFS (m_node s) (m_node_files s) (store_of bucket s) (m_node_slept s).
Definition with_fetch (f : fetch_state (W := Wn) (T := T)) (s : machine) : machine :=
  mkMachine (m_host s) (m_files s) (default (m_store s) (f_store f)) (m_web s) (m_era s) (m_index s) (m_web_slept s)
    (f_server f) (f_files f) (f_slept f) (m_archive s) (m_first_store s) (m_first_files s).

(** A call of the fetcher. *)
Definition on_fetch {A} (bucket : option bytes) (wrap : fetch_error -> exec_error)
    (call : stateM (fetch_state (W := Wn) (T := T)) fetch_error A) : M A := fun s =>
  let '(o, f) := call (fetch_of bucket s) in (map_err wrap o, with_fetch f s).

(** ** Preparing the workers *)

Section workers.
Context (cfg : config) (bucket : option bytes) (fetcher : Fetcher).
#[local] Instance worker_store : Store T := cache_store bucket.

Definition workersDir : bytes := Join [cfg_CacheDir cfg; str "workers"].

(** [os.Remove], where a missing file is no error. *)
Definition remove_stale (path : bytes) : M unit := fun s =>
  match m_files s !! path with
  | None => (Ok tt, s)
  | Some _ => if remove_fails env path then (Err (XRemoveStale path), s) else (Ok tt, with_files (delete path (m_files s)) s)
  end.

(** [os.WriteFile(path, nil, 0o644)] *)
Definition write_empty (path : bytes) : M unit := fun s =>
  match write_fails env path with
  | Some FMkdirAll | Some FCreateTemp => (Err (XCreateOutput path), s)
  | Some (FWrite _) | Some FClose => (Err (XCreateOutput path), with_files (<[path := []]> (m_files s)) s)
  | _ => (Ok tt, with_files (<[path := []]> (m_files s)) s)
  end.

(** What the loop over the chunks collects. *)
Record prepared := mkPrepared {
  p_infos : list workerInfo; p_states : list CheckpointState; p_blocks : gmap bytes bytes
}.

Definition prepare_worker (p : prepared) (c : Chunk) : M prepared :=
  let outputPath := worker_output workersDir (Index c) in
  _ ← remove_stale outputPath;
  if StartEpoch c =? EndEpoch c then
    _ ← write_empty outputPath;
    mret (mkPrepared (p_infos p ++ [mkWorkerInfo c outputPath 0 true]) (p_states p) (p_blocks p))
  else
    checkpoint ← on_fetch bucket (XCheckpointState (Index c)) (FetchCheckpointAtWarmupSlot node_http url_ok env jitter fetcher (WarmupStartSlot c));
    root ← on_fetch bucket (XCheckpointRoot (Index c)) (CheckpointBlockRootAtSlot node_http url_ok jitter fetcher checkpoint.1);
    blockSSZ ← on_fetch bucket (XCheckpointBlock (Index c)) (Fetch.FetchBlockSSZByRoot node_http url_ok env jitter fetcher root);
    mret (mkPrepared (p_infos p ++ [mkWorkerInfo c outputPath checkpoint.1 false])
            (p_states p ++ [mkCheckpointState (Index c) checkpoint.1 (SHA256Bytes checkpoint.2)])
            (<[root := blockSSZ]> (p_blocks p))).

Definition prepareWorkers (chunks : list Chunk) : M prepared :=
  if negb (h_mkdir_ok h workersDir) then st_lift (Err (XMkdir workersDir))
  else st_fold prepare_worker (mkPrepared [] [] ∅) chunks.

(** ** ERA files for what the warm-up reads *)

Definition preDownloadWarmArchiveCatchUpEras (downloader : Downloader) (workerInfos : list workerInfo)
    (initialCovered : eraSlotEnvelope) (maxPlannedEndSlot : N) : M unit :=
  match warmArchiveEraDownloadEnvelope workerInfos maxPlannedEndSlot (cfg_LookaheadCap cfg) with
  | None => mret tt
  | Some envelope =>
      if negb (slotEnvelopeExtendsBeyond envelope initialCovered) then mret tt
      else on_downloader bucket XCatchUp
             (PreDownloadSlotRangeContext era_http url_ok env downloader (env_StartSlot envelope) (env_EndSlot envelope))
  end.

(** ** Sources of the backend *)

(** [None]: no archive configured. *)
Definition newArchiveClient : outcome exec_error (option Client) :=
  if decide (cfg_BlockArchiveURL cfg = []) then Ok None
  else c ← or_fail XArchiveClient (Archive.New (cfg_BlockArchiveURL cfg) (cfg_Network cfg) (Join [cfg_CacheDir cfg; str "block-archive"]));
       Ok (Some c).

Definition archive_of (client : option Client) : Archive archive_st :=
  client_archive archive_http env url_ok (default (mkClient [] [] []) client).

(** The first-seen source and the bucket its files come from. *)
Record firstSeen := mkFirstSeen { fsn_source : FirstSeenAttestationSource; fsn_bucket : option bytes }.

(** The source with its state; [None]: another mode. *)
Definition newFirstSeenSource (s : machine) : outcome exec_error (option (firstSeen * first_state)) :=
  if negb (bool_decide (cfg_AttestationSourceMode cfg = str "xatu-first-seen-singles")) then Ok None
  else
    first_bucket ← map_err XFirstSeenStore (newFirstSeenS3Store url_parse getenv minio_new cfg);
    created ← map_err XFirstSeen (NewFirstSeenAttestationSource lru_ok (cfg_FirstSeenBasePath cfg) (cfg_Network cfg)
                (cfg_FirstSeenDeadlineMS cfg) (cfg_CacheDir cfg) (bool_decide (is_Some first_bucket)) 0);
    Ok (Some (mkFirstSeen created.1 first_bucket,
              mkFSS lru_empty ∅ (m_first_files s) ((fun _ => m_first_store s) <$> first_bucket))).

Definition no_source : FirstSeenAttestationSource := FirstSeen.mkSource (mkBase [] [] [] false) [] 0 [].
Definition first_seen_of (first : option (firstSeen * first_state)) : FirstSeen first_state :=
  source_first_seen (ST := cache_store (first ≫= (fun f => fsn_bucket f.1))) parquet stat_fails env (default no_source ((fun f => fsn_source f.1) <$> first)).

(** What the backends of a run share: the ERA reader and the first-seen source. *)
Record sources := mkSources { src_reader : era_reader; src_first : option (firstSeen * first_state) }.

Definition set_first (first : option (firstSeen * first_state)) (st : option first_state) : option (firstSeen * first_state) :=
  match first, st with Some (f, _), Some st => Some (f, st) | _, _ => first end.

(** ** Warming the archive cache *)

Definition warm_slot_range (info : workerInfo) : option (N * N) :=
  if wi_Skipped info then None
  else
    let from := u64_add (ActualWarmupStartSlot info) 1 in
    let to := EndSlot (wi_Chunk info) in
    if to <=? from then None else Some (from, to).

Definition backend_config (mode : AttPlan.Mode) (checkpointBlocks : gmap bytes bytes) (cacheOnly : bool)
    (orphanRoots : gmap N (list bytes)) : RealBackendConfig :=
  PlanState.mkConfig mode (cfg_LookaheadCap cfg) checkpointBlocks cacheOnly orphanRoots MainnetForkAtSlot.

Definition src_state (src : sources) : option first_state := match src_first src with Some (_, st) => Some st | None => None end.

(** [beaconapi.WarmBlockArchiveCache]: the orphan roots found and the sources after the pass. *)
Definition run_warm (mode : AttPlan.Mode) (client : Client) (ranges : list (N * N)) (checkpointBlocks : gmap bytes bytes) (src : sources)
    : M (gmap N (list bytes) * sources) := fun s =>
  let '(o, result, b) :=
    WarmBlockArchiveCache (BS := reader_source decompress) (LS := LS) (LR := LR) (AR := archive_of (Some client))
      (FS := first_seen_of (src_first src)) iterate (backend_config mode checkpointBlocks false ∅) (cfg_DecodedBlockCacheSize cfg)
      (Some (src_reader src)) (Some (m_archive s)) (src_state src) ranges in
  (match o with
   | Ok _ => Ok (OrphanRootsBySlot result,
                 mkSources (default (src_reader src) (era (ix b))) (set_first (src_first src) (FirstSeenSource b)))
   | Err e => Err (XWarm e)
   | Panic => Panic
   end, with_archive (default (m_archive s) (BlockArchive b)) s).

Definition warmBlockArchiveCache (workerInfos : list workerInfo) (checkpointBlocks : gmap bytes bytes) (src : sources)
    : M (gmap N (list bytes) * sources) :=
  client ← st_lift newArchiveClient;
  match client with
  | None => mret ((∅ : gmap N (list bytes)), src)
  | Some client =>
      mode ← st_lift (or_fail (XMode (cfg_AttestationSourceMode cfg)) (parseAttplanMode (cfg_AttestationSourceMode cfg)));
      let ranges := omap warm_slot_range workerInfos in
      if decide (ranges = []) then mret ((∅ : gmap N (list bytes)), src)
      else run_warm mode client ranges checkpointBlocks src
  end.
End workers.

(** ** Serving the engines *)

Section serving.
Context (cfg : config) (bucket : option bytes) (fetcher : Fetcher).
#[local] Instance serving_store : Store T := cache_store bucket.

Abbreviation backend_of := (served_backend (R := era_reader) (CS := CS) (CR := CR) (A := archive_st) (F := first_state) (W := Wn) (T := T)).

(** What the server is started with. *)
Record server_start := mkServerStart { ss_config : RealBackendConfig; ss_client : option Client; ss_URL : bytes }.

(** [startBeaconAPIServer] *)
Definition startBeaconAPIServer (checkpointBlocks : gmap bytes bytes) (archiveOrphanRootsBySlot : gmap N (list bytes))
    : outcome exec_error server_start :=
  mode ← or_fail (XMode (cfg_AttestationSourceMode cfg)) (parseAttplanMode (cfg_AttestationSourceMode cfg));
  archiveClient ← newArchiveClient cfg;
  listener ← or_fail (XListen (cfg_HTTPListen cfg)) (h_listen h (cfg_HTTPListen cfg));
  Ok (mkServerStart (backend_config cfg mode checkpointBlocks true archiveOrphanRootsBySlot) archiveClient (listenerHTTPURL listener)).

(** [NewRealBackend] *)
Definition new_backend (start : server_start) (src : sources) (s : machine) : backend_of :=
  mkServed (mkBackend (newState (Some (src_reader src)) (cfg_DecodedBlockCacheSize cfg)) ((fun _ => m_archive s) <$> ss_client start)
              (src_state src)) (Some (fetch_of bucket s)).

(** The machine after serving. *)
Definition with_first (st : option first_state) (s : machine) : machine :=
  match st with
  | None => s
  | Some st =>
      mkMachine (m_host s) (m_files s) (m_store s) (m_web s) (m_era s) (m_index s) (m_web_slept s) (m_node s) (m_node_files s)
        (m_node_slept s) (m_archive s) (default (m_first_store s) (fs_store st)) (fs_files st)
  end.

Definition after_serving (b : backend_of) (s : machine) : machine :=
  with_first (FirstSeenSource (sb_real b))
    (with_archive (default (m_archive s) (BlockArchive (sb_real b)))
       (match sb_fetcher b with Some f => with_fetch f s | None => s end)).

(** The engines' session with the server: how they end, and the sources after it. *)
Definition run_engines (start : server_start) (infos : list workerInfo) (src : sources) : M (list workerResult * sources) := fun s =>
  let ses := engines (cfg_EngineBinary cfg) ((fun info => worker_args cfg info (ss_URL start)) <$> running infos) (m_files s) (m_host s) in
  let '(ends, files, b) :=
    run_session (BK := real_backend (BS := reader_source decompress) (AR := archive_of (ss_client start)) (FS := first_seen_of (src_first src))
      (LS := LS) (LR := LR) node_http url_ok env jitter fetcher (ss_config start) mainnetGenesisInfo) ses (new_backend start src s) in
  (Ok (runEngineWorkers infos ends,
       mkSources (default (src_reader src) (era (ix (sb_real b)))) (set_first (src_first src) (FirstSeenSource (sb_real b)))),
   with_files files (after_serving b s)).
End serving.

(** ** The manifest *)

Definition run_manifest (cfg : config) (em : EngineManifest) (eraFiles : option (list EraFile)) (states : list CheckpointState)
    (jsonlSHA csvSHA : bytes) (stats : MergeStats) : RunManifest :=
  let first_seen := bool_decide (cfg_AttestationSourceMode cfg = str "xatu-first-seen-singles") in
  mkRunManifest schemaVersion (simulatorVersion h) (h_now h)
    (mkManifestConfig (cfg_Engine cfg) (cfg_Network cfg) (cfg_StartEpoch cfg) (cfg_EndEpoch cfg) (cfg_WarmupEpochs cfg) (cfg_Parallel cfg)
       (cfg_AttestationSourceMode cfg) (cfg_LookaheadCap cfg) (if first_seen then cfg_FirstSeenBasePath cfg else [])
       (if first_seen then cfg_FirstSeenDeadlineMS cfg else 0) (cfg_ByzantineThreshold cfg) (cfg_BeaconNodeURL cfg) (cfg_EraURL cfg))
    em (mkInputs eraFiles states) (mkOutputs jsonlSHA csvSHA (TotalSlots stats) (FastConfirmedCount stats)).

(** [if paths.JSONL != ""] *)
Definition output_sha (path : bytes) (files : world) : outcome manifest_error bytes :=
  if decide (path = []) then Ok [] else SHA256File env path files.

Definition writeRunManifest (cfg : config) (em : EngineManifest) (states : list CheckpointState) (paths : outputPaths) (stats : MergeStats) : M unit := fun s =>
  match (eraFiles ← CollectEraFiles env (DirFiles (m_era s)) (cfg_EraURL cfg);
         jsonlSHA ← output_sha (JSONL paths) (m_files s);
         csvSHA ← output_sha (CSV paths) (m_files s);
         Ok (run_manifest cfg em eraFiles states jsonlSHA csvSHA stats)) with
  | Ok m => let '(o, files) := Manifest.Write env (ManifestPath paths) m (m_files s) in (map_err XManifest o, with_files files s)
  | Err e => (Err (XManifest e), s)
  | Panic => (Panic, s)
  end.

(** ** [execute] *)

(** The engine's manifest and the chunks, before anything is fetched. *)
Definition check_engine (cfg : config) : M EngineManifest := fun s =>
  (em ← map_err XEngine (captureEngineManifest h (cfg_EngineBinary cfg) (m_host s));
   _ ← map_err XEngine (validateEngineManifest (cfg_Engine cfg) (cfg_EngineBinary cfg) em);
   Ok em, s).

Definition split_chunks (cfg : config) : outcome exec_error (list Chunk * list Chunk) :=
  chunks ← match Split (cfg_StartEpoch cfg) (cfg_EndEpoch cfg) (cfg_WarmupEpochs cfg) (cfg_Parallel cfg) with
           | Ok chunks => Ok chunks | Err e => match e with end | Panic => Panic end;
  if decide (chunks = []) then Err XNoChunks
  else
    let activeChunks := filterActiveChunks chunks in
    if decide (activeChunks = []) then Err XNoActiveChunks else Ok (chunks, activeChunks).

(** The reader is opened before the last files are there; it reads the directory when used. *)
Definition reader_now (r : era_reader) : M era_reader := fun s =>
  (Ok (mkReader (Some (m_era s)) (eras r) (EraReader.cache r)), s).

(** The merge of the workers' outputs, and what follows it. *)
Definition merge_outputs (cfg : config) (em : EngineManifest) (activeChunks : list Chunk) (p : prepared)
    (results : list workerResult) (src : sources) : M Z := fun s =>
  let paths := resolveOutputPaths (cfg_Output cfg) (cfg_OutputFormat cfg) in
  let hadWorkerFailure := existsb wr_failed results in
  (mergePaths ← st_lift (collectMergePaths stat_fails (m_files s) (p_infos p) results);
   minSlot ← st_lift (or_panic (minWarmupSlot activeChunks));
   maxSlot ← st_lift (or_panic (maxEndSlot activeChunks));
   let lookup := lookup_callback (BS := reader_source decompress) (LS := LS) (LR := LR) MainnetForkAtSlot
                   (mkLookup minSlot (saturatingSlotAdd maxSlot (cfg_LookaheadCap cfg)))
                   (newState (Some (src_reader src)) (cfg_DecodedBlockCacheSize cfg)) in
   stats ← (fun s =>
     let '(o, files) := MergeAndWriteWithCanonical env mergePaths (JSONL paths) (CSV paths)
       (mkMeta (em_EngineName em) (em_EngineVersion em) (em_EngineCommit em) (cfg_AttestationSourceMode cfg) (cfg_LookaheadCap cfg))
       (expected_slots activeChunks) (Some lookup) (m_files s) in
     (map_err XMerge o, with_files files s));
   _ ← writeRunManifest cfg em (p_states p) paths stats;
   _ ← (if negb (cfg_KeepCache cfg) && negb hadWorkerFailure
        then st_modify (fun s => with_files (cleanupWorkerCache env (workersDir cfg) (m_files s)) s) else mret tt);
   mret (if hadWorkerFailure then 1 else 0)%Z) s.

(** The state once everything is fetched and warm. *)
Record ready := mkReady {
  rd_manifest : EngineManifest; rd_active : list Chunk; rd_bucket : option bytes; rd_fetcher : Fetcher;
  rd_prepared : prepared; rd_orphans : gmap N (list bytes); rd_sources : sources
}.

Definition prepare_run (cfg : config) : M ready :=
  _ ← st_lift (if h_mkdir_ok h (cfg_CacheDir cfg) then Ok tt else Err (XMkdir (cfg_CacheDir cfg)));
  bucket ← st_lift (map_err XStore (newS3Store url_parse getenv minio_new (cfg_S3Endpoint cfg) (cfg_S3Bucket cfg) (cfg_S3PathStyle cfg)));
  let has_store := bool_decide (is_Some bucket) in
  let eraDir := Join [cfg_CacheDir cfg; str "era"] in
  em ← check_engine cfg;
  split ← st_lift (split_chunks cfg);
  let '(chunks, activeChunks) := split in
  initialEraStartSlot ← st_lift (or_panic (minWarmupSlot activeChunks));
  initialEraEndSlot ← st_lift (or_panic (maxEndSlot activeChunks));
  downloader ← st_lift (or_fail XDownloader (NewDownloaderWithS3 (h_mkdir_ok h eraDir) (cfg_EraURL cfg) (cfg_Network cfg) has_store));
  _ ← on_downloader bucket XPreDownload
        (PreDownloadContext era_http url_ok env (ST := cache_store bucket) downloader initialEraStartSlot initialEraEndSlot);
  y ← st_gets m_host;
  era ← st_gets m_era;
  reader ← st_lift (map_err XReader (EraReader.New (match h_stat h eraDir y with Found d => Some d | _ => None end) (Some era)));
  fetcher ← st_lift (or_fail XFetcher (NewWithS3 (h_mkdir_ok h) (cfg_BeaconNodeURL cfg) (cfg_CacheDir cfg) (cfg_Network cfg) has_store));
  first ← (fun s => (newFirstSeenSource cfg s, s));
  p ← prepareWorkers cfg bucket fetcher chunks;
  _ ← preDownloadWarmArchiveCatchUpEras cfg bucket downloader (p_infos p)
        (mkEnvelope initialEraStartSlot (saturatingSlotAdd initialEraEndSlot PreDownloadLookaheadSlots)) initialEraEndSlot;
  _ ← on_fetch bucket XGenesisState (FetchGenesisStateSSZ node_http url_ok env jitter (ST := cache_store bucket) fetcher);
  reader ← reader_now reader;
  warmed ← warmBlockArchiveCache cfg (p_infos p) (p_blocks p) (mkSources reader first);
  mret (mkReady em activeChunks bucket fetcher p warmed.1 warmed.2).

(** The exit code; every error is code 1. *)
Definition execute (cfg : config) : M Z :=
  r ← prepare_run cfg;
  if cfg_PrepOnly cfg then mret 0%Z
  else
    start ← st_lift (startBeaconAPIServer cfg (p_blocks (rd_prepared r)) (rd_orphans r));
    served ← run_engines cfg (rd_bucket r) (rd_fetcher r) start (p_infos (rd_prepared r)) (rd_sources r);
    merge_outputs cfg (rd_manifest r) (rd_active r) (rd_prepared r) served.1 served.2.

(** ** The commands *)

(** [run] without the [era-mirror] command: the exit code, [None] for a panic. *)
Definition run_main (args : list bytes) (s : machine) : option Z * machine :=
  match parseConfig url_parse getenv args with
  | Err CHelp => (Some 0%Z, s)
  | Err _ => (Some 1%Z, s)
  | Panic => (None, s)
  | Ok None => (Some 0%Z, s)
  | Ok (Some cfg) =>
      match prepareEngineBinary h cfg (m_host s) with
      | (Err _, y) => (Some 1%Z, with_host y s)
      | (Panic, y) => (None, with_host y s)
      | (Ok cfg, y) =>
          match execute cfg (with_host y s) with
          | (Ok code, s) => (Some code, s)
          | (Err _, s) => (Some 1%Z, s)
          | (Panic, s) => (None, s)
          end
      end
  end.

(** [runEraMirrorCommand] up to [MirrorToS3]: the job, or the exit code. *)
Record mirror_job := mkMirrorJob { mj_downloader : Downloader; mj_bucket : bytes; mj_start : N; mj_end : N; mj_parallel : Z }.

Definition mirror_prepare (args : list bytes) : outcome Z mirror_job :=
  cfg ← match parseEraMirrorConfig url_parse getenv args with
        | Ok cfg => Ok cfg | Err CHelp => Err 0%Z | Err _ => Err 1%Z | Panic => Panic end;
  if negb (h_mkdir_ok h (em_CacheDir cfg)) then Err 1%Z
  else
    store ← map_err (fun _ => 1%Z) (newS3Store url_parse getenv minio_new (em_S3Endpoint cfg) (em_S3Bucket cfg) (em_S3PathStyle cfg));
    bucket ← or_fail 1%Z store;
    chunks ← map_err (fun _ => 1%Z) (Split (em_StartEpoch cfg) (em_EndEpoch cfg) (em_WarmupEpochs cfg) (em_Parallel cfg));
    let activeChunks := filterActiveChunks chunks in
    if decide (activeChunks = []) then Err 1%Z
    else
      startSlot ← or_panic (minWarmupSlot activeChunks);
      endSlot ← or_panic (maxEndSlot activeChunks);
      let '(startEra, endEra) := eraRangeForSlots startSlot endSlot in
      downloader ← or_fail 1%Z (NewDownloaderWithS3 (h_mkdir_ok h (Join [em_CacheDir cfg; str "era"])) (em_EraURL cfg) (em_Network cfg) true);
      Ok (mkMirrorJob downloader bucket startEra endEra (em_Parallel cfg)).

(** The command and its exit code: refused, not started, or run to the end of its goroutines. *)
Inductive runEraMirrorCommand (args : list bytes) (s : machine) : Z -> Prop :=
| mirror_refused code : mirror_prepare args = Err code -> runEraMirrorCommand args s code
| mirror_not_started job :
    mirror_prepare args = Ok job -> MirrorToS3 (mj_end job) (mj_start job) (mj_parallel job) (dl_of (Some (mj_bucket job)) s) = None ->
    runEraMirrorCommand args s 1
| mirror_ran job m0 m code :
    mirror_prepare args = Ok job -> MirrorToS3 (mj_end job) (mj_start job) (mj_parallel job) (dl_of (Some (mj_bucket job)) s) = Some m0 ->
    rtc (mirror_env era_http url_ok (ST := s3 (mj_bucket job)) env stat_fails (mj_downloader job) (mj_end job)) m0 m -> finished m ->
    (code = 0%Z /\ mirror_ok m) \/ (code = 1%Z /\ ~ mirror_ok m) -> runEraMirrorCommand args s code.

(** The exit code of [run]. *)
Inductive run (args : list bytes) (s : machine) : Z -> Prop :=
| run_mirror rest code : args = str "era-mirror" :: rest -> runEraMirrorCommand rest s code -> run args s code
| run_simulation code s' : head args ≠ Some (str "era-mirror") -> run_main args s = (Some code, s') -> run args s code.
End orchestrator.
