(* ===== verification/RunSafety.v ===== *)
(** * What exit code 0 of a run means ([execute] in [cmd/fcr-orchestrator/main.go])

    The composition of the merge, the manifest, the chunks and the output paths: from the
    exit code of the orchestrator to what is in its output files. *)

From S2P Require Import Prelude Bytes Lru EraFormat EraReader Sources SlotRanges BlockInfo AttPlan CanonicalIndex Samples.
From S2P Require Import PlanSources PlanState ArchiveWarm Chunk Json GoStrings JsonIndent Files S3Cache Flags Config Fetch Downloader Mirror.
From S2P Require Import Merge CanonicalLookup Sha256 Manifest Archive FirstSeen Server RealBackend Engine Orchestrator.
From Stdlib Require Import Strings.Byte.

(** ** Lemmas: output paths *)

(** An extension has one dot, at its start. *)
Definition extension (e : bytes) : Prop := e = [] \/ exists e', e = x2e :: e' /\ x2e ∉ e' /\ x2f ∉ e'.

Lemma ext_rev_spec s acc : x2e ∉ acc -> x2f ∉ acc -> 
  (exists e', ext_rev s acc = x2e :: e' /\ x2e ∉ e' /\ x2f ∉ e' /\ exists p, reverse s ++ acc = p ++ x2e :: e')
  \/ ext_rev s acc = [].
Proof.
  revert acc. induction s as [|c s IH]; intros acc Hd Hs; cbn [ext_rev]; [by right|].
  destruct (decide (c = x2f)); [by right|]. destruct (decide (c = x2e)) as [->|Hne].
  - left. exists acc. split_and!; [done|done|done|]. exists (reverse s). by rewrite reverse_cons, <- app_assoc.
  - rewrite reverse_cons, <- app_assoc. cbn [app]. apply IH; by rewrite not_elem_of_cons.
Qed.

Lemma trim_suffix_app p e : trim_suffix (p ++ e) e = p.
Proof. unfold trim_suffix. rewrite has_suffix_app, length_app. replace (_ - _)%nat with (length p) by lia. apply take_app_length. Qed.

Lemma Ext_spec s : extension (Ext s) /\ exists p, s = p ++ Ext s /\ trim_suffix s (Ext s) = p.
Proof.
  assert (H : extension (Ext s) /\ exists p, s = p ++ Ext s).
  { unfold Ext. destruct (ext_rev_spec (reverse s) []) as [(e' & -> & ? & ? & p & Hp)| ->].
    - by intros ?%not_elem_of_nil.
    - by intros ?%not_elem_of_nil.
    - split; [right; by exists e'|]. exists p. by rewrite reverse_involutive, app_nil_r in Hp.
    - split; [by left|]. exists s. by rewrite app_nil_r. }
  destruct H as [He [p Hp]]. split; [done|]. exists p. split; [done|].
  remember (Ext s) as e. subst s. apply trim_suffix_app.
Qed.

Lemma Ext_app p e : x2e ∉ e -> x2f ∉ e -> Ext (p ++ x2e :: e) = x2e :: e.
Proof.
  intros Hd Hs. unfold Ext. rewrite reverse_app, reverse_cons, <- app_assoc. cbn [app].
  assert (H : forall l acc, x2e ∉ l -> x2f ∉ l -> ext_rev (l ++ x2e :: reverse p) acc = x2e :: reverse l ++ acc).
  { induction l as [|c l IH]; intros acc; [done|]. rewrite !not_elem_of_cons. intros [? ?] [? ?]. cbn [app ext_rev].
    rewrite !decide_False by done. rewrite IH by done. by rewrite reverse_cons, <- app_assoc. }
  rewrite H by (by rewrite elem_of_reverse). by rewrite reverse_involutive, app_nil_r.
Qed.

Lemma extension_no_dots e a b : extension e -> e ≠ x2e :: a ++ x2e :: b.
Proof. intros [->|(e' & -> & Hd & _)]; [done|]. intros [= ->]. apply Hd. set_solver. Qed.

(** The three output files are different files. *)
Lemma resolveOutputPaths_distinct output format :
  let paths := resolveOutputPaths output format in
  (JSONL paths ≠ CSV paths \/ CSV paths = []) /\ ManifestPath paths ≠ JSONL paths /\ ManifestPath paths ≠ CSV paths.
Proof.
  assert (Hm : forall base, trim_suffix base (Ext base) ++ str ".manifest.json" ≠ base).
  { intros base He. destruct (Ext_spec base) as [Hx (p & Hp & Ht)]. rewrite Ht in He. rewrite Hp in He.
    apply app_inv_head in He. by apply (extension_no_dots (Ext base) (str "manifest") (str "json") Hx). }
  assert (Hne : forall base, trim_suffix base (Ext base) ++ str ".manifest.json" ≠ []) by (intros base [_ [=]]%app_nil).
  assert (Hx : forall p, trim_suffix (p ++ str ".csv") (Ext (p ++ str ".csv")) = p).
  { intros p. change (str ".csv") with (x2e :: str "csv"). rewrite (Ext_app p (str "csv")) by (by apply (bool_decide_unpack _); vm_compute).
    apply trim_suffix_app. }
  unfold resolveOutputPaths. destruct (Ext_spec output) as [Hext (p & Hp & Htrim)].
  destruct (decide (ToLower format = str "csv")).
  { cbn. split; [by destruct output; auto|]. split; [apply Hne|]. destruct (decide _); [subst; done|apply Hm]. }
  destruct (decide (ToLower format = str "jsonl")).
  { cbn. split; [by right|]. destruct (decide (output = [])) as [->|]; [done|]. split; [apply Hm|apply Hne]. }
  destruct (decide (ToLower format = str "both")).
  2: { cbn. split; [by right|]. split; apply Hne. }
  rewrite Htrim. destruct (decide (ToLower (Ext output) = str ".csv")) as [Hcsv|Hcsv]; cbn [JSONL CSV ManifestPath].
  - assert (output ≠ []) by (intros ->; vm_compute in Hcsv; discriminate). rewrite (decide_False (P := output = [])) by done.
    rewrite Htrim. split; [left|split].
    + rewrite Hp. intros He%app_inv_head. rewrite <- He in Hcsv. vm_compute in Hcsv. discriminate.
    + intros He%app_inv_head. discriminate.
    + rewrite <- Htrim. apply Hm.
  - destruct (decide (ToLower (Ext output) = str ".jsonl")) as [Hj|Hj]; cbn [JSONL CSV ManifestPath].
    + rewrite (decide_False (P := p ++ str ".csv" = [])) by (intros [_ [=]]%app_nil). rewrite Hx. split; [left|split].
      * rewrite Hp. intros He%app_inv_head. rewrite He in Hj. vm_compute in Hj. discriminate.
      * rewrite Hp. intros He%app_inv_head. by apply (extension_no_dots (Ext output) (str "manifest") (str "json") Hext).
      * intros He%app_inv_head. discriminate.
    + rewrite (decide_False (P := output ++ str ".csv" = [])) by (intros [_ [=]]%app_nil). rewrite Hx.
      split; [left|split]; intros He%app_inv_head; discriminate.
Qed.

(** ** Lemmas: the expected slots *)

Lemma Split_chunks s e we p cs :
  Split s e we p = Ok cs -> cs ≠ [] -> u64 e ->
  s < e /\ (0 < p)%Z /\ cs = chunk_at s (e - s) (Z.to_N p) we <$> slots 0 (Z.to_N p).
Proof.
  intros HS Hne Hu. assert (Hp : (0 < p)%Z /\ s < e /\ 48 * Z.to_N p <= maxAlloc).
  { unfold Split, makeslice_panics in HS. destruct (Z.leb_spec p 0), (N.leb_spec e s); cbn in HS; try by injection HS as <-.
    destruct (N.ltb_spec maxAlloc (48 * Z.to_N p)); [done|]. done. }
  destruct Hp as (? & ? & ?). rewrite Split_closed in HS by done. injection HS as <-. done.
Qed.

(** Every slot of the range belongs to a chunk, and to the slots the engines owe, except
    slot 0 and, without warm-up, a chunk's first slot. *)
Lemma expected_slots_cover s e we p cs slot :
  Split s e we p = Ok cs -> cs ≠ [] -> e <= MaxUint64 / 32 -> 32 * s <= slot < 32 * e ->
  (exists c, c ∈ filterActiveChunks cs /\ StartSlot c <= slot < EndSlot c)
  /\ (0 < we -> slot ≠ 0 -> slot ∈ expected_slots (filterActiveChunks cs)).
Proof.
  intros HS Hne Hmax Hslot. destruct (Split_chunks _ _ _ _ _ HS Hne) as (Hse & Hp & ->); [u64_lia|].
  set (w := Z.to_N p) in *. set (t := e - s) in *.
  assert (He : slot / 32 ∈ slots s (chunk_bound s t w (N.of_nat (N.to_nat w)))).
  { rewrite N2Nat.id, chunk_bound_last by lia. apply elem_of_slots. lia. }
  rewrite <- concat_chunk_epochs in He. apply list_elem_of_In, in_concat in He as (l & Hl & Hin).
  apply list_elem_of_In, list_elem_of_fmap in Hl as (i & -> & Hi). apply list_elem_of_In, elem_of_slots in Hin.
  assert (Hi' : i < w) by (apply elem_of_seqN in Hi; lia).
  pose proof (chunk_bound_le s t w (i + 1) ltac:(lia) ltac:(lia)) as Hb.
  set (c := chunk_at s t w we i). set (a := chunk_bound s t w i) in *. set (b := chunk_bound s t w (i + 1)) in *.
  assert (Hc : c ∈ filterActiveChunks (chunk_at s t w we <$> slots 0 w)).
  { apply list_elem_of_filter. split; [cbn; lia|]. apply list_elem_of_fmap. exists i. split; [done|]. apply elem_of_slots. lia. }
  assert (Hs : StartSlot c = a * 32) by (apply epochToSlot_small; lia).
  assert (Hend : EndSlot c = b * 32) by (apply epochToSlot_small; lia).
  assert (Hw : WarmupStartSlot c = (a - we) * 32) by (apply epochToSlot_small; lia).
  split; [exists c; split; [done|lia]|]. intros Hwe H0. unfold expected_slots.
  apply list_elem_of_In, in_concat. exists (slots (record_start c) (EndSlot c)). split.
  - apply list_elem_of_In, list_elem_of_fmap. by exists c.
  - apply list_elem_of_In, elem_of_slots. split; [|lia]. unfold record_start. rewrite Hs, Hw, u64_add_small by u64_lia.
    destruct (N.ltb_spec (a * 32) ((a - we) * 32 + 1)); lia.
Qed.

(** Without warm-up the first slot of a chunk is not expected: here slot 320 of epochs 10 and 11. *)
Lemma first_slot_without_warmup :
  match Split 10 12 0 1 with Ok cs => expected_slots (filterActiveChunks cs) = slots 321 384 | _ => False end.
Proof. vm_compute. reflexivity. Qed.

(** ** Lemmas: the workers' results *)

Lemma runEngineWorkers_indices workers ends :
  wr_Index <$> runEngineWorkers workers ends = (fun w => Index (wi_Chunk w)) <$> workers.
Proof.
  revert ends. induction workers as [|w workers IH]; intros ends; [done|]. cbn [runEngineWorkers fmap list_fmap].
  destruct (wi_Skipped w); cbn; [by rewrite IH|]. f_equal; [by destruct (default _ _)|apply IH].
Qed.

Lemma existsb_false {A} (f : A -> bool) l : existsb f l = false <-> Forall (fun x => f x = false) l.
Proof.
  induction l as [|x l IH]; cbn; [split; [constructor|done]|].
  rewrite orb_false_iff, Forall_cons. by rewrite IH.
Qed.

Lemma success_all results i :
  Forall (fun r => wr_failed r = false) results -> i ∈ wr_Index <$> results -> successByIndex results !! i = Some true.
Proof.
  unfold successByIndex. intros Hall Hin.
  assert (H : forall (m : gmap Z bool), m !! i = Some true \/ i ∈ wr_Index <$> results ->
    foldl (fun m r => <[wr_Index r := negb (wr_failed r)]> m) m results !! i = Some true); [|by apply H; right].
  clear Hin. induction Hall as [|r results Hr Hall IH]; intros m [Hm|Hin]; cbn; [done|by apply elem_of_nil in Hin| |];
    apply IH; rewrite Hr; cbn [negb].
  - left. destruct (decide (wr_Index r = i)) as [<-|]; [by rewrite lookup_insert_eq|by rewrite lookup_insert_ne].
  - apply elem_of_cons in Hin as [->|Hin]; [left; by rewrite lookup_insert_eq|by right].
Qed.

(** When every worker has succeeded, every worker's output is merged. *)
Lemma collectMergePaths_all stat_fails files workers results paths :
  existsb wr_failed results = false -> wr_Index <$> results = (fun w => Index (wi_Chunk w)) <$> workers ->
  collectMergePaths stat_fails files workers results = Ok paths -> paths = OutputPath <$> workers.
Proof.
  intros Hok Hidx. unfold collectMergePaths.
  assert (Hs : forall w, w ∈ workers -> default false (successByIndex results !! Index (wi_Chunk w)) = true).
  { intros w Hw. rewrite success_all; [done|by apply existsb_false|]. rewrite Hidx. apply list_elem_of_fmap. by exists w. }
  clear Hidx. revert paths. induction workers as [|w workers IH]; intros paths; [by intros [= <-]|].
  cbn [fmap list_fmap]. destruct (stat_fails _); [done|].
  destruct (files !! OutputPath w).
  - intros (rest & Hrest & [= <-])%outcome_bind_Ok. f_equal. apply IH; [|done]. intros w' Hw'. apply Hs. by right.
  - by rewrite (Hs w) by left.
Qed.

(** ** Lemmas: what follows the merge *)

Lemma cleanup_keeps env dir files p :
  under dir p = false -> cleanupWorkerCache env dir files !! p = files !! p.
Proof.
  intros Hu. unfold cleanupWorkerCache. apply option_eq. intros x. rewrite map_lookup_filter_Some. cbn. naive_solver.
Qed.

Lemma output_sha_spec env path files sha data :
  output_sha env path files = Ok sha -> (path ≠ [] -> files !! path = Some data) ->
  sha = (if decide (path = []) then [] else SHA256Bytes data).
Proof.
  unfold output_sha. destruct (decide (path = [])); [by intros [= <-]|]. intros (d & Hd & ->)%SHA256File_spec Hp.
  rewrite Hp in Hd by done. by injection Hd as ->.
Qed.

Section run.
Context {E2 : Eth2} (decompress : bytes -> option bytes) {RC : Type} {RL : Lru N bytes RC}.
Context {CS : Type} {LS : Lru N blockInfo CS} {CR : Type} {LR : Lru bytes blockInfo CR} {FC : Type} {FL : Lru N firstSeenEpoch FC}.
Context {Y : Type} (h : host Y) (env : io_env) (stat_fails : bytes -> bool) (jitter : nat -> N) (iterate : gset N -> list N).
Context (url_parse : bytes -> option URL) (getenv : bytes -> bytes) (minio_new : bytes -> bool -> bool -> bool) (url_ok : bytes -> bool).
Context {T : Type} (s3 : bytes -> Store T) (lru_ok : Z -> bool) (parquet : bytes -> option (list firstSeenParquetRow)).
Context {Wd : Type} (era_http : bytes -> Wd -> http_answer * Wd).
Context {Wn : Type} (node_http : bytes -> bytes -> Wn -> http_answer * Wn).
Context {Wa : Type} (archive_http : Archive.request -> Wa -> http_answer * Wa).
Context (engines : bytes -> list (list bytes) -> world -> Y -> session (option (response backend_error))).
Abbreviation machine := (machine (Y := Y) (T := T) (Wd := Wd) (Wn := Wn) (Wa := Wa)).

(** The outputs of a run, none of which is a temporary file or lies in the workers' directory. *)
Definition outputs_apart (cfg : config) : Prop :=
  let paths := resolveOutputPaths (cfg_Output cfg) (cfg_OutputFormat cfg) in
  temps_fresh env [JSONL paths; CSV paths; ManifestPath paths]
  /\ forall p, p ∈ [JSONL paths; CSV paths; ManifestPath paths] -> under (workersDir cfg) p = false.

Definition run_meta (cfg : config) (em : EngineManifest) : OrchestratorMetadata :=
  mkMeta (em_EngineName em) (em_EngineVersion em) (em_EngineCommit em) (cfg_AttestationSourceMode cfg) (cfg_LookaheadCap cfg).

(** The manifest of a run with the given records. *)
Definition manifest_of (cfg : config) (em : EngineManifest) (era : world) (states : list CheckpointState) (records : list record)
    (m : RunManifest) : Prop :=
  let paths := resolveOutputPaths (cfg_Output cfg) (cfg_OutputFormat cfg) in
  rm_Engine m = em /\ CheckpointStates (rm_Inputs m) = states
  /\ CollectEraFiles env (DirFiles era) (cfg_EraURL cfg) = Ok (EraFiles (rm_Inputs m))
  /\ ResultsJSONLSHA256 (rm_Outputs m) = (if decide (JSONL paths = []) then [] else SHA256Bytes (jsonl_content records))
  /\ ResultsCSVSHA256 (rm_Outputs m) = (if decide (CSV paths = []) then [] else SHA256Bytes (csv_content records))
  /\ out_TotalSlots (rm_Outputs m) = N.of_nat (length records)
  /\ out_FastConfirmedCount (rm_Outputs m) = N.of_nat (length (filter (fun r => FastConfirmed r = true) records)).

(** The three files of a finished run. *)
Definition outputs_hold (cfg : config) (em : EngineManifest) (era : world) (states : list CheckpointState) (records : list record)
    (files : world) : Prop :=
  let paths := resolveOutputPaths (cfg_Output cfg) (cfg_OutputFormat cfg) in
  (JSONL paths ≠ [] \/ CSV paths ≠ [])
  /\ (JSONL paths ≠ [] -> files !! JSONL paths = Some (jsonl_content records))
  /\ (CSV paths ≠ [] -> files !! CSV paths = Some (csv_content records))
  /\ exists m, manifest_of cfg em era states records m
     /\ files !! ManifestPath paths = Some (encode_indented (JObject (manifest_members m))).

Lemma writeRunManifest_Ok cfg em states stats records (s s' : machine) u :
  outputs_apart cfg ->
  let paths := resolveOutputPaths (cfg_Output cfg) (cfg_OutputFormat cfg) in
  (JSONL paths ≠ [] -> m_files s !! JSONL paths = Some (jsonl_content records)) ->
  (CSV paths ≠ [] -> m_files s !! CSV paths = Some (csv_content records)) ->
  TotalSlots stats = N.of_nat (length records) ->
  FastConfirmedCount stats = N.of_nat (length (filter (fun r => FastConfirmed r = true) records)) ->
  JSONL paths ≠ [] \/ CSV paths ≠ [] ->
  writeRunManifest h env cfg em states paths stats s = (Ok u, s') ->
  outputs_hold cfg em (m_era s) states records (m_files s').
Proof.
  intros [Hfresh _] paths Hj Hc Ht Hf Hout. unfold writeRunManifest.
  destruct (CollectEraFiles _ _ _) as [eraFiles| |] eqn:Era; [|done..]. cbn [mbind outcome_mbind outcome_bind].
  destruct (output_sha _ (JSONL _) _) as [jsonlSHA| |] eqn:Ej; [|done..]. cbn [mbind outcome_mbind outcome_bind].
  destruct (output_sha _ (CSV _) _) as [csvSHA| |] eqn:Ec; [|done..]. cbn [mbind outcome_mbind outcome_bind].
  set (m := run_manifest _ _ _ _ _ _ _ _).
  destruct (Write env (ManifestPath paths) m (m_files s)) as [o files] eqn:Ew. intros Hrun.
  assert (o = Ok tt) as ->. { destruct o as [[]| |]; [done|discriminate Hrun..]. }
  injection Hrun as _ <-. destruct (resolveOutputPaths_distinct (cfg_Output cfg) (cfg_OutputFormat cfg)) as (_ & Hmj & Hmc).
  fold paths in Hmj, Hmc. assert (Htemp : forall q, q ∈ [JSONL paths; CSV paths; ManifestPath paths] -> q ≠ temp_name env (ManifestPath paths))
    by (intros q Hq ->; by apply (Hfresh (ManifestPath paths))).
  apply Write_Ok in Ew as [Hm Hframe]; [|apply not_eq_sym, Htemp; right; right; left].
  change (with_version m) with m in Hm. unfold outputs_hold. fold paths. cbn [with_files m_files]. split; [done|]. split; [|split].
  - intros Hne. rewrite Hframe; [by apply Hj|done|apply Htemp; left].
  - intros Hne. rewrite Hframe; [by apply Hc|done|apply Htemp; right; left].
  - exists m. split; [|exact Hm]. apply (output_sha_spec _ _ _ _ _ Ej) in Hj. apply (output_sha_spec _ _ _ _ _ Ec) in Hc.
    unfold manifest_of, m, run_manifest. fold paths.
    cbn [rm_Engine rm_Inputs rm_Outputs CheckpointStates EraFiles ResultsJSONLSHA256 ResultsCSVSHA256 out_TotalSlots out_FastConfirmedCount].
    do 6 (split; [first [reflexivity|assumption]|]). exact Hf.
Qed.

Lemma outputs_hold_frame cfg em era states records files files' :
  (forall p, under (workersDir cfg) p = false -> files' !! p = files !! p) -> outputs_apart cfg ->
  outputs_hold cfg em era states records files -> outputs_hold cfg em era states records files'.
Proof.
  intros Hf [_ Hu] (Hout & Hj & Hc & m & Hm & Hmf). unfold outputs_hold in *.
  assert (Hp : forall p, p ∈ [JSONL (resolveOutputPaths (cfg_Output cfg) (cfg_OutputFormat cfg));
    CSV (resolveOutputPaths (cfg_Output cfg) (cfg_OutputFormat cfg));
    ManifestPath (resolveOutputPaths (cfg_Output cfg) (cfg_OutputFormat cfg))] -> files' !! p = files !! p) by auto.
  split; [done|]. split; [intros; rewrite Hp by left; by apply Hj|]. split; [intros; rewrite Hp by (right; left); by apply Hc|].
  exists m. split; [done|]. rewrite Hp by (right; right; left). exact Hmf.
Qed.

(** What the worker files and the outputs are after a successful merge. *)
Definition merged (cfg : config) (em : EngineManifest) (active : list Chunk) (lookup : CanonicalRootLookup) (paths : list bytes)
    (worker_files : world) (records : list record) : Prop :=
  exists lists, Forall2 (worker_records env (run_meta cfg em) (Some lookup) worker_files) paths lists
  /\ records ≡ₚ concat lists /\ StronglySorted by_slot records
  /\ (forall slot, slot ∈ expected_slots active -> exists r, r ∈ records /\ Slot r = slot)
  /\ Forall (fun r => consistent r /\ stamped (run_meta cfg em) r) records.

(** The lookup the merge gets: over the slots of the run and the reader as serving left it. *)
Definition run_lookup (cfg : config) (active : list Chunk) (src : sources (RC := RC) (FC := FC) (T := T)) (lookup : CanonicalRootLookup) : Prop :=
  exists minSlot maxSlot, minWarmupSlot active = Some minSlot /\ maxEndSlot active = Some maxSlot
  /\ lookup = lookup_callback (BS := reader_source decompress) (LS := LS) (LR := LR) MainnetForkAtSlot
       (mkLookup minSlot (saturatingSlotAdd maxSlot (cfg_LookaheadCap cfg))) (newState (Some (src_reader src)) (cfg_DecodedBlockCacheSize cfg)).

Lemma merge_outputs_Ok cfg em active p results (src : sources (RC := RC) (FC := FC) (T := T)) (s s' : machine) code :
  outputs_apart cfg ->
  merge_outputs decompress (LS := LS) (LR := LR) h env stat_fails cfg em active p results src s = (Ok code, s') ->
  code = (if existsb wr_failed results then 1 else 0)%Z
  /\ exists paths lookup records,
    collectMergePaths stat_fails (m_files s) (p_infos p) results = Ok paths /\ run_lookup cfg active src lookup
    /\ merged cfg em active lookup paths (m_files s) records
    /\ outputs_hold cfg em (m_era s) (p_states p) records (m_files s').
Proof.
  clear lru_ok. intros Hap. unfold merge_outputs.
  destruct (collectMergePaths _ _ _ _) as [paths| |]; [|done..].
  destruct (minWarmupSlot active) as [minSlot|] eqn:Emin; [|done]. destruct (maxEndSlot active) as [maxSlot|] eqn:Emax; [|done].
  unfold st_lift, or_panic, mbind, stateM_bind, st_bind. cbv beta iota zeta.
  set (lookup := lookup_callback _ _ _).
  assert (Hlk : run_lookup cfg active src lookup) by (by exists minSlot, maxSlot). clearbody lookup.
  destruct (MergeAndWriteWithCanonical _ _ _ _ _ _ _ _) as [o files] eqn:Em. destruct o as [stats| |]; [|done..]. cbn [map_err].
  pose proof (resolveOutputPaths_distinct (cfg_Output cfg) (cfg_OutputFormat cfg)) as (Hd & _ & _).
  assert (Hout : JSONL (resolveOutputPaths (cfg_Output cfg) (cfg_OutputFormat cfg)) ≠ []
    \/ CSV (resolveOutputPaths (cfg_Output cfg) (cfg_OutputFormat cfg)) ≠ []).
  { unfold MergeAndWriteWithCanonical in Em. case_bool_decide as Hb; [done|].
    destruct (decide (JSONL (resolveOutputPaths (cfg_Output cfg) (cfg_OutputFormat cfg)) = [])); [right|by left]. naive_solver. }
  apply merge_success in Em as (lists & records & Hl & Hp & Hs & Hexp & Hr & Ht & Hf & _ & _ & Hc & Hj & _).
  2: { destruct Hap as [Hfresh _]. intros q Hq. apply (Hfresh q). apply elem_of_cons in Hq as [->|Hq]; [left|right].
       apply list_elem_of_singleton in Hq as ->. left. }
  destruct (writeRunManifest _ _ _ _ _ _ _ _) as [o s1] eqn:Ew. destruct o as [u| |]; [|done..].
  apply (writeRunManifest_Ok _ _ _ _ records) in Ew; [|done| |exact Hc|done|done|done].
  2: { intros Hne. apply Hj; [done|]. destruct Hd as [|Hd]; [done|]. by rewrite Hd. }
  assert (Hm : merged cfg em active lookup paths (m_files s) records) by (by exists lists).
  intros Hrun. destruct (negb (cfg_KeepCache cfg) && negb (existsb wr_failed results)).
  - injection Hrun as <- <-. split; [done|]. exists paths, lookup, records. do 3 (split; [done|]).
    eapply outputs_hold_frame; [|done|exact Ew]. intros q Hq. by apply cleanup_keeps.
  - injection Hrun as <- <-. split; [done|]. by exists paths, lookup, records.
Qed.

(** ** Lemmas: what preparation gives *)

Lemma prepareWorkers_Ok cfg bucket f chunks (s s' : machine) p :
  prepareWorkers h env jitter url_ok s3 node_http cfg bucket f chunks s = (Ok p, s') -> wi_Chunk <$> p_infos p = chunks.
Proof.
  unfold prepareWorkers. destruct (negb _); [done|].
  assert (H : forall p0 (s : machine), st_fold (prepare_worker env jitter url_ok s3 node_http cfg bucket f) p0 chunks s = (Ok p, s') ->
    wi_Chunk <$> p_infos p = (wi_Chunk <$> p_infos p0) ++ chunks); [|by apply H].
  induction chunks as [|c chunks IH]; intros p0 s0; cbn [st_fold].
  { intros [= <- _]. by rewrite app_nil_r. }
  intros (p1 & s1 & H1 & H2)%(st_bind_Ok (prepare_worker env jitter url_ok s3 node_http cfg bucket f p0 c)).
  assert (Hc : wi_Chunk <$> p_infos p1 = (wi_Chunk <$> p_infos p0) ++ [c]).
  { unfold prepare_worker in H1. apply st_bind_Ok in H1 as (_ & s2 & _ & H1). destruct (_ =? _).
    - apply st_bind_Ok in H1 as (_ & s3' & _ & [= <- _]). cbn. by rewrite fmap_app.
    - apply st_bind_Ok in H1 as (? & s3' & _ & H1). apply st_bind_Ok in H1 as (? & s4 & _ & H1).
      apply st_bind_Ok in H1 as (? & s5 & _ & [= <- _]). cbn. by rewrite fmap_app. }
  rewrite (IH _ _ H2), Hc, <- app_assoc. done.
Qed.

(** The engine is the one asked for, with the flags it needs. *)
Definition engine_valid (engine : bytes) (em : EngineManifest) : Prop :=
  em_EngineName em = engine /\ engine ≠ []
  /\ exists flags, BuildFlags em = Some flags /\ Forall (fun flag => flag ∈ flags) (default [] (RequiredBuildFlags engine)).

Lemma check_engine_Ok cfg (s s' : machine) em : check_engine h cfg s = (Ok em, s') -> engine_valid (cfg_Engine cfg) em /\ s' = s.
Proof.
  unfold check_engine, captureEngineManifest. destruct (h_manifest_json _ _ _) as [out|]; [|done].
  destruct (decode_engine_manifest out) as [m|]; [|done]. cbn [map_err mbind outcome_mbind outcome_bind].
  set (em' := mkEngineManifest _ _ _ _ _). unfold validateEngineManifest.
  destruct (decide (em_EngineName em' = [])) as [|Hne]; [done|]. case_bool_decide as He; [|done]. cbn [negb].
  destruct (find _ _) eqn:Ef; [done|]. intros [= <- <-]. split; [|done]. split; [done|]. split; [by rewrite <- He|].
  eexists. split; [reflexivity|]. apply Forall_forall. intros flag Hflag.
  pose proof (find_none _ _ Ef flag ltac:(by apply list_elem_of_In)) as Hx. cbn beta in Hx. apply negb_false_iff in Hx.
  unfold engineHasBuildFlag in Hx. apply existsb_exists in Hx as (g & Hg & <-%bool_decide_eq_true). by apply list_elem_of_In.
Qed.

Lemma split_chunks_Ok cfg chunks active :
  split_chunks cfg = Ok (chunks, active) ->
  Split (cfg_StartEpoch cfg) (cfg_EndEpoch cfg) (cfg_WarmupEpochs cfg) (cfg_Parallel cfg) = Ok chunks
  /\ chunks ≠ [] /\ active = filterActiveChunks chunks.
Proof.
  unfold split_chunks. destruct (Split _ _ _ _) as [cs|[]|]; cbn; [|done]. destruct (decide (cs = [])); [done|].
  destruct (decide (filterActiveChunks cs = [])); [done|]. by intros [= <- <-].
Qed.

(** Decompose a successful sequence of calls, one call at a time. *)
Ltac st_inv H := let a := fresh "a" in let s := fresh "s" in let Hc := fresh "Hc" in apply st_bind_Ok in H as (a & s & Hc & H).

Lemma prepare_run_Ok cfg (s s' : machine) r :
  prepare_run decompress (RC := RC) (FC := FC) (LS := LS) (LR := LR) h env stat_fails jitter iterate url_parse getenv minio_new url_ok s3 lru_ok parquet
    era_http node_http archive_http cfg s = (Ok r, s') ->
  engine_valid (cfg_Engine cfg) (rd_manifest r)
  /\ exists chunks, Split (cfg_StartEpoch cfg) (cfg_EndEpoch cfg) (cfg_WarmupEpochs cfg) (cfg_Parallel cfg) = Ok chunks
     /\ chunks ≠ [] /\ rd_active r = filterActiveChunks chunks /\ wi_Chunk <$> p_infos (rd_prepared r) = chunks.
Proof.
  unfold prepare_run. intros H. do 2 st_inv H. apply st_bind_Ok in H as (em & ? & Hem & H).
  apply st_bind_Ok in H as ([chunks active] & ? & Hsplit & H). cbn beta iota in H. do 9 st_inv H.
  apply st_bind_Ok in H as (p & ? & Hp & H). do 4 st_inv H. injection H as <- _.
  apply check_engine_Ok in Hem as [Hem _]. apply st_lift_Ok in Hsplit as [Hsplit _].
  apply split_chunks_Ok in Hsplit as (? & ? & ->). apply prepareWorkers_Ok in Hp. split; [done|]. by exists chunks.
Qed.
End run.

Lemma sorted_unique records r r' :
  StronglySorted by_slot records -> r ∈ records -> r' ∈ records -> Slot r' = Slot r -> r' = r.
Proof.
  induction 1 as [|x l Hl IH Hx]; [by intros ?%elem_of_nil|]. rewrite Forall_forall in Hx. unfold by_slot in Hx.
  intros [->|Hr]%elem_of_cons [->|Hr']%elem_of_cons He; [done| | |by apply IH]; [specialize (Hx _ Hr')|specialize (Hx _ Hr)]; lia.
Qed.

(** One record for the slot, and no other. *)
Definition one_record (records : list record) (slot : N) : Prop :=
  exists r, r ∈ records /\ Slot r = slot /\ forall r', r' ∈ records -> Slot r' = slot -> r' = r.

Section theorem.
Context {E2 : Eth2} (decompress : bytes -> option bytes) {RC : Type} {RL : Lru N bytes RC}.
Context {CS : Type} {LS : Lru N blockInfo CS} {CR : Type} {LR : Lru bytes blockInfo CR} {FC : Type} {FL : Lru N firstSeenEpoch FC}.
Context {Y : Type} (h : host Y) (env : io_env) (stat_fails : bytes -> bool) (jitter : nat -> N) (iterate : gset N -> list N).
Context (url_parse : bytes -> option URL) (getenv : bytes -> bytes) (minio_new : bytes -> bool -> bool -> bool) (url_ok : bytes -> bool).
Context {T : Type} (s3 : bytes -> Store T) (lru_ok : Z -> bool) (parquet : bytes -> option (list firstSeenParquetRow)).
Context {Wd : Type} (era_http : bytes -> Wd -> http_answer * Wd).
Context {Wn : Type} (node_http : bytes -> bytes -> Wn -> http_answer * Wn).
Context {Wa : Type} (archive_http : Archive.request -> Wa -> http_answer * Wa).
Context (engines : bytes -> list (list bytes) -> world -> Y -> session (option (response backend_error))).

Abbreviation mach := (machine (Y := Y) (T := T) (Wd := Wd) (Wn := Wn) (Wa := Wa)).

(** C40: exit code 0 of a full run.  Then the engine reported the name asked for and the
    build flags it needs; every worker's engine exited with status 0; the records of all
    workers' files, every line of which was accepted, are in the outputs, ordered by slot
    and stamped with the engine's version; with a warm-up of at least one epoch there is
    exactly one record for every slot of the requested epochs but slot 0; and at least one
    output is asked for, the outputs hold these records, and the manifest beside them
    carries the engine's identity, the checkpoint states, the ERA files, the SHA-256 of
    each output and the counts. *)
Theorem run_complete cfg (s s' : mach) :
  cfg_PrepOnly cfg = false -> cfg_EndEpoch cfg <= MaxUint64 / 32 -> outputs_apart env cfg ->
  execute decompress (RC := RC) (FC := FC) (LS := LS) (LR := LR) h env stat_fails jitter iterate url_parse getenv minio_new url_ok
    s3 lru_ok parquet era_http node_http archive_http engines cfg s = (Ok 0%Z, s') ->
  exists em states infos results start src src' bucket f (s1 s2 : mach) lookup records,
    engine_valid (cfg_Engine cfg) em
    /\ run_engines decompress (RC := RC) (FC := FC) (LS := LS) (LR := LR) env stat_fails jitter url_ok s3 parquet node_http archive_http engines
         cfg bucket f start infos src s1 = (Ok (results, src'), s2)
    /\ wr_Index <$> results = (fun i => Z.of_N i) <$> slots 0 (Z.to_N (cfg_Parallel cfg))
    /\ Forall (fun r => wr_failed r = false) results
    /\ run_lookup decompress (LS := LS) (LR := LR) cfg (filterActiveChunks (wi_Chunk <$> infos)) src' lookup
    /\ merged env cfg em (filterActiveChunks (wi_Chunk <$> infos)) lookup (OutputPath <$> infos) (m_files s2) records
    /\ (0 < cfg_WarmupEpochs cfg -> forall slot, 32 * cfg_StartEpoch cfg <= slot < 32 * cfg_EndEpoch cfg -> slot ≠ 0 ->
        one_record records slot)
    /\ outputs_hold env cfg em (m_era s2) states records (m_files s').
Proof.
  intros Hprep Hmax Hap H. unfold execute in H.
  apply st_bind_Ok in H as (r & s1 & Hr & H). apply prepare_run_Ok in Hr as (Hem & chunks & HS & Hne & Hact & Hinfos).
  rewrite Hprep in H. apply st_bind_Ok in H as (start & s2 & Hstart & H). apply st_bind_Ok in H as ([results src'] & s3' & Hrun & H).
  cbn [fst snd] in H. apply merge_outputs_Ok in H as (Hcode & paths & lookup & records & Hp & Hlk & Hm & Hout); [|done].
  destruct (existsb wr_failed results) eqn:Hf; [done|].
  assert (Hidx : wr_Index <$> results = (fun w => Index (wi_Chunk w)) <$> p_infos (rd_prepared r)).
  { unfold run_engines in Hrun. destruct (run_session _ _) as [[ends files] b]. injection Hrun as <- _ _. apply runEngineWorkers_indices. }
  apply collectMergePaths_all in Hp; [|done|done]. subst paths.
  exists (rd_manifest r), (p_states (rd_prepared r)), (p_infos (rd_prepared r)), results, start, (rd_sources r), src', (rd_bucket r),
    (rd_fetcher r), s2, s3', lookup, records.
  rewrite Hact in Hm, Hlk. rewrite Hinfos. split; [done|]. split; [done|].
  split; [|split; [by apply existsb_false|]; split; [done|]; split; [done|]; split; [|done]].
  - rewrite Hidx. destruct (Split_chunks _ _ _ _ _ HS Hne ltac:(u64_lia)) as (_ & _ & Hcs).
    transitivity (Index <$> (wi_Chunk <$> p_infos (rd_prepared r))); [by rewrite <- list_fmap_compose|].
    rewrite Hinfos, Hcs, <- list_fmap_compose. by apply list_fmap_ext.
  - intros Hw slot Hslot H0. destruct (expected_slots_cover _ _ _ _ _ slot HS Hne Hmax Hslot) as [_ Hcov].
    destruct Hm as (_ & _ & _ & Hs & Hexp & _). destruct (Hexp slot (Hcov Hw H0)) as (x & Hx & <-). exists x.
    split; [done|]. split; [done|]. intros. by eapply sorted_unique.
Qed.
End theorem.

(** ** A sample run: epoch 2, one worker, warmed up from epoch 1 *)

Definition sample_manifest : EngineManifest :=
  mkEngineManifest (str "teku") (str "1.0") (str "abc") (Some [str "fake_crypto"]) (str "spec").
Definition sample_host : host unit := mkHost unit (Found (str "/work")) (fun _ _ => Found true) (fun _ => Failed)
  (fun _ _ => (false, tt)) (fun _ _ => Some (encode_indented (engine_json sample_manifest))) (fun _ => true)
  (fun _ => Some (TCPAddr [x7f; x00; x00; x01] 5052)) None (str "dev") (str "2025-01-01T00:00:00Z").

Definition sample_run_config : config :=
  mkCfg (str "teku") (str "/bin/fcr-teku") engineBinarySourceFlag (str "mainnet") 2 3 1 1 (str "http://node") (str "http://era") (str "/cache")
    (str "/out/r.csv") (str "csv") 25 (str "strict-source-block-k-minus-1") [] 12000 0 (str "127.0.0.1:0") [] 16 [] [] true false false.

(** The engine asks for the genesis data and writes a record per slot; it has seen no blocks. *)
Definition sample_output : bytes := concat ((fun slot => sample_line slot [] ++ [x0a]) <$> slots 64 96).
Definition sample_engines (binary : bytes) (args : list (list bytes)) (files : world) (_ : unit) : session (option (response backend_error)) :=
  Asks (mkRequest (str "GET") genesisPath [] [])
    (fun reply => match reply with
                  | Some resp => if (Status resp =? 200)%Z then Finished [RunOk] (<[str "/cache/workers/worker-0.jsonl" := sample_output]> files)
                                 else Finished [RunExit 1] files
                  | None => Finished [RunExit 2] files
                  end).

Definition sample_run_node (url accept : bytes) (n : N) : http_answer * N :=
  (if has_prefix url (str "http://node/eth/v1/beacon/headers") then HttpResponse 200 sample_header_body else HttpResponse 200 url, n + 1).

Definition sample_machine : machine (Y := unit) (T := gmap bytes bytes) (Wd := unit) (Wn := N) (Wa := unit) :=
  mkMachine tt ∅ ∅ tt (default ∅ toy_dir) None [] 0 ∅ [] (mkAS tt ∅ [] zero_stats) ∅ ∅.

Definition sample_execute (cfg : config) :=
  execute (E2 := toy_eth2) plain (RC := list (N * bytes)) (RL := lru_list 64) (LS := toy_bySlot) (LR := toy_byRoot) (FC := list (N * firstSeenEpoch))
    (FL := lru_list 64) sample_host Merge.sample_env (fun _ => false) (fun _ => 7) elements sample_url_parse sample_getenv
    (fun _ _ _ => true) (fun _ => true) (fun _ => sample_store) (fun _ => true) (fun _ => None) (fun _ w => (HttpError, w)) sample_run_node
    (fun _ w => (HttpError, w)) sample_engines cfg sample_machine.

Lemma sample_outputs_apart : outputs_apart Merge.sample_env sample_run_config.
Proof.
  unfold outputs_apart. set (paths := resolveOutputPaths _ _).
  assert (paths = mkPaths [] (str "/out/r.csv") (str "/out/r.manifest.json")) as -> by (vm_compute; reflexivity). cbn [JSONL CSV ManifestPath].
  split.
  - intros p Hp. repeat (apply elem_of_cons in Hp as [Hp|Hp]; [discriminate Hp|]). by apply elem_of_nil in Hp.
  - intros p Hp. repeat (apply elem_of_cons in Hp as [->|Hp]; [vm_compute; reflexivity|]). by apply elem_of_nil in Hp.
Qed.

Lemma run_complete_witness :
  fst (sample_execute sample_run_config) = Ok 0%Z
  /\ exists records, (forall slot, 64 <= slot < 96 -> one_record records slot)
     /\ m_files (snd (sample_execute sample_run_config)) !! str "/out/r.csv" = Some (csv_content records)
     /\ is_Some (m_files (snd (sample_execute sample_run_config)) !! str "/out/r.manifest.json").
Proof.
  assert (Hok : fst (sample_execute sample_run_config) = Ok 0%Z) by (vm_compute; reflexivity). split; [exact Hok|].
  assert (Hpaths : resolveOutputPaths (cfg_Output sample_run_config) (cfg_OutputFormat sample_run_config)
    = mkPaths [] (str "/out/r.csv") (str "/out/r.manifest.json")) by (vm_compute; reflexivity).
  destruct (sample_execute sample_run_config) as [o s'] eqn:E. cbn [fst snd] in *. subst o. unfold sample_execute in E.
  destruct (run_complete (E2 := toy_eth2) plain (RC := list (N * bytes)) (RL := lru_list 64) (LS := toy_bySlot) (LR := toy_byRoot)
    (FC := list (N * firstSeenEpoch)) (FL := lru_list 64) sample_host Merge.sample_env (fun _ => false) (fun _ => 7) elements sample_url_parse
    sample_getenv (fun _ _ _ => true) (fun _ => true) (fun _ => sample_store) (fun _ => true) (fun _ => None) (fun _ w => (HttpError, w))
    sample_run_node (fun _ w => (HttpError, w)) sample_engines sample_run_config sample_machine s' eq_refl
    ltac:(vm_compute; discriminate) sample_outputs_apart E)
    as (em & states & infos & results & start & src & src' & bucket & f & s1 & s2 & lookup & records & _ & _ & _ & _ & _ & _ & Hone & Hout).
  exists records. unfold outputs_hold in Hout. rewrite Hpaths in Hout. cbn [JSONL CSV ManifestPath] in Hout.
  destruct Hout as (_ & _ & Hcsv & m & _ & Hman). split; [|split; [by apply Hcsv|by eexists]].
  intros slot Hslot. change (0 < 1 -> forall slot, 32 * 2 <= slot < 32 * 3 -> slot ≠ 0 -> one_record records slot) in Hone. clear -Hone Hslot.
  apply Hone; lia.
Defined.
